(* ===== verification/_CoqProject ===== *)
-Q . S2P
Prelude.v
Ring.v
BufPool.v
WriteBuf.v
WriteBufStream.v
TcpSend.v
BufRing.v
ReadBuf.v
TcpRecv.v
Awaiter.v
MsghdrPool.v
UdpSend.v
TcpChannel.v
TcpLifecycle.v
TcpWrites.v
UdpRecv.v
MpscQueue.v
Timestamp.v
Logger.v
LogFront.v
LoggerInv.v
LoggerProps.v
LoggerShutdown.v
IpAddress.v
Socket.v
IoRing.v
IoThread.v
TcpWorker.v
Server.v
Startup.v
TcpEcho.v
TcpMemory.v
UdpThread.v
UdpWorker.v
Shutdown.v
Requests.v
Resources.v
EchoMain.v
ConnScale.v
Bench.v
