(* ===== verification/Prelude.v ===== *)
(** * uring-proactor: a verification development

    uring-proactor is a C++ proactor over io_uring.  A server ([Server],
    [TcpServer], [UdpServer]) starts worker threads; each worker owns a ring, a
    pool of send blocks ([BufPool]), a ring of receive buffers lent to the
    kernel ([BufRing]) and its connections.  A connection has a read and a write
    coroutine that suspend on tokens; the event loop completes the tokens, and
    the coroutines move bytes between the kernel, the buffers and the callbacks
    of the server.  All threads log through one [Logger], whose own thread
    writes the files.

    ** The files

    - Prelude: the result monad with its faults, machine integers, arrays and
      flat memory, loops, shared lemmas and tactics.
    - Ring: the representation all queues share, an array with two wrapping
      counters, and the list it stands for.
    - BufPool: include/buffer/buf_pool.hpp, src/buffer/buf_pool.cpp.
    - WriteBuf, WriteBufStream: [WriteBufBase] and [WriteBufStream] of
      buffer.hpp and src/buffer/buffer.cpp.
    - TcpSend: runs of many [WriteBufStream]s over one pool.
    - BufRing: buf_ring.hpp, src/core/buf_ring.cpp over an interface for
      liburing's provided-buffer rings.
    - ReadBuf: [ReadBufBase] and [ReadBufStream] of buffer.hpp, buffer.cpp.
    - TcpRecv: runs of kernel, read loops and applications over one BufRing.
    - Awaiter: include/core/awaiter.hpp, src/core/awaiter.cpp.
    - MsghdrPool: msghdr_pool.hpp, src/buffer/msghdr_pool.cpp.
    - UdpSend: [WriteBufDgram], [UdpChannel::submit], [udp_write_loop] and
      [MsgToken::complete].
    - TcpChannel: [TcpChannel], [TcpChannelPool], [tcp_read_loop],
      [tcp_write_loop], [accept_loop], [TcpThread], one iteration of
      [IoThread::run_loop], and [TcpEchoServer].
    - TcpLifecycle, TcpWrites: theorems about TcpChannel.
    - UdpRecv: [ReadBufDgram], [DgramMsg], [udp_read_loop], [UdpEchoServer].
    - MpscQueue: include/util/mpsc_queue.hpp.
    - Timestamp: timestamp.hpp, src/util/timestamp.cpp.
    - Logger: log.hpp and src/util/log.cpp, that is [Logger::log],
      [Logger::append], [~ThreadFlushGuard], [~Logger] and [backend_loop] with
      [submit_buf], [handle_cqe] and [switch_log_file_date].
    - LogFront: [log_error] to [log_debug] and the macros [LOG_ERROR] to
      [LOG_DEBUG] of log.hpp, for one thread.
    - LoggerInv: the invariant of Logger and that every step keeps it.
    - LoggerProps, LoggerShutdown: theorems about Logger.
    - IpAddress: ip_address.hpp, src/net/ip_address.cpp.
    - Socket: socket.hpp, src/net/socket.cpp and the set-up of the accept loop
      (src/net/acceptor.cpp) as programs over system calls.
    - IoRing: io_ring.hpp, src/core/io_ring.cpp: [Sqe], [Cqe] and [IoRing].
    - IoThread: [IoThread::run_loop], [IoThread::on_stop] and
      [TcpThread::on_stop] over an interface for tokens and hooks.
    - TcpWorker, UdpWorker: the event loop of IoThread with the coroutines of
      TcpChannel and of UdpSend and UdpRecv, and the invariant of a TCP worker.
    - Server: src/net/server.cpp, the checks of server.hpp, the command line of
      benchmarks/echo_server.cpp.
    - Startup: [IoThread::start_thread], [bind_to_cpu] and the loop of
      [TcpServer::start] as a step relation.
    - TcpEcho: a worker of the TCP echo server with its kernel, end to end.
    - TcpMemory: who owns which block and buffer in that system.
    - UdpThread: src/core/udp_thread.cpp, construction and [assign] of
      [UdpChannel].
    - Shutdown: the destructor of a worker against its running thread:
      [~IoThread], the members destroyed before and after it, the stop callback.
    - Requests: every operation the program prepares, and what the kernel reads.
    - Resources: what constructors acquire and destructors release: the arrays
      of the buffer classes, rings, descriptors and coroutine frames;
      [ChannelHandler] of include/net/handler.hpp, [Acceptor], [GetPromise],
      and the members of both workers in their order.
    - EchoMain: the constructors of include/net/server.hpp and
      src/net/server.cpp, and main of benchmarks/echo_server.cpp with its
      workers and signals.
    - ConnScale: benchmarks/connection_scale.cpp.
    - Bench: benchmarks/bench.cpp.

    ** How code and model correspond

    A C++ class is a record with the fields of the class, prefixed ([bp_],
    [wb_], [ws_], ...); a method [Class::op] is the function [Class_op] from the
    object, and the objects it changes, to a [result].  A result is a value or
    a fault: an access outside an array, a failing assert, signed overflow, an
    exception that leaves the function, and so on; so a theorem that an
    operation returns [Ok] excludes all of them.  Machine integers are [Z] with
    the wrap-around of their type written out ([u32], [u64], [i32]; [int_of]
    faults).  Allocations are lists with checked access, memory behind
    pointers is a flat list of bytes and a pointer is its offset; the
    indeterminate contents of new arrays are arguments (named [j...], [junk]).

    A coroutine is its suspension point; resuming it is a function that runs
    to the next one.  Application callbacks are arbitrary programs over the
    channel interface ([app], [uapp]), which see and change their own channel;
    the theorems hold for every server made of such callbacks.
    Threads that share memory ([MPSCQueue], [TimestampCache], [Logger], the
    event loop of a worker) have a program counter and take one access per
    step; a run is a list of events that says who steps, so that a theorem about
    all runs covers every interleaving.  Histories in the state (what was
    accepted, handed over, posted, delivered) are written but never read by the
    code and state what happened.  Files of the logger are lists of bytes that
    the kernel changes when it executes a write.

    Code outside the repository is a parameter: the provided-buffer rings, the
    recvmsg layout and the submission entries of liburing are the classes
    [BufRingLib], [RecvmsgLib] and [SqeLib], whose documented behaviour is
    [BufRingLaws], [RecvmsgLaws] and [SqeLaws]; instances made of lists show
    that the laws can hold.  The results of libnuma, sched_getaffinity,
    sched_setaffinity and hardware_concurrency are arguments; the system calls
    of a socket are answered by an arbitrary function of the calls before;
    clocks, dates, the outcome of [open] and of [io_uring_submit] are
    part of the events; the text of a second is a function.  The event loop
    calls virtual methods; they are the class [ThreadOps] with [ThreadLaws].
    The benchmark clients run over the classes [World] and [Net] of the system
    calls they use, which thread the state of kernel, network and clock; what
    is documented of the calls is [WorldLaws], [NetLaws] and [EchoLaws], and an
    echo server is an instance of each.  The size of a coroutine frame is an
    argument.

    ** What the theorems show

    - End to end: the TCP echo server, from any accepted command line (with two
      queue entries or more, and without --sqpoll) through any run of its network
      and event loop without errors, ends of streams and missing buffers, sends
      back what it receives ([tcp_echo_end_to_end]); in every state of these runs
      each block and buffer has exactly one owner and every field a value of its
      type.
    - Buffers: the pool hands out and takes back blocks as a free list does;
      [append] and [prepend] are exact and all-or-nothing; [reset] gives every
      block back; [submit] of a datagram is transactional.
    - Streams: whatever the interleaving, TCP transmission is a reliable byte
      stream per connection, TCP reception a byte queue per connection, and UDP
      transmission delivers exactly the submitted datagrams, if the submission
      queue has an entry for every message header.  The UDP echo server answers
      as many datagrams of a batch as there are blocks and headers, from the
      first one on.  The kernel reads
      the memory only at completion, so this includes that no block in use is
      written.  Each is a refinement of a specification without buffers.
    - Coroutines: no wake-up is lost, at most one write per connection is in
      flight in every reachable state, the write coroutine is never resumed
      while it runs and always reaches a suspension point.
    - Lifecycle: when a channel returns to its pool, and when it does not.
    - Queue: [MPSCQueue] is FIFO and free of data races under every
      interleaving and refines a bounded list.
    - Event loop: every completion is delivered to its token once and in order,
      and with the TCP coroutines in it a connection has at most one write
      prepared, in the kernel or completed.  Every operation is read by the
      kernel as it was meant, whatever the entry held before.
    - Logger: with at most 64 threads nothing faults, every thread's lines reach
      the backend in order and the files are the concatenation of the buffers,
      but for what short or failed writes left out;
      once [~Logger] joins, backend and destructor end in a bounded number of
      steps.  The macros log exactly the enabled messages.  The time strings
      are never torn while one thread updates them, but can be empty before the
      first update.
    - Addresses: bytes and text of an [IpAddress] can be read back, and equality
      is equality of the text.
    - Start-up: workers are placed on different CPUs, [start] ends in a bounded
      number of steps with every worker initialised, a socket is set up
      completely or the program ends, and an accepted command line starts a TCP
      and a UDP worker without a fault; the UDP worker then answers what
      arrives.
    - Shutdown: the stop is requested after the derived class is gone, so its
      [on_stop] never runs; an idle worker is joined when it polls and never
      when it waits; a completion in between resumes a destroyed coroutine.
    - Ownership: a handle of a coroutine has one owner; a destroyed UDP worker
      has given back exactly what it acquired, a destroyed TCP worker everything
      but the accept coroutine with its socket and connections left open, unless
      a channel was assigned while one of its coroutines was alive.
    - The program: main ends only by a signal, destroys the UDP before the TCP
      server and returns 0 only when every worker is joined; while a worker is
      idle it does not return.
    - Clients: the connection benchmark ends, counts every connection once,
      closes every socket once, and its exit code says whether every payload
      came back; the figures of the load generator are those of what it sent
      and received, and its TCP part ends if no call on its sockets blocks for
      ever.
    - Limits: where the code departs from what it means to do, a theorem shows
      the exact condition (counters that wrap, a full submission queue, the
      in-flight count of multishot receives, capacity one, unbounded sizes, a
      submission queue of one entry, more permits than the semaphore may hold, a
      completion the logger's backend does not wait for, a failed [listen], two
      threads updating the time).

    ** Bounds and fuel

    Loops over queues recurse on the number of elements or on a fuel computed
    from the data, and the theorems prove that it is enough: a result [Ok]
    excludes [OutOfFuel].  [write_fuel] is four rounds of the write loop, and
    [write_loop_suspends] proves that two are enough.  [enqueue_alone] and
    [dequeue_alone] get one unit per access.  The receive theorems are bounded
    by [2^32] events because the code's counters have 32 bits, and the queue
    theorems by [2^63] items because positions are compared as signed; the
    lifetime of the transmit counters, 64 bits that wrap, is not bounded.  The
    end-to-end theorems take fewer than [2^29] commands, because each adds at
    most four to the 31-bit in-flight count, and rounds for which the submission
    queue has two entries per completion; that and the other conditions on the
    commands are the hypothesis [all_possible].  Starting takes at most eight steps
    for each worker and one more.  The logger theorems take the buffer size as
    an argument from one line (320 bytes) up to [2^32], and runs of less than
    [2^62] events, so that queue positions stay in range; 6420 rounds are twenty
    for each of at most five stages of 64 buffers and the rest of the loop.
    The loops of the clients wait for a deadline: [rounds] and
    [udp_bench_bound] allow one round per tick of the clock, and every round
    has a call that takes time.  The UDP figures are for a clock that does not
    reach [2^63] nanoseconds.

    ** What is not modelled

    [NonCopyable] deletes the copy operations and has no behaviour.  Printing
    and [std::format] produce text the program does not read again; of the
    echo server the lines it prints are recorded without their wording.  Of
    the load generator the rates, averages and percentages are left out, which
    are floating-point numbers computed for the output, and so are the tables
    of its sweeps; of the connection benchmark the times and rates.  Options of
    the client sockets have no effect in the model, and allocations succeed.
    Memory is sequentially consistent.  The semaphore of the logger counts
    without an upper bound, and a call of its queue is one step.  In TcpEcho.v the
    peers neither close nor fail; TcpLifecycle.v treats those cases.  There the
    kernel takes all entries when they are submitted, which it need not do with
    SQPOLL; in IoThread.v and TcpWorker.v it takes as many as it likes.  A
    callback of a server has no state of its own and uses only its channel.
    Building a coroutine in the frame of a live one ends a run of the model with
    [FrameOverwritten], where the program goes on.  In EchoMain.v starting the
    workers of a server is one step of main; Startup.v has its single steps.  The clock
    of the load generator moves only in other calls than those that read it. *)
From stdpp Require Export base numbers list list_numbers option sets.
From Stdlib Require Export Init.Byte.
From Stdlib Require Strings.Byte.
#[global] Open Scope Z_scope.

(** ** Faults and results

    A C++ call either returns, or it stops in one of the ways below.  The
    asserts of the source are active in a debug build only, so a theorem that
    an operation returns [Ok] speaks for the debug and the release build. *)
Inductive fault :=
| OutOfBounds        (* an array or heap access outside its allocation *)
| AssertionFailed    (* a failing assert(...) *)
| SignedOverflow     (* int arithmetic leaving [-2^31, 2^31) *)
| NullDereference    (* a null pointer followed *)
| InvalidPointer     (* a pointer to no object followed *)
| Exception          (* a C++ exception leaves the function *)
| SystemError (code : Z)   (* a std::system_error leaves the function *)
| FrameOverwritten   (* a coroutine is built in the frame of a live one *)
| ResumedRunning     (* a coroutine is resumed while it runs *)
| Blocked            (* a system call that never returns *)
| OutOfFuel.         (* the bound given to a loop of the model is used up *)

#[export] Instance fault_eq_dec : EqDecision fault.
Proof. solve_decision. Defined.
#[export] Instance byte_eq_dec : EqDecision byte := Strings.Byte.byte_eq_dec.

Inductive result (A : Type) :=
| Ok (a : A)
| Fault (f : fault).
Arguments Ok {A} a.
Arguments Fault {A} f.

#[export] Instance result_ret : MRet result := fun A a => Ok a.
#[export] Instance result_bind : MBind result := fun A B k m =>
  match m with Ok a => k a | Fault f => Fault f end.

(** [assert(b)]. *)
Definition assert_ (b : bool) : result unit :=
  if b then Ok tt else Fault AssertionFailed.

Lemma bind_Ok {A B} (a : A) (k : A → result B) : (Ok a ≫= k) = k a.
Proof. reflexivity. Qed.

(** ** Machine integers *)
Definition u8 (x : Z) : Z := x mod 2 ^ 8.
Definition u16 (x : Z) : Z := x mod 2 ^ 16.
Definition u32 (x : Z) : Z := x mod 2 ^ 32.
Definition u64 (x : Z) : Z := x mod 2 ^ 64.

(** Reading the low 32 bits as a two's complement [int]. *)
Definition i32 (x : Z) : Z :=
  let y := x mod 2 ^ 32 in if y <? 2 ^ 31 then y else y - 2 ^ 32.
Definition i64 (x : Z) : Z :=
  let y := x mod 2 ^ 64 in if y <? 2 ^ 63 then y else y - 2 ^ 64.

(** [int] arithmetic: overflow is undefined behaviour. *)
Definition int_of (x : Z) : result Z :=
  if (- 2 ^ 31 <=? x) && (x <? 2 ^ 31) then Ok x else Fault SignedOverflow.

(** The power-of-two test of the source, [n > 0 && (n & (n - 1)) == 0]. *)
Definition pow2_test (n : Z) : bool := (0 <? n) && (Z.land n (n - 1) =? 0).

(** ** Arrays indexed by machine integers *)
Definition arr_get {A} (l : list A) (i : Z) : result A :=
  if i <? 0 then Fault OutOfBounds else
  match l !! Z.to_nat i with Some x => Ok x | None => Fault OutOfBounds end.

Definition arr_set {A} (l : list A) (i : Z) (x : A) : result (list A) :=
  if (0 <=? i) && (i <? Z.of_nat (length l))
  then Ok (<[Z.to_nat i := x]> l) else Fault OutOfBounds.

(** [new T[n]] with the indeterminate contents given by [junk]. *)
Definition new_array {A} (n : Z) (junk : nat → A) : list A :=
  junk <$> seq 0 (Z.to_nat n).

(** A counted [for] loop whose body may fault. *)
Fixpoint for_up {S : Type} (n : nat) (i : Z) (body : Z → S → result S) (s : S) : result S :=
  match n with
  | O => Ok s
  | Datatypes.S n' => s' ← body i s; for_up n' (i + 1) body s'
  end.

(** ** Byte memory: one heap block, addressed by offset *)
Definition mem_read (m : list byte) (off n : Z) : list byte :=
  take (Z.to_nat n) (drop (Z.to_nat off) m).

Definition mem_write (m : list byte) (off : Z) (d : list byte) : result (list byte) :=
  if (0 <=? off) && (off + Z.of_nat (length d) <=? Z.of_nat (length m))
  then Ok (take (Z.to_nat off) m ++ d ++ drop (Z.to_nat off + length d) m)
  else Fault OutOfBounds.

(** ** Automation *)
Create HintDb uring.
Create Rewrite HintDb uring.
#[export] Hint Rewrite @length_app @length_insert @length_fmap @length_seq
  @length_take @length_drop @length_replicate : uring.

Ltac len := autorewrite with uring in *; simpl in *; try lia.

(** Split a conjunction or an existential in the hypotheses. *)
Ltac decompose_ex :=
  repeat match goal with
  | H : ∃ _, _ |- _ => destruct H
  | H : _ ∧ _ |- _ => destruct H
  end.

(** Go past a returned [Ok] without unfolding the rest of the function. *)
Ltac step := cbn [mbind result_bind fst snd negb andb orb assert_].

(** Membership in concatenations of lists. *)
Ltac elt :=
  repeat (progress (rewrite ?elem_of_app, ?list_elem_of_singleton, ?elem_of_cons, ?elem_of_nil in *)); tauto.

(** Turn boolean tests of the code into propositions. *)
Ltac bools :=
  repeat match goal with
  | H : (_ && _) = true |- _ => apply andb_true_iff in H as [? ?]
  | H : (_ || _) = false |- _ => apply orb_false_iff in H as [? ?]
  | H : negb _ = true |- _ => apply negb_true_iff in H
  | H : negb _ = false |- _ => apply negb_false_iff in H
  | H : (_ <? _) = true |- _ => apply Z.ltb_lt in H
  | H : (_ <? _) = false |- _ => apply Z.ltb_ge in H
  | H : (_ <=? _) = true |- _ => apply Z.leb_le in H
  | H : (_ <=? _) = false |- _ => apply Z.leb_gt in H
  | H : (_ =? _) = true |- _ => apply Z.eqb_eq in H
  | H : (_ =? _) = false |- _ => apply Z.eqb_neq in H
  end.

(** Case analysis on the first boolean test of the goal, as propositions. *)
Ltac case_test :=
  match goal with
  | |- context [if ?b then _ else _] => destruct b eqn:?; bools
  end.

(** ** Integer lemmas *)
Lemma u16_small x : 0 ≤ x < 2 ^ 16 → u16 x = x.
Proof. intros. by apply Z.mod_small. Qed.
Lemma u32_small x : 0 ≤ x < 2 ^ 32 → u32 x = x.
Proof. intros. by apply Z.mod_small. Qed.
Lemma u64_small x : 0 ≤ x < 2 ^ 64 → u64 x = x.
Proof. intros. by apply Z.mod_small. Qed.
Lemma i32_small x : 0 ≤ x < 2 ^ 31 → i32 x = x.
Proof. intros. unfold i32. rewrite Z.mod_small by lia. by rewrite (proj2 (Z.ltb_lt _ _)) by lia. Qed.
Lemma u8_range x : 0 ≤ u8 x < 2 ^ 8.
Proof. apply Z.mod_pos_bound. lia. Qed.
Lemma u16_range x : 0 ≤ u16 x < 2 ^ 16.
Proof. apply Z.mod_pos_bound. lia. Qed.
Lemma u32_range x : 0 ≤ u32 x < 2 ^ 32.
Proof. apply Z.mod_pos_bound. lia. Qed.
Lemma u64_range x : 0 ≤ u64 x < 2 ^ 64.
Proof. apply Z.mod_pos_bound. lia. Qed.
Lemma int_of_ok x : - 2 ^ 31 ≤ x < 2 ^ 31 → int_of x = Ok x.
Proof.
  intros. unfold int_of.
  rewrite (proj2 (Z.leb_le _ _)) by lia. rewrite (proj2 (Z.ltb_lt _ _)) by lia. done.
Qed.
(** A wrapping counter moved by less than a lap is a different counter. *)
Lemma u64_sub_ne t d : 0 ≤ t < 2 ^ 64 → 0 < d < 2 ^ 64 → u64 (t - d) ≠ t.
Proof.
  intros Ht Hd E. unfold u64 in E. destruct (decide (d ≤ t)).
  - rewrite Z.mod_small in E by lia. lia.
  - rewrite <- (Z.mod_add _ 1), Z.mod_small in E by lia. lia.
Qed.
#[export] Hint Resolve u32_range u64_range : uring.

Lemma land_mask k c : 0 ≤ k → Z.land c (2 ^ k - 1) = c mod 2 ^ k.
Proof.
  intros. rewrite <- Z.land_ones by done. f_equal. rewrite Z.ones_equiv. lia.
Qed.

Lemma mod_mod_pow2 c j k : 0 ≤ j ≤ k → (c mod 2 ^ k) mod 2 ^ j = c mod 2 ^ j.
Proof.
  intros. apply Z.mod_mod_divide.
  exists (2 ^ (k - j)). rewrite <- Z.pow_add_r by lia. f_equal. lia.
Qed.

Lemma land_mask_wrap w k c :
  0 ≤ k ≤ w → Z.land (c mod 2 ^ w) (2 ^ k - 1) = Z.land c (2 ^ k - 1).
Proof. intros. rewrite !land_mask by lia. by apply mod_mod_pow2. Qed.

(** The source's test accepts exactly the powers of two. *)
Lemma pow2_test_spec n : pow2_test n = true ↔ ∃ k, 0 ≤ k ∧ n = 2 ^ k.
Proof.
  unfold pow2_test. split.
  - intros H. bools. exists (Z.log2 n). split; [apply Z.log2_nonneg|].
    destruct (Z.log2_spec n ltac:(lia)) as [Hlo Hhi].
    destruct (decide (n = 2 ^ Z.log2 n)) as [|Hne]; [done|]. exfalso.
    assert (Hb : Z.testbit (Z.land n (n - 1)) (Z.log2 n) = true).
    { rewrite Z.land_spec, Z.bit_log2 by lia. simpl.
      assert (Z.log2 (n - 1) = Z.log2 n) as <-.
      { apply Z.log2_unique; [apply Z.log2_nonneg|lia]. }
      apply Z.bit_log2. pose proof (Z.log2_nonneg n).
      assert (0 < 2 ^ Z.log2 n) by lia. lia. }
    rewrite H0 in Hb. by rewrite Z.bits_0 in Hb.
  - intros (k & Hk & ->). apply andb_true_iff. split; [apply Z.ltb_lt; lia|].
    apply Z.eqb_eq. rewrite land_mask by done. apply Z.mod_same. lia.
Qed.

(** ** Array lemmas *)
Lemma arr_get_ok {A} (l : list A) i x :
  0 ≤ i → l !! Z.to_nat i = Some x → arr_get l i = Ok x.
Proof. intros Hi Hx. unfold arr_get. case_test; [lia|]. by rewrite Hx. Qed.

Lemma arr_get_nat {A} (l : list A) (i : nat) x :
  l !! i = Some x → arr_get l (Z.of_nat i) = Ok x.
Proof. intros. apply arr_get_ok; [lia|]. by rewrite Nat2Z.id. Qed.

Lemma arr_get_inv {A} (l : list A) i x :
  arr_get l i = Ok x → 0 ≤ i ∧ l !! Z.to_nat i = Some x.
Proof.
  unfold arr_get. case_test; [done|]. destruct (l !! Z.to_nat i) eqn:?; naive_solver.
Qed.

Lemma arr_set_ok {A} (l : list A) i x :
  0 ≤ i < Z.of_nat (length l) → arr_set l i x = Ok (<[Z.to_nat i := x]> l).
Proof.
  intros. unfold arr_set. rewrite (proj2 (Z.leb_le _ _)), (proj2 (Z.ltb_lt _ _)) by lia. done.
Qed.

Lemma length_new_array {A} n (junk : nat → A) : length (new_array n junk) = Z.to_nat n.
Proof. unfold new_array. len. Qed.
#[export] Hint Rewrite @length_new_array : uring.

Lemma list_alter_lookup {A} (f : A → A) (l : list A) i x :
  l !! i = Some x → alter f i l = <[i := f x]> l.
Proof.
  revert i. induction l as [|y l IH]; intros [|i] H; simplify_eq/=; [done|]. f_equal. by apply IH.
Qed.

Lemma for_up_inv {S : Type} (P : Z → S → Prop) body n : ∀ i s,
  P i s →
  (∀ j s, i ≤ j < i + Z.of_nat n → P j s → ∃ s', body j s = Ok s' ∧ P (j + 1) s') →
  ∃ s', for_up n i body s = Ok s' ∧ P (i + Z.of_nat n) s'.
Proof.
  induction n as [|n IH]; intros i s Hs Hstep; simpl.
  - exists s. by rewrite Z.add_0_r.
  - destruct (Hstep i s ltac:(lia) Hs) as (s1 & -> & H1). simpl.
    destruct (IH (i + 1) s1 H1) as (s' & -> & H').
    { intros j t Hj. apply Hstep. lia. }
    exists s'. split; [done|]. by replace (i + Z.of_nat (Datatypes.S n)) with (i + 1 + Z.of_nat n) by lia.
Qed.

(** The same for a loop that is known to have returned. *)
Lemma for_up_partial {S : Type} (P : S → Prop) body n : ∀ i s s',
  (∀ j s s', P s → body j s = Ok s' → P s') → P s → for_up n i body s = Ok s' → P s'.
Proof.
  induction n as [|n IH]; intros i s s' Hb Hs E; simpl in E; [by simplify_eq|].
  destruct (body i s) as [s1|] eqn:E1; [|done]. eapply IH, E; [done|]. eauto.
Qed.

(** Invert a sequence that returned. *)
Lemma bind_inv {A B} (m : result A) (f : A → result B) b :
  (m ≫= f) = Ok b → ∃ a, m = Ok a ∧ f a = Ok b.
Proof. destruct m; simpl; [eauto|done]. Qed.

(** Take a returned operation apart into the returned steps it consists of. *)
Ltac ok_inv :=
  repeat (cbn beta iota in *; match goal with
  | H : (_ ≫= _) = Ok _ |- _ => apply bind_inv in H as (? & ? & H)
  | p : (_ * _)%type |- _ => destruct p
  | H : Ok _ = Ok _ |- _ => injection H as H; subst
  | H : Fault _ = Ok _ |- _ => discriminate H
  end).

(** ** Memory lemmas *)
Lemma mem_read_lookup m o n i :
  mem_read m o n !! i = if decide (i < Z.to_nat n)%nat then m !! (Z.to_nat o + i)%nat else None.
Proof.
  unfold mem_read. case_decide.
  - rewrite lookup_take_lt by done. by rewrite lookup_drop.
  - apply lookup_take_ge. lia.
Qed.

Lemma mem_read_length m o n :
  0 ≤ o → 0 ≤ n → o + n ≤ Z.of_nat (length m) → Z.of_nat (length (mem_read m o n)) = n.
Proof. intros. unfold mem_read. len. Qed.

Lemma mem_read_0 m o : mem_read m o 0 = [].
Proof. done. Qed.

Lemma mem_write_ok m off d :
  0 ≤ off → off + Z.of_nat (length d) ≤ Z.of_nat (length m) →
  ∃ m', mem_write m off d = Ok m' ∧ length m' = length m ∧
    (∀ j, m' !! j = if decide (Z.to_nat off ≤ j < Z.to_nat off + length d)%nat
                    then d !! (j - Z.to_nat off)%nat else m !! j).
Proof.
  intros Hoff Hlen. unfold mem_write.
  rewrite !(proj2 (Z.leb_le _ _)) by lia. simpl. eexists. split; [done|].
  split; [len|]. intros j.
  destruct (decide (j < Z.to_nat off)%nat).
  { rewrite decide_False by lia.
    rewrite lookup_app_l by len. by apply lookup_take_lt. }
  rewrite lookup_app_r by len. rewrite length_take, Nat.min_l by lia.
  case_decide.
  - by rewrite lookup_app_l by lia.
  - rewrite lookup_app_r by lia. rewrite lookup_drop. f_equal. lia.
Qed.

(** Writing right behind a range extends what is read from it; a range that
    does not meet the written bytes reads as before. *)
Lemma mem_write_spec m off d :
  0 ≤ off → off + Z.of_nat (length d) ≤ Z.of_nat (length m) →
  ∃ m', mem_write m off d = Ok m' ∧ length m' = length m ∧
    (∀ o n, 0 ≤ o → 0 ≤ n → o + n = off →
       mem_read m' o (n + Z.of_nat (length d)) = mem_read m o n ++ d) ∧
    (∀ o n, 0 ≤ o → 0 ≤ n → o + n ≤ off ∨ off + Z.of_nat (length d) ≤ o →
       mem_read m' o n = mem_read m o n).
Proof.
  intros Hoff Hlen. destruct (mem_write_ok m off d) as (m' & Hw & Hl & Hlk); [lia..|].
  exists m'. split_and!; [done..| |].
  - intros o n Ho Hn <-. apply list_eq. intros i.
    assert (Hn' : length (mem_read m o n) = Z.to_nat n) by (unfold mem_read; len).
    destruct (decide (i < Z.to_nat n)%nat).
    + rewrite lookup_app_l, !mem_read_lookup, Hlk by lia.
      repeat case_decide; lia || done.
    + rewrite lookup_app_r, mem_read_lookup, Hlk, Hn' by lia.
      case_decide.
      * rewrite decide_True by lia. f_equal. lia.
      * symmetry. apply lookup_ge_None. lia.
  - intros o n Ho Hn Hd. apply list_eq. intros i. rewrite !mem_read_lookup.
    case_decide; [|done]. rewrite Hlk. by rewrite decide_False by lia.
Qed.
