(* ===== verification/Ring.v ===== *)
(** * Free-running ring buffers

    Every queue of the framework is an array of [2^k] cells with two counters
    that only ever grow and wrap at the width of their C++ type; a counter is
    reduced to a cell with [counter & mask_].  The predicate [ring_ok] relates
    such a representation to the list it stands for, and the lemmas give the
    effect of the four moves of the source: push and pop at either end.  The
    containers of the later files (BufPool, MsghdrPool, ReadBufBase,
    WriteBufBase, TcpChannelPool) are all proved through it. *)
From S2P Require Import Prelude.

#[local] Set Implicit Arguments.
Record ring_ok {A} (w : Z) (arr : list A) (mask h t : Z) (l : list A) : Prop := {
  rk_pow : ∃ k, 0 ≤ k < w ∧ mask = 2 ^ k - 1 ∧ Z.of_nat (length arr) = 2 ^ k;
  rk_head : 0 ≤ h < 2 ^ w;
  rk_tail : 0 ≤ t < 2 ^ w;
  rk_len : Z.of_nat (length l) = (t - h) mod 2 ^ w;
  rk_cap : Z.of_nat (length l) ≤ mask + 1;
  rk_cells : ∀ (i : nat) x, l !! i = Some x →
    arr !! Z.to_nat (Z.land (h + Z.of_nat i) mask) = Some x
}.
#[local] Unset Implicit Arguments.
Arguments rk_cells {_ _ _ _ _ _ _} _ _ _.

Section ring.
Context {A : Type}.
Implicit Types (arr l : list A) (w mask h t c : Z) (x : A).

(** The cell a counter designates, and that wrapping the counter keeps it. *)
Lemma cell_range w arr mask h t l c :
  ring_ok w arr mask h t l → 0 ≤ Z.land c mask < Z.of_nat (length arr).
Proof.
  intros [(k & Hk & -> & ->) _ _ _ _ _]. rewrite land_mask by lia.
  apply Z.mod_pos_bound. lia.
Qed.

Lemma cell_wrap w arr mask h t l c :
  ring_ok w arr mask h t l → Z.land (c mod 2 ^ w) mask = Z.land c mask.
Proof. intros [(k & Hk & -> & _) _ _ _ _ _]. apply land_mask_wrap. lia. Qed.

Lemma cell_cong w arr mask h t l c d :
  ring_ok w arr mask h t l → c mod 2 ^ w = d mod 2 ^ w → Z.land c mask = Z.land d mask.
Proof.
  intros H E. by rewrite <- (cell_wrap _ _ _ _ _ _ c H), E, (cell_wrap _ _ _ _ _ _ d H).
Qed.

(** A full lap leads back to the same cell. *)
Lemma cell_lap w arr mask h t l c :
  ring_ok w arr mask h t l → Z.land (c + (mask + 1)) mask = Z.land c mask.
Proof.
  intros [(k & Hk & -> & _) _ _ _ _ _]. rewrite !land_mask by lia.
  replace (c + (2 ^ k - 1 + 1)) with (c + 1 * 2 ^ k) by lia. apply Z.mod_add. lia.
Qed.

(** Two counters less than a lap apart designate different cells. *)
Lemma cell_inj w arr mask h t l c d :
  ring_ok w arr mask h t l → c < d < c + mask + 1 → Z.land c mask ≠ Z.land d mask.
Proof.
  intros [(k & Hk & -> & _) _ _ _ _ _] Hd. rewrite !land_mask by lia. intros E.
  assert (Hz : (d - c) mod 2 ^ k = 0).
  { rewrite Zminus_mod, E, Z.sub_diag. apply Z.mod_0_l. lia. }
  rewrite Z.mod_small in Hz by lia. lia.
Qed.

Lemma ring_empty w arr mask h t l : ring_ok w arr mask h t l → h = t ↔ l = [].
Proof.
  intros [_ Hh Ht Hl _ _]. split.
  - intros ->. rewrite Z.sub_diag, Z.mod_0_l in Hl by lia.
    destruct l; [done|simpl in Hl; lia].
  - intros ->. simpl in Hl. symmetry in Hl. apply Z.mod_divide in Hl; [|lia].
    destruct Hl as [q Hq]. assert (q = 0) by nia. lia.
Qed.

Lemma ring_eqb w arr mask h t l :
  ring_ok w arr mask h t l → (h =? t) = bool_decide (l = []).
Proof.
  intros H%ring_empty. case_bool_decide as Hl.
  - apply Z.eqb_eq. tauto.
  - apply Z.eqb_neq. tauto.
Qed.

Lemma ring_count w arr mask h t l :
  ring_ok w arr mask h t l → (t - h) mod 2 ^ w = Z.of_nat (length l).
Proof. intros H. symmetry. apply H. Qed.

Lemma ring_nth w arr mask h t l (i : nat) x :
  ring_ok w arr mask h t l → l !! i = Some x →
  arr_get arr (Z.land ((h + Z.of_nat i) mod 2 ^ w) mask) = Ok x.
Proof.
  intros H Hx. rewrite (cell_wrap _ _ _ _ _ _ _ H). apply arr_get_ok.
  - eapply cell_range, H.
  - by apply H.
Qed.

Lemma ring_first w arr mask h t x l :
  ring_ok w arr mask h t (x :: l) → arr_get arr (Z.land h mask) = Ok x.
Proof.
  intros H. pose proof (ring_nth _ _ _ _ _ _ 0 x H eq_refl) as Hx.
  rewrite (cell_wrap _ _ _ _ _ _ _ H), Z.add_0_r in Hx. done.
Qed.

Lemma mod_shift_l a b n : 0 < n → ((a mod n) - b) mod n = (a - b) mod n.
Proof. intros. by rewrite Zminus_mod, Z.mod_mod, <- Zminus_mod by lia. Qed.
Lemma mod_shift_r a b n : 0 < n → (a - (b mod n)) mod n = (a - b) mod n.
Proof. intros. by rewrite Zminus_mod, Z.mod_mod, <- Zminus_mod by lia. Qed.

(** Length bookkeeping: moving a counter by one moves the distance by one. *)
Lemma count_up w d a :
  d = a mod 2 ^ w → 0 ≤ d → d + 1 < 2 ^ w → d + 1 = (a + 1) mod 2 ^ w.
Proof.
  intros E Hd Hlt. rewrite Zplus_mod, <- E, (Z.mod_small 1) by lia.
  symmetry. apply Z.mod_small. lia.
Qed.
Lemma count_down w d a :
  d = a mod 2 ^ w → 0 ≤ w → 0 < d → d - 1 = (a - 1) mod 2 ^ w.
Proof.
  intros E Hw Hd. pose proof (Z.mod_pos_bound a (2 ^ w)).
  rewrite Zminus_mod, <- E, (Z.mod_small 1) by lia.
  symmetry. apply Z.mod_small. lia.
Qed.

Lemma ring_pop w arr mask h t x l :
  ring_ok w arr mask h t (x :: l) → ring_ok w arr mask ((h + 1) mod 2 ^ w) t l.
Proof.
  intros H. pose proof H as [(k & Hk & Hm & Ha) Hh Ht Hl Hc Hi].
  split; [eauto|apply Z.mod_pos_bound; lia|done| | |].
  - rewrite mod_shift_r by lia. rewrite Z.sub_add_distr.
    rewrite <- (count_down w _ _ Hl ltac:(lia) ltac:(simpl; lia)). simpl. lia.
  - simpl in Hc. lia.
  - intros i y Hy. specialize (Hi (S i) y Hy).
    rewrite <- Hi. do 2 f_equal. apply (cell_cong _ _ _ _ _ _ _ _ H).
    rewrite Zplus_mod_idemp_l. f_equal. lia.
Qed.

Lemma ring_pop_back w arr mask h t x l :
  ring_ok w arr mask h t (l ++ [x]) → ring_ok w arr mask h ((t - 1) mod 2 ^ w) l.
Proof.
  intros H. pose proof H as [(k & Hk & Hm & Ha) Hh Ht Hl Hc Hi].
  split; [eauto|done|apply Z.mod_pos_bound; lia| | |].
  - rewrite mod_shift_l by lia. replace (t - 1 - h) with (t - h - 1) by lia.
    rewrite <- (count_down w _ _ Hl ltac:(lia) ltac:(len)). len.
  - len.
  - intros i y Hy. apply Hi. by apply lookup_app_l_Some.
Qed.

Lemma ring_last w arr mask h t x l :
  ring_ok w arr mask h t (l ++ [x]) → arr_get arr (Z.land ((t - 1) mod 2 ^ w) mask) = Ok x.
Proof.
  intros H. pose proof (ring_nth _ _ _ _ _ _ (length l) x H) as Hx.
  rewrite <- Hx by (by rewrite lookup_app_r, Nat.sub_diag by lia).
  do 2 f_equal. pose proof (rk_len H) as Hl. pose proof (rk_pow H).
  decompose_ex. rewrite length_app in Hl. simpl in Hl.
  replace (Z.of_nat (length l)) with ((t - h) mod 2 ^ w - 1) by lia.
  rewrite <- (Zplus_mod_idemp_r (_ - 1)). rewrite mod_shift_l by lia.
  rewrite Zplus_mod_idemp_r. f_equal. lia.
Qed.

(** Writing a cell outside the live window leaves the contents alone. *)
Lemma ring_set_free w arr mask h t l c x :
  ring_ok w arr mask h t l →
  h + Z.of_nat (length l) ≤ c < h + mask + 1 →
  ring_ok w (<[Z.to_nat (Z.land c mask) := x]> arr) mask h t l.
Proof.
  intros H Hc. pose proof H as [Hp Hh Ht Hl Hcap Hi].
  split; [|done..|]. { by rewrite length_insert. }
  intros i y Hy. rewrite list_lookup_insert_ne; [by apply Hi|].
  intros E. apply lookup_lt_Some in Hy as Hlt.
  pose proof (cell_range _ _ _ _ _ _ c H). pose proof (cell_range _ _ _ _ _ _ (h + Z.of_nat i) H).
  eapply (cell_inj _ _ _ _ _ _ (h + Z.of_nat i) c H); lia.
Qed.

Lemma ring_push w arr mask h t l x :
  ring_ok w arr mask h t l → Z.of_nat (length l) < mask + 1 →
  ∃ arr', arr_set arr (Z.land t mask) x = Ok arr' ∧ length arr' = length arr ∧
    ring_ok w arr' mask h ((t + 1) mod 2 ^ w) (l ++ [x]).
Proof.
  intros H Hroom. eexists. rewrite arr_set_ok by (eapply cell_range, H).
  split; [done|]. split; [by rewrite length_insert|].
  assert (Hcell : Z.land t mask = Z.land (h + Z.of_nat (length l)) mask).
  { apply (cell_cong _ _ _ _ _ _ _ _ H). rewrite (rk_len H).
    rewrite Zplus_mod_idemp_r. f_equal. lia. }
  pose proof (ring_set_free _ _ _ _ _ _ (h + Z.of_nat (length l)) x H ltac:(lia)) as H'.
  pose proof H as [(k & Hk & Hm & Ha) Hh Ht Hl Hc Hi].
  rewrite Hcell. split; [by apply H'|done|apply Z.mod_pos_bound; lia| |len|].
  - rewrite mod_shift_l by lia. replace (t + 1 - h) with (t - h + 1) by lia.
    assert (2 ^ k < 2 ^ w) by (apply Z.pow_lt_mono_r; lia).
    rewrite <- (count_up w _ _ Hl ltac:(lia) ltac:(lia)). len.
  - intros i y Hy. apply lookup_app_Some in Hy as [Hy|[Hge Hy]].
    + by apply H'.
    + destruct (i - length l)%nat eqn:Hd; [|done]. simplify_eq/=.
      replace i with (length l) by lia.
      apply list_lookup_insert_eq. pose proof (cell_range _ _ _ _ _ _ (h + Z.of_nat (length l)) H). lia.
Qed.

(** A window of empty length may start anywhere. *)
Lemma ring_at w arr mask h t l c :
  ring_ok w arr mask h t l → 0 ≤ c < 2 ^ w → ring_ok w arr mask c c [].
Proof.
  intros [(k & Hk & Hm & Ha) Hh Ht Hl Hc Hi] Hr. split; [eauto|done|done| | |].
  - rewrite Z.sub_diag, Z.mod_0_l by lia. done.
  - simpl. lia.
  - intros i x Hx. by rewrite lookup_nil in Hx.
Qed.

(** Adjacent windows of one array join. *)
Lemma ring_join w arr mask a b c l1 l2 :
  ring_ok w arr mask a b l1 → ring_ok w arr mask b c l2 →
  Z.of_nat (length l1 + length l2) ≤ mask + 1 →
  ring_ok w arr mask a c (l1 ++ l2).
Proof.
  intros H1 H2 Hcap. pose proof H1 as [(k & Hk & Hm & Ha) Hh1 Ht1 Hl1 Hc1 Hi1].
  pose proof H2 as [_ Hh2 Ht2 Hl2 Hc2 Hi2].
  assert (2 ^ k < 2 ^ w) by (apply Z.pow_lt_mono_r; lia).
  split; [eauto|done|done| | |].
  - rewrite length_app. replace (c - a) with ((c - b) + (b - a)) by lia.
    rewrite Zplus_mod, <- Hl1, <- Hl2. rewrite Z.mod_small; lia.
  - len.
  - intros i x [Hx|[Hge Hx]]%lookup_app_Some; [by apply Hi1|].
    apply Hi2 in Hx. rewrite <- Hx. do 2 f_equal.
    apply (cell_cong _ _ _ _ _ _ _ _ H1). replace (Z.of_nat (i - length l1)) with (Z.of_nat i - (b - a) mod 2 ^ w) by lia.
    replace (b + (Z.of_nat i - (b - a) mod 2 ^ w)) with ((b + Z.of_nat i) - (b - a) mod 2 ^ w) by lia.
    rewrite mod_shift_r by lia. f_equal. lia.
Qed.
End ring.
