(* ===== verification/BufPool.v ===== *)
(** * BufPool: fixed blocks with a FIFO free list

    Models include/buffer/buf_pool.hpp and src/buffer/buf_pool.cpp.  A pool
    owns [buf_num_] blocks of [buf_size_] bytes in one allocation [bufs_]; a
    pointer into it is its offset.  [pool_rep] is the abstraction the clients
    use: the free list in acquisition order and the valid bytes of each block. *)
From S2P Require Import Prelude Ring.

Definition invalid_idx : Z := 2 ^ 32 - 1.

Record BufPool := mkBufPool {
  bp_buf_num : Z;
  bp_mask : Z;
  bp_buf_size : Z;
  bp_bufs : list byte;
  bp_data_size : list Z;
  bp_free_idx_queue : list Z;
  bp_head : Z;
  bp_tail : Z
}.

Definition bp_with_queue (p : BufPool) q h t : BufPool :=
  mkBufPool (bp_buf_num p) (bp_mask p) (bp_buf_size p) (bp_bufs p) (bp_data_size p) q h t.
Definition bp_with_data_size (p : BufPool) ds : BufPool :=
  mkBufPool (bp_buf_num p) (bp_mask p) (bp_buf_size p) (bp_bufs p) ds
    (bp_free_idx_queue p) (bp_head p) (bp_tail p).
Definition bp_with_bufs (p : BufPool) b : BufPool :=
  mkBufPool (bp_buf_num p) (bp_mask p) (bp_buf_size p) b (bp_data_size p)
    (bp_free_idx_queue p) (bp_head p) (bp_tail p).

(** [(buf - bufs_) / buf_size_], a pointer being its offset from [bufs_]. *)
Definition BufPool_buf_index (p : BufPool) (buf : Z) : Z := u32 (buf `quot` bp_buf_size p).
(** [bufs_ + idx * buf_size_]: the product is computed in [unsigned int]. *)
Definition BufPool_buf_addr (p : BufPool) (idx : Z) : Z := u32 (idx * bp_buf_size p).
Definition BufPool_get_data_size (p : BufPool) (idx : Z) : result Z :=
  arr_get (bp_data_size p) idx.
Definition BufPool_set_data_size (p : BufPool) (idx size : Z) : result BufPool :=
  ds ← arr_set (bp_data_size p) idx size; Ok (bp_with_data_size p ds).

Definition BufPool_acquire (p : BufPool) : result (Z * BufPool) :=
  if bp_head p =? bp_tail p then Ok (invalid_idx, p)
  else
    idx ← arr_get (bp_free_idx_queue p) (Z.land (bp_head p) (bp_mask p));
    Ok (idx, bp_with_queue p (bp_free_idx_queue p) (u32 (bp_head p + 1)) (bp_tail p)).

Definition BufPool_release (p : BufPool) (idx : Z) : result BufPool :=
  assert_ (u32 (bp_tail p - bp_head p) <? u32 (bp_buf_num p));;
  q ← arr_set (bp_free_idx_queue p) (Z.land (bp_tail p) (bp_mask p)) idx;
  let p := bp_with_queue p q (bp_head p) (u32 (bp_tail p + 1)) in
  ds ← arr_set (bp_data_size p) idx 0;
  Ok (bp_with_data_size p ds).

(** [release(const char *buf)]. *)
Definition BufPool_release_buf (p : BufPool) (buf : Z) : result BufPool :=
  BufPool_release p (BufPool_buf_index p buf).

(** The constructor.  [new char[n]] leaves its elements indeterminate: they
    are the [junk] arguments. *)
Definition BufPool_new (junk_bufs : nat → byte) (junk_sizes junk_queue : nat → Z)
    (buf_num buf_size : Z) : result BufPool :=
  mask ← int_of (buf_num - 1);
  bytes ← int_of (buf_num * buf_size);
  if (bytes <? 0) || (buf_num <? 0) then Fault Exception else
  let p := mkBufPool buf_num mask buf_size (new_array bytes junk_bufs)
             (new_array buf_num junk_sizes) (new_array buf_num junk_queue) 0 0 in
  assert_ (pow2_test buf_num);;
  p ← for_up (Z.to_nat buf_num) 0 (fun i p => BufPool_set_data_size p i 0) p;
  for_up (Z.to_nat buf_num) 0 (fun i p => BufPool_release p i) p.

(** ** The abstraction *)
#[local] Set Implicit Arguments.
Record pool_rep (n bs : Z) (p : BufPool) (free : list Z) (blks : list (list byte)) : Prop := {
  pr_num : bp_buf_num p = n;
  pr_bs : bp_buf_size p = bs;
  pr_mask : bp_mask p = n - 1;
  pr_ring : ring_ok 32 (bp_free_idx_queue p) (bp_mask p) (bp_head p) (bp_tail p) free;
  pr_pos : 0 < bs;
  pr_total : n * bs < 2 ^ 31;
  pr_bufs : Z.of_nat (length (bp_bufs p)) = n * bs;
  pr_dlen : Z.of_nat (length (bp_data_size p)) = n;
  pr_blen : Z.of_nat (length blks) = n;
  pr_blk : ∀ (i : nat) d, bp_data_size p !! i = Some d →
    0 ≤ d ≤ bs ∧ blks !! i = Some (mem_read (bp_bufs p) (Z.of_nat i * bs) d);
  pr_free : ∀ i, i ∈ free → 0 ≤ i < n ∧ blks !! Z.to_nat i = Some [];
  pr_nodup : NoDup free
}.
#[local] Unset Implicit Arguments.
Arguments pr_blk {_ _ _ _ _} _ _ _.
Arguments pr_free {_ _ _ _ _} _ _.

Section spec.
Context (n bs : Z).
Implicit Types (p : BufPool) (free : list Z) (blks : list (list byte)).

Lemma pool_n_pos p free blks : pool_rep n bs p free blks → 0 < n < 2 ^ 31.
Proof.
  intros H. pose proof (rk_pow (pr_ring H)) as (k & Hk & Hm & _).
  rewrite (pr_mask H) in Hm. pose proof (pr_total H).
  pose proof (pr_pos H). assert (0 < 2 ^ k) by lia. nia.
Qed.

(** The block of an index: its size cell and its bytes. *)
Lemma pool_block p free blks i b :
  pool_rep n bs p free blks → 0 ≤ i → blks !! Z.to_nat i = Some b →
  i < n ∧ bp_data_size p !! Z.to_nat i = Some (Z.of_nat (length b)) ∧
  Z.of_nat (length b) ≤ bs ∧ b = mem_read (bp_bufs p) (i * bs) (Z.of_nat (length b)).
Proof.
  intros H Hi Hb. apply lookup_lt_Some in Hb as Hlt.
  pose proof (pr_blen H) as Hl. pose proof (pr_dlen H).
  destruct (lookup_lt_is_Some_2 (bp_data_size p) (Z.to_nat i)) as [d Hd]; [lia|].
  destruct (pr_blk H _ _ Hd) as [Hr Hb']. rewrite Z2Nat.id in Hb' by lia.
  simplify_eq.
  assert (Z.of_nat (length (mem_read (bp_bufs p) (i * bs) d)) = d) as E.
  { pose proof (pr_bufs H). apply mem_read_length; nia. }
  rewrite !E. split_and!; [lia|done|lia|done].
Qed.

Lemma pool_get_data_size p free blks i b :
  pool_rep n bs p free blks → 0 ≤ i → blks !! Z.to_nat i = Some b →
  BufPool_get_data_size p i = Ok (Z.of_nat (length b)).
Proof.
  intros H Hi Hb. destruct (pool_block _ _ _ _ _ H Hi Hb) as (_ & Hd & _).
  by apply arr_get_ok.
Qed.

Lemma pool_buf_addr p free blks i :
  pool_rep n bs p free blks → 0 ≤ i < n → BufPool_buf_addr p i = i * bs.
Proof.
  intros H Hi. unfold BufPool_buf_addr. rewrite (pr_bs H).
  pose proof (pr_total H). pose proof (pr_pos H).
  apply u32_small. nia.
Qed.

(** Every address a client can form inside a block maps back to the block. *)
Lemma pool_buf_index p free blks i o :
  pool_rep n bs p free blks → 0 ≤ i < n → 0 ≤ o < bs →
  BufPool_buf_index p (BufPool_buf_addr p i + o) = i.
Proof.
  intros H Hi Ho. rewrite (pool_buf_addr _ _ _ _ H Hi). unfold BufPool_buf_index.
  rewrite (pr_bs H). pose proof (pool_n_pos _ _ _ H).
  rewrite Z.quot_div_nonneg by nia. rewrite Z.div_add_l by lia.
  rewrite Z.div_small by lia. rewrite Z.add_0_r. apply u32_small. lia.
Qed.

Lemma pool_acquire_none p blks :
  pool_rep n bs p [] blks → BufPool_acquire p = Ok (invalid_idx, p).
Proof.
  intros H. unfold BufPool_acquire.
  by rewrite (ring_eqb _ _ _ _ _ _ (pr_ring H)).
Qed.

Lemma pool_acquire_some p i free blks :
  pool_rep n bs p (i :: free) blks →
  ∃ p', BufPool_acquire p = Ok (i, p') ∧ pool_rep n bs p' free blks ∧
    0 ≤ i < n ∧ (i ∉ free) ∧ i ≠ invalid_idx ∧ blks !! Z.to_nat i = Some [].
Proof.
  intros H. unfold BufPool_acquire. pose proof (pr_ring H) as Hr.
  rewrite (ring_eqb _ _ _ _ _ _ Hr), bool_decide_eq_false_2 by done.
  rewrite (ring_first _ _ _ _ _ _ _ Hr). simpl. eexists. split; [done|].
  pose proof (pr_free H i ltac:(set_solver)) as [Hi Hb].
  pose proof (pr_nodup H) as [Hni Hnd]%NoDup_cons.
  pose proof (pool_n_pos _ _ _ H). split.
  - destruct H. split; simpl; try done.
    + by apply (ring_pop 32) in Hr.
    + intros j Hj. apply pr_free0. by right.
  - split_and!; try done; unfold invalid_idx; lia.
Qed.

(** An index that is not free leaves room in the queue: the assert holds. *)
Lemma pool_room p free blks i :
  pool_rep n bs p free blks → 0 ≤ i < n → i ∉ free → Z.of_nat (length free) < n.
Proof.
  intros H Hi Hni.
  assert (Hs : (i :: free) ⊆+ seqZ 0 n).
  { apply NoDup_submseteq; [apply NoDup_cons; split; [done|apply H]|].
    intros j [->|Hj]%elem_of_cons; apply elem_of_seqZ; [lia|].
    apply (pr_free H) in Hj. lia. }
  apply submseteq_length in Hs. rewrite length_seqZ in Hs. simpl in Hs. lia.
Qed.

Lemma pool_release p free blks i :
  pool_rep n bs p free blks → 0 ≤ i < n → i ∉ free →
  ∃ p', BufPool_release p i = Ok p' ∧
    pool_rep n bs p' (free ++ [i]) (<[Z.to_nat i := []]> blks).
Proof.
  intros H Hi Hni. pose proof (pool_room _ _ _ _ H Hi Hni) as Hroom.
  pose proof (pool_n_pos _ _ _ H) as Hn. unfold BufPool_release.
  pose proof H as [Hnum Hbs Hmask Hr Hpos Htot Hbl Hdl Hbk Hblk Hfree Hnd].
  replace (u32 (bp_tail p - bp_head p)) with (Z.of_nat (length free)) by apply Hr.
  rewrite Hnum, (u32_small n) by lia.
  rewrite (proj2 (Z.ltb_lt _ _)) by lia. simpl.
  destruct (ring_push _ _ _ _ _ _ i Hr) as (q & -> & Hql & Hr'); [lia|]. simpl.
  rewrite arr_set_ok by lia. simpl. eexists. split; [done|].
  split; simpl; try done.
  - by rewrite length_insert.
  - by rewrite length_insert.
  - intros j d. rewrite !list_lookup_insert. case_decide as Hd.
    + destruct Hd as [<- _]. intros [= <-]. rewrite decide_True by lia. split; [lia|done].
    + intros Hj. rewrite decide_False; [by apply Hblk|].
      apply lookup_lt_Some in Hj. lia.
  - intros j [Hj| ->%list_elem_of_singleton]%elem_of_app.
    + destruct (Hfree j Hj) as [? ?]. split; [done|].
      rewrite list_lookup_insert_ne; [done|]. intros E. apply Hni.
      replace i with j by lia. done.
    + split; [done|]. rewrite list_lookup_insert_eq by lia. done.
  - apply NoDup_app. split_and!; [done| |apply NoDup_singleton].
    by intros j Hj ->%list_elem_of_singleton.
Qed.

(** Copying [d] right behind the valid bytes of a held block and recording the
    new size appends [d] to the block. *)
Lemma pool_append_block p free blks i b d :
  pool_rep n bs p free blks → 0 ≤ i → blks !! Z.to_nat i = Some b → i ∉ free →
  Z.of_nat (length b) + Z.of_nat (length d) ≤ bs →
  ∃ m p', mem_write (bp_bufs p) (BufPool_buf_addr p i + Z.of_nat (length b)) d = Ok m ∧
    BufPool_set_data_size (bp_with_bufs p m) i (Z.of_nat (length b) + Z.of_nat (length d)) = Ok p' ∧
    pool_rep n bs p' free (<[Z.to_nat i := b ++ d]> blks).
Proof.
  intros H Hi Hb Hni Hfit. destruct (pool_block _ _ _ _ _ H Hi Hb) as (Hin & Hd & _ & Hrd).
  pose proof H as [Hnum Hbs Hmask Hr Hpos Htot Hbl Hdl Hbk Hblk Hfree Hnd].
  rewrite (pool_buf_addr _ _ _ _ H) by lia.
  destruct (mem_write_spec (bp_bufs p) (i * bs + Z.of_nat (length b)) d)
    as (m & Hw & Hml & Hext & Hoth); [nia|nia|].
  exists m. unfold BufPool_set_data_size. simpl. rewrite arr_set_ok by lia. simpl.
  eexists. split; [done|]. split; [done|].
  split; simpl; try done.
  - by rewrite Hml.
  - by rewrite length_insert.
  - by rewrite length_insert.
  - intros j e. rewrite !list_lookup_insert. case_decide as Hj.
    + destruct Hj as [<- _]. intros [= <-]. rewrite decide_True by lia.
      split; [lia|]. rewrite Z2Nat.id by lia. rewrite Hext by nia. by rewrite <- Hrd.
    + intros He. apply lookup_lt_Some in He as Hlt. rewrite decide_False by lia.
      destruct (Hblk j e He) as [? ->]. split; [done|]. f_equal. symmetry.
      apply Hoth; [nia|lia|]. assert (Z.of_nat j ≠ i) by lia.
      destruct (decide (Z.of_nat j < i)); [left|right]; nia.
  - intros j Hj. destruct (Hfree j Hj) as [? ?]. split; [done|].
    rewrite list_lookup_insert_ne; [done|]. intros E. apply Hni. by replace i with j by lia.
Qed.

(** Recording a smaller size truncates a held block. *)
Lemma pool_truncate_block p free blks i b k :
  pool_rep n bs p free blks → 0 ≤ i → blks !! Z.to_nat i = Some b → i ∉ free →
  0 ≤ k ≤ Z.of_nat (length b) →
  ∃ p', BufPool_set_data_size p i k = Ok p' ∧
    pool_rep n bs p' free (<[Z.to_nat i := take (Z.to_nat k) b]> blks).
Proof.
  intros H Hi Hb Hni Hk. destruct (pool_block _ _ _ _ _ H Hi Hb) as (Hin & Hd & Hle & Hrd).
  pose proof H as [Hnum Hbs Hmask Hr Hpos Htot Hbl Hdl Hbk Hblk Hfree Hnd].
  unfold BufPool_set_data_size. rewrite arr_set_ok by lia. simpl. eexists. split; [done|].
  split; simpl; try done.
  - by rewrite length_insert.
  - by rewrite length_insert.
  - intros j e. rewrite !list_lookup_insert. case_decide as Hj.
    + destruct Hj as [<- _]. intros [= <-]. rewrite decide_True by lia.
      split; [lia|]. f_equal. rewrite Z2Nat.id by lia. rewrite Hrd at 1.
      unfold mem_read. rewrite take_take. f_equal. lia.
    + intros He. apply lookup_lt_Some in He as Hlt. rewrite decide_False by lia. by apply Hblk.
  - intros j Hj. destruct (Hfree j Hj) as [? ?]. split; [done|].
    rewrite list_lookup_insert_ne; [done|]. intros E. apply Hni. by replace i with j by lia.
Qed.
End spec.

(** ** The constructor *)
Lemma BufPool_new_rep jb js jq k bs :
  0 ≤ k → 0 < bs → 2 ^ k * bs < 2 ^ 31 →
  ∃ p, BufPool_new jb js jq (2 ^ k) bs = Ok p ∧
    pool_rep (2 ^ k) bs p (seqZ 0 (2 ^ k)) (replicate (Z.to_nat (2 ^ k)) []).
Proof.
  intros Hk Hbs Htot. set (n := 2 ^ k) in *. assert (0 < n) by (unfold n; lia).
  assert (n < 2 ^ 31) by nia.
  unfold BufPool_new. rewrite !int_of_ok by nia. simpl.
  rewrite (proj2 (Z.ltb_ge _ _)), (proj2 (Z.ltb_ge _ _)) by nia. simpl.
  rewrite (proj2 (pow2_test_spec n)) by eauto. simpl.
  set (p0 := mkBufPool _ _ _ _ _ _ _ _).
  destruct (for_up_inv (fun i q => ∃ ds, q = bp_with_data_size p0 ds ∧
      Z.of_nat (length ds) = n ∧ ∀ j, (j < Z.to_nat i)%nat → ds !! j = Some 0)
    (fun i p => BufPool_set_data_size p i 0) (Z.to_nat n) 0 p0) as (p1 & -> & ds & -> & Hdl & Hds).
  { exists (bp_data_size p0). split; [done|]. split; [simpl; len|lia]. }
  { intros j q Hj (ds & -> & Hdl & Hds). unfold BufPool_set_data_size. simpl.
    rewrite arr_set_ok by lia. simpl. eexists. split; [done|]. eexists. split; [done|].
    rewrite length_insert. split; [done|]. intros m Hm. rewrite list_lookup_insert.
    case_decide; [done|]. apply Hds. lia. }
  simpl. rewrite Z.add_0_l, Z2Nat.id in Hds by lia.
  destruct (for_up_inv (fun i q => pool_rep n bs q (seqZ 0 i) (replicate (Z.to_nat n) []))
    (fun i p => BufPool_release p i) (Z.to_nat n) 0 (bp_with_data_size p0 ds)) as (p & -> & Hp).
  - split; simpl; try done; try (len; nia).
    + split; try done; [|simpl; lia..].
      exists k. split_and!; try lia; [|fold n; len].
      apply (Z.pow_lt_mono_r_iff 2); lia.
    + intros i d Hd. apply lookup_lt_Some in Hd as Hlt. rewrite Hds in Hd by lia.
      simplify_eq. split; [lia|]. rewrite mem_read_0. apply lookup_replicate. split; [done|lia].
    + intros i Hi%elem_of_seqZ. lia.
    + apply NoDup_seqZ.
  - intros j q Hj Hq. destruct (pool_release n bs q _ _ j Hq) as (q' & -> & Hq'); [lia| |].
    { rewrite elem_of_seqZ. lia. }
    exists q'. split; [done|]. rewrite list_insert_id in Hq'.
    2:{ apply lookup_replicate. split; [done|lia]. }
    replace (seqZ 0 (j + 1)) with (seqZ 0 j ++ [j]); [done|].
    symmetry. rewrite seqZ_app by lia. f_equal.
  - exists p. split; [done|]. by rewrite Z.add_0_l, Z2Nat.id in Hp by lia.
Qed.

(** ** The allocator as a free-list machine

    A client issues [PAcquire] and [PRelease i]; it is disciplined when it
    releases only indices it holds.  [pool_spec] is the abstract machine. *)
Inductive pool_cmd := PAcquire | PRelease (i : Z).

Fixpoint pool_run (p : BufPool) (cs : list pool_cmd) : result (list Z * BufPool) :=
  match cs with
  | [] => Ok ([], p)
  | PAcquire :: cs =>
      '(i, p) ← BufPool_acquire p; '(out, p) ← pool_run p cs; Ok (i :: out, p)
  | PRelease i :: cs => p ← BufPool_release p i; pool_run p cs
  end.

(** Free and held indices; [None] when the client releases what it does not
    hold.  An exhausted pool answers [invalid_idx]. *)
Fixpoint pool_spec (free held : list Z) (cs : list pool_cmd)
    : option (list Z * list Z * list Z) :=
  match cs with
  | [] => Some ([], free, held)
  | PAcquire :: cs =>
      match free with
      | [] => '(out, f, h) ← pool_spec free held cs; Some (invalid_idx :: out, f, h)
      | i :: free => '(out, f, h) ← pool_spec free (i :: held) cs; Some (i :: out, f, h)
      end
  | PRelease i :: cs =>
      if decide (i ∈ held)
      then pool_spec (free ++ [i]) (filter (.≠ i) held) cs
      else None
  end.

Lemma held_perm (n i : Z) free held :
  free ++ held ≡ₚ seqZ 0 n → i ∈ held → (free ++ [i]) ++ filter (.≠ i) held ≡ₚ seqZ 0 n.
Proof.
  intros Hp Hi. rewrite <- Hp. rewrite <- (assoc_L (++)). apply Permutation_app_head.
  assert (Hnd : NoDup held).
  { assert (NoDup (free ++ held)) as Hn by (rewrite Hp; apply NoDup_seqZ).
    by apply NoDup_app in Hn as (_ & _ & ?). }
  apply NoDup_Permutation; [|done|].
  - simpl. apply NoDup_cons. split; [|by apply NoDup_filter].
    rewrite list_elem_of_filter. by intros [? _].
  - intros x. simpl. rewrite elem_of_cons, list_elem_of_filter.
    destruct (decide (x = i)) as [->|]; tauto.
Qed.

(** Running the code follows the machine, and the indices are conserved. *)
Lemma pool_run_refines n bs cs : ∀ p free held blks out free' held',
  pool_rep n bs p free blks → free ++ held ≡ₚ seqZ 0 n →
  pool_spec free held cs = Some (out, free', held') →
  ∃ p' blks', pool_run p cs = Ok (out, p') ∧ pool_rep n bs p' free' blks' ∧
    free' ++ held' ≡ₚ seqZ 0 n.
Proof.
  induction cs as [|[|i] cs IH]; intros p free held blks out free' held' Hp Hperm Hs; simpl in *.
  - simplify_eq. eauto.
  - destruct free as [|i free]; simpl in Hs.
    + destruct (pool_spec [] held cs) as [[[o f] h]|] eqn:E; simplify_eq/=.
      rewrite (pool_acquire_none _ _ _ _ Hp). simpl.
      destruct (IH _ _ _ _ _ _ _ Hp Hperm E) as (p' & b' & -> & ? & ?). simpl. eauto.
    + destruct (pool_spec free (i :: held) cs) as [[[o f] h]|] eqn:E; simplify_eq/=.
      destruct (pool_acquire_some _ _ _ _ _ _ Hp) as (p1 & -> & Hp1 & _). simpl.
      rewrite Permutation_middle in Hperm.
      destruct (IH _ _ _ _ _ _ _ Hp1 Hperm E) as (p' & b' & -> & ? & ?). simpl. eauto.
  - case_decide as Hi; [|done].
    assert (0 ≤ i < n) as Hr.
    { assert (i ∈ seqZ 0 n) as Hz%elem_of_seqZ; [|lia].
      rewrite <- Hperm. apply elem_of_app. by right. }
    assert (i ∉ free) as Hni.
    { assert (NoDup (free ++ held)) as Hn by (rewrite Hperm; apply NoDup_seqZ).
      apply NoDup_app in Hn as (_ & Hd & _). intros Hf. by apply (Hd i). }
    destruct (pool_release _ _ _ _ _ i Hp Hr Hni) as (p1 & -> & Hp1). simpl.
    eapply IH; [done| |done]. by apply held_perm.
Qed.

(** C16. Allocation discipline.  From a freshly constructed pool of [2^k]
    blocks, every client that releases only what it holds is served without
    a fault (no out-of-range cell, no failing assert), receives exactly the
    indices the abstract free-list machine hands out (FIFO, [invalid_idx] when
    exhausted), and free and held indices together are always exactly
    [0 .. 2^k - 1]: none is lost or handed out twice. *)
Theorem BufPool_refines_free_list (jb : nat → byte) (js jq : nat → Z) k bs cs out free held :
  0 ≤ k → 0 < bs → 2 ^ k * bs < 2 ^ 31 →
  pool_spec (seqZ 0 (2 ^ k)) [] cs = Some (out, free, held) →
  ∃ p0 p, BufPool_new jb js jq (2 ^ k) bs = Ok p0 ∧ pool_run p0 cs = Ok (out, p) ∧
    free ++ held ≡ₚ seqZ 0 (2 ^ k).
Proof.
  intros Hk Hbs Ht Hs. destruct (BufPool_new_rep jb js jq k bs) as (p0 & -> & Hp); [done..|].
  destruct (pool_run_refines _ _ _ _ _ [] _ _ _ _ Hp ltac:(by rewrite app_nil_r) Hs)
    as (p & b & Hrun & _ & Hperm).
  eauto 10.
Qed.

Lemma BufPool_refines_free_list_witness :
  ∃ p0 p, BufPool_new (λ _, x00) (λ _, 7) (λ _, 9) 2 16 = Ok p0 ∧
    pool_run p0 [PAcquire; PAcquire; PAcquire; PRelease 0; PAcquire]
      = Ok ([0; 1; invalid_idx; 0], p) ∧ [] ++ [0; 1] ≡ₚ seqZ 0 2.
Proof.
  apply (BufPool_refines_free_list (λ _, x00) (λ _, 7) (λ _, 9) 1 16
    [PAcquire; PAcquire; PAcquire; PRelease 0; PAcquire] [0; 1; invalid_idx; 0] [] [0; 1]);
    [lia|lia|lia|reflexivity].
Defined.

(** The constructor builds a pool exactly when the number of blocks is a
    positive power of two and the buffer area fits an [int]; otherwise an
    assert fails or the size overflows. *)
Theorem BufPool_new_exactly (jb : nat → byte) (js jq : nat → Z) n bs :
  0 < bs → (∃ p, BufPool_new jb js jq n bs = Ok p) ↔ (∃ k, 0 ≤ k ∧ n = 2 ^ k) ∧ n * bs < 2 ^ 31.
Proof.
  intros Hbs. split.
  - intros [p Hp]. unfold BufPool_new in Hp. destruct (int_of (n - 1)); [simpl in Hp|done].
    unfold int_of in Hp. destruct (_ && _) eqn:Hr; [simpl in Hp|done]. destruct (_ || _); [done|].
    destruct (pow2_test n) eqn:E; [|done]. apply pow2_test_spec in E. split; [done|].
    apply andb_prop in Hr as [_ Hr%Z.ltb_lt]. exact Hr.
  - intros [(k & Hk & ->) Hn]. destruct (BufPool_new_rep jb js jq k bs) as (p & Hp & _); [done..|]. by exists p.
Qed.

Lemma BufPool_new_exactly_witness :
  ∃ p, BufPool_new (fun _ => x00) (fun _ => 0) (fun _ => 0) 4 8 = Ok p.
Proof.
  apply (BufPool_new_exactly (fun _ => x00) (fun _ => 0) (fun _ => 0) 4 8); [lia|].
  split; [by exists 2|lia].
Defined.
