(* ===== verification/WriteBuf.v ===== *)
(** * WriteBufBase: building outgoing data in pool blocks

    Models the base class of include/buffer/buffer.hpp and
    src/buffer/buffer.cpp (lines 96-192): the pending ring of block indices,
    [append], [prepend] and [discard_pending].  The pool is shared with the
    other channels of the worker, so every operation takes and returns it. *)
From S2P Require Import Prelude Ring BufPool.

Record WriteBufBase := mkWriteBufBase {
  wb_pending_bufs : list Z;
  wb_send_queue : list Z;
  wb_send_head : Z;
  wb_pending_head : Z;
  wb_pending_tail : Z;
  wb_send_tail : Z;
  wb_capacity : Z;
  wb_mask : Z
}.

Definition wb_with_pending (w : WriteBufBase) q h t : WriteBufBase :=
  mkWriteBufBase q (wb_send_queue w) (wb_send_head w) h t (wb_send_tail w)
    (wb_capacity w) (wb_mask w).
Definition wb_with_send (w : WriteBufBase) q h t : WriteBufBase :=
  mkWriteBufBase (wb_pending_bufs w) q h (wb_pending_head w) (wb_pending_tail w) t
    (wb_capacity w) (wb_mask w).

Definition WriteBufBase_new (junk1 junk2 : nat → Z) (capacity : Z) : result WriteBufBase :=
  if capacity <? 0 then Fault Exception else
  mask ← int_of (capacity - 1);
  Ok (mkWriteBufBase (new_array capacity junk1) (new_array capacity junk2)
        0 0 0 0 capacity (u32 mask)).

(** [std::copy(data, data + n, ...)] reads [n] bytes of the caller's buffer. *)
Definition read_src (data : list byte) (n : Z) : result (list byte) :=
  if n <=? Z.of_nat (length data) then Ok (take (Z.to_nat n) data) else Fault OutOfBounds.

(** [while (pending_head_ != pending_tail_) release(pending_bufs_[pending_head_++ & mask_])] *)
Fixpoint release_pending (fuel : nat) (w : WriteBufBase) (p : BufPool)
    : result (WriteBufBase * BufPool) :=
  if wb_pending_head w =? wb_pending_tail w then Ok (w, p) else
  match fuel with
  | O => Fault OutOfFuel
  | S fuel =>
      idx ← arr_get (wb_pending_bufs w) (Z.land (wb_pending_head w) (wb_mask w));
      p ← BufPool_release p idx;
      release_pending fuel
        (wb_with_pending w (wb_pending_bufs w) (u64 (wb_pending_head w + 1)) (wb_pending_tail w)) p
  end.

Definition WriteBufBase_discard_pending (w : WriteBufBase) (p : BufPool)
    : result (WriteBufBase * BufPool) :=
  '(w, p) ← release_pending (S (Z.to_nat (wb_capacity w))) w p;
  Ok (wb_with_pending w (wb_pending_bufs w) 0 0, p).

(** [while (pending_tail_ != original_tail) release(pending_bufs_[--pending_tail_ & mask_])] *)
Fixpoint release_back (fuel : nat) (w : WriteBufBase) (p : BufPool) (original_tail : Z)
    : result (WriteBufBase * BufPool) :=
  if wb_pending_tail w =? original_tail then Ok (w, p) else
  match fuel with
  | O => Fault OutOfFuel
  | S fuel =>
      let t := u64 (wb_pending_tail w - 1) in
      idx ← arr_get (wb_pending_bufs w) (Z.land t (wb_mask w));
      p ← BufPool_release p idx;
      release_back fuel (wb_with_pending w (wb_pending_bufs w) (wb_pending_head w) t) p original_tail
  end.

(** The failure path of [append] (the same statements at its two sites). *)
Definition append_rollback (w : WriteBufBase) (p : BufPool) (was_empty : bool)
    (original_tail original_tail_size : Z) : result (bool * WriteBufBase * BufPool) :=
  p ← (if negb was_empty
       then idx ← arr_get (wb_pending_bufs w) (Z.land (u64 (original_tail - 1)) (wb_mask w));
            BufPool_set_data_size p idx original_tail_size
       else Ok p);
  '(w, p) ← release_back (S (Z.to_nat (wb_capacity w))) w p original_tail;
  Ok (false, w, p).

(** The copying loop of [append]. *)
Fixpoint append_loop (fuel : nat) (w : WriteBufBase) (p : BufPool) (data : list byte) (size : Z)
    (was_empty : bool) (original_tail original_tail_size : Z)
    : result (bool * WriteBufBase * BufPool) :=
  if negb (0 <? size) then Ok (true, w, p) else
  match fuel with
  | O => Fault OutOfFuel
  | S fuel =>
      idx ← arr_get (wb_pending_bufs w) (Z.land (u64 (wb_pending_tail w - 1)) (wb_mask w));
      current_size ← BufPool_get_data_size p idx;
      let writable := u32 (bp_buf_size p - current_size) in
      let to_copy := Z.min writable size in
      '(p, data, size) ←
        (if 0 <? to_copy then
           d ← read_src data to_copy;
           m ← mem_write (bp_bufs p) (BufPool_buf_addr p idx + current_size) d;
           p ← BufPool_set_data_size (bp_with_bufs p m) idx (u32 (current_size + to_copy));
           Ok (p, drop (Z.to_nat to_copy) data, size - to_copy)
         else Ok (p, data, size));
      if 0 <? size then
        if u64 (wb_capacity w) <=? u64 (wb_pending_tail w - wb_pending_head w)
        then append_rollback w p was_empty original_tail original_tail_size
        else
          '(idx, p) ← BufPool_acquire p;
          if idx =? invalid_idx
          then append_rollback w p was_empty original_tail original_tail_size
          else
            q ← arr_set (wb_pending_bufs w) (Z.land (wb_pending_tail w) (wb_mask w)) idx;
            append_loop fuel
              (wb_with_pending w q (wb_pending_head w) (u64 (wb_pending_tail w + 1)))
              p data size was_empty original_tail original_tail_size
      else append_loop fuel w p data size was_empty original_tail original_tail_size
  end.

Definition WriteBufBase_append (w : WriteBufBase) (p : BufPool) (data : list byte) (size : Z)
    : result (bool * WriteBufBase * BufPool) :=
  let original_tail := wb_pending_tail w in
  let was_empty := wb_pending_head w =? wb_pending_tail w in
  let fuel := S (S (Z.to_nat size)) in
  if was_empty then
    '(idx, p) ← BufPool_acquire p;
    if idx =? invalid_idx then Ok (false, w, p) else
    q ← arr_set (wb_pending_bufs w) (Z.land (wb_pending_tail w) (wb_mask w)) idx;
    append_loop fuel (wb_with_pending w q (wb_pending_head w) (u64 (wb_pending_tail w + 1)))
      p data size was_empty original_tail 0
  else
    idx ← arr_get (wb_pending_bufs w) (Z.land (u64 (wb_pending_tail w - 1)) (wb_mask w));
    original_tail_size ← BufPool_get_data_size p idx;
    append_loop fuel w p data size was_empty original_tail original_tail_size.

(** [for (j = new_head; j != i; ++j) release(pending_bufs_[j & mask_])] *)
Fixpoint release_range (fuel : nat) (w : WriteBufBase) (p : BufPool) (j i : Z) : result BufPool :=
  if j =? i then Ok p else
  match fuel with
  | O => Fault OutOfFuel
  | S fuel =>
      idx ← arr_get (wb_pending_bufs w) (Z.land j (wb_mask w));
      p ← BufPool_release p idx;
      release_range fuel w p (u64 (j + 1)) i
  end.

(** The block loop of [prepend]: [i] runs from [new_head] to [pending_head_]. *)
Fixpoint prepend_loop (fuel : nat) (w : WriteBufBase) (p : BufPool) (data : list byte) (size : Z)
    (new_head i : Z) : result (bool * WriteBufBase * BufPool) :=
  if i =? wb_pending_head w
  then Ok (true, wb_with_pending w (wb_pending_bufs w) new_head (wb_pending_tail w), p) else
  match fuel with
  | O => Fault OutOfFuel
  | S fuel =>
      '(idx, p) ← BufPool_acquire p;
      if idx =? invalid_idx
      then p ← release_range (S (Z.to_nat (wb_capacity w))) w p new_head i; Ok (false, w, p)
      else
        q ← arr_set (wb_pending_bufs w) (Z.land i (wb_mask w)) idx;
        let w := wb_with_pending w q (wb_pending_head w) (wb_pending_tail w) in
        let to_copy := Z.min size (u32 (bp_buf_size p)) in
        d ← read_src data to_copy;
        m ← mem_write (bp_bufs p) (BufPool_buf_addr p idx) d;
        p ← BufPool_set_data_size (bp_with_bufs p m) idx to_copy;
        prepend_loop fuel w p (drop (Z.to_nat to_copy) data) (size - to_copy) new_head (u64 (i + 1))
  end.

Definition WriteBufBase_prepend (w : WriteBufBase) (p : BufPool) (data : list byte) (size : Z)
    : result (bool * WriteBufBase * BufPool) :=
  let block_to_write := u32 (size + bp_buf_size p - 1) / u32 (bp_buf_size p) in
  let pending_count := u64 (wb_pending_tail w - wb_pending_head w) in
  if u64 (u64 (wb_capacity w) - pending_count) <? block_to_write then Ok (false, w, p) else
  let new_head := u64 (wb_pending_head w - block_to_write) in
  prepend_loop (Z.to_nat block_to_write) w p data size new_head new_head.

(** ** The bytes of a list of blocks *)
Definition blk (blks : list (list byte)) (i : Z) : list byte := default [] (blks !! Z.to_nat i).
Definition stream (blks : list (list byte)) (l : list Z) : list byte := l ≫= blk blks.

(** The pool contents after the blocks of [l] were released. *)
Definition clear (l : list Z) (blks : list (list byte)) : list (list byte) :=
  foldl (fun b i => <[Z.to_nat i := []]> b) blks l.

(** The contents of two pools agree on the blocks of [l]. *)
Definition same_on (l : list Z) (blks blks' : list (list byte)) : Prop :=
  ∀ i, i ∈ l → blk blks' i = blk blks i.

Lemma stream_app blks l k : stream blks (l ++ k) = stream blks l ++ stream blks k.
Proof. apply bind_app. Qed.
Lemma stream_cons blks i l : stream blks (i :: l) = blk blks i ++ stream blks l.
Proof. done. Qed.
Lemma stream_single blks i : stream blks [i] = blk blks i.
Proof. unfold stream. simpl. apply app_nil_r. Qed.

Lemma stream_same l blks blks' : same_on l blks blks' → stream blks' l = stream blks l.
Proof.
  intros H. induction l as [|i l IH]; [done|]. rewrite !stream_cons.
  rewrite (H i) by (by left). rewrite IH; [done|]. intros j Hj. apply H. by right.
Qed.

Lemma blk_insert_ne blks i j b : 0 ≤ i → 0 ≤ j → i ≠ j → blk (<[Z.to_nat i := b]> blks) j = blk blks j.
Proof. intros. unfold blk. rewrite list_lookup_insert_ne; [done|lia]. Qed.
Lemma blk_insert_eq blks i b :
  (Z.to_nat i < length blks)%nat → blk (<[Z.to_nat i := b]> blks) i = b.
Proof. intros. unfold blk. by rewrite list_lookup_insert_eq. Qed.

Lemma same_on_refl l blks : same_on l blks blks.
Proof. done. Qed.
Lemma same_on_trans l b1 b2 b3 : same_on l b1 b2 → same_on l b2 b3 → same_on l b1 b3.
Proof. intros H1 H2 i Hi. by rewrite H2, H1. Qed.
Lemma same_on_sub l k b1 b2 : l ⊆ k → same_on k b1 b2 → same_on l b1 b2.
Proof. intros Hs H i Hi. apply H. by apply Hs. Qed.

Lemma same_on_insert l blks i b :
  0 ≤ i → (∀ j, j ∈ l → 0 ≤ j ∧ j ≠ i) → same_on l blks (<[Z.to_nat i := b]> blks).
Proof. intros Hi Hl j Hj. destruct (Hl j Hj). apply blk_insert_ne; lia. Qed.

Lemma same_on_clear l k blks :
  (∀ i, i ∈ l → 0 ≤ i) → (∀ j, j ∈ k → 0 ≤ j ∧ j ∉ l) → same_on k blks (clear l blks).
Proof.
  revert blks. induction l as [|i l IH]; intros blks Hl Hk; [done|]. simpl.
  eapply same_on_trans; [|apply IH].
  - apply same_on_insert; [apply Hl; by left|]. intros j Hj. destruct (Hk j Hj) as [? Hn].
    split; [done|]. intros ->. apply Hn. by left.
  - intros j Hj. apply Hl. by right.
  - intros j Hj. destruct (Hk j Hj) as [? Hn]. split; [done|]. intros ?. apply Hn. by right.
Qed.

(** The number of blocks of [bs] bytes that hold [s] bytes. *)
Definition blocks_for (bs s : Z) : Z := (Z.max 0 s + bs - 1) / bs.

Lemma blocks_for_nonpos bs s : 0 < bs → s ≤ 0 → blocks_for bs s = 0.
Proof. intros. unfold blocks_for. rewrite Z.max_l by lia. apply Z.div_small. lia. Qed.

Lemma blocks_for_pos bs s : 0 < bs → 0 < s → blocks_for bs s = 1 + blocks_for bs (s - bs).
Proof.
  intros. unfold blocks_for. rewrite (Z.max_r 0 s) by lia. destruct (decide (bs ≤ s)).
  - rewrite Z.max_r by lia. rewrite <- (Z.div_add_l 1 bs) by lia. f_equal. lia.
  - rewrite Z.max_l by lia. rewrite (Z.div_small (0 + bs - 1)) by lia.
    symmetry. apply Z.div_unique with (s - 1); lia.
Qed.

Lemma blocks_for_nonneg bs s : 0 < bs → 0 ≤ blocks_for bs s.
Proof. intros. unfold blocks_for. apply Z.div_pos; lia. Qed.

(** [need] more blocks can be taken: the pool has them and the ring has room. *)
Definition fits (cap need nfree npend : Z) : bool := (need <=? nfree) && (npend + need <=? cap).

Lemma fits_0 cap nfree npend : 0 ≤ nfree → npend ≤ cap → fits cap 0 nfree npend = true.
Proof. unfold fits. lia. Qed.
Lemma fits_no cap need nfree npend : nfree < need ∨ cap < npend + need → fits cap need nfree npend = false.
Proof. unfold fits. lia. Qed.
Lemma fits_succ cap need nfree npend : 0 ≤ need →
  fits cap (1 + need) (1 + nfree) npend = fits cap need nfree (npend + 1).
Proof. unfold fits. lia. Qed.

(** ** The abstraction of the buffer together with its pool *)
#[local] Set Implicit Arguments.
Record wb_rep (cap : Z) (w : WriteBufBase) (pend send : list Z) : Prop := {
  wr_cap : wb_capacity w = cap;
  wr_mask : wb_mask w = cap - 1;
  wr_pos : 0 < cap < 2 ^ 31;
  wr_pend : ring_ok 64 (wb_pending_bufs w) (wb_mask w) (wb_pending_head w) (wb_pending_tail w) pend;
  wr_send : ring_ok 64 (wb_send_queue w) (wb_mask w) (wb_send_head w) (wb_send_tail w) send
}.
#[local] Unset Implicit Arguments.

(** [pend] and [send] are this channel's blocks, [frame] the blocks of every
    other owner; together with the free list they are all the blocks. *)
#[local] Set Implicit Arguments.
Record wbp (n bs cap : Z) (w : WriteBufBase) (p : BufPool) (pend send frame free : list Z)
    (blks : list (list byte)) : Prop := {
  wbp_wb : wb_rep cap w pend send;
  wbp_pool : pool_rep n bs p free blks;
  wbp_perm : free ++ pend ++ send ++ frame ≡ₚ seqZ 0 n
}.
#[local] Unset Implicit Arguments.

Section spec.
Context (n bs cap : Z).

Lemma perm_held (l r : list Z) i : l ++ r ≡ₚ seqZ 0 n → i ∈ r → 0 ≤ i < n ∧ i ∉ l.
Proof.
  intros Hp Hi. split.
  - assert (i ∈ seqZ 0 n) as Hz%elem_of_seqZ; [|lia]. rewrite <- Hp. apply elem_of_app. by right.
  - intros Hl. assert (NoDup (l ++ r)) as Hn by (rewrite Hp; apply NoDup_seqZ).
    apply NoDup_app in Hn as (_ & Hd & _). by apply (Hd i).
Qed.

Lemma pool_blk p free blks i :
  pool_rep n bs p free blks → 0 ≤ i < n → blks !! Z.to_nat i = Some (blk blks i).
Proof.
  intros H Hi. pose proof (pr_blen H). unfold blk.
  destruct (lookup_lt_is_Some_2 blks (Z.to_nat i)) as [b ->]; [lia|done].
Qed.

Lemma wb_capacity_u64 w pend send : wb_rep cap w pend send → u64 (wb_capacity w) = cap.
Proof. intros [-> _ ? _ _]. apply u64_small. lia. Qed.

Lemma wb_pend_le w pend send : wb_rep cap w pend send → Z.of_nat (length pend) ≤ cap.
Proof. intros [_ Hm _ Hr _]. pose proof (rk_cap Hr). lia. Qed.

Lemma wb_rep_pending w pend send q h t pend' :
  wb_rep cap w pend send → ring_ok 64 q (wb_mask w) h t pend' →
  wb_rep cap (wb_with_pending w q h t) pend' send.
Proof. intros [? ? ? ? ?] ?. by split. Qed.

Lemma release_pending_spec fuel : ∀ w p pend send r free blks,
  wb_rep cap w pend send → pool_rep n bs p free blks → free ++ pend ++ r ≡ₚ seqZ 0 n →
  (length pend ≤ fuel)%nat →
  ∃ w' p', release_pending fuel w p = Ok (w', p') ∧ wb_rep cap w' [] send ∧
    pool_rep n bs p' (free ++ pend) (clear pend blks).
Proof.
  induction fuel as [|fuel IH]; intros w p pend send r free blks Hw Hp Hperm Hf; simpl.
  all: rewrite (ring_eqb _ _ _ _ _ _ (wr_pend Hw)).
  all: case_bool_decide as Hnil; [subst; rewrite app_nil_r; eauto|].
  { destruct pend; [done|simpl in Hf; lia]. }
  destruct pend as [|i pend]; [done|]. simpl in *.
  rewrite (ring_first _ _ _ _ _ _ _ (wr_pend Hw)). simpl.
  destruct (perm_held _ _ i Hperm) as [Hi Hni]; [by left|].
  destruct (pool_release _ _ _ _ _ i Hp Hi Hni) as (p1 & -> & Hp1). simpl.
  replace (free ++ i :: pend) with ((free ++ [i]) ++ pend) by (by rewrite <- (assoc_L (++))).
  eapply IH; [|done| |lia].
  - eapply wb_rep_pending; [done|]. eapply (ring_pop 64), wr_pend, Hw.
  - rewrite <- (assoc_L (++)). exact Hperm.
Qed.

Lemma release_back_spec new : ∀ fuel w p pend0 send r free blks ot,
  wb_rep cap w (pend0 ++ new) send → pool_rep n bs p free blks →
  free ++ new ++ r ≡ₚ seqZ 0 n →
  ot = u64 (wb_pending_tail w - Z.of_nat (length new)) → (length new ≤ fuel)%nat →
  ∃ w' p', release_back fuel w p ot = Ok (w', p') ∧ wb_rep cap w' pend0 send ∧
    pool_rep n bs p' (free ++ reverse new) (clear (reverse new) blks).
Proof.
  induction new as [|i new IH] using rev_ind; intros fuel w p pend0 send r free blks ot Hw Hp Hperm Hot Hf.
  - rewrite app_nil_r in Hw. rewrite app_nil_r. exists w, p.
    pose proof (rk_tail (wr_pend Hw)).
    rewrite Z.sub_0_r in Hot. unfold u64 in Hot. rewrite Z.mod_small in Hot by lia. subst ot.
    split; [|done]. destruct fuel; simpl; by rewrite Z.eqb_refl.
  - rewrite length_app in *. simpl in *.
    destruct fuel as [|fuel]; [lia|]. simpl.
    pose proof (wr_pend Hw) as Hr. pose proof (wb_pend_le _ _ _ Hw) as Hle.
    pose proof (wr_pos Hw) as Hcap. rewrite !length_app in Hle. simpl in Hle.
    pose proof (rk_tail Hr) as Ht.
    destruct (wb_pending_tail w =? ot) eqn:E; bools.
    { exfalso. apply (u64_sub_ne (wb_pending_tail w) (Z.of_nat (length new + 1))); [done|lia|].
      congruence. }
    rewrite (assoc_L (++)) in Hr.
    pose proof (ring_last _ _ _ _ _ _ _ Hr) as Hlast.
    fold (u64 (wb_pending_tail w - 1)) in Hlast. rewrite Hlast. simpl.
    rewrite (assoc_L (++)), (comm (++) new [i]), <- !(assoc_L (++)) in Hperm.
    destruct (perm_held _ _ i Hperm) as [Hi Hni]; [by left|].
    destruct (pool_release _ _ _ _ _ i Hp Hi Hni) as (p1 & -> & Hp1). simpl.
    rewrite reverse_app. simpl.
    replace (free ++ i :: reverse new) with ((free ++ [i]) ++ reverse new)
      by (by rewrite <- (assoc_L (++))).
    eapply IH; [|done| | |lia].
    + eapply wb_rep_pending; [done|]. eapply (ring_pop_back 64), Hr.
    + rewrite <- (assoc_L (++)). exact Hperm.
    + simpl. subst ot. unfold u64. rewrite mod_shift_l by lia. f_equal. lia.
Qed.

(** *** append

    The state between two iterations of the loop: the call found [pend0], the
    free list [free0] and the contents [blks0]; it has taken [new] from the
    free list and only extended the last block of [pend0]. *)
#[local] Set Implicit Arguments.
Record app_inv (pend0 send frame free0 : list Z) (blks0 : list (list byte))
    (new free : list Z) (blks : list (list byte)) (w : WriteBufBase) (p : BufPool)
    (we : bool) (ot osz : Z) : Prop := {
  ai_wbp : wbp n bs cap w p (pend0 ++ new) send frame free blks;
  ai_ot : ot = u64 (wb_pending_tail w - Z.of_nat (length new));
  ai_we : we = bool_decide (pend0 = []);
  ai_free : free0 = new ++ free;
  ai_same : ∀ i, i ∈ pend0 ++ send ++ frame → last pend0 ≠ Some i → blk blks i = blk blks0 i;
  ai_last : ∀ x, last pend0 = Some x →
    osz = Z.of_nat (length (blk blks0 x)) ∧ blk blks0 x `prefix_of` blk blks x
}.
#[local] Unset Implicit Arguments.
Arguments ai_same {_ _ _ _ _ _ _ _ _ _ _ _ _} _ _.
Arguments ai_last {_ _ _ _ _ _ _ _ _ _ _ _ _} _ _.

Lemma wbp_nodup w p pend send frame free blks :
  wbp n bs cap w p pend send frame free blks → NoDup (free ++ pend ++ send ++ frame).
Proof. intros H. rewrite (wbp_perm H). apply NoDup_seqZ. Qed.

Lemma wbp_held w p pend send frame free blks i :
  wbp n bs cap w p pend send frame free blks → i ∈ pend ++ send ++ frame →
  0 ≤ i < n ∧ (i ∉ free) ∧ blks !! Z.to_nat i = Some (blk blks i).
Proof.
  intros H Hi. destruct (perm_held _ _ i (wbp_perm H) Hi).
  split_and!; [lia..|done|]. eapply pool_blk; [apply H|done].
Qed.

(** Two owned lists are disjoint. *)
Lemma wbp_disjoint w p pend send frame free blks i j :
  wbp n bs cap w p pend send frame free blks → i ∈ pend → j ∈ send ++ frame → i ≠ j.
Proof.
  intros H Hi Hj ->. pose proof (wbp_nodup _ _ _ _ _ _ _ H) as (_ & _ & Hn)%NoDup_app.
  apply NoDup_app in Hn as (_ & Hd & _). by apply (Hd j).
Qed.

(** Behind the blocks a failed append has added lies the block it extended. *)
Lemma rollback_index pend0 new send frame free blks w p init x :
  wbp n bs cap w p (pend0 ++ new) send frame free blks → pend0 = init ++ [x] →
  arr_get (wb_pending_bufs w) (Z.land (u64 (u64 (wb_pending_tail w - Z.of_nat (length new)) - 1)) (wb_mask w)) = Ok x.
Proof.
  intros Hwbp Hinit. pose proof (wr_pend (wbp_wb Hwbp)) as Hr.
  assert (Hix : (pend0 ++ new) !! length init = Some x).
  { rewrite Hinit, <- (assoc_L (++)), lookup_app_r, Nat.sub_diag by done. done. }
  rewrite <- (ring_nth _ _ _ _ _ _ _ _ Hr Hix). f_equal.
  apply (cell_cong _ _ _ _ _ _ _ _ Hr). unfold u64.
  rewrite !Z.mod_mod by lia. rewrite mod_shift_l by lia.
  pose proof (rk_len Hr) as Hlen. rewrite Hinit in Hlen. len.
  rewrite (Zplus_mod (wb_pending_head w)).
  replace (Z.of_nat (length init)) with
    ((wb_pending_tail w - wb_pending_head w) mod 2 ^ 64 - Z.of_nat (length new + 1)) by lia.
  rewrite mod_shift_l by lia. rewrite <- Zplus_mod. f_equal. lia.
Qed.

(** The size of that block is restored. *)
Lemma rollback_restores pend0 send frame free0 blks0 new free blks w p we ot osz :
  app_inv pend0 send frame free0 blks0 new free blks w p we ot osz →
  ∃ p1 blks1, (if negb we
       then idx ← arr_get (wb_pending_bufs w) (Z.land (u64 (ot - 1)) (wb_mask w));
            BufPool_set_data_size p idx osz
       else Ok p) = Ok p1 ∧ pool_rep n bs p1 free blks1 ∧ same_on (pend0 ++ send ++ frame) blks0 blks1.
Proof.
  intros [Hwbp -> -> Hfree Hsame Hlast]. case_bool_decide as Hnil; simpl.
  { exists p, blks. split; [done|]. split; [apply Hwbp|]. intros i Hi. apply Hsame; [done|]. by subst pend0. }
  destruct (last pend0) as [x|] eqn:Hl; [|by apply last_None in Hl].
  apply last_Some in Hl as Hl'. destruct Hl' as [init Hinit]. destruct (Hlast x eq_refl) as [-> Hpre].
  rewrite (rollback_index _ _ _ _ _ _ _ _ _ _ Hwbp Hinit). simpl.
  assert (x ∈ pend0) by (rewrite Hinit; elt).
  destruct (wbp_held _ _ _ _ _ _ _ x Hwbp) as (Hxr & Hxf & Hxb); [elt|].
  destruct (pool_truncate_block n bs p free blks x (blk blks x) (Z.of_nat (length (blk blks0 x)))) as (p1 & -> & Hp1);
    [apply Hwbp|lia|done|done|apply prefix_length in Hpre; lia|].
  exists p1, (<[Z.to_nat x:=take (Z.to_nat (Z.of_nat (length (blk blks0 x)))) (blk blks x)]> blks).
  split; [done|]. split; [done|]. intros i Hi. destruct (decide (i = x)) as [->|Hne].
  - rewrite blk_insert_eq by (by apply lookup_lt_Some in Hxb).
    rewrite Nat2Z.id. destruct Hpre as [k ->]. by rewrite take_app_length.
  - rewrite blk_insert_ne; [apply Hsame; [done|congruence]|lia| |done].
    destruct (wbp_held _ _ _ _ _ _ _ i Hwbp); [elt|lia].
Qed.

Lemma append_rollback_spec pend0 send frame free0 blks0 new free blks w p we ot osz :
  app_inv pend0 send frame free0 blks0 new free blks w p we ot osz →
  ∃ w' p' free' blks', append_rollback w p we ot osz = Ok (false, w', p') ∧
    wbp n bs cap w' p' pend0 send frame free' blks' ∧ free' ≡ₚ free0 ∧
    same_on (pend0 ++ send ++ frame) blks0 blks'.
Proof.
  intros Hinv. destruct (rollback_restores _ _ _ _ _ _ _ _ _ _ _ _ _ Hinv) as (p1 & blks1 & E & Hp1 & Hs1).
  destruct Hinv as [Hwbp Hot Hwe Hfree Hsame Hlast]. unfold append_rollback. rewrite E.
  step.
  assert (Hperm : free ++ new ++ pend0 ++ send ++ frame ≡ₚ seqZ 0 n).
  { rewrite <- (wbp_perm Hwbp). solve_Permutation. }
  destruct (release_back_spec new (S (Z.to_nat (wb_capacity w))) w p1 pend0 send
    (pend0 ++ send ++ frame) free blks1 ot) as (w' & p' & -> & Hw' & Hp'); [apply Hwbp|done|done|done| |].
  { pose proof (wb_pend_le _ _ _ (wbp_wb Hwbp)). len.
    rewrite (wr_cap (wbp_wb Hwbp)). lia. }
  simpl. exists w', p', (free ++ reverse new), (clear (reverse new) blks1).
  split; [done|]. split; [split; [done|done|]|split].
  - rewrite <- (wbp_perm Hwbp). rewrite reverse_Permutation. solve_Permutation.
  - subst free0. rewrite reverse_Permutation. apply (comm (++)).
  - eapply same_on_trans; [done|]. apply same_on_clear.
    + intros i Hi. rewrite elem_of_reverse in Hi. apply (wbp_held _ _ _ _ _ _ _ i Hwbp). elt.
    + intros j Hj. split; [apply (wbp_held _ _ _ _ _ _ _ j Hwbp); elt|].
      rewrite elem_of_reverse.
      assert (NoDup (new ++ pend0 ++ send ++ frame)) as Hn.
      { assert (NoDup (free ++ new ++ pend0 ++ send ++ frame)) as Hn by (rewrite Hperm; apply NoDup_seqZ).
        by apply NoDup_app in Hn as (_ & _ & ?). }
      apply NoDup_app in Hn as (_ & Hd & _). intros Hjn. by apply (Hd j).
Qed.

(** Writing into the last pending block. *)
Lemma app_inv_write pend0 send frame free0 blks0 new free blks w p we ot osz init x d :
  app_inv pend0 send frame free0 blks0 new free blks w p we ot osz →
  pend0 ++ new = init ++ [x] →
  Z.of_nat (length (blk blks x)) + Z.of_nat (length d) ≤ bs →
  ∃ m p', mem_write (bp_bufs p) (BufPool_buf_addr p x + Z.of_nat (length (blk blks x))) d = Ok m ∧
    BufPool_set_data_size (bp_with_bufs p m) x
      (Z.of_nat (length (blk blks x)) + Z.of_nat (length d)) = Ok p' ∧
    let blks' := <[Z.to_nat x := blk blks x ++ d]> blks in
    app_inv pend0 send frame free0 blks0 new free blks' w p' we ot osz ∧
    stream blks' (init ++ [x]) = stream blks (init ++ [x]) ++ d ∧ blk blks' x = blk blks x ++ d.
Proof.
  intros [Hwbp Hot Hwe Hfree Hsame Hlast] Hx Hfit.
  assert (Hxin : x ∈ pend0 ++ new) by (rewrite Hx; elt).
  destruct (wbp_held _ _ _ _ _ _ _ x Hwbp) as (Hxr & Hxf & Hxb); [elt|].
  destruct (pool_append_block n bs p free blks x (blk blks x) d) as (m & p' & Hm & Hp & Hp');
    [apply Hwbp|lia|done..|].
  exists m, p'. split; [done|]. split; [done|].
  assert (Hbx : blk (<[Z.to_nat x := blk blks x ++ d]> blks) x = blk blks x ++ d).
  { apply blk_insert_eq. by apply lookup_lt_Some in Hxb. }
  assert (Hbo : ∀ i, i ∈ pend0 ++ new ++ send ++ frame → i ≠ x →
    blk (<[Z.to_nat x := blk blks x ++ d]> blks) i = blk blks i).
  { intros i Hi Hne. apply blk_insert_ne; [lia| |done].
    apply (wbp_held _ _ _ _ _ _ _ i Hwbp). elt. }
  assert (Hnd : NoDup (init ++ [x])).
  { rewrite <- Hx. pose proof (wbp_nodup _ _ _ _ _ _ _ Hwbp) as (_ & _ & Hn)%NoDup_app.
    by apply NoDup_app in Hn as (? & _ & _). }
  split_and!; [|..|done].
  - split; try done.
    + destruct Hwbp. by split.
    + intros i Hi Hne. destruct (decide (i = x)) as [->|Hix]; [|rewrite Hbo; [auto|elt|done]].
      exfalso.
      assert (x ∈ new ∨ last pend0 = Some x) as [Hn|?]; [| |by apply Hne].
      { destruct new as [|y new'] using rev_ind.
        - right. rewrite app_nil_r in Hx. rewrite Hx. apply last_snoc.
        - left. rewrite (assoc_L (++)) in Hx. apply app_inj_tail in Hx as [_ ->]. elt. }
      pose proof (wbp_nodup _ _ _ _ _ _ _ Hwbp) as (_ & _ & Hnn)%NoDup_app.
      rewrite <- (assoc_L (++)) in Hnn. apply NoDup_app in Hnn as (_ & Hd1 & Hnn).
      apply NoDup_app in Hnn as (_ & Hd2 & _).
      rewrite !elem_of_app in Hi.
      destruct Hi as [Hi|[Hi|Hi]];
        [apply (Hd1 x Hi); elt|apply (Hd2 x Hn); elt|apply (Hd2 x Hn); elt].
    + intros y Hy. destruct (Hlast y Hy) as [Ho Hpre]. split; [done|].
      destruct (decide (y = x)) as [->|Hyx].
      * rewrite Hbx. by apply prefix_app_r.
      * rewrite Hbo; [done| |done]. apply last_Some in Hy as [l' ->]. elt.
  - rewrite !stream_app, !stream_single, Hbx, (assoc_L (++)). f_equal. f_equal.
    apply stream_same. intros i Hi. apply Hbo.
    + assert (i ∈ pend0 ++ new) by (rewrite Hx; elt). elt.
    + intros ->. apply NoDup_app in Hnd as (_ & Hd & _). apply (Hd x Hi). elt.
Qed.

(** Taking the next free block into the pending ring. *)
Lemma app_inv_acquire pend0 send frame free0 blks0 new free blks w p we ot osz i :
  app_inv pend0 send frame free0 blks0 new (i :: free) blks w p we ot osz →
  Z.of_nat (length (pend0 ++ new)) < cap →
  ∃ p' q, BufPool_acquire p = Ok (i, p') ∧ i ≠ invalid_idx ∧
    arr_set (wb_pending_bufs w) (Z.land (wb_pending_tail w) (wb_mask w)) i = Ok q ∧
    app_inv pend0 send frame free0 blks0 (new ++ [i]) free blks
      (wb_with_pending w q (wb_pending_head w) (u64 (wb_pending_tail w + 1))) p' we ot osz ∧
    blk blks i = [] ∧ bp_buf_size p' = bs.
Proof.
  intros [Hwbp Hot Hwe Hfree Hsame Hlast] Hroom.
  destruct (pool_acquire_some n bs p i free blks) as (p' & Hacq & Hp' & Hi & Hni & Hinv & Hb);
    [apply Hwbp|].
  pose proof (wbp_wb Hwbp) as Hw.
  destruct (ring_push _ _ _ _ _ _ i (wr_pend Hw)) as (q & Hq & _ & Hr).
  { rewrite (wr_mask Hw). lia. }
  exists p', q. split_and!; [done..| | |apply Hp'].
  - split; try done.
    + split; [|done|].
      * rewrite (assoc_L (++)). by eapply wb_rep_pending.
      * rewrite <- (wbp_perm Hwbp). solve_Permutation.
    + simpl. subst ot. unfold u64. rewrite mod_shift_l by lia. f_equal. len.
    + by rewrite Hfree, <- (assoc_L (++)).
  - unfold blk. by rewrite Hb.
Qed.

(** What a call of [append] promises: [ok] tells whether it succeeded. *)
Record append_post (pend0 send frame free0 : list Z) (blks0 : list (list byte)) (target : list byte)
    (ok : bool) (w' : WriteBufBase) (p' : BufPool)
    (pend' free' : list Z) (blks' : list (list byte)) : Prop := {
  ap_wbp : wbp n bs cap w' p' pend' send frame free' blks';
  ap_same : same_on (send ++ frame) blks0 blks';
  ap_ok : ok = true → stream blks' pend' = target ∧ ∃ more, pend' = pend0 ++ more ∧ free0 = more ++ free';
  ap_fail : ok = false → pend' = pend0 ∧ same_on pend0 blks0 blks' ∧ free' ≡ₚ free0
}.

Lemma append_loop_done fuel w p data we ot osz :
  append_loop fuel w p data 0 we ot osz = Ok (true, w, p).
Proof. by destruct fuel. Qed.

Lemma app_inv_post pend0 send frame free0 blks0 new free blks w p we ot osz :
  app_inv pend0 send frame free0 blks0 new free blks w p we ot osz →
  append_post pend0 send frame free0 blks0 (stream blks (pend0 ++ new)) true w p
    (pend0 ++ new) free blks.
Proof.
  intros [Hwbp Hot Hwe Hfree Hsame Hlast]. split; try done.
  - intros i Hi. apply Hsame; [elt|]. intros Hl. apply last_Some in Hl as [l ->].
    eapply (wbp_disjoint _ _ _ _ _ _ _ i i Hwbp); [elt|done|done].
  - intros _. split; [done|]. eauto.
Qed.

Lemma rollback_post pend0 send frame free0 blks0 new free blks w p we ot osz target :
  app_inv pend0 send frame free0 blks0 new free blks w p we ot osz →
  ∃ w' p' pend' free' blks', append_rollback w p we ot osz = Ok (false, w', p') ∧
    append_post pend0 send frame free0 blks0 target false w' p' pend' free' blks'.
Proof.
  intros H. destruct (append_rollback_spec _ _ _ _ _ _ _ _ _ _ _ _ _ H)
    as (w' & p' & free' & blks' & Hrun & Hwbp & Hf & Hs).
  exists w', p', pend0, free', blks'. split; [done|]. split; try done.
  - eapply same_on_sub; [|done]. intros i. elt.
  - intros _. split_and!; try done. eapply same_on_sub; [|done]. intros i. elt.
Qed.

(** The blocks after a successful call: [need] more than the [len] of before,
    and none empty, under the condition [full] on the blocks of before. *)
Definition block_post (ok : bool) (need : Z) (len : nat) (full : Prop) (pend' : list Z) (blks' : list (list byte)) : Prop :=
  ok = true → Z.of_nat (length pend') = Z.of_nat len + need ∧ (full → ∀ i, i ∈ pend' → blk blks' i ≠ []).

Lemma blk_nonempty (blks : list (list byte)) i : Z.of_nat (length (blk blks i)) ≠ 0 → blk blks i ≠ [].
Proof. intros H E. by rewrite E in H. Qed.

(** What [append_loop] guarantees with [fuel]. *)
Definition append_loop_ok (pend0 send frame free0 : list Z) blks0 we ot osz (fuel : nat) : Prop :=
  ∀ new free blks w p data size init x,
  app_inv pend0 send frame free0 blks0 new free blks w p we ot osz →
  pend0 ++ new = init ++ [x] → size = Z.of_nat (length data) → size < 2 ^ 32 →
  (Z.to_nat size + (if decide (Z.of_nat (length (blk blks x)) = bs) then 1 else 0) ≤ fuel)%nat →
  ∃ ok w' p' pend' free' blks',
    append_loop fuel w p data size we ot osz = Ok (ok, w', p') ∧
    append_post pend0 send frame free0 blks0 (stream blks (pend0 ++ new) ++ data) ok w' p' pend' free' blks' ∧
    ok = fits cap (blocks_for bs (size - (bs - Z.of_nat (length (blk blks x)))))
           (Z.of_nat (length free)) (Z.of_nat (length (pend0 ++ new))) ∧
    block_post ok (blocks_for bs (size - (bs - Z.of_nat (length (blk blks x))))) (length (pend0 ++ new))
      ((∀ i, i ∈ pend0 ++ new → i ≠ x → blk blks i ≠ []) ∧ (blk blks x ≠ [] ∨ 0 < size)) pend' blks'.

(** Growing by one block when bytes remain and the last block is full. *)
Lemma append_grow pend0 send frame free0 blks0 we ot osz fuel :
  append_loop_ok pend0 send frame free0 blks0 we ot osz fuel → ∀ new free w p blks data size,
  app_inv pend0 send frame free0 blks0 new free blks w p we ot osz →
  size = Z.of_nat (length data) → 0 < size < 2 ^ 32 → (Z.to_nat size ≤ fuel)%nat →
  ∃ ok w' p' pend' free' blks',
    (if u64 (wb_capacity w) <=? u64 (wb_pending_tail w - wb_pending_head w)
     then append_rollback w p we ot osz
     else
       '(idx, p) ← BufPool_acquire p;
       if idx =? invalid_idx then append_rollback w p we ot osz
       else
         q ← arr_set (wb_pending_bufs w) (Z.land (wb_pending_tail w) (wb_mask w)) idx;
         append_loop fuel (wb_with_pending w q (wb_pending_head w) (u64 (wb_pending_tail w + 1)))
           p data size we ot osz) = Ok (ok, w', p') ∧
    append_post pend0 send frame free0 blks0 (stream blks (pend0 ++ new) ++ data) ok w' p' pend' free' blks' ∧
    ok = fits cap (blocks_for bs size) (Z.of_nat (length free)) (Z.of_nat (length (pend0 ++ new))) ∧
    block_post ok (blocks_for bs size) (length (pend0 ++ new)) (∀ i, i ∈ pend0 ++ new → blk blks i ≠ []) pend' blks'.
Proof.
  intros IH new free w p blks data size Hinv Hsz Hr Hfuel.
  pose proof (ai_wbp Hinv) as Hwbp.
  pose proof (wbp_pool Hwbp) as Hp. pose proof (wbp_wb Hwbp) as Hw.
  pose proof (pr_pos Hp) as Hbs.
  pose proof (blocks_for_pos bs size Hbs ltac:(lia)) as Hbf.
  pose proof (blocks_for_nonneg bs (size - bs) Hbs) as Hnn.
  rewrite (wb_capacity_u64 _ _ _ Hw).
  replace (u64 (wb_pending_tail w - wb_pending_head w)) with (Z.of_nat (length (pend0 ++ new)))
    by apply (wr_pend Hw).
  case_test.
  { destruct (rollback_post _ _ _ _ _ _ _ _ _ _ _ _ _ (stream blks (pend0 ++ new) ++ data) Hinv)
      as (w' & p' & pend' & free' & blks' & -> & Hpost).
    eexists _, _, _, _, _, _. split; [done|]. split; [done|].
    split; [|done]. symmetry. apply fits_no. lia. }
  destruct free as [|i free].
  { rewrite (pool_acquire_none n bs p blks) by apply Hinv. step. rewrite Z.eqb_refl.
    destruct (rollback_post _ _ _ _ _ _ _ _ _ _ _ _ _ (stream blks (pend0 ++ new) ++ data) Hinv)
      as (w' & p' & pend' & free' & blks' & -> & Hpost).
    eexists _, _, _, _, _, _. split; [done|]. split; [done|].
    split; [|done]. symmetry. apply fits_no. simpl. lia. }
  destruct (app_inv_acquire _ _ _ _ _ _ _ _ _ _ _ _ _ _ Hinv ltac:(lia))
    as (p1 & q & -> & Hiv & Hset & Hinv1 & Hbi & _). step.
  rewrite (proj2 (Z.eqb_neq _ _)) by done. rewrite Hset. step.
  destruct (IH (new ++ [i]) free blks (wb_with_pending w q (wb_pending_head w)
     (u64 (wb_pending_tail w + 1))) p1 data size (pend0 ++ new) i Hinv1)
    as (ok & w' & p' & pend' & free' & blks' & -> & Hpost & Hok & Hbl);
    [by rewrite (assoc_L (++))|done|lia| |].
  { rewrite Hbi. rewrite decide_False by (simpl; lia). lia. }
  eexists _, _, _, _, _, _. split; [done|]. split.
  - rewrite (assoc_L (++)), (stream_app _ (pend0 ++ new)), stream_single, Hbi, app_nil_r in Hpost. done.
  - rewrite Hbi in Hok, Hbl. simpl length in Hok, Hbl. rewrite Z.sub_0_r in Hok, Hbl.
    rewrite (assoc_L (++)), (length_app (pend0 ++ new)) in Hok, Hbl. simpl length in Hok, Hbl. split.
    + rewrite Hok, Hbf. replace (Z.of_nat (length (i :: free))) with (1 + Z.of_nat (length free)) by (simpl; lia).
      rewrite fits_succ by done. f_equal. lia.
    + intros Ht. destruct (Hbl Ht) as [Hlen Hfull]. split; [lia|]. intros Hne. apply Hfull.
      split; [|right; lia]. intros j [Hj|Hj%list_elem_of_singleton]%elem_of_app Hji; [by apply Hne|done].
Qed.

(** Nothing is left to copy. *)
Lemma append_loop_zero pend0 send frame free0 blks0 we ot osz fuel new free blks w p init x :
  app_inv pend0 send frame free0 blks0 new free blks w p we ot osz → pend0 ++ new = init ++ [x] →
  Z.of_nat (length (blk blks x)) ≤ bs →
  ∃ ok w' p' pend' free' blks',
    append_loop fuel w p [] 0 we ot osz = Ok (ok, w', p') ∧
    append_post pend0 send frame free0 blks0 (stream blks (pend0 ++ new) ++ []) ok w' p' pend' free' blks' ∧
    ok = fits cap (blocks_for bs (0 - (bs - Z.of_nat (length (blk blks x)))))
           (Z.of_nat (length free)) (Z.of_nat (length (pend0 ++ new))) ∧
    block_post ok (blocks_for bs (0 - (bs - Z.of_nat (length (blk blks x))))) (length (pend0 ++ new))
      ((∀ i, i ∈ pend0 ++ new → i ≠ x → blk blks i ≠ []) ∧ (blk blks x ≠ [] ∨ 0 < 0)) pend' blks'.
Proof.
  intros Hinv Hx Hle. pose proof (ai_wbp Hinv) as Hwbp.
  pose proof (wbp_wb Hwbp) as Hw. pose proof (pr_pos (wbp_pool Hwbp)).
  rewrite append_loop_done, app_nil_r. eexists _, _, _, _, _, _. split; [done|]. split; [by eapply app_inv_post|].
  rewrite blocks_for_nonpos by lia. split; [symmetry; apply fits_0; [lia|by eapply wb_pend_le]|].
  intros _. split; [lia|]. intros [Hne [Hxn|?]] i Hi; [|lia]. destruct (decide (i = x)) as [->|]; auto.
Qed.

(** Bytes added to the last block leave no block empty. *)
Lemma full_after_write pend send frame free blks w p x d :
  wbp n bs cap w p pend send frame free blks → x ∈ pend → d ≠ [] →
  (∀ i, i ∈ pend → i ≠ x → blk blks i ≠ []) →
  ∀ i, i ∈ pend → blk (<[Z.to_nat x := blk blks x ++ d]> blks) i ≠ [].
Proof.
  intros Hwbp Hx Hd Hne i Hi. destruct (wbp_held _ _ _ _ _ _ _ x Hwbp) as (Hxr & _ & Hxb); [elt|].
  destruct (decide (i = x)) as [->|Hix].
  - rewrite blk_insert_eq by (by eapply lookup_lt_Some). by intros [_ ?]%app_eq_nil.
  - rewrite blk_insert_ne; [by apply Hne|lia| |done]. apply (wbp_held _ _ _ _ _ _ _ i Hwbp). elt.
Qed.

Lemma append_loop_spec pend0 send frame free0 blks0 we ot osz fuel :
  append_loop_ok pend0 send frame free0 blks0 we ot osz fuel.
Proof.
  induction fuel as [|fuel IH]; intros new free blks w p data size init x Hinv Hx Hsz Hlt Hfuel.
  all: pose proof (ai_wbp Hinv) as Hwbp.
  all: pose proof (wbp_pool Hwbp) as Hp; pose proof (wbp_wb Hwbp) as Hw.
  all: pose proof (pr_pos Hp) as Hbs; pose proof (pr_total Hp) as Htot.
  all: destruct (wbp_held _ _ _ _ _ _ _ x Hwbp) as (Hxr & Hxf & Hxb); [rewrite Hx; elt|].
  all: destruct (pool_block _ _ _ _ _ x _ Hp ltac:(lia) Hxb) as (_ & _ & Hxl & _).
  all: destruct (decide (size = 0)) as [->|Hpos].
  1,3: destruct data; [|simpl in *; lia]; by eapply append_loop_zero.
  { lia. }
  cbn [append_loop]. rewrite (proj2 (Z.ltb_lt _ _)) by lia. step.
  pose proof (wr_pend Hw) as Hr. rewrite Hx in Hr.
  pose proof (ring_last _ _ _ _ _ _ _ Hr) as Hl. fold (u64 (wb_pending_tail w - 1)) in Hl.
  rewrite Hl. step. rewrite (pool_get_data_size _ _ _ _ _ x _ Hp ltac:(lia) Hxb). step.
  rewrite (pr_bs Hp). set (c := Z.of_nat (length (blk blks x))) in *.
  assert (bs < 2 ^ 31) by nia.
  rewrite (u32_small (bs - c)) by lia.
  destruct (decide (c = bs)) as [Hc|Hc].
  { (* the last block is full: nothing is copied *)
    replace (bs - c) with 0 by lia. rewrite Z.min_l, Z.ltb_irrefl by lia. step.
    rewrite (proj2 (Z.ltb_lt 0 size)) by lia.
    destruct (append_grow _ _ _ _ _ we ot osz fuel IH new free w p blks data size Hinv Hsz) as (ok & w' & p' & pend' & free' & blks' & -> & Hpost & Hok & Hbl);
      [lia|lia|].
    eexists _, _, _, _, _, _. split; [done|]. split; [done|]. rewrite Z.sub_0_r. split; [done|].
    intros Ht. destruct (Hbl Ht) as [Hlen Hfull]. split; [done|]. intros [Hne _]. apply Hfull. intros i Hi.
    destruct (decide (i = x)) as [->|]; [apply blk_nonempty; fold c; lia|auto]. }
  set (k := Z.min (bs - c) size).
  assert (0 < k ≤ size ∧ k ≤ bs - c ∧ (k = size ∨ k = bs - c)) as (Hk0 & Hk1 & Hk2) by (unfold k; lia).
  clearbody k.
  rewrite (proj2 (Z.ltb_lt 0 k)) by lia. unfold read_src.
  rewrite (proj2 (Z.leb_le k _)) by lia. step.
  assert (Hkl : Z.of_nat (length (take (Z.to_nat k) data)) = k) by (rewrite length_take; lia).
  destruct (app_inv_write _ _ _ _ _ _ _ _ _ _ _ _ _ _ _ (take (Z.to_nat k) data) Hinv Hx)
    as (m & p1 & Hm & Hsd & Hinv1 & Hst & Hbx); [fold c; lia|].
  fold c in Hm, Hsd. rewrite Hm. step. rewrite Hkl in Hsd. rewrite u32_small by lia. rewrite Hsd. step.
  rewrite <- Hx in Hst.
  assert (Hfull := full_after_write _ _ _ _ _ _ _ x (take (Z.to_nat k) data) Hwbp ltac:(rewrite Hx; elt)
    ltac:(intros E; rewrite E in Hkl; simpl in Hkl; lia)).
  destruct (decide (k = size)) as [Hk|Hk].
  { (* all bytes fit *)
    rewrite (proj2 (Z.ltb_ge _ _)) by lia. rewrite Hk, Z.sub_diag, append_loop_done.
    eexists _, _, _, _, _, _. split; [done|]. split.
    - pose proof (app_inv_post _ _ _ _ _ _ _ _ _ _ _ _ _ Hinv1) as Hpost.
      rewrite Hst, take_ge in Hpost by lia. done.
    - rewrite blocks_for_nonpos by lia. split; [symmetry; apply fits_0; [lia|by eapply wb_pend_le]|].
      intros _. split; [lia|]. intros [Hne _]. specialize (Hfull Hne). by rewrite (take_ge data) in Hfull by lia. }
  rewrite (proj2 (Z.ltb_lt _ _)) by lia.
  destruct (append_grow _ _ _ _ _ we ot osz fuel IH new free w p1 _ (drop (Z.to_nat k) data) (size - k) Hinv1)
    as (ok & w' & p' & pend' & free' & blks' & -> & Hpost & Hok & Hbl); [len|lia|lia|].
  replace (size - (bs - c)) with (size - k) by lia.
  eexists _, _, _, _, _, _. split; [done|]. split.
  - rewrite Hst, <- (assoc_L (++)), take_drop in Hpost. done.
  - split; [done|]. intros Ht. destruct (Hbl Ht) as [Hlen Hfl]. split; [done|]. intros [Hne _]. by apply Hfl, Hfull.
Qed.

(** The blocks an [append] of [size] bytes has to take. *)
Definition append_need (blks : list (list byte)) (pend : list Z) (size : Z) : Z :=
  match last pend with
  | None => Z.max 1 (blocks_for bs size)
  | Some x => blocks_for bs (size - (bs - Z.of_nat (length (blk blks x))))
  end.

(** With nothing pending a first block is acquired; *)
Lemma append_to_empty w p send frame free blks data size :
  wbp n bs cap w p [] send frame free blks →
  size = Z.of_nat (length data) → size < 2 ^ 32 →
  ∃ ok w' p' pend' free' blks',
    WriteBufBase_append w p data size = Ok (ok, w', p') ∧
    append_post [] send frame free blks (stream blks [] ++ data) ok w' p' pend' free' blks' ∧
    ok = fits cap (append_need blks [] size) (Z.of_nat (length free)) (0) ∧
    block_post ok (append_need blks [] size) 0 (0 < size) pend' blks'.
Proof.
  intros Hwbp Hsz Hlt. unfold WriteBufBase_append.
  pose proof (wbp_wb Hwbp) as Hw. pose proof (wbp_pool Hwbp) as Hp.
  pose proof (wr_pend Hw) as Hr. pose proof (rk_tail Hr).
  pose proof (pr_pos Hp) as Hbs.
  rewrite (ring_eqb _ _ _ _ _ _ Hr). rewrite bool_decide_eq_true_2 by done.
  unfold append_need. simpl last.
  destruct free as [|i free].
  { rewrite (pool_acquire_none _ _ _ _ Hp). step. rewrite Z.eqb_refl.
    exists false, w, p, [], [], blks. split; [done|]. split; [by split|].
    split; [|done]. symmetry. apply fits_no. simpl. lia. }
  assert (Hinv : app_inv [] send frame (i :: free) blks [] (i :: free) blks w p true (wb_pending_tail w) 0).
  { split; try done. simpl. by rewrite Z.sub_0_r, u64_small. }
  destruct (app_inv_acquire _ _ _ _ _ _ _ _ _ _ _ _ _ _ Hinv)
    as (p1 & q & -> & Hiv & Hset & Hinv1 & Hbi & _).
  { simpl. pose proof (wr_pos Hw). lia. }
  step. rewrite (proj2 (Z.eqb_neq _ _)) by done. rewrite Hset. step.
  destruct (append_loop_spec _ _ _ _ _ _ _ _ (S (S (Z.to_nat size))) _ _ _ _ _ data size [] i Hinv1)
    as (ok & w' & p' & pend' & free' & blks' & -> & Hpost & Hok & Hbl); [done..| |].
  { case_decide; lia. }
  eexists _, _, _, _, _, _. split; [done|]. change ([] ++ [] ++ [i]) with [i] in Hpost. rewrite stream_single, Hbi in Hpost.
  split; [done|]. rewrite Hbi in Hok, Hbl. simpl length in Hok, Hbl. rewrite Z.sub_0_r in Hok, Hbl.
  pose proof (blocks_for_nonneg bs (size - bs) Hbs).
  assert (Z.max 1 (blocks_for bs size) = 1 + blocks_for bs (size - bs)) as ->.
  { destruct (decide (size = 0)) as [->|]; [by rewrite !blocks_for_nonpos by lia|]. rewrite (blocks_for_pos bs size) by lia. lia. }
  replace (Z.of_nat (length (i :: free))) with (1 + Z.of_nat (length free)) by (simpl; lia).
  rewrite fits_succ by done. split; [done|]. intros Ht. destruct (Hbl Ht) as [Hlen Hfull]. split; [lia|].
  intros Hs. apply Hfull. split; [|by right]. by intros j ->%list_elem_of_singleton.
Qed.

(** otherwise the last block is filled up first. *)
Lemma append_to_last w p pend send frame free blks data size x :
  wbp n bs cap w p pend send frame free blks →
  size = Z.of_nat (length data) → size < 2 ^ 32 → last pend = Some x →
  ∃ ok w' p' pend' free' blks',
    WriteBufBase_append w p data size = Ok (ok, w', p') ∧
    append_post pend send frame free blks (stream blks pend ++ data) ok w' p' pend' free' blks' ∧
    ok = fits cap (append_need blks pend size) (Z.of_nat (length free)) (Z.of_nat (length pend)) ∧
    block_post ok (append_need blks pend size) (length pend) (∀ i, i ∈ pend → blk blks i ≠ []) pend' blks'.
Proof.
  intros Hwbp Hsz Hlt Hl. unfold WriteBufBase_append.
  pose proof (wbp_wb Hwbp) as Hw. pose proof (wbp_pool Hwbp) as Hp.
  pose proof (wr_pend Hw) as Hr. pose proof (rk_tail Hr).
  pose proof (pr_pos Hp) as Hbs.
  rewrite (ring_eqb _ _ _ _ _ _ Hr). 
  assert (Hnil : pend ≠ []) by (by intros ->). rewrite bool_decide_eq_false_2 by done.
  apply last_Some in Hl as Hl'. destruct Hl' as [init Hx].
  pose proof Hr as Hr'. rewrite Hx in Hr'.
  pose proof (ring_last _ _ _ _ _ _ _ Hr') as Hlast. fold (u64 (wb_pending_tail w - 1)) in Hlast.
  rewrite Hlast. step.
  destruct (wbp_held _ _ _ _ _ _ _ x Hwbp) as (Hxr & Hxf & Hxb); [rewrite Hx; elt|].
  rewrite (pool_get_data_size _ _ _ _ _ x _ Hp ltac:(lia) Hxb). step.
  assert (Hinv : app_inv pend send frame free blks [] free blks w p false (wb_pending_tail w)
            (Z.of_nat (length (blk blks x)))).
  { split; try done.
    - by rewrite app_nil_r.
    - simpl. by rewrite Z.sub_0_r, u64_small.
    - by rewrite bool_decide_eq_false_2.
    - intros y Hy. rewrite Hl in Hy. simplify_eq. done. }
  destruct (append_loop_spec _ _ _ _ _ _ _ _ (S (S (Z.to_nat size))) _ _ _ _ _ data size init x Hinv)
    as (ok & w' & p' & pend' & free' & blks' & -> & Hpost & Hok & Hbl); [by rewrite app_nil_r|done|done| |].
  { case_decide; lia. }
  rewrite app_nil_r in *. eexists _, _, _, _, _, _. split; [done|]. split; [done|].
  unfold append_need. rewrite Hl. split; [done|]. intros Ht. destruct (Hbl Ht) as [Hlen Hfull]. split; [done|].
  intros Hne. apply Hfull. split; [auto|]. left. apply Hne. rewrite Hx. elt.
Qed.

(** [append] with the number of blocks it takes; data never lands in an empty
    block. *)
Lemma append_blocks w p pend send frame free blks data size :
  wbp n bs cap w p pend send frame free blks →
  size = Z.of_nat (length data) → size < 2 ^ 32 →
  ∃ ok w' p' pend' free' blks',
    WriteBufBase_append w p data size = Ok (ok, w', p') ∧
    append_post pend send frame free blks (stream blks pend ++ data) ok w' p' pend' free' blks' ∧
    ok = fits cap (append_need blks pend size) (Z.of_nat (length free)) (Z.of_nat (length pend)) ∧
    block_post ok (append_need blks pend size) (length pend) (0 < size ∧ ∀ i, i ∈ pend → blk blks i ≠ []) pend' blks'.
Proof.
  intros Hwbp Hsz Hlt. destruct (last pend) as [x|] eqn:Hl.
  - destruct (append_to_last _ _ _ _ _ _ _ _ _ _ Hwbp Hsz Hlt Hl) as (ok & w' & p' & pend' & free' & blks' & ? & ? & ? & Hbl).
    exists ok, w', p', pend', free', blks'. split_and!; [done..|]. intros Ht. destruct (Hbl Ht) as [? Hf]. split; [done|].
    intros [_ ?]. by apply Hf.
  - apply last_None in Hl as ->.
    destruct (append_to_empty _ _ _ _ _ _ _ _ Hwbp Hsz Hlt) as (ok & w' & p' & pend' & free' & blks' & ? & ? & ? & Hbl).
    exists ok, w', p', pend', free', blks'. split_and!; [done..|]. intros Ht. destruct (Hbl Ht) as [? Hf]. split; [done|].
    intros [? _]. by apply Hf.
Qed.

Lemma append_spec w p pend send frame free blks data size :
  wbp n bs cap w p pend send frame free blks →
  size = Z.of_nat (length data) → size < 2 ^ 32 →
  ∃ ok w' p' pend' free' blks',
    WriteBufBase_append w p data size = Ok (ok, w', p') ∧
    append_post pend send frame free blks (stream blks pend ++ data) ok w' p' pend' free' blks' ∧
    ok = fits cap (append_need blks pend size) (Z.of_nat (length free)) (Z.of_nat (length pend)).
Proof.
  intros Hwbp Hsz Hlt.
  destruct (append_blocks _ _ _ _ _ _ _ _ _ Hwbp Hsz Hlt) as (ok & w' & p' & pend' & free' & blks' & ? & ? & ? & _).
  by exists ok, w', p', pend', free', blks'.
Qed.

(** Data that fits one block, appended to an empty channel, takes one block. *)
Lemma append_one_block w p send frame i free blks data :
  wbp n bs cap w p [] send frame (i :: free) blks → Z.of_nat (length data) ≤ bs →
  ∃ w' p' blks', WriteBufBase_append w p data (Z.of_nat (length data)) = Ok (true, w', p') ∧
    append_post [] send frame (i :: free) blks data true w' p' [i] free blks'.
Proof.
  intros Hwbp Hle. unfold WriteBufBase_append.
  pose proof (wbp_wb Hwbp) as Hw. pose proof (wr_pend Hw) as Hr.
  pose proof (rk_tail Hr). rewrite (ring_eqb _ _ _ _ _ _ Hr), bool_decide_eq_true_2 by done.
  assert (Hinv : app_inv [] send frame (i :: free) blks [] (i :: free) blks w p true (wb_pending_tail w) 0).
  { split; try done. simpl. by rewrite Z.sub_0_r, u64_small. }
  destruct (app_inv_acquire _ _ _ _ _ _ _ _ _ _ _ _ _ _ Hinv)
    as (p1 & q & -> & Hiv & Hset & Hinv1 & Hbi & _).
  { simpl. pose proof (wr_pos Hw). lia. }
  step. rewrite (proj2 (Z.eqb_neq _ _)) by done. rewrite Hset. step. set (w1 := wb_with_pending _ _ _ _) in *.
  destruct (decide (data = [])) as [->|Hne].
  { rewrite append_loop_done. eexists _, _, _. split; [done|].
    pose proof (app_inv_post _ _ _ _ _ _ _ _ _ _ _ _ _ Hinv1) as Hpost. simpl app in Hpost.
    by rewrite stream_single, Hbi in Hpost. }
  set (size := Z.of_nat (length data)) in *. assert (0 < size) by (destruct data; [done|unfold size; simpl; lia]).
  pose proof (ai_wbp Hinv1) as Hwbp1. simpl in Hwbp1.
  pose proof (wbp_pool Hwbp1) as Hp. pose proof (wbp_wb Hwbp1) as Hw1.
  destruct (wbp_held _ _ _ _ _ _ _ i Hwbp1) as (Hxr & Hxf & Hxb); [elt|].
  cbn [append_loop]. rewrite (proj2 (Z.ltb_lt _ _)) by lia. step.
  pose proof (ring_last 64 _ _ _ _ i [] (wr_pend Hw1)) as Hl. fold (u64 (wb_pending_tail w1 - 1)) in Hl.
  rewrite Hl. step. rewrite (pool_get_data_size _ _ _ _ _ i _ Hp ltac:(lia) Hxb), Hbi. step.
  rewrite (pr_bs Hp). simpl (Z.of_nat (length [])). rewrite Z.sub_0_r.
  pose proof (pr_total Hp). pose proof (pr_pos Hp). assert (bs < 2 ^ 31) by nia.
  rewrite (u32_small bs) by lia. rewrite Z.min_r by lia. rewrite (proj2 (Z.ltb_lt 0 size)) by lia. unfold read_src.
  rewrite (proj2 (Z.leb_le size _)) by lia. step.
  assert (Htk : take (Z.to_nat size) data = data) by (apply take_ge; unfold size; lia). rewrite Htk.
  destruct (app_inv_write _ _ _ _ _ _ _ _ _ _ _ _ _ [] i data Hinv1 eq_refl)
    as (m & p2 & Hm & Hsd & Hinv2 & Hst & Hbx); [rewrite Hbi; simpl; lia|].
  rewrite Hbi in Hm, Hsd. simpl (Z.of_nat (length [])) in Hm, Hsd. rewrite Hm. step.
  fold size in Hsd. rewrite u32_small by lia. rewrite Hsd. step.
  rewrite Z.sub_diag, Z.ltb_irrefl. step.
  eexists _, _, _. split; [done|]. pose proof (app_inv_post _ _ _ _ _ _ _ _ _ _ _ _ _ Hinv2) as Hpost.
  simpl app in Hpost. rewrite stream_single, Hbx, Hbi in Hpost. exact Hpost.
Qed.

(** *** prepend *)
Lemma release_range_spec l : ∀ fuel w p j i r free blks,
  ring_ok 64 (wb_pending_bufs w) (wb_mask w) j i l → pool_rep n bs p free blks →
  free ++ l ++ r ≡ₚ seqZ 0 n → (length l ≤ fuel)%nat →
  ∃ p', release_range fuel w p j i = Ok p' ∧ pool_rep n bs p' (free ++ l) (clear l blks).
Proof.
  induction l as [|x l IH]; intros fuel w p j i r free blks Hr Hp Hperm Hf.
  - apply ring_empty in Hr as Hji. rewrite (proj2 Hji) by done.
    exists p. rewrite app_nil_r. split; [|done]. destruct fuel; simpl; by rewrite Z.eqb_refl.
  - destruct fuel as [|fuel]; [simpl in Hf; lia|]. cbn [release_range].
    rewrite (ring_eqb _ _ _ _ _ _ Hr), bool_decide_eq_false_2 by done.
    rewrite (ring_first _ _ _ _ _ _ _ Hr). step.
    destruct (perm_held _ _ x Hperm) as [Hx Hnx]; [by left|].
    destruct (pool_release _ _ _ _ _ x Hp Hx Hnx) as (p1 & -> & Hp1). step.
    replace (free ++ x :: l) with ((free ++ [x]) ++ l) by (by rewrite <- (assoc_L (++))).
    eapply IH; [by apply (ring_pop 64) in Hr|done| |simpl in Hf; lia].
    rewrite <- (assoc_L (++)). exact Hperm.
Qed.

(** The state between two iterations of [prepend]: the blocks [l] were taken
    from [free0] and hold the first bytes; [r] blocks remain to be taken. *)
#[local] Set Implicit Arguments.
Record pre_inv (pend send frame free0 : list Z) (blks0 : list (list byte)) (nh : Z)
    (l free : list Z) (blks : list (list byte)) (w : WriteBufBase) (p : BufPool) (i r : Z) : Prop := {
  pi_wb : wb_rep cap w pend send;
  pi_pool : pool_rep n bs p free blks;
  pi_perm : free ++ l ++ pend ++ send ++ frame ≡ₚ seqZ 0 n;
  pi_free : free0 = l ++ free;
  pi_view : ring_ok 64 (wb_pending_bufs w) (wb_mask w) nh i l;
  pi_left : 0 ≤ r ∧ (i + r) mod 2 ^ 64 = wb_pending_head w;
  pi_room : Z.of_nat (length l) + r + Z.of_nat (length pend) ≤ cap;
  pi_same : same_on (pend ++ send ++ frame) blks0 blks
}.
#[local] Unset Implicit Arguments.

Lemma pre_inv_held pend send frame free0 blks0 nh l free blks w p i r x :
  pre_inv pend send frame free0 blks0 nh l free blks w p i r →
  x ∈ l ++ pend ++ send ++ frame → 0 ≤ x < n ∧ (x ∉ free).
Proof. intros H Hx. by apply (perm_held _ _ _ (pi_perm H)). Qed.

(** Taking one more block and filling it with [d]. *)
Lemma pre_inv_step pend send frame free0 blks0 nh l x free blks w p i r d :
  pre_inv pend send frame free0 blks0 nh l (x :: free) blks w p i r → 0 < r →
  Z.of_nat (length d) ≤ bs →
  ∃ p1 q m p2, BufPool_acquire p = Ok (x, p1) ∧ x ≠ invalid_idx ∧ bp_buf_size p1 = bs ∧
    arr_set (wb_pending_bufs w) (Z.land i (wb_mask w)) x = Ok q ∧
    mem_write (bp_bufs p1) (BufPool_buf_addr p1 x) d = Ok m ∧
    BufPool_set_data_size (bp_with_bufs p1 m) x (Z.of_nat (length d)) = Ok p2 ∧
    let blks' := <[Z.to_nat x := d]> blks in
    pre_inv pend send frame free0 blks0 nh (l ++ [x]) free blks'
      (wb_with_pending w q (wb_pending_head w) (wb_pending_tail w)) p2 (u64 (i + 1)) (r - 1) ∧
    stream blks' (l ++ [x]) = stream blks l ++ d.
Proof.
  intros [Hw Hp Hperm Hfree Hview [Hr0 Hleft] Hroom Hsame] Hr Hd.
  destruct (pool_acquire_some n bs p x free blks Hp) as (p1 & Hacq & Hp1 & Hx & Hnx & Hinv & Hb).
  pose proof (wr_pend Hw) as Hpr. pose proof (wr_mask Hw) as Hmask.
  destruct (ring_push _ _ _ _ _ _ x Hview) as (q & Hq & _ & Hview'); [lia|].
  destruct (pool_append_block n bs p1 free blks x [] d) as (m & p2 & Hm & Hsd & Hp2);
    [done|lia|done|done|simpl; lia|].
  simpl in Hm, Hsd, Hp2. rewrite Z.add_0_r in Hm.
  assert (Hperm' : (x :: free) ++ (l ++ pend ++ send ++ frame) ≡ₚ seqZ 0 n) by done.
  assert (Hne : ∀ j, j ∈ l ++ pend ++ send ++ frame → 0 ≤ j ∧ j ≠ x).
  { intros j Hj. destruct (perm_held _ _ j Hperm' Hj) as [? Hnj]. split; [lia|].
    intros ->. apply Hnj. by left. }
  (* the written cell lies outside the live window *)
  assert (Hcell : Z.land i (wb_mask w) = Z.land (wb_pending_head w - r + cap) (wb_mask w)).
  { replace (wb_pending_head w - r + cap) with ((wb_pending_head w - r) + (wb_mask w + 1)) by lia.
    rewrite (cell_lap _ _ _ _ _ _ _ Hpr). apply (cell_cong _ _ _ _ _ _ _ _ Hpr).
    rewrite <- Hleft, mod_shift_l by lia. f_equal. lia. }
  assert (Hq' : q = <[Z.to_nat (Z.land (wb_pending_head w - r + cap) (wb_mask w)) := x]> (wb_pending_bufs w)).
  { rewrite Hcell in Hq. rewrite arr_set_ok in Hq by (eapply cell_range, Hpr). congruence. }
  assert (Hpr' : ring_ok 64 q (wb_mask w) (wb_pending_head w) (wb_pending_tail w) pend).
  { rewrite Hq'. apply ring_set_free; [done|]. lia. }
  exists p1, q, m, p2. cbv zeta. split_and!; [done|done|by apply Hp1|done|done|done| |].
  - split; try done; simpl.
    + by eapply wb_rep_pending.
    + rewrite <- Hperm. solve_Permutation.
    + by rewrite Hfree, <- (assoc_L (++)).
    + split; [lia|]. unfold u64. rewrite Zplus_mod_idemp_l. rewrite <- Hleft. f_equal. lia.
    + rewrite length_app. simpl. lia.
    + eapply same_on_trans; [done|]. apply same_on_insert; [lia|]. intros j Hj. apply Hne. elt.
  - rewrite stream_app, stream_single, blk_insert_eq.
    + f_equal. apply stream_same, same_on_insert; [lia|]. intros j Hj. apply Hne. elt.
    + by apply lookup_lt_Some in Hb.
Qed.

(** What a call of [prepend] promises. *)
Record prepend_post (pend0 send frame free0 : list Z) (blks0 : list (list byte)) (target : list byte)
    (ok : bool) (w' : WriteBufBase) (p' : BufPool)
    (pend' free' : list Z) (blks' : list (list byte)) : Prop := {
  pp_wbp : wbp n bs cap w' p' pend' send frame free' blks';
  pp_same : same_on (pend0 ++ send ++ frame) blks0 blks';
  pp_ok : ok = true → stream blks' pend' = target ∧ ∃ more, pend' = more ++ pend0 ∧ free0 = more ++ free';
  pp_fail : ok = false → pend' = pend0 ∧ free' ≡ₚ free0
}.

(** All blocks are filled: the head moves. *)
Lemma prepend_done pend send frame free0 blks0 nh l free blks w p i fuel data size :
  pre_inv pend send frame free0 blks0 nh l free blks w p i 0 → data = [] →
  ∃ ok w' p' pend' free' blks',
    prepend_loop fuel w p data size nh i = Ok (ok, w', p') ∧
    prepend_post pend send frame free0 blks0 (stream blks l ++ data ++ stream blks0 pend)
      ok w' p' pend' free' blks' ∧
    ok = (0 <=? Z.of_nat (length free)).
Proof.
  intros Hinv ->. pose proof Hinv as [Hw Hp Hperm Hfree Hview [Hr0 Hleft] Hroom Hsame].
  pose proof (wr_pos Hw) as Hcap. pose proof (rk_tail Hview) as Hi.
  assert (i = wb_pending_head w) as -> by (rewrite Z.add_0_r, Z.mod_small in Hleft by lia; done).
  eexists true, _, p, (l ++ pend), free, blks. split.
  { destruct fuel; cbn [prepend_loop]; by rewrite Z.eqb_refl. }
  split; [|symmetry; apply Z.leb_le; lia]. split; [|done| |done].
  - split; [eapply wb_rep_pending; [done|]; eapply ring_join; [done|by apply Hw|]; rewrite (wr_mask Hw); lia|done|].
    rewrite <- Hperm. solve_Permutation.
  - intros _. split; [|by eauto]. rewrite stream_app. f_equal. apply stream_same.
    eapply same_on_sub; [|done]. intros x. elt.
Qed.

(** The pool is empty: the blocks taken so far are given back. *)
Lemma prepend_fails pend send frame free0 blks0 nh l blks w p i r content :
  pre_inv pend send frame free0 blks0 nh l [] blks w p i r →
  ∃ p', release_range (S (Z.to_nat (wb_capacity w))) w p nh i = Ok p' ∧
    prepend_post pend send frame free0 blks0 content false w p' pend l (clear l blks).
Proof.
  intros Hinv. pose proof Hinv as [Hw Hp Hperm Hfree Hview [Hr0 Hleft] Hroom Hsame].
  destruct (release_range_spec l (S (Z.to_nat (wb_capacity w))) w p nh i (pend ++ send ++ frame) [] blks)
    as (p' & E & Hp'); [done..|rewrite (wr_cap Hw); lia|].
  exists p'. split; [done|]. split; try done.
  - eapply same_on_trans; [done|].
    assert (Hh : ∀ j, j ∈ l ++ pend ++ send ++ frame → 0 ≤ j < n)
      by (intros j Hj; by apply (pre_inv_held _ _ _ _ _ _ _ _ _ _ _ _ _ j Hinv)).
    assert (NoDup (l ++ pend ++ send ++ frame)) as Hnd
      by (rewrite <- (app_nil_l l), <- (assoc_L (++)), Hperm; apply NoDup_seqZ).
    apply NoDup_app in Hnd as (_ & Hd & _). apply same_on_clear.
    + intros j Hj. apply Hh. elt.
    + intros j Hj. split; [apply Hh; elt|]. intros Hl. by apply (Hd j).
  - intros _. by rewrite Hfree, app_nil_r.
Qed.

Lemma prepend_loop_spec pend send frame free0 blks0 nh fuel :
  ∀ l free blks w p data size i r,
  pre_inv pend send frame free0 blks0 nh l free blks w p i r →
  size = Z.of_nat (length data) → r = blocks_for bs size → (Z.to_nat r ≤ fuel)%nat →
  ∃ ok w' p' pend' free' blks',
    prepend_loop fuel w p data size nh i = Ok (ok, w', p') ∧
    prepend_post pend send frame free0 blks0 (stream blks l ++ data ++ stream blks0 pend)
      ok w' p' pend' free' blks' ∧
    ok = (r <=? Z.of_nat (length free)).
Proof.
  induction fuel as [|fuel IH]; intros l free blks w p data size i r Hinv Hsz Hrr Hf.
  all: pose proof Hinv as [Hw Hp Hperm Hfree Hview [Hr0 Hleft] Hroom Hsame].
  all: pose proof (pr_pos Hp) as Hbs; pose proof (wr_pos Hw) as Hcap.
  all: pose proof (rk_tail Hview) as Hi.
  all: destruct (decide (r = 0)) as [->|Hrz].
  1,3: apply prepend_done; [done|]; apply length_zero_iff_nil;
    destruct (decide (size = 0)); [lia|]; pose proof (blocks_for_pos bs size); pose proof (blocks_for_nonneg bs (size - bs)); lia.
  { lia. }
  cbn [prepend_loop].
  rewrite (proj2 (Z.eqb_neq i _)).
  2:{ intros E. rewrite <- Hleft in E.
      apply (u64_sub_ne ((i + r) mod 2 ^ 64) r); [apply Z.mod_pos_bound; lia|lia|].
      unfold u64. rewrite mod_shift_l by lia. replace (i + r - r) with i by lia.
      rewrite Z.mod_small by lia. done. }
  assert (0 < size).
  { destruct (decide (size = 0)); [|lia]. rewrite blocks_for_nonpos in Hrr by lia. lia. }
  destruct free as [|x free].
  { rewrite (pool_acquire_none _ _ _ _ Hp). step. rewrite Z.eqb_refl.
    destruct (prepend_fails _ _ _ _ _ _ _ _ _ _ _ _ (stream blks l ++ data ++ stream blks0 pend) Hinv) as (p' & -> & Hpost).
    step. eexists false, w, p', pend, l, (clear l blks). split; [done|]. split; [done|].
    symmetry. apply Z.leb_gt. simpl. lia. }
  set (k := Z.min size bs).
  assert (0 < k ≤ size ∧ k ≤ bs ∧ (k = size ∨ k = bs)) as (Hk0 & Hk1 & Hk2) by (unfold k; lia).
  assert (Hkl : Z.of_nat (length (take (Z.to_nat k) data)) = k) by (rewrite length_take; lia).
  destruct (pre_inv_step _ _ _ _ _ _ _ _ _ _ _ _ _ _ (take (Z.to_nat k) data) Hinv)
    as (p1 & q & m & p2 & -> & Hxi & Hb1 & Hq & Hm & Hsd & Hinv' & Hst); [lia|lia|].
  step. rewrite (proj2 (Z.eqb_neq _ _)) by done. rewrite Hq. step.
  rewrite Hb1, u32_small by (pose proof (pr_total Hp); pose proof (pool_n_pos _ _ _ _ _ Hp); nia).
  fold k. unfold read_src. rewrite (proj2 (Z.leb_le k _)) by lia. step.
  rewrite Hm. step. rewrite Hkl in Hsd. rewrite Hsd. step.
  destruct (IH _ _ _ _ _ (drop (Z.to_nat k) data) (size - k) _ _ Hinv')
    as (ok & w' & p' & pend' & free' & blks' & -> & Hpost & Hok); [len| |lia|].
  { rewrite Hrr, (blocks_for_pos bs size) by lia. destruct Hk2 as [->| ->]; [|lia].
    rewrite !blocks_for_nonpos by lia. lia. }
  eexists _, _, _, _, _, _. split; [done|]. split.
  - rewrite Hst, <- (assoc_L (++)), (assoc_L (++) (take _ _)), take_drop in Hpost. done.
  - rewrite Hok. simpl length. apply eq_true_iff_eq. rewrite !Z.leb_le. clear. lia.
Qed.

(** The block count of [prepend] when [size + buf_size - 1] does not wrap. *)
Lemma prepend_blocks size :
  0 < bs < 2 ^ 31 → 0 ≤ size → size + bs - 1 < 2 ^ 32 →
  u32 (size + bs - 1) / u32 bs = blocks_for bs size.
Proof. intros. rewrite !u32_small by lia. unfold blocks_for. by rewrite Z.max_r by lia. Qed.

Lemma prepend_spec w p pend send frame free blks data size :
  wbp n bs cap w p pend send frame free blks →
  size = Z.of_nat (length data) → size + bs - 1 < 2 ^ 32 →
  ∃ ok w' p' pend' free' blks',
    WriteBufBase_prepend w p data size = Ok (ok, w', p') ∧
    prepend_post pend send frame free blks (data ++ stream blks pend) ok w' p' pend' free' blks' ∧
    ok = fits cap (blocks_for bs size) (Z.of_nat (length free)) (Z.of_nat (length pend)).
Proof.
  intros [Hw Hp Hperm] Hsz Hlt. unfold WriteBufBase_prepend.
  pose proof (wr_pend Hw) as Hr. pose proof (pr_pos Hp) as Hbs.
  assert (bs < 2 ^ 31) by (pose proof (pr_total Hp); pose proof (pool_n_pos _ _ _ _ _ Hp); nia).
  rewrite (pr_bs Hp), prepend_blocks by lia. rewrite (wb_capacity_u64 _ _ _ Hw).
  replace (u64 (wb_pending_tail w - wb_pending_head w)) with (Z.of_nat (length pend)) by apply Hr.
  pose proof (wb_pend_le _ _ _ Hw) as Hle. pose proof (wr_pos Hw).
  pose proof (blocks_for_nonneg bs size Hbs) as Hnn.
  rewrite (u64_small (cap - _)) by lia. case_test.
  { exists false, w, p, pend, free, blks. split; [done|]. split; [by split|].
    symmetry. apply fits_no. lia. }
  set (r := blocks_for bs size) in *. set (nh := u64 (wb_pending_head w - r)).
  destruct (prepend_loop_spec pend send frame free blks nh (Z.to_nat r) [] free blks w p data size nh r)
    as (ok & w' & p' & pend' & free' & blks' & -> & Hpost & Hok); [|done|done|done|].
  { split; try done.
    - eapply ring_at; [done|]. apply u64_range.
    - split; [done|]. unfold nh, u64. rewrite Zplus_mod_idemp_l.
      replace (wb_pending_head w - r + r) with (wb_pending_head w) by lia.
      apply Z.mod_small, Hr.
    - simpl. lia. }
  eexists _, _, _, _, _, _. split; [done|]. split; [done|].
  rewrite Hok. unfold fits. rewrite (proj2 (Z.leb_le (_ + _) _)) by lia. by rewrite andb_true_r.
Qed.

(** *** discard_pending *)
Lemma discard_pending_spec w p pend send frame free blks :
  wbp n bs cap w p pend send frame free blks →
  ∃ w' p', WriteBufBase_discard_pending w p = Ok (w', p') ∧
    wbp n bs cap w' p' [] send frame (free ++ pend) (clear pend blks) ∧
    same_on (send ++ frame) blks (clear pend blks).
Proof.
  intros Hwbp. pose proof Hwbp as [Hw Hp Hperm]. unfold WriteBufBase_discard_pending.
  destruct (release_pending_spec (S (Z.to_nat (wb_capacity w))) w p pend send (send ++ frame) free blks)
    as (w' & p' & -> & Hw' & Hp'); [done..| |].
  { pose proof (wb_pend_le _ _ _ Hw). rewrite (wr_cap Hw). lia. }
  step. eexists _, _. split; [done|]. split; [split|].
  - eapply wb_rep_pending; [done|]. eapply ring_at; [apply Hw'|lia].
  - done.
  - rewrite <- Hperm. simpl. solve_Permutation.
  - apply same_on_clear.
    + intros i Hi. apply (wbp_held _ _ _ _ _ _ _ i Hwbp). elt.
    + intros j Hj. split; [apply (wbp_held _ _ _ _ _ _ _ j Hwbp); elt|].
      intros Hjp. by apply (wbp_disjoint _ _ _ _ _ _ _ j j Hwbp).
Qed.
End spec.

(** ** A fresh buffer on a fresh pool *)
Lemma WriteBufBase_new_rep (j1 j2 : nat → Z) k :
  0 ≤ k < 31 → ∃ w, WriteBufBase_new j1 j2 (2 ^ k) = Ok w ∧ wb_rep (2 ^ k) w [] [].
Proof.
  intros Hk. assert (0 < 2 ^ k < 2 ^ 31) by (split; [lia|apply Z.pow_lt_mono_r; lia]).
  unfold WriteBufBase_new. rewrite (proj2 (Z.ltb_ge _ _)) by lia.
  rewrite int_of_ok by lia. step. rewrite u32_small by lia. eexists. split; [done|].
  assert (∀ j, ring_ok 64 (new_array (2 ^ k) j) (2 ^ k - 1) 0 0 ([] : list Z)).
  { intros j. split; try done; [|simpl; lia].
    exists k. split_and!; [lia..|]. len. }
  split; simpl; auto.
Qed.

Lemma wbp_fresh (jb : nat → byte) (js jq j1 j2 : nat → Z) a bs k :
  0 ≤ a → 0 < bs → 2 ^ a * bs < 2 ^ 31 → 0 ≤ k < 31 →
  ∃ p w, BufPool_new jb js jq (2 ^ a) bs = Ok p ∧ WriteBufBase_new j1 j2 (2 ^ k) = Ok w ∧
    wbp (2 ^ a) bs (2 ^ k) w p [] [] [] (seqZ 0 (2 ^ a)) (replicate (Z.to_nat (2 ^ a)) []).
Proof.
  intros Ha Hbs Ht Hk. destruct (BufPool_new_rep jb js jq a bs) as (p & Hp & Hrep); [done..|].
  destruct (WriteBufBase_new_rep j1 j2 k Hk) as (w & Hw & Hwr).
  exists p, w. split_and!; [done..|]. split; [done..|]. by rewrite app_nil_r.
Qed.

(** ** Claims *)

(** C17. [append] is all-or-nothing and exact.  With the blocks of the channel
    ([pend], [send]), of everybody else ([frame]) and the free list making up
    the pool, a call with [size = length data] always returns.  It succeeds
    exactly when the pool and the pending ring have room for the blocks the
    data needs; then the pending bytes are the old ones followed by [data].
    Otherwise the pending blocks and bytes are as before and the free list
    holds the same blocks.  In both cases no byte of another block changes
    and no block is lost. *)
Theorem append_all_or_nothing n bs cap w p pend send frame free blks data :
  wbp n bs cap w p pend send frame free blks → Z.of_nat (length data) < 2 ^ 32 →
  ∃ ok w' p' pend' free' blks',
    WriteBufBase_append w p data (Z.of_nat (length data)) = Ok (ok, w', p') ∧
    ok = fits cap (append_need bs blks pend (Z.of_nat (length data)))
           (Z.of_nat (length free)) (Z.of_nat (length pend)) ∧
    wbp n bs cap w' p' pend' send frame free' blks' ∧
    same_on (send ++ frame) blks blks' ∧
    if ok then stream blks' pend' = stream blks pend ++ data
    else pend' = pend ∧ stream blks' pend = stream blks pend ∧ free' ≡ₚ free.
Proof.
  intros Hwbp Hlt. destruct (append_spec _ _ _ _ _ _ _ _ _ _ data _ Hwbp eq_refl Hlt)
    as (ok & w' & p' & pend' & free' & blks' & Hrun & [Hw Hs Hok Hno] & Hfit).
  exists ok, w', p', pend', free', blks'. split_and!; [done..|]. destruct ok.
  - by destruct (Hok eq_refl).
  - destruct (Hno eq_refl) as (-> & Hsame & ?). split_and!; [done| |done]. by apply stream_same.
Qed.

Lemma append_all_or_nothing_witness :
  ∃ p w, BufPool_new (λ _, x00) (λ _, 7) (λ _, 9) 4 2 = Ok p ∧ WriteBufBase_new (λ _, 0) (λ _, 0) 2 = Ok w ∧
  ∃ ok w' p' pend' free' blks',
    WriteBufBase_append w p [x01; x02; x03] 3 = Ok (ok, w', p') ∧
    ok = fits 2 (append_need 2 (replicate 4 []) [] 3) 4 0 ∧
    wbp 4 2 2 w' p' pend' [] [] free' blks' ∧ same_on ([] ++ []) (replicate 4 []) blks' ∧
    if ok then stream blks' pend' = stream (replicate 4 []) [] ++ [x01; x02; x03]
    else pend' = [] ∧ stream blks' [] = stream (replicate 4 []) [] ∧ free' ≡ₚ seqZ 0 4.
Proof.
  destruct (wbp_fresh (λ _, x00) (λ _, 7) (λ _, 9) (λ _, 0) (λ _, 0) 2 2 1) as (p & w & Hp & Hw & H);
    [lia|lia|lia|lia|].
  exists p, w. split; [exact Hp|]. split; [exact Hw|].
  apply (append_all_or_nothing 4 2 2 w p [] [] [] (seqZ 0 4) (replicate 4 []) [x01; x02; x03]);
    [exact H|simpl; lia].
Defined.

(** C18. [prepend] is all-or-nothing and exact, under the same reading, as
    long as [size + buf_size - 1] fits an [unsigned int]: on success the
    pending bytes are [data] followed by the old ones, and the old pending
    blocks are untouched in both cases. *)
Theorem prepend_all_or_nothing n bs cap w p pend send frame free blks data :
  wbp n bs cap w p pend send frame free blks → Z.of_nat (length data) + bs - 1 < 2 ^ 32 →
  ∃ ok w' p' pend' free' blks',
    WriteBufBase_prepend w p data (Z.of_nat (length data)) = Ok (ok, w', p') ∧
    ok = fits cap (blocks_for bs (Z.of_nat (length data)))
           (Z.of_nat (length free)) (Z.of_nat (length pend)) ∧
    wbp n bs cap w' p' pend' send frame free' blks' ∧
    same_on (pend ++ send ++ frame) blks blks' ∧
    if ok then stream blks' pend' = data ++ stream blks pend
    else pend' = pend ∧ free' ≡ₚ free.
Proof.
  intros Hwbp Hlt. destruct (prepend_spec _ _ _ _ _ _ _ _ _ _ data _ Hwbp eq_refl Hlt)
    as (ok & w' & p' & pend' & free' & blks' & Hrun & [Hw Hs Hok Hno] & Hfit).
  exists ok, w', p', pend', free', blks'. split_and!; [done..|]. destruct ok.
  - by destruct (Hok eq_refl).
  - by destruct (Hno eq_refl).
Qed.

Lemma prepend_all_or_nothing_witness :
  ∃ p w, BufPool_new (λ _, x00) (λ _, 7) (λ _, 9) 4 2 = Ok p ∧ WriteBufBase_new (λ _, 0) (λ _, 0) 2 = Ok w ∧
  ∃ ok w' p' pend' free' blks',
    WriteBufBase_prepend w p [x01; x02; x03] 3 = Ok (ok, w', p') ∧
    ok = fits 2 (blocks_for 2 3) 4 0 ∧
    wbp 4 2 2 w' p' pend' [] [] free' blks' ∧ same_on ([] ++ [] ++ []) (replicate 4 []) blks' ∧
    if ok then stream blks' pend' = [x01; x02; x03] ++ stream (replicate 4 []) []
    else pend' = [] ∧ free' ≡ₚ seqZ 0 4.
Proof.
  destruct (wbp_fresh (λ _, x00) (λ _, 7) (λ _, 9) (λ _, 0) (λ _, 0) 2 2 1) as (p & w & Hp & Hw & H);
    [lia|lia|lia|lia|].
  exists p, w. split; [exact Hp|]. split; [exact Hw|].
  apply (prepend_all_or_nothing 4 2 2 w p [] [] [] (seqZ 0 4) (replicate 4 []) [x01; x02; x03]);
    [exact H|simpl; lia].
Defined.

(** Past that bound the block count of [prepend] wraps to zero: for every
    [size] within one block of [2^32] the call reports success without
    storing a single byte. *)
Theorem prepend_size_wraps n bs cap w p pend send frame free blks data size :
  wbp n bs cap w p pend send frame free blks → 2 ^ 32 - bs < size < 2 ^ 32 →
  WriteBufBase_prepend w p data size = Ok (true, w, p).
Proof.
  intros [Hw Hp _] Hsz. unfold WriteBufBase_prepend. rewrite (pr_bs Hp).
  assert (bs < 2 ^ 31) by (pose proof (pr_total Hp); pose proof (pool_n_pos _ _ _ _ _ Hp); nia).
  assert (u32 (size + bs - 1) / u32 bs = 0) as ->.
  { rewrite (u32_small bs) by lia. apply Z.div_small. unfold u32.
    rewrite <- (Z.mod_add _ (-1)), Z.mod_small by lia. lia. }
  rewrite (proj2 (Z.ltb_ge _ _)) by apply u64_range. rewrite Z.sub_0_r.
  pose proof (rk_head (wr_pend Hw)). rewrite u64_small by done.
  simpl. rewrite Z.eqb_refl. by destruct w.
Qed.

Lemma prepend_size_wraps_witness :
  ∃ p w, BufPool_new (λ _, x00) (λ _, 7) (λ _, 9) 4 4096 = Ok p ∧ WriteBufBase_new (λ _, 0) (λ _, 0) 16 = Ok w ∧
    WriteBufBase_prepend w p [x01] (2 ^ 32 - 1) = Ok (true, w, p).
Proof.
  destruct (wbp_fresh (λ _, x00) (λ _, 7) (λ _, 9) (λ _, 0) (λ _, 0) 2 4096 4) as (p & w & Hp & Hw & H);
    [lia|lia|lia|lia|].
  exists p, w. split; [exact Hp|]. split; [exact Hw|].
  apply (prepend_size_wraps 4 4096 16 w p [] [] [] (seqZ 0 4) (replicate 4 []) [x01] (2 ^ 32 - 1));
    [exact H|lia].
Defined.
