(* ===== verification/WriteBufStream.v ===== *)
(** * WriteBufStream: the TCP send queue

    Models class WriteBufStream (include/buffer/buffer.hpp lines 92-113,
    src/buffer/buffer.cpp lines 193-250): [submit] moves the pending blocks to
    the send queue, [peek_iovec] exposes the queue to [writev],
    [consume_written] drops an acknowledged prefix, [reset] returns every
    block.  The abstract specification is a pair of byte strings. *)
From S2P Require Import Prelude Ring BufPool WriteBuf.

Record WriteBufStream := mkWriteBufStream {
  ws_base : WriteBufBase;
  ws_iovec : list (Z * Z);          (* iov_base, iov_len *)
  ws_send_head_offset : Z
}.

Definition ws_with_base (s : WriteBufStream) (w : WriteBufBase) : WriteBufStream :=
  mkWriteBufStream w (ws_iovec s) (ws_send_head_offset s).

Definition WriteBufStream_new (junk1 junk2 : nat → Z) (junk3 : nat → Z * Z) (capacity : Z)
    : result WriteBufStream :=
  w ← WriteBufBase_new junk1 junk2 capacity;
  Ok (mkWriteBufStream w (new_array capacity junk3) 0).

Definition WriteBufStream_append (s : WriteBufStream) (p : BufPool) (data : list byte) (size : Z)
    : result (bool * WriteBufStream * BufPool) :=
  '(ok, w, p) ← WriteBufBase_append (ws_base s) p data size; Ok (ok, ws_with_base s w, p).
Definition WriteBufStream_prepend (s : WriteBufStream) (p : BufPool) (data : list byte) (size : Z)
    : result (bool * WriteBufStream * BufPool) :=
  '(ok, w, p) ← WriteBufBase_prepend (ws_base s) p data size; Ok (ok, ws_with_base s w, p).

(** [while (pending_head_ != pending_tail_)
       send_queue_[send_tail_++ & mask_] = pending_bufs_[pending_head_++ & mask_];] *)
Fixpoint submit_loop (fuel : nat) (w : WriteBufBase) : result WriteBufBase :=
  if wb_pending_head w =? wb_pending_tail w then Ok w else
  match fuel with
  | O => Fault OutOfFuel
  | S fuel =>
      idx ← arr_get (wb_pending_bufs w) (Z.land (wb_pending_head w) (wb_mask w));
      q ← arr_set (wb_send_queue w) (Z.land (wb_send_tail w) (wb_mask w)) idx;
      let w := wb_with_send w q (wb_send_head w) (u64 (wb_send_tail w + 1)) in
      submit_loop fuel
        (wb_with_pending w (wb_pending_bufs w) (u64 (wb_pending_head w + 1)) (wb_pending_tail w))
  end.

Definition WriteBufStream_submit (s : WriteBufStream) : result (bool * WriteBufStream) :=
  let w := ws_base s in
  let pending_count := u64 (wb_pending_tail w - wb_pending_head w) in
  if pending_count =? 0 then Ok (false, s) else
  let send_count := u64 (wb_send_tail w - wb_send_head w) in
  if u64 (u64 (wb_capacity w) - send_count) <? pending_count then Ok (false, s) else
  w ← submit_loop (S (Z.to_nat (wb_capacity w))) w;
  Ok (true, ws_with_base s w).

Definition WriteBufStream_has_send_data (s : WriteBufStream) : bool :=
  negb (wb_send_head (ws_base s) =? wb_send_tail (ws_base s)).

(** One iteration of the loop of [peek_iovec]; the state is [iovec_], [bytes]. *)
Definition peek_iovec_body (s : WriteBufStream) (p : BufPool) (i : Z) (st : list (Z * Z) * Z)
    : result (list (Z * Z) * Z) :=
  let '(iov, bytes) := st in
  idx ← arr_get (wb_send_queue (ws_base s))
          (Z.land (u64 (wb_send_head (ws_base s) + i)) (wb_mask (ws_base s)));
  let offset := if i =? 0 then ws_send_head_offset s else 0 in
  dsz ← BufPool_get_data_size p idx;
  let iov_len := u32 (dsz - offset) in
  iov ← arr_set iov i (BufPool_buf_addr p idx + offset, iov_len);
  Ok (iov, u32 (bytes + u32 iov_len)).

(** Returns [count], [bytes] and whether a vector is returned; the vector is
    the first [count] entries of [iovec_], which it rewrites. *)
Definition WriteBufStream_peek_iovec (s : WriteBufStream) (p : BufPool)
    : result (Z * Z * option (list (Z * Z)) * WriteBufStream) :=
  let w := ws_base s in
  let count := i32 (u64 (wb_send_tail w - wb_send_head w)) in
  if count <=? 0 then Ok (0, 0, None, s) else
  '(iov, bytes) ← for_up (Z.to_nat count) 0 (peek_iovec_body s p) (ws_iovec s, 0);
  Ok (count, bytes, Some (take (Z.to_nat count) iov),
      mkWriteBufStream w iov (ws_send_head_offset s)).

Fixpoint consume_written_loop (fuel : nat) (s : WriteBufStream) (p : BufPool) (bytes : Z)
    : result (WriteBufStream * BufPool) :=
  if negb (0 <? bytes) then Ok (s, p) else
  match fuel with
  | O => Fault OutOfFuel
  | S fuel =>
      let w := ws_base s in
      assert_ (negb (wb_send_head w =? wb_send_tail w));;
      idx ← arr_get (wb_send_queue w) (Z.land (wb_send_head w) (wb_mask w));
      dsz ← BufPool_get_data_size p idx;
      let remaining := u32 (dsz - ws_send_head_offset s) in
      if bytes <? remaining
      then Ok (mkWriteBufStream w (ws_iovec s) (u32 (ws_send_head_offset s + bytes)), p)
      else
        p ← BufPool_release p idx;
        consume_written_loop fuel
          (mkWriteBufStream
             (wb_with_send w (wb_send_queue w) (u64 (wb_send_head w + 1)) (wb_send_tail w))
             (ws_iovec s) 0) p (bytes - remaining)
  end.

Definition WriteBufStream_consume_written (s : WriteBufStream) (p : BufPool) (bytes : Z)
    : result (WriteBufStream * BufPool) :=
  consume_written_loop (S (Z.to_nat (wb_capacity (ws_base s)))) s p bytes.

(** [while (send_head_ != send_tail_) release(send_queue_[send_head_++ & mask_])] *)
Fixpoint release_send (fuel : nat) (w : WriteBufBase) (p : BufPool)
    : result (WriteBufBase * BufPool) :=
  if wb_send_head w =? wb_send_tail w then Ok (w, p) else
  match fuel with
  | O => Fault OutOfFuel
  | S fuel =>
      idx ← arr_get (wb_send_queue w) (Z.land (wb_send_head w) (wb_mask w));
      p ← BufPool_release p idx;
      release_send fuel
        (wb_with_send w (wb_send_queue w) (u64 (wb_send_head w + 1)) (wb_send_tail w)) p
  end.

Definition WriteBufStream_reset (s : WriteBufStream) (p : BufPool)
    : result (WriteBufStream * BufPool) :=
  let fuel := S (Z.to_nat (wb_capacity (ws_base s))) in
  '(w, p) ← release_send fuel (ws_base s) p;
  '(w, p) ← release_pending fuel w p;
  let w := wb_with_pending w (wb_pending_bufs w) 0 0 in
  let w := wb_with_send w (wb_send_queue w) 0 0 in
  Ok (mkWriteBufStream w (ws_iovec s) 0, p).

(** ** The abstraction *)

(** The vector entries for the blocks [l], the first one from [off] on. *)
Definition iov_of (bs : Z) (blks : list (list byte)) (off : Z) (l : list Z) : list (Z * Z) :=
  match l with
  | [] => []
  | i :: l => (i * bs + off, Z.of_nat (length (blk blks i)) - off)
              :: ((fun j => (j * bs, Z.of_nat (length (blk blks j)))) <$> l)
  end.

(** The bytes [writev] reads through a vector. *)
Definition gather (mem : list byte) (v : list (Z * Z)) : list byte :=
  v ≫= fun e => mem_read mem e.1 e.2.

(** The bytes waiting in the send queue. *)
Definition send_stream (s : WriteBufStream) (blks : list (list byte)) (send : list Z) : list byte :=
  drop (Z.to_nat (ws_send_head_offset s)) (stream blks send).

#[local] Set Implicit Arguments.
Record ws_ok (n bs cap : Z) (s : WriteBufStream) (p : BufPool) (pend send frame free : list Z)
    (blks : list (list byte)) : Prop := {
  wso_wbp : wbp n bs cap (ws_base s) p pend send frame free blks;
  wso_iov : Z.of_nat (length (ws_iovec s)) = cap;
  wso_off : 0 ≤ ws_send_head_offset s;
  wso_head : ws_send_head_offset s = 0 ∨
    ∃ x l, send = x :: l ∧ ws_send_head_offset s < Z.of_nat (length (blk blks x))
}.
#[local] Unset Implicit Arguments.

Section spec.
Context (n bs cap : Z).
Implicit Types (s : WriteBufStream) (p : BufPool) (pend send frame free l : list Z)
  (blks : list (list byte)).

Lemma ws_perm s p pend send frame free blks :
  ws_ok n bs cap s p pend send frame free blks → free ++ pend ++ send ++ frame ≡ₚ seqZ 0 n.
Proof. intros H. apply H. Qed.

Lemma wb_send_le w pend send : wb_rep cap w pend send → Z.of_nat (length send) ≤ cap.
Proof. intros [_ Hm _ _ Hr]. pose proof (rk_cap Hr). lia. Qed.

Lemma wb_rep_send w pend send q h t send' :
  wb_rep cap w pend send → ring_ok 64 q (wb_mask w) h t send' →
  wb_rep cap (wb_with_send w q h t) pend send'.
Proof. intros [? ? ? ? ?] ?. by split. Qed.

(** The queue offset never exceeds the queued bytes. *)
Lemma ws_off_le s p pend send frame free blks :
  ws_ok n bs cap s p pend send frame free blks →
  (Z.to_nat (ws_send_head_offset s) ≤ length (stream blks send))%nat.
Proof.
  intros H. destruct (wso_head H) as [->|(x & l & -> & Hlt)]; [simpl; lia|].
  rewrite stream_cons, length_app. lia.
Qed.

(** Held blocks have at most [bs] bytes, so all queued bytes fit an [int]. *)
Lemma stream_length_le p free blks l :
  pool_rep n bs p free blks → (∀ i, i ∈ l → 0 ≤ i < n) →
  Z.of_nat (length (stream blks l)) ≤ Z.of_nat (length l) * bs.
Proof.
  intros Hp Hl. induction l as [|i l IH]; [simpl; lia|].
  rewrite stream_cons, length_app. cbn [length].
  assert (0 ≤ i < n) as Hi by (apply Hl; by left).
  destruct (pool_block _ _ _ _ _ i _ Hp ltac:(lia) (pool_blk _ _ _ _ _ _ Hp Hi)) as (_ & _ & Hb & _).
  assert (Hl' : ∀ j, j ∈ l → 0 ≤ j < n) by (intros j Hj; apply Hl; by right).
  specialize (IH Hl'). lia.
Qed.

Lemma ws_stream_bound s p pend send frame free blks :
  ws_ok n bs cap s p pend send frame free blks → Z.of_nat (length (stream blks send)) < 2 ^ 31.
Proof.
  intros H. pose proof (wso_wbp H) as Hw. pose proof (wbp_pool Hw) as Hp.
  assert (Hin : ∀ i, i ∈ send → 0 ≤ i < n).
  { intros i Hi. apply (wbp_held _ _ _ _ _ _ _ _ _ _ i Hw). elt. }
  pose proof (stream_length_le _ _ _ _ Hp Hin).
  assert (Z.of_nat (length send) ≤ n).
  { assert (send ⊆+ seqZ 0 n) as Hs%submseteq_length.
    { rewrite <- (ws_perm _ _ _ _ _ _ _ H). rewrite (assoc_L (++)), (comm (++) (free ++ pend)).
      rewrite <- (assoc_L (++)). apply submseteq_inserts_r. done. }
    pose proof (pool_n_pos _ _ _ _ _ Hp). rewrite length_seqZ in Hs. lia. }
  pose proof (pr_total Hp). pose proof (pr_pos Hp). nia.
Qed.

(** *** submit *)
Lemma submit_loop_spec fuel : ∀ w pend send,
  wb_rep cap w pend send → Z.of_nat (length pend + length send) ≤ cap → (length pend ≤ fuel)%nat →
  ∃ w', submit_loop fuel w = Ok w' ∧ wb_rep cap w' [] (send ++ pend).
Proof.
  induction fuel as [|fuel IH]; intros w pend send Hw Hcap Hf; cbn [submit_loop].
  all: rewrite (ring_eqb _ _ _ _ _ _ (wr_pend Hw)); case_bool_decide as Hnil.
  1,3: subst; rewrite app_nil_r; eauto.
  { destruct pend; [done|simpl in Hf; lia]. }
  destruct pend as [|i pend]; [done|]. simpl in Hcap, Hf.
  rewrite (ring_first _ _ _ _ _ _ _ (wr_pend Hw)). step.
  destruct (ring_push _ _ _ _ _ _ i (wr_send Hw)) as (q & -> & _ & Hq).
  { rewrite (wr_mask Hw). lia. }
  step. edestruct (IH (wb_with_pending (wb_with_send w q (wb_send_head w) (u64 (wb_send_tail w + 1)))
      (wb_pending_bufs w) (u64 (wb_pending_head w + 1)) (wb_pending_tail w)) pend (send ++ [i]))
    as (w' & Hrun & Hw').
  - eapply wb_rep_pending; [by eapply wb_rep_send|].
    exact (ring_pop _ _ _ _ _ _ _ (wr_pend Hw)).
  - len.
  - lia.
  - exists w'. split; [exact Hrun|]. by rewrite <- (assoc_L (++)) in Hw'.
Qed.

Lemma submit_spec s p pend send frame free blks :
  ws_ok n bs cap s p pend send frame free blks →
  ∃ ok s', WriteBufStream_submit s = Ok (ok, s') ∧
    ok = negb (bool_decide (pend = [])) && (Z.of_nat (length pend + length send) <=? cap) ∧
    if ok then ws_ok n bs cap s' p [] (send ++ pend) frame free blks ∧
               send_stream s' blks (send ++ pend) = send_stream s blks send ++ stream blks pend ∧
               ws_send_head_offset s' = ws_send_head_offset s
    else s' = s.
Proof.
  intros H. pose proof H as [Hwbp Hiov Hoff Hhead]. pose proof (wbp_wb Hwbp) as Hw.
  unfold WriteBufStream_submit.
  replace (u64 (wb_pending_tail (ws_base s) - wb_pending_head (ws_base s)))
    with (Z.of_nat (length pend)) by apply (wr_pend Hw).
  replace (u64 (wb_send_tail (ws_base s) - wb_send_head (ws_base s)))
    with (Z.of_nat (length send)) by apply (wr_send Hw).
  rewrite (wb_capacity_u64 _ _ _ _ Hw).
  pose proof (wb_send_le _ _ _ Hw). pose proof (wr_pos Hw).
  rewrite (u64_small (cap - _)) by lia.
  case_bool_decide as Hnil.
  { subst pend. simpl. eauto. }
  rewrite (proj2 (Z.eqb_neq _ _)) by (destruct pend; [done|simpl; lia]).
  case_test.
  { exists false, s. split; [done|]. split; [|done]. simpl. symmetry. apply Z.leb_gt. lia. }
  destruct (submit_loop_spec (S (Z.to_nat (wb_capacity (ws_base s)))) (ws_base s) pend send Hw)
    as (w' & -> & Hw'); [lia| |].
  { rewrite (wr_cap Hw). lia. }
  step. eexists true, _. split; [done|]. split.
  { rewrite (proj2 (Z.leb_le _ _)) by lia. done. }
  split_and!; [|unfold send_stream; simpl|done].
  - split; simpl; try done.
    + split; [done|apply Hwbp|]. rewrite <- (wbp_perm Hwbp). solve_Permutation.
    + destruct Hhead as [?|(x & l & -> & ?)]; [by left|right; eauto].
  - rewrite stream_app, drop_app_le; [done|]. by eapply ws_off_le.
Qed.

(** *** peek_iovec *)
Lemma gather_iov p free blks off l :
  pool_rep n bs p free blks → (∀ i, i ∈ l → 0 ≤ i < n) → 0 ≤ off →
  (off = 0 ∨ ∃ x k, l = x :: k ∧ off < Z.of_nat (length (blk blks x))) →
  gather (bp_bufs p) (iov_of bs blks off l) = drop (Z.to_nat off) (stream blks l).
Proof.
  intros Hp Hl Hoff Hhead.
  assert (Hblk : ∀ i, 0 ≤ i < n → blk blks i = mem_read (bp_bufs p) (i * bs) (Z.of_nat (length (blk blks i)))).
  { intros i Hi. by destruct (pool_block _ _ _ _ _ i _ Hp ltac:(lia) (pool_blk _ _ _ _ _ _ Hp Hi))
      as (_ & _ & _ & ?). }
  destruct l as [|x l].
  { unfold stream. simpl. by rewrite drop_nil. }
  assert (Z.to_nat off ≤ length (blk blks x))%nat.
  { destruct Hhead as [->|(? & ? & [= <- <-] & ?)]; lia. }
  rewrite stream_cons, drop_app_le by done. simpl. f_equal.
  - rewrite (Hblk x) at 2 by (apply Hl; by left). unfold mem_read.
    rewrite skipn_firstn_comm. rewrite drop_drop. pose proof (pr_pos Hp).
    assert (0 ≤ x < n) by (apply Hl; by left).
    f_equal; [lia|]. f_equal. nia.
  - clear Hhead. assert (Hl' : ∀ i, i ∈ l → 0 ≤ i < n) by (intros i Hi; apply Hl; by right).
    clear Hl. induction l as [|i l IH]; [done|]. simpl. unfold stream. simpl. f_equal.
    + symmetry. apply Hblk. apply Hl'. by left.
    + apply IH. intros j Hj. apply Hl'. by right.
Qed.

Lemma iov_of_lookup blks off l (i : nat) x :
  l !! i = Some x →
  iov_of bs blks off l !! i =
    Some (x * bs + (if decide (i = 0%nat) then off else 0),
          Z.of_nat (length (blk blks x)) - (if decide (i = 0%nat) then off else 0)).
Proof.
  intros Hx. destruct l as [|y l]; [done|]. destruct i as [|i]; simpl in *; [by simplify_eq|].
  rewrite list_lookup_fmap, Hx. simpl. by rewrite Z.add_0_r, Z.sub_0_r.
Qed.

Lemma iov_of_length blks off l : length (iov_of bs blks off l) = length l.
Proof. destruct l; simpl; [done|]. by rewrite length_fmap. Qed.

(** The start of entry [j] of the vector, and how it relates to the bytes
    already counted. *)
Lemma head_offset off send blks (j : nat) x :
  0 ≤ off → (off = 0 ∨ ∃ y k, send = y :: k ∧ off < Z.of_nat (length (blk blks y))) →
  send !! j = Some x →
  let o := if decide (j = 0%nat) then off else 0 in
  0 ≤ o ≤ Z.of_nat (length (blk blks x)) ∧
  Z.of_nat (length (drop (Z.to_nat off) (stream blks (take (S j) send)))) =
    Z.of_nat (length (drop (Z.to_nat off) (stream blks (take j send)))) +
    (Z.of_nat (length (blk blks x)) - o).
Proof.
  intros Hoff Hh Hx. cbv zeta. rewrite (take_S_r _ _ _ Hx), stream_app, stream_single.
  rewrite !length_drop, length_app. destruct send as [|y l]; [done|].
  assert (off ≤ Z.of_nat (length (blk blks y))).
  { destruct Hh as [->|(? & ? & [= <- <-] & ?)]; lia. }
  destruct j as [|j]; simpl in Hx; simplify_eq.
  - rewrite decide_True by done. cbn [take]. unfold stream. simpl. lia.
  - rewrite decide_False by done. cbn [take]. rewrite stream_cons, length_app. lia.
Qed.

Lemma peek_iovec_body_spec s p pend send frame free blks iov j :
  let off := ws_send_head_offset s in
  let bytes k := Z.of_nat (length (drop (Z.to_nat off) (stream blks (take k send)))) in
  ws_ok n bs cap s p pend send frame free blks →
  Z.of_nat (length iov) = cap → (j < length send)%nat →
  take j iov = take j (iov_of bs blks off send) →
  ∃ iov', peek_iovec_body s p (Z.of_nat j) (iov, bytes j) = Ok (iov', bytes (S j)) ∧
    Z.of_nat (length iov') = cap ∧ take (S j) iov' = take (S j) (iov_of bs blks off send).
Proof.
  intros off bytes H Hl Hj Htk. pose proof H as [Hwbp Hiov Hoff Hhead].
  pose proof (wbp_wb Hwbp) as Hw. pose proof (wbp_pool Hwbp) as Hp.
  pose proof (wb_send_le _ _ _ Hw) as Hle. pose proof (ws_stream_bound _ _ _ _ _ _ _ H) as Hbound.
  destruct (lookup_lt_is_Some_2 send j) as [x Hx]; [lia|].
  unfold peek_iovec_body. pose proof (ring_nth _ _ _ _ _ _ _ _ (wr_send Hw) Hx) as Hn.
  fold (u64 (wb_send_head (ws_base s) + Z.of_nat j)) in Hn. rewrite Hn. step.
  destruct (wbp_held _ _ _ _ _ _ _ _ _ _ x Hwbp) as (Hxr & _ & Hxb).
  { apply list_elem_of_lookup_2 in Hx. elt. }
  rewrite (pool_get_data_size _ _ _ _ _ x _ Hp ltac:(lia) Hxb). step.
  destruct (head_offset _ _ _ _ _ Hoff Hhead Hx) as (Ho & Hsum). cbv zeta in Ho. fold off in Ho, Hsum.
  pose proof (iov_of_lookup blks off send _ _ Hx) as Hix.
  replace (if Z.of_nat j =? 0 then ws_send_head_offset s else 0)
    with (if decide (j = 0%nat) then off else 0) by (case_decide; case_test; lia || done).
  assert (bytes (S j) ≤ Z.of_nat (length (stream blks send))) as Hpre.
  { unfold bytes. rewrite <- (take_drop (S j) send) at 2. rewrite length_drop, stream_app, length_app. lia. }
  fold (bytes (S j)) (bytes j) in Hsum. assert (0 ≤ bytes j) by (unfold bytes; lia). clearbody bytes.
  set (o := if decide (j = 0%nat) then off else 0) in *. clearbody o.
  rewrite (u32_small (Z.of_nat _ - _)) by lia. rewrite arr_set_ok by lia. step.
  rewrite (pool_buf_addr _ _ _ _ _ _ Hp) by lia. rewrite !u32_small by (rewrite ?u32_small; lia).
  eexists. rewrite Hsum. split; [done|]. rewrite length_insert. split; [done|].
  rewrite (take_S_r _ _ _ Hix), <- Htk. rewrite Nat2Z.id.
  erewrite take_S_r by (apply list_lookup_insert_eq; lia). by rewrite take_insert_ge by lia.
Qed.

Lemma peek_iovec_spec s p pend send frame free blks :
  ws_ok n bs cap s p pend send frame free blks →
  ∃ s', WriteBufStream_peek_iovec s p =
      Ok (Z.of_nat (length send), Z.of_nat (length (send_stream s blks send)),
          if bool_decide (send = []) then None
          else Some (iov_of bs blks (ws_send_head_offset s) send), s') ∧
    ws_ok n bs cap s' p pend send frame free blks ∧
    ws_base s' = ws_base s ∧ ws_send_head_offset s' = ws_send_head_offset s.
Proof.
  intros H. pose proof H as [Hwbp Hiov Hoff Hhead]. pose proof (wbp_wb Hwbp) as Hw.
  pose proof (wr_send Hw) as Hr.
  pose proof (wb_send_le _ _ _ Hw) as Hle. pose proof (wr_pos Hw) as Hcap.
  unfold WriteBufStream_peek_iovec.
  replace (u64 (wb_send_tail (ws_base s) - wb_send_head (ws_base s))) with (Z.of_nat (length send)) by apply Hr.
  rewrite i32_small by lia.
  case_bool_decide as Hnil.
  { subst send. simpl. exists s. unfold send_stream, stream. simpl. by rewrite drop_nil. }
  rewrite (proj2 (Z.leb_gt _ _)) by (destruct send; [done|simpl; lia]). rewrite Nat2Z.id.
  destruct (for_up_inv (fun i st => ∃ j : nat, i = Z.of_nat j ∧ Z.of_nat (length st.1) = cap ∧
      take j st.1 = take j (iov_of bs blks (ws_send_head_offset s) send) ∧
      st.2 = Z.of_nat (length (drop (Z.to_nat (ws_send_head_offset s)) (stream blks (take j send)))))
    (peek_iovec_body s p) (length send) 0 (ws_iovec s, 0)) as ([iov bytes] & -> & j & Ej & Hl & Htk & Hb).
  { exists 0%nat. simpl. unfold stream. simpl. by rewrite drop_nil. }
  { intros i [iov bytes] Hi (j & -> & Hl & Htk & Hb). simpl in Hl, Htk, Hb. subst bytes.
    destruct (peek_iovec_body_spec _ _ _ _ _ _ _ iov j H Hl ltac:(lia) Htk) as (iov' & Hrun & Hl' & Htk').
    eexists. split; [exact Hrun|]. exists (S j). split_and!; [lia|done|done|done]. }
  step. simpl in Hl, Htk, Hb. replace j with (length send) in Htk, Hb by lia.
  rewrite (take_ge (iov_of _ _ _ _)) in Htk by (rewrite iov_of_length; lia).
  rewrite (take_ge send) in Hb by lia. rewrite Htk, Hb.
  eexists. split; [done|]. split; [by split|done].
Qed.

(** *** consume_written and reset *)

(** The head block of the send queue goes back to the pool. *)
Lemma ws_pop_send s p pend i send frame free blks :
  ws_ok n bs cap s p pend (i :: send) frame free blks →
  let w := ws_base s in
  let s1 := mkWriteBufStream
    (wb_with_send w (wb_send_queue w) (u64 (wb_send_head w + 1)) (wb_send_tail w)) (ws_iovec s) 0 in
  ∃ p' blks', BufPool_release p i = Ok p' ∧
    ws_ok n bs cap s1 p' pend send frame (free ++ [i]) blks' ∧
    same_on (pend ++ send ++ frame) blks blks'.
Proof.
  intros H. cbv zeta. pose proof H as [Hwbp Hiov Hoff Hhead]. pose proof Hwbp as [Hw Hp Hperm].
  destruct (wbp_held _ _ _ _ _ _ _ _ _ _ i Hwbp) as (Hi & Hni & _); [elt|].
  destruct (pool_release _ _ _ _ _ i Hp Hi Hni) as (p1 & -> & Hp1).
  eexists _, _. split; [done|]. split; [split; simpl; [split| | |by left]|]; try done.
  - eapply wb_rep_send; [exact Hw|]. exact (ring_pop _ _ _ _ _ _ _ (wr_send Hw)).
  - rewrite <- Hperm. solve_Permutation.
  - apply same_on_insert; [lia|]. intros j Hj.
    destruct (wbp_held _ _ _ _ _ _ _ _ _ _ j Hwbp) as (Hjr & _ & _); [elt|].
    split; [lia|]. intros ->. pose proof (wbp_nodup _ _ _ _ _ _ _ _ _ _ Hwbp) as Hnd.
    assert (free ++ pend ++ (i :: send) ++ frame ≡ₚ i :: free ++ pend ++ send ++ frame) as Hp'
      by solve_Permutation.
    rewrite Hp' in Hnd. apply NoDup_cons in Hnd as [Hnd _]. apply Hnd. elt.
Qed.

Lemma consume_written_loop_spec fuel : ∀ s p pend send frame free blks bytes,
  ws_ok n bs cap s p pend send frame free blks →
  0 ≤ bytes ≤ Z.of_nat (length (send_stream s blks send)) → (length send < fuel)%nat →
  ∃ s' p' rel send' blks', consume_written_loop fuel s p bytes = Ok (s', p') ∧
    send = rel ++ send' ∧ ws_ok n bs cap s' p' pend send' frame (free ++ rel) blks' ∧
    same_on (pend ++ send' ++ frame) blks blks' ∧
    send_stream s' blks' send' = drop (Z.to_nat bytes) (send_stream s blks send).
Proof.
  induction fuel as [|fuel IH]; intros s p pend send frame free blks bytes H Hb Hf; [lia|].
  cbn [consume_written_loop].
  case_test; step.
  { replace (Z.to_nat bytes) with 0%nat by lia. exists s, p, [], send, blks.
    rewrite app_nil_r. by split_and!. }
  pose proof H as [Hwbp Hiov Hoff Hhead]. pose proof Hwbp as [Hw Hp Hperm].
  pose proof (ws_stream_bound _ _ _ _ _ _ _ H) as Hbound.
  unfold send_stream in Hb. rewrite length_drop in Hb.
  destruct send as [|i send]; [unfold stream in Hb; simpl in Hb; lia|]. cbn [length] in Hf.
  rewrite (ring_eqb _ _ _ _ _ _ (wr_send Hw)), bool_decide_false by done. step.
  rewrite (ring_first _ _ _ _ _ _ _ (wr_send Hw)). step.
  destruct (wbp_held _ _ _ _ _ _ _ _ _ _ i Hwbp) as (Hi & Hni & Hib); [elt|].
  rewrite (pool_get_data_size _ _ _ _ _ i _ Hp ltac:(lia) Hib). step.
  rewrite stream_cons, length_app in Hb, Hbound.
  assert (ws_send_head_offset s ≤ Z.of_nat (length (blk blks i))) as Hol.
  { destruct Hhead as [->|(? & ? & [= <- <-] & ?)]; lia. }
  rewrite (u32_small (_ - _)) by lia. case_test.
  - rewrite u32_small by lia. eexists _, _, [], (i :: send), blks. rewrite app_nil_r.
    split_and!; try done.
    + split; simpl; try done; [lia|]. right. eexists _, _. split; [done|]. lia.
    + unfold send_stream. simpl. rewrite drop_drop. f_equal. lia.
  - destruct (ws_pop_send _ _ _ _ _ _ _ _ H) as (p1 & blks1 & -> & H1 & Hs1). step.
    destruct (IH _ _ _ _ _ _ _ (bytes - (Z.of_nat (length (blk blks i)) - ws_send_head_offset s)) H1)
      as (s' & p' & rel & send' & blks' & Hrun & -> & Hok & Hs' & Hstr); [|lia|].
    { unfold send_stream. simpl. rewrite drop_0, (stream_same _ blks blks1); [lia|].
      eapply same_on_sub; [|exact Hs1]. intros j Hj. elt. }
    exists s', p', (i :: rel), send', blks'. split; [exact Hrun|]. split; [done|].
    split; [by rewrite <- (assoc_L (++)) in Hok|]. split.
    + eapply same_on_trans; [|exact Hs']. eapply same_on_sub; [|exact Hs1]. intros j Hj. elt.
    + rewrite Hstr. unfold send_stream. cbn [ws_send_head_offset]. rewrite drop_0, (stream_same _ blks blks1).
      * rewrite stream_cons, drop_drop, drop_app_ge by lia. f_equal. lia.
      * eapply same_on_sub; [|exact Hs1]. intros j Hj. elt.
Qed.

Lemma consume_written_spec s p pend send frame free blks bytes :
  ws_ok n bs cap s p pend send frame free blks →
  0 ≤ bytes ≤ Z.of_nat (length (send_stream s blks send)) →
  ∃ s' p' rel send' blks', WriteBufStream_consume_written s p bytes = Ok (s', p') ∧
    send = rel ++ send' ∧ ws_ok n bs cap s' p' pend send' frame (free ++ rel) blks' ∧
    same_on (pend ++ send' ++ frame) blks blks' ∧
    send_stream s' blks' send' = drop (Z.to_nat bytes) (send_stream s blks send).
Proof.
  intros H Hb. apply consume_written_loop_spec; [done..|].
  pose proof (wbp_wb (wso_wbp H)) as Hw.
  pose proof (wb_send_le _ _ _ Hw). rewrite (wr_cap Hw). lia.
Qed.

Lemma release_send_spec fuel : ∀ s p pend send frame free blks,
  ws_ok n bs cap s p pend send frame free blks → (length send ≤ fuel)%nat →
  ∃ w' p' blks', release_send fuel (ws_base s) p = Ok (w', p') ∧
    wbp n bs cap w' p' pend [] frame (free ++ send) blks' ∧ same_on (pend ++ frame) blks blks'.
Proof.
  induction fuel as [|fuel IH]; intros s p pend send frame free blks H Hf; cbn [release_send].
  all: pose proof (wbp_wb (wso_wbp H)) as Hw.
  all: rewrite (ring_eqb _ _ _ _ _ _ (wr_send Hw)); case_bool_decide as Hnil.
  1,3: subst; rewrite app_nil_r; eexists _, _, _; split; [done|]; split; [apply H|apply same_on_refl].
  { destruct send; [done|simpl in Hf; lia]. }
  destruct send as [|i send]; [done|]. cbn [length] in Hf.
  rewrite (ring_first _ _ _ _ _ _ _ (wr_send Hw)). step.
  destruct (ws_pop_send _ _ _ _ _ _ _ _ H) as (p1 & blks1 & -> & H1 & Hs1). step.
  destruct (IH _ _ _ _ _ _ _ H1 ltac:(lia)) as (w' & p' & blks' & Hrun & Hw' & Hs').
  exists w', p', blks'. split; [exact Hrun|]. split; [by rewrite <- (assoc_L (++)) in Hw'|].
  eapply same_on_trans; [|exact Hs']. eapply same_on_sub; [|exact Hs1]. intros j Hj. elt.
Qed.

Lemma reset_spec s p pend send frame free blks :
  ws_ok n bs cap s p pend send frame free blks →
  ∃ s' p' blks', WriteBufStream_reset s p = Ok (s', p') ∧
    ws_ok n bs cap s' p' [] [] frame (free ++ send ++ pend) blks' ∧ same_on frame blks blks'.
Proof.
  intros H. pose proof (wso_wbp H) as Hwbp. pose proof Hwbp as [Hw Hp Hperm].
  pose proof (wb_send_le _ _ _ Hw). pose proof (wb_pend_le _ _ _ _ Hw). unfold WriteBufStream_reset.
  rewrite (wr_cap Hw).
  destruct (release_send_spec (S (Z.to_nat cap)) _ _ _ _ _ _ _ H ltac:(lia))
    as (w1 & p1 & blks1 & -> & [Hw1 Hp1 Hperm1] & Hs1). step.
  destruct (release_pending_spec n bs cap (S (Z.to_nat cap)) w1 p1 pend [] frame _ _ Hw1 Hp1 Hperm1 ltac:(lia))
    as (w2 & p2 & -> & Hw2 & Hp2). step.
  eexists _, _, _. split; [done|]. split; [split; simpl; [split|apply H|lia|by left]|].
  - eapply wb_rep_send; [eapply wb_rep_pending; [exact Hw2|]|];
      (eapply ring_at; [apply Hw2|lia]).
  - by rewrite <- (assoc_L (++)) in Hp2.
  - rewrite <- Hperm. simpl. solve_Permutation.
  - eapply same_on_trans; [eapply same_on_sub; [|exact Hs1]; intros j Hj; elt|].
    apply same_on_clear.
    + intros i Hi. destruct (perm_held _ _ _ i Hperm1); [elt|lia].
    + intros j Hj. destruct (perm_held _ _ _ j Hperm1); [elt|]. split; [lia|].
      intros Hjp. assert (NoDup ((free ++ send) ++ pend ++ [] ++ frame)) as Hnd
        by (rewrite Hperm1; apply NoDup_seqZ).
      apply NoDup_app in Hnd as (_ & _ & Hnd). apply NoDup_app in Hnd as (_ & Hd & _). by apply (Hd j).
Qed.
End spec.
