(* ===== verification/TcpSend.v ===== *)
(** * TcpSend: the transmit side of TCP channels that share a buffer pool

    The channels of a worker draw their blocks from one BufPool
    (include/core/tcp_thread.hpp, src/net/channel.cpp).  A channel's user
    appends, prepends, discards and submits; [tcp_write_loop]
    (src/net/handler.cpp lines 42-73) issues a [writev] over [peek_iovec] and,
    when it completes with [n] bytes, calls [consume_written n].  This file runs
    arbitrary interleavings of these calls over any number of channels, with
    the kernel reading the memory behind the vector only when the write
    completes, and relates every run to a specification without buffers: an
    append-only byte string per connection and a count of acknowledged bytes. *)
From S2P Require Import Prelude Ring BufPool WriteBuf WriteBufStream.

(** ** The concrete system *)

(** A channel's buffer, the vector of its write in flight and the bytes the
    kernel accepted so far. *)
Record tx_chan := mkTxChan {
  tc_stream : WriteBufStream;
  tc_flight : option (list (Z * Z));
  tc_wire : list byte
}.

Record tx_sys := mkTxSys { tx_chans : list tx_chan; tx_pool : BufPool }.

Inductive tx_cmd :=
  | TxAppend (data : list byte)
  | TxPrepend (data : list byte)
  | TxDiscard
  | TxSubmit
  | TxIssue                       (* await writev over peek_iovec *)
  | TxComplete (n : Z)            (* the completion with res = n *)
  | TxReset.                      (* the channel is closed and drained *)

(** The bytes of a vector. *)
Definition iov_total (v : list (Z * Z)) : Z := foldr (fun e t => e.2 + t) 0 v.

(** One command on one channel; the boolean is the operation's result, or
    whether the command was possible at all.  A write is only issued with none
    in flight and data queued, and a reset only happens with none in flight. *)
Definition tx_chan_step (ch : tx_chan) (p : BufPool) (c : tx_cmd)
    : result (bool * tx_chan * BufPool) :=
  let s := tc_stream ch in
  let with_stream s' := mkTxChan s' (tc_flight ch) (tc_wire ch) in
  match c with
  | TxAppend d =>
      '(ok, s, p) ← WriteBufStream_append s p d (Z.of_nat (length d)); Ok (ok, with_stream s, p)
  | TxPrepend d =>
      '(ok, s, p) ← WriteBufStream_prepend s p d (Z.of_nat (length d)); Ok (ok, with_stream s, p)
  | TxDiscard =>
      '(w, p) ← WriteBufBase_discard_pending (ws_base s) p; Ok (true, with_stream (ws_with_base s w), p)
  | TxSubmit => '(ok, s) ← WriteBufStream_submit s; Ok (ok, with_stream s, p)
  | TxIssue =>
      if bool_decide (is_Some (tc_flight ch)) || negb (WriteBufStream_has_send_data s)
      then Ok (false, ch, p) else
      '(_, _, v, s) ← WriteBufStream_peek_iovec s p;
      Ok (true, mkTxChan s v (tc_wire ch), p)
  | TxComplete n =>
      match tc_flight ch with
      | Some v =>
          if (0 <=? n) && (n <=? iov_total v) then
            let sent := take (Z.to_nat n) (gather (bp_bufs p) v) in
            '(s, p) ← WriteBufStream_consume_written s p n;
            Ok (true, mkTxChan s None (tc_wire ch ++ sent), p)
          else Ok (false, ch, p)
      | None => Ok (false, ch, p)
      end
  | TxReset =>
      if bool_decide (is_Some (tc_flight ch)) then Ok (false, ch, p) else
      '(s, p) ← WriteBufStream_reset s p; Ok (true, mkTxChan s None [], p)
  end.

Definition tx_step (x : tx_sys) (c : nat * tx_cmd) : result (bool * tx_sys) :=
  match tx_chans x !! c.1 with
  | None => Ok (false, x)
  | Some ch =>
      '(ok, ch, p) ← tx_chan_step ch (tx_pool x) c.2;
      Ok (ok, mkTxSys (<[c.1 := ch]> (tx_chans x)) p)
  end.

Fixpoint tx_run (x : tx_sys) (cs : list (nat * tx_cmd)) : result (list bool * tx_sys) :=
  match cs with
  | [] => Ok ([], x)
  | c :: cs =>
      '(ok, x) ← tx_step x c;
      '(oks, x) ← tx_run x cs;
      Ok (ok :: oks, x)
  end.

(** ** The specification: no buffers, no memory *)

Record tx_spec := mkTxSpec {
  sp_pend : list byte;            (* appended, not submitted *)
  sp_sent : list byte;            (* every submitted byte, in order *)
  sp_acked : nat;                 (* how many of them the kernel accepted *)
  sp_flight : option nat          (* the size of the write in flight *)
}.
Definition tx_spec_0 : tx_spec := mkTxSpec [] [] 0 None.

Definition tx_spec_chan (sp : tx_spec) (c : tx_cmd) : tx_spec :=
  let '(mkTxSpec pend sent acked flight) := sp in
  match c with
  | TxAppend d => mkTxSpec (pend ++ d) sent acked flight
  | TxPrepend d => mkTxSpec (d ++ pend) sent acked flight
  | TxDiscard => mkTxSpec [] sent acked flight
  | TxSubmit => mkTxSpec [] (sent ++ pend) acked flight
  | TxIssue => mkTxSpec pend sent acked (Some (length sent - acked)%nat)
  | TxComplete n => mkTxSpec pend sent (acked + Z.to_nat n) None
  | TxReset => tx_spec_0
  end.

(** A command reported as failed changes nothing. *)
Fixpoint tx_spec_run (sps : list tx_spec) (cs : list (nat * tx_cmd)) (oks : list bool)
    : list tx_spec :=
  match cs, oks with
  | c :: cs, ok :: oks =>
      tx_spec_run (if ok : bool then alter (fun sp => tx_spec_chan sp c.2) c.1 sps else sps) cs oks
  | _, _ => sps
  end.

(** ** The invariant *)

Definition owned (owns : list (list Z * list Z)) : list Z := owns ≫= fun o => o.1 ++ o.2.
Definition others (c : nat) (owns : list (list Z * list Z)) : list Z :=
  owned (take c owns ++ drop (S c) owns).

(** The write in flight covers a prefix of the send queue, from the offset on. *)
Definition flight_inv (bs : Z) (blks : list (list byte)) (s : WriteBufStream)
    (fl : option (list (Z * Z))) (send : list Z) (spfl : option nat) : Prop :=
  match fl with
  | None => spfl = None
  | Some v => ∃ send0 more, send = send0 ++ more ∧ send0 ≠ [] ∧
      v = iov_of bs blks (ws_send_head_offset s) send0 ∧
      spfl = Some (length (send_stream s blks send0))
  end.

#[local] Set Implicit Arguments.
Record chan_inv (bs cap : Z) (blks : list (list byte)) (ch : tx_chan) (own : list Z * list Z)
    (sp : tx_spec) : Prop := {
  ci_rep : wb_rep cap (ws_base (tc_stream ch)) own.1 own.2;
  ci_iov : Z.of_nat (length (ws_iovec (tc_stream ch))) = cap;
  ci_off : 0 ≤ ws_send_head_offset (tc_stream ch);
  ci_head : ws_send_head_offset (tc_stream ch) = 0 ∨ ∃ x l,
    own.2 = x :: l ∧ ws_send_head_offset (tc_stream ch) < Z.of_nat (length (blk blks x));
  ci_pend : stream blks own.1 = sp_pend sp;
  ci_acked : (sp_acked sp ≤ length (sp_sent sp))%nat;
  ci_queue : send_stream (tc_stream ch) blks own.2 = drop (sp_acked sp) (sp_sent sp);
  ci_wire : tc_wire ch = take (sp_acked sp) (sp_sent sp);
  ci_flight : flight_inv bs blks (tc_stream ch) (tc_flight ch) own.2 (sp_flight sp)
}.
#[local] Unset Implicit Arguments.

#[local] Set Implicit Arguments.
Record sys_inv (n bs cap : Z) (x : tx_sys) (owns : list (list Z * list Z)) (sps : list tx_spec)
    (free : list Z) (blks : list (list byte)) : Prop := {
  si_pool : pool_rep n bs (tx_pool x) free blks;
  si_perm : free ++ owned owns ≡ₚ seqZ 0 n;
  si_owns : length owns = length (tx_chans x);
  si_sps : length sps = length (tx_chans x);
  si_chan c ch own sp : tx_chans x !! c = Some ch → owns !! c = Some own → sps !! c = Some sp →
    chan_inv bs cap blks ch own sp
}.
#[local] Unset Implicit Arguments.
Arguments si_chan {_ _ _ _ _ _ _ _} _ _ _ _ _.

Section spec.
Context (n bs cap : Z).

Lemma owned_middle (owns : list (list Z * list Z)) c own :
  (c < length owns)%nat → owned (<[c := own]> owns) ≡ₚ own.1 ++ own.2 ++ others c owns.
Proof.
  intros Hc. unfold others, owned. rewrite insert_take_drop by done.
  rewrite !bind_app, bind_cons. simpl. solve_Permutation.
Qed.

Lemma sys_focus x owns sps free blks c ch own sp :
  sys_inv n bs cap x owns sps free blks →
  tx_chans x !! c = Some ch → owns !! c = Some own → sps !! c = Some sp →
  ws_ok n bs cap (tc_stream ch) (tx_pool x) own.1 own.2 (others c owns) free blks.
Proof.
  intros [Hpool Hperm Ho Hs Hch] Hc Hown Hsp. pose proof (Hch _ _ _ _ Hc Hown Hsp) as Hi.
  split; try apply Hi. split; [apply Hi|done|]. rewrite <- Hperm.
  f_equiv. rewrite <- owned_middle by (by eapply lookup_lt_Some). by rewrite list_insert_id.
Qed.

Lemma iov_of_same blks blks' off l :
  same_on l blks blks' → iov_of bs blks' off l = iov_of bs blks off l.
Proof.
  intros Hs. destruct l as [|y l]; [done|]. simpl. rewrite (Hs y) by (by left). f_equal.
  apply list_fmap_ext. intros i j Hj. simpl. rewrite Hs; [done|].
  apply list_elem_of_lookup_2 in Hj. by right.
Qed.

(** What the channel owes to its send queue survives changes elsewhere, and
    growth of the queue. *)
Lemma flight_same blks blks' s s' fl send more spfl :
  same_on send blks blks' → ws_send_head_offset s' = ws_send_head_offset s →
  flight_inv bs blks s fl send spfl → flight_inv bs blks' s' fl (send ++ more) spfl.
Proof.
  intros Hs Ho. destruct fl as [v|]; [|done]. intros (s0 & m & -> & Hne & -> & ->).
  assert (same_on s0 blks blks') as Hs0 by (eapply same_on_sub; [|exact Hs]; intros i; elt).
  exists s0, (m ++ more). rewrite <- (assoc_L (++)). split_and!; try done.
  - by rewrite Ho, (iov_of_same blks blks').
  - unfold send_stream. by rewrite Ho, (stream_same _ blks blks').
Qed.

Lemma send_stream_same blks blks' s s' send :
  same_on send blks blks' → ws_send_head_offset s' = ws_send_head_offset s →
  send_stream s' blks' send = send_stream s blks send.
Proof. intros Hs Ho. unfold send_stream. by rewrite Ho, (stream_same _ blks blks'). Qed.

Lemma chan_inv_same blks blks' ch own sp :
  same_on (own.1 ++ own.2) blks blks' → chan_inv bs cap blks ch own sp → chan_inv bs cap blks' ch own sp.
Proof.
  intros Hs Hi. assert (same_on own.1 blks blks') as Hs1 by (eapply same_on_sub; [|exact Hs]; intros i; elt).
  assert (same_on own.2 blks blks') as Hs2 by (eapply same_on_sub; [|exact Hs]; intros i; elt).
  split; try apply Hi.
  - destruct (ci_head Hi) as [?|(y & l & E & Hlt)]; [by left|].
    right. exists y, l. split; [done|]. rewrite Hs; [done|]. rewrite E. elt.
  - rewrite <- (ci_pend Hi). by apply stream_same.
  - rewrite <- (ci_queue Hi). by apply send_stream_same.
  - rewrite <- (app_nil_r own.2). eapply flight_same; [exact Hs2|done|apply Hi].
Qed.

(** A step that only touches the pending side. *)
Lemma chan_inv_pending blks blks' ch pend send sp s' p' pend' frame free' P :
  chan_inv bs cap blks ch (pend, send) sp → ws_ok n bs cap s' p' pend' send frame free' blks' →
  same_on send blks blks' → ws_send_head_offset s' = ws_send_head_offset (tc_stream ch) →
  stream blks' pend' = P →
  chan_inv bs cap blks' (mkTxChan s' (tc_flight ch) (tc_wire ch)) (pend', send)
    (mkTxSpec P (sp_sent sp) (sp_acked sp) (sp_flight sp)).
Proof.
  intros Hi [Hwbp Hiov Hoff Hhead] Hs Ho HP. split; simpl; try done; try apply Hi.
  - apply Hwbp.
  - rewrite <- (ci_queue Hi). by apply send_stream_same.
  - rewrite <- (app_nil_r send). eapply flight_same; [exact Hs|exact Ho|apply Hi].
Qed.

(** Which blocks a command moves where. *)
Definition own_step (c : tx_cmd) (ok : bool) (pend send free : list Z) (blks : list (list byte))
    (own' : list Z * list Z) (free' : list Z) (blks' : list (list byte)) : Prop :=
  match c with
  | TxAppend d =>
      own'.2 = send ∧ same_on send blks blks' ∧ (ok = false → own'.1 = pend ∧ same_on pend blks blks' ∧ free' ≡ₚ free) ∧
      (ok = true → (∃ more, own'.1 = pend ++ more ∧ free = more ++ free') ∧
         Z.of_nat (length own'.1) = Z.of_nat (length pend) + append_need bs blks pend (Z.of_nat (length d)) ∧
         (d ≠ [] → (∀ i, i ∈ pend → blk blks i ≠ []) → ∀ i, i ∈ own'.1 → blk blks' i ≠ [])) ∧
      ok = fits cap (append_need bs blks pend (Z.of_nat (length d))) (Z.of_nat (length free)) (Z.of_nat (length pend))
  | TxSubmit =>
      own' = (if ok then ([], send ++ pend) else (pend, send)) ∧ free' = free ∧ blks' = blks ∧
      ok = negb (bool_decide (pend = [])) && (Z.of_nat (length pend + length send) <=? cap)
  | TxIssue => own' = (pend, send) ∧ free' = free ∧ blks' = blks
  | TxComplete _ =>
      ∃ rel, own'.1 = pend ∧ send = rel ++ own'.2 ∧ free' = free ++ rel ∧ same_on (pend ++ own'.2) blks blks'
  | _ => True
  end.

(** The outcome of one command: the channel's blocks and contents, with the
    blocks of the other channels untouched. *)
Definition step_post (ch : tx_chan) (p : BufPool) (c : tx_cmd) (pend send frame free : list Z)
    (blks : list (list byte)) (sp : tx_spec) : Prop :=
  ∃ ok ch' p' own' free' blks', tx_chan_step ch p c = Ok (ok, ch', p') ∧
    ws_ok n bs cap (tc_stream ch') p' own'.1 own'.2 frame free' blks' ∧
    same_on frame blks blks' ∧
    chan_inv bs cap blks' ch' own' (if ok then tx_spec_chan sp c else sp) ∧
    own_step c ok pend send free blks own' free' blks'.

Lemma step_refuse ch p c pend send frame free blks sp :
  ws_ok n bs cap (tc_stream ch) p pend send frame free blks →
  chan_inv bs cap blks ch (pend, send) sp →
  tx_chan_step ch p c = Ok (false, ch, p) → own_step c false pend send free blks (pend, send) free blks →
  step_post ch p c pend send frame free blks sp.
Proof. intros H Hi E Ho. exists false, ch, p, (pend, send), free, blks. by split_and!. Qed.

Lemma ws_ok_base s w p pend send frame free blks pend0 free0 blks0 p0 :
  ws_ok n bs cap s p0 pend0 send frame free0 blks0 → same_on send blks0 blks →
  wbp n bs cap w p pend send frame free blks → ws_ok n bs cap (ws_with_base s w) p pend send frame free blks.
Proof.
  intros [_ Hiov Hoff Hhead] Hs Hw. split; simpl; try done.
  destruct Hhead as [?|(y & l & -> & Hlt)]; [by left|]. right. exists y, l. split; [done|].
  rewrite Hs; [done|by left].
Qed.

Lemma iov_total_cons a l v : iov_total ((a, l) :: v) = l + iov_total v.
Proof. done. Qed.

(** The vector's byte count is the number of bytes queued behind it. *)
Lemma iov_total_of blks off l :
  0 ≤ off → (off = 0 ∨ ∃ x k, l = x :: k ∧ off < Z.of_nat (length (blk blks x))) →
  iov_total (iov_of bs blks off l) = Z.of_nat (length (drop (Z.to_nat off) (stream blks l))).
Proof.
  intros Hoff Hhead. rewrite length_drop. destruct l as [|x l]; [done|].
  assert (iov_total ((fun j => (j * bs, Z.of_nat (length (blk blks j)))) <$> l) =
          Z.of_nat (length (stream blks l))) as Htl.
  { clear Hhead. induction l as [|y l IH]; [done|].
    rewrite fmap_cons, iov_total_cons, stream_cons, length_app, IH. lia. }
  rewrite stream_cons, length_app. cbn [iov_of]. rewrite iov_total_cons, Htl.
  destruct Hhead as [->|(? & ? & [= <- <-] & ?)]; lia.
Qed.

Lemma head_le blks off l :
  (off = 0 ∨ ∃ x k, l = x :: k ∧ off < Z.of_nat (length (blk blks x))) →
  (Z.to_nat off ≤ length (stream blks l))%nat.
Proof.
  intros [->|(x & k & -> & ?)]; [simpl; lia|]. rewrite stream_cons, length_app. lia.
Qed.

Section step.
Context (ch : tx_chan) (p : BufPool) (pend send frame free : list Z) (blks : list (list byte)) (sp : tx_spec).
Hypothesis Hok : ws_ok n bs cap (tc_stream ch) p pend send frame free blks.
Hypothesis Hinv : chan_inv bs cap blks ch (pend, send) sp.

(** append, prepend and discard_pending only move pending blocks. *)
Lemma step_pending c ok w' p' pend' free' blks' P :
  tx_chan_step ch p c = Ok (ok, mkTxChan (ws_with_base (tc_stream ch) w') (tc_flight ch) (tc_wire ch), p') →
  wbp n bs cap w' p' pend' send frame free' blks' → same_on (send ++ frame) blks blks' →
  stream blks' pend' = P →
  (if ok then tx_spec_chan sp c else sp) = mkTxSpec P (sp_sent sp) (sp_acked sp) (sp_flight sp) →
  own_step c ok pend send free blks (pend', send) free' blks' →
  step_post ch p c pend send frame free blks sp.
Proof.
  intros Hrun Hw Hs HP Hsp Hown.
  assert (same_on send blks blks') as Hs1 by (eapply same_on_sub; [|exact Hs]; intros i; elt).
  pose proof (ws_ok_base _ _ _ _ _ _ _ _ _ _ _ _ Hok Hs1 Hw) as Hok'.
  eexists ok, _, p', (pend', send), free', blks'. split_and!; [exact Hrun|exact Hok'| | |exact Hown].
  - eapply same_on_sub; [|exact Hs]. intros i; elt.
  - rewrite Hsp. by eapply chan_inv_pending.
Qed.

Lemma step_append d : Z.of_nat (length d) < 2 ^ 32 → step_post ch p (TxAppend d) pend send frame free blks sp.
Proof.
  intros Hd.
  destruct (append_blocks _ _ _ _ _ _ _ _ _ _ d _ (wso_wbp Hok) eq_refl Hd)
    as (ok & w' & p' & pend' & free' & blks' & Hrun & [Hw Hs Hyes Hno] & Hfit & Hbl).
  eapply step_pending; [|exact Hw|exact Hs|reflexivity| |].
  - cbn [tx_chan_step]. unfold WriteBufStream_append. rewrite Hrun. done.
  - pose proof (ci_pend Hinv) as HP. destruct sp; simpl in *. destruct ok; f_equal.
    + destruct (Hyes eq_refl) as [-> _]. by rewrite HP.
    + destruct (Hno eq_refl) as (-> & Hsame & _). by rewrite (stream_same _ _ _ Hsame).
  - split; [done|]. split; [eapply same_on_sub; [|exact Hs]; intros i; elt|]. split; [done|]. split; [|done].
    intros Ht. destruct (Hyes Ht) as [_ ?], (Hbl Ht) as [? Hf]. split; [done|]. split; [done|].
    intros Hne Hall. apply Hf. split; [|done]. destruct d; [done|simpl; lia].
Qed.

Lemma step_prepend d : Z.of_nat (length d) + bs - 1 < 2 ^ 32 → step_post ch p (TxPrepend d) pend send frame free blks sp.
Proof.
  intros Hd.
  destruct (prepend_spec _ _ _ _ _ _ _ _ _ _ d _ (wso_wbp Hok) eq_refl Hd)
    as (ok & w' & p' & pend' & free' & blks' & Hrun & [Hw Hs Hyes Hno] & _).
  eapply step_pending; [|exact Hw|eapply same_on_sub; [|exact Hs]; intros i; elt|reflexivity| |done].
  - cbn [tx_chan_step]. unfold WriteBufStream_prepend. rewrite Hrun. done.
  - pose proof (ci_pend Hinv) as HP. destruct sp; simpl in *. destruct ok; f_equal.
    + destruct (Hyes eq_refl) as [-> _]. by rewrite HP.
    + destruct (Hno eq_refl) as (-> & _). rewrite (stream_same _ blks); [done|].
      eapply same_on_sub; [|exact Hs]; intros i; elt.
Qed.

Lemma step_discard : step_post ch p TxDiscard pend send frame free blks sp.
Proof.
  destruct (discard_pending_spec _ _ _ _ _ _ _ _ _ _ (wso_wbp Hok))
    as (w' & p' & Hrun & Hw & Hs).
  eapply (step_pending _ true); [|exact Hw|exact Hs|reflexivity| |done].
  - cbn [tx_chan_step]. by rewrite Hrun.
  - by destruct sp.
Qed.

Lemma step_submit : step_post ch p TxSubmit pend send frame free blks sp.
Proof.
  destruct (submit_spec _ _ _ _ _ _ _ _ _ _ Hok) as (ok & s' & Hrun & Hcond & Hs).
  destruct ok; last first.
  { subst s'. eapply step_refuse; [done..| |done]. cbn [tx_chan_step]. rewrite Hrun. by destruct ch. }
  destruct Hs as (Hok' & Hstr & Ho).
  eexists true, _, _, ([], send ++ pend), free, blks. cbn [tx_chan_step]. rewrite Hrun.
  split; [done|]. split; [exact Hok'|]. split; [done|]. split; [|done]. pose proof Hok' as [Hw' Hiov Hoff Hhead].
  destruct sp as [P S A F]. pose proof Hinv as [Hr _ _ _ HP HA HQ HW HF].
  split; simpl in *; try done.
  - apply Hw'.
  - rewrite length_app. lia.
  - rewrite drop_app_le by done. by rewrite Hstr, HQ, HP.
  - by rewrite take_app_le.
  - eapply flight_same; [done|exact Ho|exact HF].
Qed.

Lemma step_issue : step_post ch p TxIssue pend send frame free blks sp.
Proof.
  unfold step_post. cbn [tx_chan_step].
  pose proof (wbp_wb (wso_wbp Hok)) as Hw.
  destruct (_ || _) eqn:Hc.
  { by exists false, ch, p, (pend, send), free, blks. }
  apply orb_false_iff in Hc as [Hfl Hne]. apply bool_decide_eq_false in Hfl.
  unfold WriteBufStream_has_send_data in Hne.
  rewrite (ring_eqb _ _ _ _ _ _ (wr_send Hw)), negb_involutive in Hne.
  apply bool_decide_eq_false in Hne.
  destruct (peek_iovec_spec _ _ _ _ _ _ _ _ _ _ Hok) as (s' & -> & Hok' & Hb & Ho). step.
  rewrite bool_decide_false by done.
  eexists true, _, _, (pend, send), free, blks. split; [done|]. split; [exact Hok'|]. split; [done|]. split; [|done].
  destruct sp as [P S A F]. pose proof Hinv as [Hr _ _ _ HP HA HQ HW HF].
  pose proof Hok' as [Hw' Hiov Hoff Hhead]. simpl in *.
  assert (send_stream s' blks send = send_stream (tc_stream ch) blks send) as HQ'
    by (by apply send_stream_same).
  split; simpl; try done.
  - apply Hw'.
  - by rewrite HQ'.
  - exists send, []. rewrite app_nil_r. split_and!; try done.
    + by rewrite Ho.
    + by rewrite HQ', HQ, length_drop.
Qed.

(** The memory behind a write in flight holds the next bytes to acknowledge. *)
Lemma flight_prefix v : tc_flight ch = Some v →
  gather (bp_bufs p) v `prefix_of` drop (sp_acked sp) (sp_sent sp) ∧ iov_total v = Z.of_nat (length (gather (bp_bufs p) v)).
Proof.
  intros Hfl. pose proof Hinv as [_ _ _ _ _ _ HQ _ HF]. pose proof (wso_wbp Hok) as Hwbp. simpl in *.
  rewrite Hfl in HF. destruct HF as (send0 & more & E & Hne & -> & _).
  assert (Hhead : ws_send_head_offset (tc_stream ch) = 0 ∨ ∃ x l, send0 = x :: l ∧
      ws_send_head_offset (tc_stream ch) < Z.of_nat (length (blk blks x))).
  { destruct (wso_head Hok) as [?|(x & l & E' & ?)]; [by left|].
    right. rewrite E in E'. destruct send0; [done|]. simplify_list_eq. eauto. }
  pose proof (wso_off Hok) as Hoff.
  assert (Hheld : ∀ i, i ∈ send0 → 0 ≤ i < n).
  { intros i Hi. apply (wbp_held _ _ _ _ _ _ _ _ _ _ i Hwbp). rewrite E. elt. }
  rewrite iov_total_of, (gather_iov n bs p free); [|apply Hwbp|done..].
  split; [|done]. rewrite <- HQ, E. unfold send_stream. rewrite stream_app, drop_app_le; [by apply prefix_app_r|].
  by apply head_le.
Qed.

Lemma step_complete m : step_post ch p (TxComplete m) pend send frame free blks sp.
Proof.
  unfold step_post. cbn [tx_chan_step].
  destruct (tc_flight ch) as [v|] eqn:Hfl; last by exists false, ch, p, (pend, send), free, blks; split_and!; try done; exists []; rewrite app_nil_r.
  destruct (flight_prefix v Hfl) as [Hpre ->]. set (sent := gather (bp_bufs p) v) in *. clearbody sent.
  destruct sp as [P S A F]. pose proof Hinv as [Hr _ _ _ HP HA HQ HW _].
  pose proof (wso_wbp Hok) as Hwbp. simpl in *.
  case_test; last by exists false, ch, p, (pend, send), free, blks; split_and!; try done; exists []; rewrite app_nil_r.
  pose proof (prefix_length _ _ Hpre) as Hlen.
  destruct (consume_written_spec _ _ _ _ _ _ _ _ _ _ m Hok) as
    (s' & p' & rel & send' & blks' & -> & Hsplit & Hok' & Hs & Hstr); [rewrite HQ; lia|]. step.
  eexists true, _, _, (pend, send'), _, blks'. split; [done|]. split; [exact Hok'|].
  split; [eapply same_on_sub; [|exact Hs]; intros i; elt|]. split.
  2: { exists rel. split_and!; try done. eapply same_on_sub; [|exact Hs]. intros i; elt. }
  rewrite length_drop in Hlen. pose proof Hok' as [Hw' Hiov Hoff' Hhead'].
  split; simpl; try done; [apply Hw'| |lia| |].
  - rewrite <- HP. apply stream_same. eapply same_on_sub; [|exact Hs]. intros i; elt.
  - by rewrite Hstr, HQ, drop_drop.
  - rewrite HW. destruct Hpre as [r Hpre]. rewrite <- take_take_drop. f_equal. by rewrite Hpre, take_app_le by lia.
Qed.

Lemma step_reset : step_post ch p TxReset pend send frame free blks sp.
Proof.
  unfold step_post. cbn [tx_chan_step]. case_bool_decide.
  { by exists false, ch, p, (pend, send), free, blks. }
  destruct (reset_spec _ _ _ _ _ _ _ _ _ _ Hok) as (s' & p' & blks' & -> & Hok' & Hs). step.
  eexists true, _, _, ([], []), _, blks'. split; [done|]. split; [exact Hok'|]. split; [done|]. split; [|done].
  destruct sp. pose proof Hok' as [Hw' Hiov Hoff Hhead].
  split; simpl; try done; [apply Hw'|].
  unfold send_stream, stream. simpl. by rewrite drop_nil.
Qed.
End step.

(** The commands a user may issue: sizes are [unsigned int]s, and a prepend
    stays clear of the wrap-around of its block count. *)
Definition tx_cmd_ok (c : tx_cmd) : Prop :=
  match c with
  | TxAppend d => Z.of_nat (length d) < 2 ^ 32
  | TxPrepend d => Z.of_nat (length d) + bs - 1 < 2 ^ 32
  | _ => True
  end.

Lemma chan_step_spec ch p c pend send frame free blks sp :
  ws_ok n bs cap (tc_stream ch) p pend send frame free blks →
  chan_inv bs cap blks ch (pend, send) sp → tx_cmd_ok c → step_post ch p c pend send frame free blks sp.
Proof.
  intros Hok Hinv Hc. destruct c.
  - by eapply step_append.
  - by eapply step_prepend.
  - by eapply step_discard.
  - by eapply step_submit.
  - by eapply step_issue.
  - by eapply step_complete.
  - by eapply step_reset.
Qed.

Lemma sys_update x owns sps free blks c ch ch' own' sp' p' free' blks' :
  sys_inv n bs cap x owns sps free blks → tx_chans x !! c = Some ch →
  ws_ok n bs cap (tc_stream ch') p' own'.1 own'.2 (others c owns) free' blks' →
  same_on (others c owns) blks blks' → chan_inv bs cap blks' ch' own' sp' →
  sys_inv n bs cap (mkTxSys (<[c := ch']> (tx_chans x)) p') (<[c := own']> owns) (<[c := sp']> sps) free' blks'.
Proof.
  intros [Hpool Hperm Ho Hs Hch] Hc Hok' Hsame Hi'. pose proof (lookup_lt_Some _ _ _ Hc) as Hlt.
  pose proof (wso_wbp Hok') as [Hw' Hp' Hperm'].
  split; simpl; rewrite ?length_insert; try done.
  - rewrite owned_middle by lia. done.
  - intros d chd ownd spd Hd1 Hd2 Hd3. destruct (decide (c = d)) as [<-|Hne].
    + rewrite list_lookup_insert_eq in Hd1 by lia. rewrite list_lookup_insert_eq in Hd2 by lia.
      rewrite list_lookup_insert_eq in Hd3 by lia. by simplify_eq.
    + rewrite list_lookup_insert_ne in Hd1 by done. rewrite list_lookup_insert_ne in Hd2 by done.
      rewrite list_lookup_insert_ne in Hd3 by done.
      eapply chan_inv_same; [|by eapply Hch]. eapply same_on_sub; [|exact Hsame].
      intros i Hi. unfold others, owned. apply list_elem_of_bind. exists ownd. split; [done|].
      apply elem_of_app. destruct (decide (d < c)%nat).
      * left. apply list_elem_of_lookup_2 with d. by rewrite lookup_take_lt.
      * right. apply list_elem_of_lookup_2 with (d - S c)%nat. rewrite lookup_drop.
        by replace (S c + (d - S c))%nat with d by lia.
Qed.

Lemma tx_step_spec x owns sps free blks c :
  sys_inv n bs cap x owns sps free blks → tx_cmd_ok c.2 →
  ∃ ok x' owns' free' blks', tx_step x c = Ok (ok, x') ∧
    sys_inv n bs cap x' owns'
      (if ok then alter (fun sp => tx_spec_chan sp c.2) c.1 sps else sps) free' blks'.
Proof.
  intros H Hc. unfold tx_step. destruct (tx_chans x !! c.1) as [ch|] eqn:Hch; last first.
  { by exists false, x, owns, free, blks. }
  pose proof (lookup_lt_Some _ _ _ Hch) as Hlt.
  destruct (lookup_lt_is_Some_2 owns c.1) as [[pend send] Hown]; [rewrite (si_owns H); lia|].
  destruct (lookup_lt_is_Some_2 sps c.1) as [sp Hsp]; [rewrite (si_sps H); lia|].
  pose proof (sys_focus _ _ _ _ _ _ _ _ _ H Hch Hown Hsp) as Hok.
  pose proof (si_chan H _ _ _ _ Hch Hown Hsp) as Hinv.
  destruct (chan_step_spec _ _ _ _ _ _ _ _ _ Hok Hinv Hc)
    as (ok & ch' & p' & own' & free' & blks' & -> & Hok' & Hs & Hi' & _). step.
  eexists ok, _, _, _, _. split; [done|].
  replace (if ok then alter (fun sp => tx_spec_chan sp c.2) c.1 sps else sps)
    with (<[c.1 := if ok then tx_spec_chan sp c.2 else sp]> sps); [by eapply sys_update|].
  destruct ok; [|by apply list_insert_id]. symmetry.
  by apply (list_alter_lookup (fun sp => tx_spec_chan sp c.2)).
Qed.

Lemma tx_run_spec cs : ∀ x owns sps free blks,
  sys_inv n bs cap x owns sps free blks → Forall (fun c => tx_cmd_ok c.2) cs →
  ∃ oks x' owns' free' blks', tx_run x cs = Ok (oks, x') ∧
    sys_inv n bs cap x' owns' (tx_spec_run sps cs oks) free' blks'.
Proof.
  induction cs as [|c cs IH]; intros x owns sps free blks H Hcs; simpl.
  { by eexists [], x, owns, free, blks. }
  apply Forall_cons in Hcs as [Hc Hcs].
  destruct (tx_step_spec _ _ _ _ _ _ H Hc) as (ok & x1 & owns1 & free1 & blks1 & -> & H1). step.
  destruct (IH _ _ _ _ _ H1 Hcs) as (oks & x' & owns' & free' & blks' & -> & H'). step.
  by eexists (ok :: oks), x', owns', free', blks'.
Qed.

(** The bytes on the wire are those of the specification. *)
Lemma sys_wires x owns sps free blks :
  sys_inv n bs cap x owns sps free blks →
  tc_wire <$> tx_chans x = (fun sp => take (sp_acked sp) (sp_sent sp)) <$> sps.
Proof.
  intros [_ _ Ho Hs Hch]. apply list_eq. intros c. rewrite !list_lookup_fmap.
  destruct (tx_chans x !! c) as [ch|] eqn:Hc; simpl.
  - pose proof (lookup_lt_Some _ _ _ Hc) as Hlt.
    destruct (lookup_lt_is_Some_2 owns c) as [own Hown]; [lia|].
    destruct (lookup_lt_is_Some_2 sps c) as [sp Hsp]; [lia|]. rewrite Hsp. simpl.
    by rewrite (ci_wire (Hch _ _ _ _ Hc Hown Hsp)).
  - apply lookup_ge_None in Hc. rewrite (proj2 (lookup_ge_None sps c)) by lia. done.
Qed.
End spec.

Lemma tx_run_length cs : ∀ x oks x', tx_run x cs = Ok (oks, x') → length oks = length cs.
Proof.
  induction cs as [|c cs IH]; intros x oks x'; simpl; [by intros [= <- <-]|].
  destruct (tx_step x c) as [[ok x1]|]; simpl; [|done].
  destruct (tx_run x1 cs) as [[oks1 x2]|] eqn:E; simpl; [|done].
  intros [= <- <-]. simpl. f_equal. by eapply IH.
Qed.

(** ** Claims *)

(** A worker's fresh channels: [k] of them over a pool of [2^a] blocks. *)
Definition tx_fresh (s : WriteBufStream) (p : BufPool) (k : nat) : tx_sys :=
  mkTxSys (replicate k (mkTxChan s None [])) p.

Lemma WriteBufStream_new_rep j1 j2 j3 k :
  0 ≤ k < 31 → ∃ s, WriteBufStream_new j1 j2 j3 (2 ^ k) = Ok s ∧
    wb_rep (2 ^ k) (ws_base s) [] [] ∧ Z.of_nat (length (ws_iovec s)) = 2 ^ k ∧ ws_send_head_offset s = 0.
Proof.
  intros Hk. destruct (WriteBufBase_new_rep j1 j2 k Hk) as (w & Hw & Hr).
  unfold WriteBufStream_new. rewrite Hw. step. eexists. split; [done|]. simpl. split_and!; try done. len.
Qed.

Lemma owned_fresh k : owned (replicate k ([], [])) = [].
Proof. by induction k. Qed.

Lemma sys_inv_fresh n bs cap s p k blks free :
  pool_rep n bs p free blks → free ≡ₚ seqZ 0 n → wb_rep cap (ws_base s) [] [] →
  Z.of_nat (length (ws_iovec s)) = cap → ws_send_head_offset s = 0 →
  sys_inv n bs cap (tx_fresh s p k) (replicate k ([], [])) (replicate k tx_spec_0) free blks.
Proof.
  intros Hp Hperm Hw Hl Ho. split; simpl; rewrite ?length_replicate; try done.
  - by rewrite owned_fresh, app_nil_r.
  - intros c ch own sp [-> _]%lookup_replicate_1 [-> _]%lookup_replicate_1 [-> _]%lookup_replicate_1.
    split; simpl; try done; [lia|by left|]. unfold send_stream, stream. simpl. by rewrite drop_nil.
Qed.

(** C2. Any interleaving of append, prepend, discard, submit, writev issue,
    partial completion and reset, over any number of channels that share one
    buffer pool, runs without a fault, and every connection behaves as a
    reliable byte stream: the bytes the kernel read for it are exactly the
    acknowledged prefix of the bytes submitted on it, in order, whatever the
    other channels do and although the kernel reads the memory only when the
    write completes. *)
Theorem tcp_send_refines_byte_stream jb js jq j1 j2 j3 a bs k m cs :
  0 ≤ a → 0 < bs → 2 ^ a * bs < 2 ^ 31 → 0 ≤ k < 31 →
  Forall (fun c => tx_cmd_ok bs c.2) cs →
  ∃ p s oks x, BufPool_new jb js jq (2 ^ a) bs = Ok p ∧
    WriteBufStream_new j1 j2 j3 (2 ^ k) = Ok s ∧
    tx_run (tx_fresh s p m) cs = Ok (oks, x) ∧ length oks = length cs ∧
    tc_wire <$> tx_chans x =
      (fun sp => take (sp_acked sp) (sp_sent sp)) <$> tx_spec_run (replicate m tx_spec_0) cs oks.
Proof.
  intros Ha Hbs Ht Hk Hcs. destruct (BufPool_new_rep jb js jq a bs) as (p & Hp & Hrep); [done..|].
  destruct (WriteBufStream_new_rep j1 j2 j3 k Hk) as (s & Hs & Hw & Hl & Ho).
  destruct (tx_run_spec _ _ _ cs _ _ _ _ _ (sys_inv_fresh _ _ _ _ _ m _ _ Hrep (Permutation_refl _) Hw Hl Ho) Hcs)
    as (oks & x & owns & free & blks & Hrun & Hinv).
  exists p, s, oks, x. split_and!; [done..|by eapply tx_run_length|]. by eapply sys_wires.
Qed.

(** Two channels over four two-byte blocks: the second one's append fails while
    the first holds the pool, a partial write leaves half a block queued, and
    later bytes follow it. *)
Definition tx_demo : list (nat * tx_cmd) :=
  [(0%nat, TxAppend [x01; x02; x03; x04; x05]); (1%nat, TxAppend [x0a; x0b; x0c]);
   (0%nat, TxSubmit); (0%nat, TxIssue); (1%nat, TxAppend [x0a]); (1%nat, TxSubmit); (1%nat, TxIssue);
   (0%nat, TxComplete 3); (0%nat, TxPrepend [x06]); (0%nat, TxSubmit); (1%nat, TxComplete 1);
   (0%nat, TxIssue); (0%nat, TxComplete 3); (1%nat, TxReset)].

Lemma tcp_send_refines_byte_stream_witness :
  (∃ p s oks x, BufPool_new (fun _ => x00) (fun _ => 0) (fun _ => 0) (2 ^ 2) 2 = Ok p ∧
    WriteBufStream_new (fun _ => 0) (fun _ => 0) (fun _ => (0, 0)) (2 ^ 2) = Ok s ∧
    tx_run (tx_fresh s p 2) tx_demo = Ok (oks, x) ∧ length oks = length tx_demo ∧
    tc_wire <$> tx_chans x =
      (fun sp => take (sp_acked sp) (sp_sent sp)) <$> tx_spec_run (replicate 2 tx_spec_0) tx_demo oks) ∧
  (p ← BufPool_new (fun _ => x00) (fun _ => 0) (fun _ => 0) 4 2;
   s ← WriteBufStream_new (fun _ => 0) (fun _ => 0) (fun _ => (0, 0)) 4;
   '(oks, x) ← tx_run (tx_fresh s p 2) tx_demo; Ok (oks, tc_wire <$> tx_chans x)) =
  Ok ([true; false; true; true; true; true; true; true; true; true; true; true; true; true],
      [[x01; x02; x03; x04; x05; x06]; []]).
Proof.
  split; [|vm_compute; reflexivity].
  apply tcp_send_refines_byte_stream; try lia.
  repeat (apply Forall_cons; split; [simpl; lia || done|]). apply Forall_nil. done.
Defined.

(** [reset] returns every block the channel holds, queued or pending, to
    the pool, empties both queues and touches no block of another owner. *)
Theorem stream_reset_returns_all n bs cap s p pend send frame free blks :
  ws_ok n bs cap s p pend send frame free blks →
  ∃ s' p' blks', WriteBufStream_reset s p = Ok (s', p') ∧
    ws_ok n bs cap s' p' [] [] frame (free ++ send ++ pend) blks' ∧ same_on frame blks blks' ∧
    WriteBufStream_has_send_data s' = false.
Proof.
  intros H. destruct (reset_spec _ _ _ _ _ _ _ _ _ _ H) as (s' & p' & blks' & Hrun & H' & Hs).
  exists s', p', blks'. split_and!; try done. unfold WriteBufStream_has_send_data.
  by rewrite (ring_eqb _ _ _ _ _ _ (wr_send (wbp_wb (wso_wbp H')))).
Qed.

Lemma stream_reset_returns_all_witness :
  ∃ s p pend free blks s' p' blks', ws_ok 4 2 4 s p pend [] [] free blks ∧ stream blks pend = [x01; x02; x03] ∧
    WriteBufStream_reset s p = Ok (s', p') ∧
    ws_ok 4 2 4 s' p' [] [] [] (free ++ [] ++ pend) blks' ∧ same_on [] blks blks' ∧
    WriteBufStream_has_send_data s' = false.
Proof.
  destruct (wbp_fresh (fun _ => x00) (fun _ => 0) (fun _ => 0) (fun _ => 0) (fun _ => 0) 2 2 2)
    as (p & w & _ & _ & Hw); [lia..|].
  destruct (append_spec _ _ _ _ _ _ _ _ _ _ [x01; x02; x03] 3 Hw eq_refl ltac:(lia))
    as (ok & w' & p' & pend' & free' & blks' & _ & [Hw' _ Hyes _] & Hfit).
  change ok with (id ok) in Hfit. destruct ok; [|vm_compute in Hfit; discriminate].
  destruct (Hyes eq_refl) as [Hstr _].
  assert (ws_ok (2 ^ 2) 2 (2 ^ 2) (mkWriteBufStream w' (replicate 4 (0, 0)) 0) p' pend' [] [] free' blks') as H.
  { split; simpl; try done. by left. }
  destruct (stream_reset_returns_all _ _ _ _ _ _ _ _ _ _ H) as (s2 & p2 & blks2 & Hrun & H2 & Hs2 & Hd).
  exists (mkWriteBufStream w' (replicate 4 (0, 0)) 0), p', pend', free', blks', s2, p2, blks2.
  split_and!; try done.
Defined.
