(* ===== verification/BufRing.v ===== *)
(** * BufRing: receive buffers provided to the kernel

    Models include/core/buf_ring.hpp and src/core/buf_ring.cpp.  The io_uring
    provided-buffer ring itself is liburing and kernel code: it is the class
    [BufRingLib], with its documented behaviour as [BufRingLaws]; an instance
    made of lists shows the laws can hold. *)
From S2P Require Import Prelude Ring BufPool WriteBuf.

(** ** The provided-buffer ring of liburing *)

(** A published buffer: address (an offset in [bufs_]), length, buffer id. *)
Record br_entry := mkBrEntry { be_addr : Z; be_len : Z; be_bid : Z }.

Class BufRingLib (R : Type) := {
  io_uring_setup_buf_ring : Z → Z → option R;       (* nentries, bgid *)
  io_uring_buf_ring_add : R → Z → Z → Z → Z → Z → R; (* addr len bid mask offset *)
  io_uring_buf_ring_advance : R → Z → R;
  (** The kernel side of buffer selection. *)
  kernel_select : R → option (br_entry * R);
  (** What the kernel can select, oldest first, and what is written behind the
      tail but not yet published. *)
  ring_visible : R → list br_entry;
  ring_staged : R → list br_entry;
  ring_entries : R → Z
}.

Class BufRingLaws (R : Type) `{BufRingLib R} := {
  (** io_uring_register_buf_ring(3): the number of entries is a power of two,
      at most 32768; a new ring is empty. *)
  setup_law n g r : io_uring_setup_buf_ring n g = Some r →
    n ≤ 2 ^ 15 ∧ ring_entries r = n ∧ ring_visible r = [] ∧ ring_staged r = [];
  (** io_uring_buf_ring_add(3): the buffer is written [offset] entries behind
      the tail; [mask] is the ring size minus one; it is not yet visible. *)
  add_law r addr len bid mask : let staged := Z.of_nat (length (ring_staged r)) in
    mask = ring_entries r - 1 →
    Z.of_nat (length (ring_visible r)) + staged < ring_entries r →
    let r' := io_uring_buf_ring_add r addr len bid mask staged in
    ring_entries r' = ring_entries r ∧ ring_visible r' = ring_visible r ∧
    ring_staged r' = ring_staged r ++ [mkBrEntry addr len bid];
  (** io_uring_buf_ring_advance(3): [count] buffers become visible. *)
  advance_law r count : count = Z.of_nat (length (ring_staged r)) →
    let r' := io_uring_buf_ring_advance r count in
    ring_entries r' = ring_entries r ∧
    ring_visible r' = ring_visible r ++ ring_staged r ∧ ring_staged r' = [];
  (** Buffers are selected in the order they were published. *)
  select_none_law r : ring_visible r = [] → kernel_select r = None;
  select_some_law r e l : ring_visible r = e :: l →
    ∃ r', kernel_select r = Some (e, r') ∧ ring_entries r' = ring_entries r ∧
      ring_visible r' = l ∧ ring_staged r' = ring_staged r
}.

(** An instance: the two lists themselves. *)
Record list_ring := mkListRing { lr_entries : Z; lr_visible : list br_entry; lr_staged : list br_entry }.

#[export] Instance list_ring_lib : BufRingLib list_ring := {
  io_uring_setup_buf_ring n _ :=
    if pow2_test n && (n <=? 2 ^ 15) then Some (mkListRing n [] []) else None;
  io_uring_buf_ring_add r addr len bid _ _ :=
    mkListRing (lr_entries r) (lr_visible r) (lr_staged r ++ [mkBrEntry addr len bid]);
  io_uring_buf_ring_advance r n :=
    mkListRing (lr_entries r) (lr_visible r ++ take (Z.to_nat n) (lr_staged r))
      (drop (Z.to_nat n) (lr_staged r));
  kernel_select r :=
    match lr_visible r with
    | [] => None
    | e :: l => Some (e, mkListRing (lr_entries r) l (lr_staged r))
    end;
  ring_visible := lr_visible;
  ring_staged := lr_staged;
  ring_entries := lr_entries
}.

#[export] Instance list_ring_laws : BufRingLaws list_ring.
Proof.
  split; simpl.
  - intros n g r. case_test; [|done]. intros [= <-]. simpl. by split_and!.
  - done.
  - intros r c ->. rewrite Nat2Z.id, take_ge, drop_ge by lia. done.
  - by intros r ->.
  - intros r e l ->. by eexists.
Qed.

(** ** The class BufRing *)
Section buf_ring.
Context {R : Type} {Hlib : BufRingLib R}.

Record BufRing := mkBufRing {
  br_group_id : Z;
  br_buf_size : Z;
  br_bufs : list byte;
  br_buf_num : Z;
  br_ring : R;
  br_mask : Z;
  br_data_size : list Z
}.

Definition br_with_ring (b : BufRing) r : BufRing :=
  mkBufRing (br_group_id b) (br_buf_size b) (br_bufs b) (br_buf_num b) r (br_mask b) (br_data_size b).
Definition br_with_data_size (b : BufRing) ds : BufRing :=
  mkBufRing (br_group_id b) (br_buf_size b) (br_bufs b) (br_buf_num b) (br_ring b) (br_mask b) ds.
Definition br_with_bufs (b : BufRing) m : BufRing :=
  mkBufRing (br_group_id b) (br_buf_size b) m (br_buf_num b) (br_ring b) (br_mask b) (br_data_size b).

Definition BufRing_buf_index (b : BufRing) (buf : Z) : Z := u32 (buf `quot` br_buf_size b).
Definition BufRing_buf_addr (b : BufRing) (idx : Z) : Z := u32 (idx * br_buf_size b).
Definition BufRing_get_data_size (b : BufRing) (idx : Z) : result Z := arr_get (br_data_size b) idx.
Definition BufRing_set_data_size (b : BufRing) (idx size : Z) : result BufRing :=
  ds ← arr_set (br_data_size b) idx size; Ok (br_with_data_size b ds).

(** The buffer id parameter of liburing is an [unsigned short], the length an
    [unsigned int]. *)
Definition BufRing_add_buf (b : BufRing) (buf offset : Z) : BufRing :=
  br_with_ring b (io_uring_buf_ring_add (br_ring b) buf (u32 (br_buf_size b))
    (BufRing_buf_index b buf mod 2 ^ 16) (br_mask b) offset).
Definition BufRing_advance_ring (b : BufRing) (nr : Z) : BufRing :=
  br_with_ring b (io_uring_buf_ring_advance (br_ring b) nr).

Definition BufRing_release (b : BufRing) (idx : Z) : result BufRing :=
  let b := BufRing_add_buf b (u32 (idx * br_buf_size b)) 0 in
  let b := BufRing_advance_ring b 1 in
  ds ← arr_set (br_data_size b) idx 0;
  Ok (br_with_data_size b ds).

(** [release(const char *buf)]. *)
Definition BufRing_release_buf (b : BufRing) (buf : Z) : result BufRing :=
  BufRing_release b (BufRing_buf_index b buf).

(** The constructor; [next] is [s_next_group_id_], whose atomic increment
    wraps.  [data_size_] is value-initialised. *)
Definition BufRing_new (junk : nat → byte) (next buf_num buf_size : Z) : result (BufRing * Z) :=
  bytes ← int_of (buf_num * buf_size);
  mask ← int_of (buf_num - 1);
  if (bytes <? 0) || (buf_num <? 0) then Fault Exception else
  assert_ (pow2_test buf_num);;
  match io_uring_setup_buf_ring buf_num next with
  | None => Fault AssertionFailed
  | Some r =>
      let b := mkBufRing next buf_size (new_array bytes junk) buf_num r mask
                 (new_array buf_num (fun _ => 0)) in
      b ← for_up (Z.to_nat buf_num) 0
            (fun i b => o ← int_of (i * br_buf_size b); Ok (BufRing_add_buf b o i)) b;
      Ok (BufRing_advance_ring b buf_num, i32 (next + 1))
  end.

(** *** The kernel: a receive selects a buffer and writes into it. *)
Definition kernel_receive (b : BufRing) (data : list byte) : result (option (Z * BufRing)) :=
  match kernel_select (br_ring b) with
  | None => Ok None
  | Some (e, r) =>
      m ← mem_write (br_bufs b) (be_addr e) data;
      Ok (Some (be_bid e, br_with_bufs (br_with_ring b r) m))
  end.

(** ** The abstraction

    [avail] is what the kernel may select, in order; [cq] the buffers it has
    filled whose completions are not yet handled; [held] everything that the
    read buffers of the channels own; [blks] the valid bytes of each buffer. *)
#[local] Set Implicit Arguments.
Record br_rep (n bs : Z) (b : BufRing) (avail : list Z) (cq : list (Z * list byte)) (held : list Z)
    (blks : list (list byte)) : Prop := {
  brr_num : br_buf_num b = n;
  brr_bs : br_buf_size b = bs;
  brr_mask : br_mask b = n - 1;
  brr_entries : ring_entries (br_ring b) = n;
  brr_visible : ring_visible (br_ring b) = (fun i => mkBrEntry (i * bs) bs i) <$> avail;
  brr_staged : ring_staged (br_ring b) = [];
  brr_n : 0 < n ≤ 2 ^ 15;
  brr_pow : ∃ k, 0 ≤ k ∧ n = 2 ^ k;
  brr_pos : 0 < bs;
  brr_total : n * bs < 2 ^ 31;
  brr_bufs : Z.of_nat (length (br_bufs b)) = n * bs;
  brr_dlen : Z.of_nat (length (br_data_size b)) = n;
  brr_blen : Z.of_nat (length blks) = n;
  brr_blk (j : nat) d : br_data_size b !! j = Some d → 0 ≤ d ≤ bs ∧
    blks !! j = Some (mem_read (br_bufs b) (Z.of_nat j * bs) d);
  brr_zero i : i ∈ avail ++ cq.*1 → blks !! Z.to_nat i = Some [];
  brr_cq i d : (i, d) ∈ cq → Z.of_nat (length d) ≤ bs ∧
    mem_read (br_bufs b) (i * bs) (Z.of_nat (length d)) = d;
  brr_perm : avail ++ cq.*1 ++ held ≡ₚ seqZ 0 n
}.
#[local] Unset Implicit Arguments.
Arguments brr_zero {_ _ _ _ _ _ _} _ _.
Arguments brr_cq {_ _ _ _ _ _ _} _ _ _.

Section spec.
Context {Hlaws : BufRingLaws R} (n bs : Z).
Implicit Types (b : BufRing) (avail held : list Z) (cq : list (Z * list byte)) (blks : list (list byte)).

Lemma br_range b avail cq held blks i :
  br_rep n bs b avail cq held blks → i ∈ avail ++ cq.*1 ++ held → 0 ≤ i < n.
Proof. intros H Hi. rewrite (brr_perm H) in Hi. apply elem_of_seqZ in Hi. lia. Qed.

Lemma br_nodup b avail cq held blks :
  br_rep n bs b avail cq held blks → NoDup (avail ++ cq.*1 ++ held).
Proof. intros H. rewrite (brr_perm H). apply NoDup_seqZ. Qed.

Lemma br_block b avail cq held blks i :
  br_rep n bs b avail cq held blks → 0 ≤ i < n →
  br_data_size b !! Z.to_nat i = Some (Z.of_nat (length (blk blks i))) ∧
  blks !! Z.to_nat i = Some (blk blks i) ∧
  Z.of_nat (length (blk blks i)) ≤ bs ∧
  blk blks i = mem_read (br_bufs b) (i * bs) (Z.of_nat (length (blk blks i))).
Proof.
  intros H Hi. pose proof (brr_dlen H).
  destruct (lookup_lt_is_Some_2 (br_data_size b) (Z.to_nat i)) as [d Hd]; [lia|].
  destruct (brr_blk H _ Hd) as [Hr Hb]. rewrite Z2Nat.id in Hb by lia.
  assert (Z.of_nat (length (mem_read (br_bufs b) (i * bs) d)) = d) as E.
  { pose proof (brr_bufs H). apply mem_read_length; nia. }
  unfold blk. rewrite Hb. simpl. rewrite !E. split_and!; [done..|lia|done].
Qed.

Lemma br_get_data_size b avail cq held blks i :
  br_rep n bs b avail cq held blks → 0 ≤ i < n →
  BufRing_get_data_size b i = Ok (Z.of_nat (length (blk blks i))).
Proof. intros H Hi. destruct (br_block _ _ _ _ _ _ H Hi) as (Hd & _). apply arr_get_ok; [lia|done]. Qed.

Lemma br_buf_addr b avail cq held blks i :
  br_rep n bs b avail cq held blks → 0 ≤ i < n → BufRing_buf_addr b i = i * bs.
Proof.
  intros H Hi. unfold BufRing_buf_addr. rewrite (brr_bs H).
  pose proof (brr_total H). pose proof (brr_pos H). apply u32_small. nia.
Qed.

(** The id given to liburing is the index of the buffer: no truncation. *)
Lemma buf_index_of b i : 0 ≤ i < n → 0 < bs → n ≤ 2 ^ 15 → br_buf_size b = bs →
  BufRing_buf_index b (i * bs) mod 2 ^ 16 = i.
Proof.
  intros Hi Hbs Hn E. unfold BufRing_buf_index. rewrite E, Z.quot_mul, u32_small by lia.
  apply Z.mod_small. lia.
Qed.

(** [release] publishes the buffer again, behind the others. *)
Lemma br_release b avail cq held held' blks i :
  br_rep n bs b avail cq held blks → held ≡ₚ i :: held' →
  ∃ b', BufRing_release b i = Ok b' ∧
    br_rep n bs b' (avail ++ [i]) cq held' (<[Z.to_nat i := []]> blks).
Proof.
  intros H Hh.
  assert (0 ≤ i < n) as Hi by (eapply br_range; [done|]; rewrite Hh; elt).
  pose proof H as [Hnum Hbs Hmask Hent Hvis Hst Hn Hpow Hpos Htot Hbl Hdl Hbk Hblk Hz Hcq Hperm].
  unfold BufRing_release. rewrite Hbs, u32_small by nia.
  assert (Z.of_nat (length avail) < n).
  { pose proof (Permutation_length Hperm) as Hl. rewrite length_seqZ, !length_app in Hl.
    rewrite Hh in Hl. simpl in Hl. lia. }
  destruct (add_law (br_ring b) (i * bs) (u32 bs) i (n - 1)) as (E1 & E2 & E3).
  { by rewrite Hent. } { rewrite Hvis, Hst, length_fmap, Hent. simpl. lia. }
  rewrite Hst in E1, E2, E3. change (Z.of_nat (length [])) with 0 in E1, E2, E3. simpl app in E3.
  destruct (advance_law (io_uring_buf_ring_add (br_ring b) (i * bs) (u32 bs) i (n - 1) 0) 1) as (F1 & F2 & F3).
  { by rewrite E3. }
  unfold BufRing_advance_ring, BufRing_add_buf. simpl.
  rewrite buf_index_of by (done || lia). rewrite Hbs, Hmask. rewrite arr_set_ok by lia. step.
  eexists. split; [done|]. split; simpl; try done; rewrite ?length_insert; try done.
  - congruence.
  - rewrite F2, E2, E3, Hvis, fmap_app, u32_small by nia. done.
  - intros j d. rewrite !list_lookup_insert. case_decide as Hd.
    + destruct Hd as [<- _]. intros [= <-]. rewrite decide_True by lia. split; [lia|done].
    + intros Hj. rewrite decide_False; [by apply Hblk|]. apply lookup_lt_Some in Hj. lia.
  - intros j Hj. destruct (decide (j = i)) as [->|Hne]; [apply list_lookup_insert_eq; lia|].
    assert (j ∈ avail ++ cq.*1) as Hj' by (rewrite !elem_of_app, list_elem_of_singleton in Hj; rewrite elem_of_app; tauto).
    assert (0 ≤ j < n) by (eapply br_range; [exact H|]; elt).
    rewrite list_lookup_insert_ne by lia. by apply Hz.
  - rewrite <- Hperm, Hh. solve_Permutation.
Qed.

(** *** The kernel's receive *)
Lemma br_receive_none b cq held blks d :
  br_rep n bs b [] cq held blks → kernel_receive b d = Ok None.
Proof.
  intros H. unfold kernel_receive. rewrite select_none_law; [done|]. by rewrite (brr_visible H).
Qed.

(** It fills the oldest available buffer and disturbs no other one. *)
Lemma br_receive b i avail cq held blks d :
  br_rep n bs b (i :: avail) cq held blks → Z.of_nat (length d) ≤ bs →
  ∃ b', kernel_receive b d = Ok (Some (i, b')) ∧ br_rep n bs b' avail (cq ++ [(i, d)]) held blks.
Proof.
  intros H Hd. assert (0 ≤ i < n) as Hi by (eapply br_range; [done|]; elt).
  pose proof H as [Hnum Hbs Hmask Hent Hvis Hst Hn Hpow Hpos Htot Hbl Hdl Hbk Hblk Hz Hcq Hperm].
  unfold kernel_receive. destruct (select_some_law _ _ _ Hvis) as (r' & -> & E1 & E2 & E3).
  cbn [be_addr be_bid].
  destruct (mem_write_spec (br_bufs b) (i * bs) d) as (m' & -> & Hlen & Hext & Hsame); [nia..|]. step.
  assert (Hoth : ∀ j k, 0 ≤ j < n → j ≠ i → 0 ≤ k ≤ bs →
      mem_read m' (j * bs) k = mem_read (br_bufs b) (j * bs) k).
  { intros j k Hj Hne Hk. apply Hsame; [nia|lia|]. destruct (decide (j < i)); [left|right]; nia. }
  assert (Hinot : i ∉ avail ++ cq.*1 ++ held).
  { pose proof (br_nodup _ _ _ _ _ H) as Hnd. by apply NoDup_cons in Hnd as [? _]. }
  eexists. split; [done|]. split; simpl; try done.
  - by rewrite E1.
  - by rewrite E3.
  - by rewrite Hlen.
  - intros j k Hj. destruct (Hblk j k Hj) as [Hk Hb]. split; [done|]. rewrite Hb. f_equal.
    apply lookup_lt_Some in Hj. destruct (decide (Z.of_nat j = i)) as [E|Hne].
    + pose proof (Hz i ltac:(elt)) as Hzi. subst i. rewrite Nat2Z.id, Hb in Hzi.
      assert (k = 0) as ->; [|by rewrite !mem_read_0].
      injection Hzi as Hzi. apply (f_equal length) in Hzi. pose proof (mem_read_length (br_bufs b) (Z.of_nat j * bs) k).
      simpl in Hzi. rewrite Hzi in *. nia.
    + symmetry. apply Hoth; lia.
  - intros j Hj. apply Hz. rewrite fmap_app in Hj. simpl in Hj.
    rewrite !elem_of_app, list_elem_of_singleton in Hj. rewrite elem_of_app, elem_of_cons. tauto.
  - intros j d' [Hj|Hj%list_elem_of_singleton]%elem_of_app.
    + destruct (Hcq j d' Hj) as [? Hr]. split; [done|].
      assert (j ∈ cq.*1) as Hj1 by (apply list_elem_of_fmap; by exists (j, d')).
      rewrite Hoth; [done|eapply br_range; [exact H|]; elt| |lia].
      intros ->. apply Hinot. elt.
    + injection Hj as -> ->. split; [done|].
      specialize (Hext (i * bs) 0 ltac:(nia) ltac:(lia) ltac:(lia)).
      by rewrite Z.add_0_l, mem_read_0 in Hext.
  - rewrite fmap_app. simpl. rewrite <- Hperm. solve_Permutation.
Qed.

(** Handling a completion: the size makes the buffer's bytes valid. *)
Lemma br_handle b avail c1 i d c2 held blks :
  br_rep n bs b avail (c1 ++ (i, d) :: c2) held blks →
  ∃ b', BufRing_set_data_size b i (Z.of_nat (length d)) = Ok b' ∧
    br_rep n bs b' avail (c1 ++ c2) (i :: held) (<[Z.to_nat i := d]> blks).
Proof.
  intros H. assert (Hin : i ∈ (c1 ++ (i, d) :: c2).*1) by (rewrite fmap_app; simpl; elt).
  assert (0 ≤ i < n) as Hi by (eapply br_range; [done|]; rewrite !elem_of_app; auto).
  pose proof H as [Hnum Hbs Hmask Hent Hvis Hst Hn Hpow Hpos Htot Hbl Hdl Hbk Hblk Hz Hcq Hperm].
  destruct (Hcq i d) as [Hd Hmem]; [elt|].
  assert (Hinot : i ∉ avail ++ (c1 ++ c2).*1 ++ held).
  { pose proof (br_nodup _ _ _ _ _ H) as Hnd.
    assert (avail ++ (c1 ++ (i, d) :: c2).*1 ++ held ≡ₚ i :: avail ++ (c1 ++ c2).*1 ++ held) as E
      by (rewrite !fmap_app; simpl; solve_Permutation).
    rewrite E in Hnd. by apply NoDup_cons in Hnd as [? _]. }
  unfold BufRing_set_data_size. rewrite arr_set_ok by lia. step.
  eexists. split; [done|]. split; simpl; try done; rewrite ?length_insert; try done.
  - intros j k. rewrite !list_lookup_insert. case_decide as Hj.
    + destruct Hj as [<- _]. intros [= <-]. rewrite decide_True by lia. split; [lia|].
      by rewrite Z2Nat.id, Hmem by lia.
    + intros Hk. rewrite decide_False; [by apply Hblk|]. apply lookup_lt_Some in Hk. lia.
  - intros j Hj. assert (0 ≤ j < n) by (eapply br_range; [exact H|];
      rewrite !fmap_app, fmap_cons, !elem_of_app, elem_of_cons in *; tauto).
    rewrite list_lookup_insert_ne.
    + apply Hz. rewrite !fmap_app, fmap_cons, !elem_of_app, elem_of_cons in *; tauto.
    + intros E. apply Hinot. replace i with j by lia. rewrite !elem_of_app in *. tauto.
  - intros j d' Hj. apply Hcq. rewrite elem_of_app, elem_of_cons in *. tauto.
  - rewrite <- Hperm, !fmap_app. simpl. solve_Permutation.
Qed.
End spec.

Section construct.
Context {Hlaws : BufRingLaws R}.

Definition entries_upto (bs i : Z) : list br_entry := (fun j => mkBrEntry (j * bs) bs j) <$> seqZ 0 i.

Lemma new_step n bs (b0 : BufRing) r i :
  0 ≤ i < n → 0 < bs → n * bs < 2 ^ 31 → n ≤ 2 ^ 15 → br_buf_size b0 = bs → br_mask b0 = n - 1 →
  ring_entries r = n → ring_visible r = [] → ring_staged r = entries_upto bs i →
  ∃ r', (o ← int_of (i * br_buf_size (br_with_ring b0 r)); Ok (BufRing_add_buf (br_with_ring b0 r) o i)) =
        Ok (br_with_ring b0 r') ∧
    ring_entries r' = n ∧ ring_visible r' = [] ∧ ring_staged r' = entries_upto bs (i + 1).
Proof.
  intros Hi Hbs Ht Hn Eb Em He Hv Hs.
  assert (Hl : Z.of_nat (length (ring_staged r)) = i).
  { rewrite Hs. unfold entries_upto. rewrite length_fmap, length_seqZ. lia. }
  simpl. rewrite Eb, int_of_ok by nia. step. unfold BufRing_add_buf.
  rewrite (buf_index_of n bs) by (done || lia). simpl. rewrite Eb, Em, u32_small by nia.
  destruct (add_law r (i * bs) bs i (n - 1)) as (E1 & E2 & E3); [by rewrite He| |].
  { rewrite Hl, Hv, He. simpl. lia. }
  rewrite Hl in E1, E2, E3. eexists. split; [done|]. split_and!; [congruence..|].
  rewrite E3, Hs. unfold entries_upto. rewrite seqZ_app with (n1 := i) (n2 := 1) by lia.
  by rewrite fmap_app.
Qed.

Lemma BufRing_new_rep junk next k bs r :
  0 ≤ k → 0 < bs → 2 ^ k * bs < 2 ^ 31 → io_uring_setup_buf_ring (2 ^ k) next = Some r →
  ∃ b, BufRing_new junk next (2 ^ k) bs = Ok (b, i32 (next + 1)) ∧ br_group_id b = next ∧
    br_rep (2 ^ k) bs b (seqZ 0 (2 ^ k)) [] [] (replicate (Z.to_nat (2 ^ k)) []).
Proof.
  intros Hk Hbs Ht Hset. destruct (setup_law _ _ _ Hset) as (Hn & He & Hv & Hs).
  assert (Hpt : pow2_test (2 ^ k) = true) by (apply pow2_test_spec; eauto).
  assert (0 < 2 ^ k) by lia. assert (Hpow : ∃ m, 0 ≤ m ∧ 2 ^ k = 2 ^ m) by eauto.
  set (n := 2 ^ k) in *. clearbody n.
  unfold BufRing_new. rewrite !int_of_ok by nia. step.
  rewrite (proj2 (Z.ltb_ge _ _)), (proj2 (Z.ltb_ge _ _)) by nia. step. rewrite Hpt. step. rewrite Hset.
  set (b0 := mkBufRing _ _ _ _ _ _ _).
  destruct (for_up_inv (fun i b => ∃ r', b = br_with_ring b0 r' ∧ ring_entries r' = n ∧
      ring_visible r' = [] ∧ ring_staged r' = entries_upto bs i)
    (fun i b => o ← int_of (i * br_buf_size b); Ok (BufRing_add_buf b o i)) (Z.to_nat n) 0 b0)
    as (b1 & Hrun & r1 & -> & He1 & Hv1 & Hs1).
  { exists r. by split_and!. }
  { intros j b Hj (rj & -> & Hej & Hvj & Hsj).
    destruct (new_step n bs b0 rj j) as (rj' & Hrun & Hrest); try done; [lia|].
    eexists. split; [exact Hrun|]. by exists rj'. }
  rewrite Hrun. step. replace (0 + Z.of_nat (Z.to_nat n)) with n in Hs1 by lia.
  destruct (advance_law r1 n) as (F1 & F2 & F3).
  { rewrite Hs1. unfold entries_upto. rewrite length_fmap, length_seqZ. lia. }
  eexists. split; [done|]. split; [done|]. split; simpl; try done.
  - congruence.
  - by rewrite F2, Hv1, Hs1.
  - len.
  - len.
  - len.
  - intros j d Hj. unfold new_array in Hj. apply list_lookup_fmap_Some in Hj as (x & -> & Hx).
    split; [lia|]. rewrite mem_read_0. apply lookup_replicate. apply lookup_seq in Hx. split; [done|lia].
  - intros i Hi. apply lookup_replicate. rewrite app_nil_r in Hi. apply elem_of_seqZ in Hi. split; [done|lia].
  - by intros i d ?%not_elem_of_nil.
  - by rewrite !app_nil_r.
Qed.
End construct.
End buf_ring.
Arguments BufRing : clear implicits.
