(* ===== verification/ReadBuf.v ===== *)
(** * ReadBuf: received blocks queued for the application

    Models classes ReadBufBase and ReadBufStream (include/buffer/buffer.hpp
    lines 10-56, src/buffer/buffer.cpp lines 4-69).  The queue holds indices of
    buffers of a BufRing; all counters are 32-bit.  The abstraction is the byte
    string received and not yet consumed. *)
From S2P Require Import Prelude Ring BufPool WriteBuf WriteBufStream BufRing.

Section read_buf.
Context {R : Type} {Hlib : BufRingLib R}.
Implicit Types (b : BufRing R).

Record ReadBufBase := mkReadBufBase {
  rb_buf_queue : list Z;
  rb_head : Z;
  rb_tail : Z;
  rb_readable_bytes : Z;
  rb_capacity : Z;
  rb_mask : Z;
  rb_peek_data : list Z;
  rb_peek_size : list Z;
  rb_peek_count : Z
}.

Definition rb_with_queue (rb : ReadBufBase) q h t rd : ReadBufBase :=
  mkReadBufBase q h t rd (rb_capacity rb) (rb_mask rb) (rb_peek_data rb) (rb_peek_size rb)
    (rb_peek_count rb).
Definition rb_with_peek (rb : ReadBufBase) d s c : ReadBufBase :=
  mkReadBufBase (rb_buf_queue rb) (rb_head rb) (rb_tail rb) (rb_readable_bytes rb) (rb_capacity rb)
    (rb_mask rb) d s c.

Definition ReadBufBase_new (j1 j2 j3 : nat → Z) (j4 : Z) b : result ReadBufBase :=
  let n := br_buf_num b in
  if n <? 0 then Fault Exception else
  mask ← int_of (n - 1);
  Ok (mkReadBufBase (new_array n j1) 0 0 0 n (u32 mask) (new_array n j2) (new_array n j3) j4).

Definition ReadBufBase_push_buf (rb : ReadBufBase) b (idx : Z) : result (bool * ReadBufBase) :=
  if u32 (rb_capacity rb) <=? u32 (rb_tail rb - rb_head rb) then Ok (false, rb) else
  q ← arr_set (rb_buf_queue rb) (Z.land (rb_tail rb) (rb_mask rb)) idx;
  d ← BufRing_get_data_size b idx;
  Ok (true, rb_with_queue rb q (rb_head rb) (u32 (rb_tail rb + 1)) (u32 (rb_readable_bytes rb + d))).

Definition ReadBufBase_set_buf_data_size b (idx size : Z) : result (BufRing R) :=
  BufRing_set_data_size b idx size.
Definition ReadBufBase_buf_group b : Z := br_group_id b.
Definition ReadBufBase_empty (rb : ReadBufBase) : bool := rb_head rb =? rb_tail rb.
Definition ReadBufBase_readable_packets (rb : ReadBufBase) : Z := u32 (rb_tail rb - rb_head rb).

(** ** ReadBufStream *)
Record ReadBufStream := mkReadBufStream { rs_base : ReadBufBase; rs_head_offset : Z }.

Definition ReadBufStream_new (j1 j2 j3 : nat → Z) (j4 : Z) b : result ReadBufStream :=
  rb ← ReadBufBase_new j1 j2 j3 j4 b; Ok (mkReadBufStream rb 0).

(** [for (auto i = head_; i < tail_ && size > 0; ++i)]; returns the arrays of
    [peek_result_] and the final [idx]. *)
Fixpoint peek_loop (fuel : nat) (s : ReadBufStream) b (i size idx : Z) (data sizes : list Z)
    : result (list Z * list Z * Z) :=
  let rb := rs_base s in
  if negb ((i <? rb_tail rb) && (0 <? size)) then Ok (data, sizes, idx) else
  match fuel with
  | O => Fault OutOfFuel
  | S fuel =>
      let offset := if i =? rb_head rb then rs_head_offset s else 0 in
      q ← arr_get (rb_buf_queue rb) (Z.land i (rb_mask rb));
      dsz ← BufRing_get_data_size b q;
      let block_readable := u32 (dsz - offset) in
      let start_ptr := BufRing_buf_addr b q + offset in
      let block_readable := if size <? block_readable then size else block_readable in
      data ← arr_set data idx start_ptr;
      sizes ← arr_set sizes idx block_readable;
      peek_loop fuel s b (u32 (i + 1)) (u32 (size - block_readable)) (u32 (idx + 1)) data sizes
  end.

(** The boolean is [false] for a null result. *)
Definition ReadBufStream_peek (s : ReadBufStream) b (size : Z) : result (bool * ReadBufStream) :=
  let rb := rs_base s in
  if rb_readable_bytes rb <? size then Ok (false, s) else
  '(data, sizes, idx) ← peek_loop (S (Z.to_nat (rb_capacity rb))) s b (rb_head rb) size 0
      (rb_peek_data rb) (rb_peek_size rb);
  Ok (true, mkReadBufStream (rb_with_peek rb data sizes idx) (rs_head_offset s)).

Fixpoint consume_loop (fuel : nat) (s : ReadBufStream) b (size : Z)
    : result (ReadBufStream * BufRing R) :=
  if negb (0 <? size) then Ok (s, b) else
  match fuel with
  | O => Fault OutOfFuel
  | S fuel =>
      let rb := rs_base s in
      q ← arr_get (rb_buf_queue rb) (Z.land (rb_head rb) (rb_mask rb));
      dsz ← BufRing_get_data_size b q;
      let avail := u32 (dsz - rs_head_offset s) in
      if size <? avail
      then Ok (mkReadBufStream rb (u32 (rs_head_offset s + size)), b)
      else
        q ← arr_get (rb_buf_queue rb) (Z.land (rb_head rb) (rb_mask rb));
        b ← BufRing_release b q;
        consume_loop fuel
          (mkReadBufStream
             (rb_with_queue rb (rb_buf_queue rb) (u32 (rb_head rb + 1)) (rb_tail rb)
                (rb_readable_bytes rb)) 0) b (u32 (size - avail))
  end.

Definition ReadBufStream_consume (s : ReadBufStream) b (size : Z)
    : result (bool * ReadBufStream * BufRing R) :=
  let rb := rs_base s in
  if rb_readable_bytes rb <? size then Ok (false, s, b) else
  let rb := rb_with_queue rb (rb_buf_queue rb) (rb_head rb) (rb_tail rb)
              (u32 (rb_readable_bytes rb - size)) in
  '(s, b) ← consume_loop (S (Z.to_nat (rb_capacity rb))) (mkReadBufStream rb (rs_head_offset s)) b size;
  Ok (true, s, b).

Definition ReadBufStream_reset (s : ReadBufStream) b : result (ReadBufStream * BufRing R) :=
  '(_, s, b) ← ReadBufStream_consume s b (rb_readable_bytes (rs_base s));
  let rb := rs_base s in
  Ok (mkReadBufStream (rb_with_queue rb (rb_buf_queue rb) 0 0 (rb_readable_bytes rb)) 0, b).

(** ** The abstraction *)

(** The bytes received and not yet consumed. *)
Definition recv_stream (s : ReadBufStream) (blks : list (list byte)) (q : list Z) : list byte :=
  drop (Z.to_nat (rs_head_offset s)) (stream blks q).

(** The pieces of a peek result, and the bytes the application reads there. *)
Definition peek_pieces (s : ReadBufStream) : list (Z * Z) :=
  take (Z.to_nat (rb_peek_count (rs_base s)))
    (zip (rb_peek_data (rs_base s)) (rb_peek_size (rs_base s))).

(** [q] is the queue of filled buffers. *)
#[local] Set Implicit Arguments.
Record rs_core (n : Z) (s : ReadBufStream) (blks : list (list byte)) (q : list Z) : Prop := {
  rsr_cap : rb_capacity (rs_base s) = n;
  rsr_mask : rb_mask (rs_base s) = n - 1;
  rsr_ring : ring_ok 32 (rb_buf_queue (rs_base s)) (rb_mask (rs_base s)) (rb_head (rs_base s))
               (rb_tail (rs_base s)) q;
  rsr_data : Z.of_nat (length (rb_peek_data (rs_base s))) = n;
  rsr_size : Z.of_nat (length (rb_peek_size (rs_base s))) = n;
  rsr_off : 0 ≤ rs_head_offset s;
  rsr_head : rs_head_offset s = 0 ∨ ∃ x l, q = x :: l ∧ rs_head_offset s < Z.of_nat (length (blk blks x));
  rsr_full i : i ∈ q → blk blks i ≠ []
}.
#[local] Unset Implicit Arguments.
Arguments rsr_full {_ _ _ _} _ _.
#[local] Set Implicit Arguments.
Record rs_rep (n : Z) (s : ReadBufStream) (blks : list (list byte)) (q : list Z) : Prop := {
  rsr_core : rs_core n s blks q;
  rsr_readable : rb_readable_bytes (rs_base s) = Z.of_nat (length (recv_stream s blks q))
}.
#[local] Unset Implicit Arguments.

Section spec.
Context {Hlaws : BufRingLaws R} (n bs : Z).
Implicit Types (s : ReadBufStream) (q other avail held : list Z) (cq : list (Z * list byte))
  (blks : list (list byte)).

Lemma rs_count s blks q : rs_core n s blks q →
  u32 (rb_tail (rs_base s) - rb_head (rs_base s)) = Z.of_nat (length q).
Proof. intros H. symmetry. apply (rsr_ring H). Qed.

Lemma recv_len s blks q : (length (recv_stream s blks q) ≤ length (stream blks q))%nat.
Proof. unfold recv_stream. rewrite length_drop. lia. Qed.

Lemma rs_off_le s blks q : rs_core n s blks q →
  (Z.to_nat (rs_head_offset s) ≤ length (stream blks q))%nat.
Proof.
  intros H. destruct (rsr_head H) as [->|(x & l & -> & ?)]; [simpl; lia|].
  rewrite stream_cons, length_app. lia.
Qed.

Lemma stream_bound blks l :
  (∀ i, i ∈ l → Z.of_nat (length (blk blks i)) ≤ bs) →
  Z.of_nat (length (stream blks l)) ≤ Z.of_nat (length l) * bs.
Proof.
  intros Hl. induction l as [|i l IH]; [simpl; lia|]. rewrite stream_cons, length_app. cbn [length].
  pose proof (Hl i ltac:(by left)). specialize (IH (fun j Hj => Hl j ltac:(by right))). lia.
Qed.

(** The queued bytes fit the receive memory, hence an [int]. *)
Lemma recv_bound b avail cq q other blks :
  br_rep n bs b avail cq (q ++ other) blks →
  Z.of_nat (length (stream blks q)) < 2 ^ 31 ∧ Z.of_nat (length q + length other) ≤ n.
Proof.
  intros H. pose proof (Permutation_length (brr_perm H)) as Hl.
  pose proof (brr_n H). pose proof (brr_total H). pose proof (brr_pos H).
  rewrite length_seqZ, !length_app in Hl. split; [|lia].
  assert (Z.of_nat (length (stream blks q)) ≤ Z.of_nat (length q) * bs); [|nia].
  apply stream_bound. intros i Hi.
  destruct (br_block _ _ _ _ _ _ _ i H) as (_ & _ & ? & _); [|done]. eapply br_range; [exact H|elt].
Qed.

Lemma br_rep_perm b avail cq held held' blks :
  held ≡ₚ held' → br_rep n bs b avail cq held blks → br_rep n bs b avail cq held' blks.
Proof. intros E [????????????????Hp]. split; try done. by rewrite <- E. Qed.

(** *** push_buf *)
Lemma push_buf_spec s b avail cq i q other blks :
  br_rep n bs b avail cq (i :: q ++ other) blks → rs_rep n s blks q → blk blks i ≠ [] →
  ∃ rb', ReadBufBase_push_buf (rs_base s) b i = Ok (true, rb') ∧
    rs_rep n (mkReadBufStream rb' (rs_head_offset s)) blks (q ++ [i]) ∧
    recv_stream (mkReadBufStream rb' (rs_head_offset s)) blks (q ++ [i]) =
      recv_stream s blks q ++ blk blks i ∧
    rb_head rb' = rb_head (rs_base s) ∧ rb_tail rb' = u32 (rb_tail (rs_base s) + 1).
Proof.
  intros Hb [Hs Hrd] Hi. unfold ReadBufBase_push_buf. rewrite (rs_count _ _ _ Hs), (rsr_cap Hs).
  assert (Hb' : br_rep n bs b avail cq ((q ++ [i]) ++ other) blks).
  { eapply br_rep_perm; [|exact Hb]. solve_Permutation. }
  destruct (recv_bound _ _ _ _ _ _ Hb') as [Hbd Hl]. rewrite length_app in Hl. simpl in Hl.
  pose proof (brr_n Hb) as Hn. rewrite u32_small, (proj2 (Z.leb_gt _ _)) by lia.
  destruct (ring_push _ _ _ _ _ _ i (rsr_ring Hs)) as (arr & -> & _ & Hr).
  { rewrite (rsr_mask Hs). lia. }
  step. rewrite (br_get_data_size _ _ _ _ _ _ _ i Hb) by (eapply br_range; [exact Hb|elt]). step.
  assert (Hstr : ∀ rb', recv_stream (mkReadBufStream rb' (rs_head_offset s)) blks (q ++ [i]) =
      recv_stream s blks q ++ blk blks i).
  { intros rb'. unfold recv_stream. simpl. rewrite stream_app, stream_single, drop_app_le; [done|].
    by apply rs_off_le. }
  eexists. split; [done|]. split; [|by rewrite Hstr]. split; [split; simpl; try apply Hs|simpl].
  - exact Hr.
  - destruct (rsr_head Hs) as [?|(x & l & -> & ?)]; [by left|]. right. by exists x, (l ++ [i]).
  - intros j [Hj| ->%list_elem_of_singleton]%elem_of_app; [by eapply rsr_full|done].
  - rewrite Hstr, length_app, Hrd.
    rewrite stream_app, stream_single, length_app in Hbd.
    pose proof (recv_len s blks q).
    rewrite u32_small by lia. lia.
Qed.

(** *** consume *)

(** The head buffer goes back to the kernel. *)
Lemma rs_pop s b avail cq i q other blks :
  br_rep n bs b avail cq ((i :: q) ++ other) blks → rs_core n s blks (i :: q) →
  let rb := rs_base s in
  let s' := mkReadBufStream (rb_with_queue rb (rb_buf_queue rb) (u32 (rb_head rb + 1)) (rb_tail rb)
              (rb_readable_bytes rb)) 0 in
  ∃ b' blks', BufRing_release b i = Ok b' ∧ br_rep n bs b' (avail ++ [i]) cq (q ++ other) blks' ∧
    rs_core n s' blks' q ∧ same_on (q ++ other) blks blks'.
Proof.
  intros Hb Hs. cbv zeta. destruct (br_release _ _ _ _ _ _ (q ++ other) _ i Hb) as (b' & -> & Hb'); [done|].
  assert (Hsame : same_on (q ++ other) blks (<[Z.to_nat i := []]> blks)).
  { assert (Hi : 0 ≤ i < n) by (eapply br_range; [exact Hb|elt]). apply same_on_insert; [lia|].
    intros j Hj. assert (0 ≤ j < n) by (eapply br_range; [exact Hb|]; simpl; elt). split; [lia|].
    intros ->. pose proof (br_nodup _ _ _ _ _ _ _ Hb) as (_ & _ & (_ & _ & Hnd)%NoDup_app)%NoDup_app.
    simpl in Hnd. by apply NoDup_cons in Hnd as [? _]. }
  eexists _, _. split; [done|]. split; [exact Hb'|]. split; [|done].
  assert (same_on q blks (<[Z.to_nat i := []]> blks)) as Hsq by (eapply same_on_sub; [|exact Hsame]; intros j; elt).
  split; simpl; try apply Hs; [|lia|by left|].
  - exact (ring_pop _ _ _ _ _ _ _ (rsr_ring Hs)).
  - intros j Hj. rewrite Hsq by done. eapply rsr_full; [exact Hs|]. by right.
Qed.

Lemma consume_loop_spec fuel : ∀ s b avail cq q other blks size,
  br_rep n bs b avail cq (q ++ other) blks → rs_core n s blks q →
  0 ≤ size ≤ Z.of_nat (length (recv_stream s blks q)) → (length q < fuel)%nat →
  ∃ s' b' rel q' blks', consume_loop fuel s b size = Ok (s', b') ∧ q = rel ++ q' ∧
    br_rep n bs b' (avail ++ rel) cq (q' ++ other) blks' ∧ rs_core n s' blks' q' ∧
    rb_readable_bytes (rs_base s') = rb_readable_bytes (rs_base s) ∧
    same_on (q' ++ other) blks blks' ∧
    recv_stream s' blks' q' = drop (Z.to_nat size) (recv_stream s blks q) ∧
    (rb_tail (rs_base s') = rb_tail (rs_base s)) ∧
    rb_head (rs_base s') = u32 (rb_head (rs_base s) + Z.of_nat (length rel)).
Proof.
  induction fuel as [|fuel IH]; intros s b avail cq q other blks size Hb Hs Hsz Hf; [lia|].
  cbn [consume_loop]. pose proof (rk_head (rsr_ring Hs)) as Hhd.
  case_test; step.
  { replace (Z.to_nat size) with 0%nat by lia. exists s, b, [], q, blks.
    rewrite app_nil_r, Z.add_0_r, u32_small by done. by split_and!. }
  destruct (recv_bound _ _ _ _ _ _ Hb) as [Hbd _].
  unfold recv_stream in Hsz. rewrite length_drop in Hsz.
  destruct q as [|i q]; [unfold stream in Hsz; simpl in Hsz; lia|]. cbn [length] in Hf.
  rewrite (ring_first _ _ _ _ _ _ _ (rsr_ring Hs)). step.
  assert (0 ≤ i < n) as Hi by (eapply br_range; [exact Hb|simpl; elt]).
  rewrite (br_get_data_size _ _ _ _ _ _ _ i Hb Hi). step.
  rewrite stream_cons, length_app in Hsz, Hbd.
  assert (rs_head_offset s ≤ Z.of_nat (length (blk blks i))) as Hol.
  { pose proof (rsr_head Hs) as [->|(? & ? & [= <- <-] & ?)]; lia. }
  pose proof (rsr_off Hs) as Hoff.
  rewrite (u32_small (_ - _)) by lia. case_test.
  - rewrite u32_small by lia. eexists _, _, [], (i :: q), blks. simpl length.
    rewrite app_nil_r, Z.add_0_r, (u32_small (rb_head _)) by done. split_and!; try done.
    + split; simpl; try apply Hs; [lia|]. right. eexists _, _. split; [done|]. lia.
    + unfold recv_stream. simpl. rewrite drop_drop. f_equal. lia.
  - destruct (rs_pop _ _ _ _ _ _ _ _ Hb Hs) as (b1 & blks1 & -> & Hb1 & Hs1 & Hsame). step.
    assert (Hst : stream blks1 q = stream blks q).
    { apply stream_same. eapply same_on_sub; [|exact Hsame]. intros j; elt. }
    rewrite (u32_small (size - _)) by lia.
    destruct (IH _ _ _ _ _ _ _ (size - (Z.of_nat (length (blk blks i)) - rs_head_offset s)) Hb1 Hs1)
      as (s' & b' & rel & q' & blks' & Hrun & -> & Hb' & Hs' & Hrd & Hsm & Hstr & Ht & Hh); [|lia|].
    { unfold recv_stream. simpl. rewrite drop_0, Hst. lia. }
    exists s', b', (i :: rel), q', blks'. split_and!; try done.
    + by rewrite <- (assoc_L (++)) in Hb'.
    + eapply same_on_trans; [|exact Hsm]. eapply same_on_sub; [|exact Hsame]. intros j Hj. elt.
    + rewrite Hstr. unfold recv_stream. cbn [rs_head_offset]. rewrite drop_0, Hst.
      rewrite stream_cons, drop_drop, drop_app_ge by lia. f_equal. lia.
    + rewrite Hh. simpl. unfold u32. rewrite Zplus_mod_idemp_l. f_equal. lia.
Qed.

Lemma consume_spec s b avail cq q other blks size :
  br_rep n bs b avail cq (q ++ other) blks → rs_rep n s blks q → 0 ≤ size →
  ∃ ok s' b' rel q' blks', ReadBufStream_consume s b size = Ok (ok, s', b') ∧
    ok = (size <=? Z.of_nat (length (recv_stream s blks q))) ∧ q = rel ++ q' ∧
    br_rep n bs b' (avail ++ rel) cq (q' ++ other) blks' ∧ rs_rep n s' blks' q' ∧
    same_on (q' ++ other) blks blks' ∧
    recv_stream s' blks' q' = (if ok then drop (Z.to_nat size) else id) (recv_stream s blks q) ∧
    rb_tail (rs_base s') = rb_tail (rs_base s) ∧
    rb_head (rs_base s') = u32 (rb_head (rs_base s) + Z.of_nat (length rel)).
Proof.
  intros Hb [Hs Hrd] Hsz. unfold ReadBufStream_consume. rewrite Hrd.
  pose proof (rk_head (rsr_ring Hs)) as Hhd. case_test.
  { exists false, s, b, [], q, blks. rewrite app_nil_r, Z.add_0_r, u32_small, (proj2 (Z.leb_gt _ _)) by done.
    by split_and!. }
  set (s1 := mkReadBufStream (rb_with_queue (rs_base s) _ _ _ _) _).
  destruct (consume_loop_spec (S (Z.to_nat (rb_capacity (rs_base s)))) s1 b avail cq q other blks size)
    as (s' & b' & rel & q' & blks' & Hrun & -> & Hb' & Hs' & Hrd' & Hsm & Hstr & Ht & Hh); try done.
  { split; simpl; apply Hs. }
  { pose proof (recv_bound _ _ _ _ _ _ Hb). rewrite (rsr_cap Hs). lia. }
  simpl in Hrun |- *. rewrite Hrun. step. eexists true, _, _, rel, q', blks'.
  rewrite (proj2 (Z.leb_le _ _)) by lia. split_and!; try done.
  split; [done|]. rewrite Hrd', Hstr, length_drop.
  change (recv_stream s1 blks (rel ++ q')) with (recv_stream s blks (rel ++ q')). simpl rb_readable_bytes.
  destruct (recv_bound _ _ _ _ _ _ Hb) as [Hbd _].
  pose proof (recv_len s blks (rel ++ q')).
  rewrite u32_small by lia. lia.
Qed.

(** *** reset: every queued buffer goes back to the kernel *)
Lemma rs_all_consumed s blks q : rs_core n s blks q → recv_stream s blks q = [] → q = [].
Proof.
  intros Hs Hnil. destruct q as [|i q]; [done|]. exfalso.
  apply (f_equal length) in Hnil. unfold recv_stream in Hnil. rewrite length_drop, stream_cons, length_app in Hnil.
  pose proof (rsr_full Hs i ltac:(by left)) as Hf. simpl in Hnil. pose proof (rsr_off Hs).
  pose proof (rsr_head Hs) as [E|(? & ? & [= <- <-] & ?)]; [|lia].
  destruct (blk blks i); [done|]. rewrite E in Hnil. simpl in Hnil. lia.
Qed.

Lemma read_reset_spec s b avail cq q other blks :
  br_rep n bs b avail cq (q ++ other) blks → rs_rep n s blks q →
  ∃ s' b' blks', ReadBufStream_reset s b = Ok (s', b') ∧
    br_rep n bs b' (avail ++ q) cq other blks' ∧ rs_rep n s' blks' [] ∧ same_on other blks blks' ∧
    rb_tail (rs_base s') = 0.
Proof.
  intros Hb Hs. unfold ReadBufStream_reset. pose proof (rsr_readable Hs) as Hrd.
  destruct (consume_spec s b avail cq q other blks (rb_readable_bytes (rs_base s)) Hb Hs)
    as (ok & s1 & b1 & rel & q1 & blks1 & -> & Hok & Hq & Hb1 & Hs1 & Hsm & Hstr & _); [lia|].
  rewrite Hrd, Z.leb_refl in Hok. subst ok. step.
  rewrite Hrd, Nat2Z.id, drop_all in Hstr. destruct Hs1 as [Hs1 Hrd1].
  assert (q1 = []) as -> by (by eapply rs_all_consumed). rewrite app_nil_r in Hq. subst rel.
  eexists _, _, _. split; [done|]. split; [exact Hb1|]. split; [|done].
  split; [split; simpl; try apply Hs1|]; [eapply ring_at; [apply Hs1|lia]|lia|by left|].
  simpl. rewrite Hrd1, Hstr. unfold recv_stream, stream. simpl. done.
Qed.

(** *** peek *)

(** A piece of a buffer reads as the corresponding piece of its contents. *)
Lemma block_piece b avail cq held blks i o k :
  br_rep n bs b avail cq held blks → 0 ≤ i < n → 0 ≤ o → 0 ≤ k → o + k ≤ Z.of_nat (length (blk blks i)) →
  mem_read (br_bufs b) (i * bs + o) k = take (Z.to_nat k) (drop (Z.to_nat o) (blk blks i)).
Proof.
  intros H Hi Ho Hk Hle. destruct (br_block _ _ _ _ _ _ _ i H Hi) as (_ & _ & _ & E).
  pose proof (brr_pos H). rewrite E at 1. unfold mem_read.
  rewrite skipn_firstn_comm, drop_drop, take_take. f_equal; [lia|]. f_equal. nia.
Qed.

Lemma zip_insert (data sizes : list Z) (j : nat) a c :
  zip (<[j := a]> data) (<[j := c]> sizes) = <[j := (a, c)]> (zip data sizes).
Proof. symmetry. apply (insert_zip_with pair). Qed.

(** What the loop has left to do from queue position [j] on: at most [m]
    pieces, none empty or longer than a buffer. *)
Definition peek_piece (b : BufRing R) (e : Z * Z) : Prop :=
  0 < Z.of_nat (length (mem_read (br_bufs b) e.1 e.2)) ≤ bs.
Definition peek_post (b : BufRing R) (j m : nat) (zs : list (Z * Z)) (want : list byte)
    (res : list Z * list Z * Z) : Prop :=
  let '(data', sizes', idx') := res in
  Z.of_nat (length data') = n ∧ Z.of_nat (length sizes') = n ∧
  ∃ cnt : nat, idx' = Z.of_nat (j + cnt) ∧ take j (zip data' sizes') = take j zs ∧
    gather (br_bufs b) (take cnt (drop j (zip data' sizes'))) = want ∧ (cnt ≤ m)%nat ∧
    Forall (peek_piece b) (take cnt (drop j (zip data' sizes'))).

Lemma peek_done b j m (data sizes : list Z) :
  Z.of_nat (length data) = n → Z.of_nat (length sizes) = n →
  peek_post b j m (zip data sizes) [] (data, sizes, Z.of_nat j).
Proof. intros Hd Hs. split_and!; [done..|]. exists 0%nat. rewrite Nat.add_0_r. split_and!; try done; lia. Qed.

(** One piece, then the rest. *)
Lemma peek_cons b j m (data sizes : list Z) a c want res :
  Z.of_nat (length data) = n → Z.of_nat (length sizes) = n → Z.of_nat j < n → peek_piece b (a, c) →
  peek_post b (S j) m (zip (<[j := a]> data) (<[j := c]> sizes)) want res →
  peek_post b j (S m) (zip data sizes) (mem_read (br_bufs b) a c ++ want) res.
Proof.
  intros Hd Hs Hj Hc. destruct res as [[data' sizes'] idx']. intros (Hd' & Hs' & cnt & -> & Htk & Hg & Hcnt & Hall).
  split_and!; [done..|]. rewrite zip_insert in Htk. exists (S cnt).
  assert (zip data' sizes' !! j = Some (a, c)) as Hlk.
  { rewrite <- (lookup_take_lt _ (S j)) by lia. rewrite Htk, lookup_take_lt by lia.
    apply list_lookup_insert_eq. rewrite length_zip. lia. }
  rewrite (drop_S _ _ _ Hlk). cbn [take]. split_and!; [lia| | |lia|by constructor].
  - apply (f_equal (take j)) in Htk. rewrite !take_take, !Nat.min_l in Htk by lia.
    by rewrite take_insert_ge in Htk by lia.
  - unfold gather. rewrite bind_cons. f_equal. exact Hg.
Qed.

(** The bytes asked for: those of the first block, then of the rest. *)
Lemma take_first_block {A} (x l : list A) o size c :
  0 ≤ o ≤ Z.of_nat (length x) → 0 ≤ size → c = Z.min size (Z.of_nat (length x) - o) →
  take (Z.to_nat size) (drop (Z.to_nat o) x ++ l) =
  take (Z.to_nat c) (drop (Z.to_nat o) x) ++ take (Z.to_nat (size - c)) l.
Proof.
  intros Ho Hsize Hc. rewrite take_app, length_drop. f_equal; [|f_equal; lia].
  destruct (decide (size ≤ Z.of_nat (length x) - o)); [by replace c with size by lia|].
  rewrite !take_ge; rewrite ?length_drop; lia || done.
Qed.

(** The offset of the [j]-th block lies before its end. *)
Lemma peek_offset s q blks j i l o :
  rs_core n s blks q → drop j q = i :: l → o = (if decide (j = 0%nat) then rs_head_offset s else 0) →
  0 ≤ o < Z.of_nat (length (blk blks i)).
Proof.
  intros Hs Hl ->. pose proof (rsr_off Hs).
  assert (blk blks i ≠ []) as Hne.
  { apply (rsr_full Hs). rewrite <- (take_drop j q), Hl. elt. }
  destruct (blk blks i) as [|x d] eqn:Ei; [done|]. case_decide; [|simpl; lia]. subst j. rewrite drop_0 in Hl.
  pose proof (rsr_head Hs) as [->|(? & ? & E & Hlt)]; [simpl; lia|]. rewrite Hl in E. simplify_eq. rewrite Ei in Hlt. lia.
Qed.

Lemma peek_loop_spec s b avail cq q other blks fuel : ∀ l j size data sizes,
  br_rep n bs b avail cq (q ++ other) blks → rs_core n s blks q →
  rb_tail (rs_base s) = rb_head (rs_base s) + Z.of_nat (length q) →
  drop j q = l → (j ≤ length q)%nat → Z.of_nat (length data) = n → Z.of_nat (length sizes) = n →
  let o := if decide (j = 0%nat) then rs_head_offset s else 0 in
  0 ≤ size ≤ Z.of_nat (length (drop (Z.to_nat o) (stream blks l))) → (length l ≤ fuel)%nat →
  ∃ res, peek_loop fuel s b (rb_head (rs_base s) + Z.of_nat j) size (Z.of_nat j) data sizes = Ok res ∧
    peek_post b j (length l) (zip data sizes) (take (Z.to_nat size) (drop (Z.to_nat o) (stream blks l))) res.
Proof.
  induction fuel as [|fuel IH]; intros l j size data sizes Hb Hs Htl Hl Hj Hd Hsz o Hsize Hf;
    cbn [peek_loop].
  all: pose proof (rk_tail (rsr_ring Hs)) as Htr.
  { destruct l; [|simpl in Hf; lia]. unfold stream in *. simpl in *. rewrite drop_nil in Hsize. simpl in Hsize.
    replace size with 0 by lia. rewrite andb_false_r. simpl. eexists. split; [done|].
    rewrite drop_nil. by apply peek_done. }
  case_test; bools.
  { eexists. split; [done|].
    assert (take (Z.to_nat size) (drop (Z.to_nat o) (stream blks l)) = []) as ->; [|by apply peek_done].
    apply andb_false_iff in Heqb0 as [Hge%Z.ltb_ge|Hz%Z.ltb_ge].
    - assert (l = []) as -> by (rewrite <- Hl; apply drop_ge; lia). unfold stream. simpl. by rewrite drop_nil, take_nil.
    - by replace (Z.to_nat size) with 0%nat by lia. }
  destruct l as [|i l].
  { exfalso. apply (f_equal length) in Hl. rewrite length_drop in Hl. simpl in Hl. lia. }
  assert (Hlk : q !! j = Some i) by (rewrite <- (Nat.add_0_r j), <- lookup_drop, Hl; done).
  pose proof (ring_nth _ _ _ _ _ _ _ _ (rsr_ring Hs) Hlk) as Hn.
  pose proof (lookup_lt_Some _ _ _ Hlk) as Hjl.
  pose proof (rk_head (rsr_ring Hs)) as Hhr.
  rewrite Z.mod_small in Hn by lia. rewrite Hn. step.
  assert (0 ≤ i < n) as Hi.
  { eapply br_range; [exact Hb|]. apply list_elem_of_lookup_2 in Hlk. elt. }
  rewrite (br_get_data_size _ _ _ _ _ _ _ i Hb Hi). step. rewrite (br_buf_addr _ _ _ _ _ _ _ i Hb Hi).
  replace (if rb_head (rs_base s) + Z.of_nat j =? rb_head (rs_base s) then rs_head_offset s else 0)
    with o by (unfold o; case_decide; case_test; lia || done).
  pose proof (peek_offset s q blks j i l o Hs Hl eq_refl) as Ho.
  destruct (recv_bound _ _ _ _ _ _ Hb) as [Hbd Hql].
  assert (Hsi : Z.of_nat (length (blk blks i)) + Z.of_nat (length (stream blks l)) < 2 ^ 31).
  { rewrite <- (take_drop j q), Hl, stream_app, stream_cons, !length_app in Hbd. lia. }
  rewrite stream_cons, drop_app_le in Hsize |- * by lia. rewrite length_app, length_drop in Hsize.
  rewrite (u32_small (Z.of_nat _ - o)) by lia. clearbody o.
  set (c := if size <? _ then size else _).
  assert (Hc : c = Z.min size (Z.of_nat (length (blk blks i)) - o)) by (unfold c; case_test; lia).
  clearbody c. rewrite !arr_set_ok by lia. step. rewrite Nat2Z.id.
  rewrite (u32_small (size - c)), (u32_small (_ + 1)), (u32_small (_ + 1)) by lia.
  replace (rb_head (rs_base s) + Z.of_nat j + 1) with (rb_head (rs_base s) + Z.of_nat (S j)) by lia.
  replace (Z.of_nat j + 1) with (Z.of_nat (S j)) by lia. cbn [length] in Hf.
  assert (Hl' : drop (S j) q = l) by (rewrite (drop_S _ _ _ Hlk) in Hl; by injection Hl).
  destruct (IH l (S j) (size - c) (<[j := i * bs + o]> data) (<[j := c]> sizes) Hb Hs Htl Hl' Hjl)
    as (res & Hrun & Hpost); [by rewrite length_insert..| |lia|].
  { rewrite decide_False by lia. simpl. rewrite drop_0. lia. }
  rewrite decide_False in Hpost by lia. change (Z.to_nat 0) with 0%nat in Hpost. rewrite drop_0 in Hpost.
  exists res. split; [exact Hrun|]. apply (peek_cons b j (length l) data sizes) in Hpost; [|done|done|lia|].
  2: { unfold peek_piece. simpl. rewrite (block_piece _ _ _ _ _ _ _ _ Hb Hi), length_take, length_drop by lia.
       destruct (br_block _ _ _ _ _ _ _ i Hb Hi) as (_ & _ & ? & _). lia. }
  rewrite (block_piece _ _ _ _ _ _ _ _ Hb Hi) in Hpost by lia. by rewrite (take_first_block _ _ o size c) by lia.
Qed.

Lemma peek_spec s b avail cq q other blks size :
  br_rep n bs b avail cq (q ++ other) blks → rs_rep n s blks q →
  rb_tail (rs_base s) = rb_head (rs_base s) + Z.of_nat (length q) → 0 ≤ size →
  ∃ ok s', ReadBufStream_peek s b size = Ok (ok, s') ∧
    ok = (size <=? Z.of_nat (length (recv_stream s blks q))) ∧ rs_rep n s' blks q ∧
    recv_stream s' blks q = recv_stream s blks q ∧
    rb_head (rs_base s') = rb_head (rs_base s) ∧ rb_tail (rs_base s') = rb_tail (rs_base s) ∧
    (ok = true → gather (br_bufs b) (peek_pieces s') = take (Z.to_nat size) (recv_stream s blks q) ∧
       (length (peek_pieces s') ≤ length q)%nat ∧ Forall (peek_piece b) (peek_pieces s')).
Proof.
  intros Hb [Hs Hrd] Htl Hsz. unfold ReadBufStream_peek. rewrite Hrd. case_test.
  { exists false, s. rewrite (proj2 (Z.leb_gt _ _)) by lia. by split_and!. }
  destruct (recv_bound _ _ _ _ _ _ Hb) as [_ Hl].
  destruct (peek_loop_spec s b avail cq q other blks (S (Z.to_nat (rb_capacity (rs_base s)))) q 0 size
    (rb_peek_data (rs_base s)) (rb_peek_size (rs_base s)) Hb Hs Htl) as ([[data sizes] idx] & Hrun & Hpost);
    try apply Hs; [done|lia| | |].
  { rewrite decide_True by done. unfold recv_stream in *. lia. }
  { rewrite (rsr_cap Hs). lia. }
  rewrite Z.add_0_r in Hrun. change (Z.of_nat 0) with 0 in Hrun. rewrite Hrun. step.
  eexists true, _. split; [done|]. rewrite (proj2 (Z.leb_le _ _)) by lia. split; [done|].
  destruct Hpost as (Hd & Hz & cnt & -> & _ & Hg & Hcnt & Hall). rewrite decide_True in Hg by done.
  split; [split; [split; simpl; try apply Hs; done|exact Hrd]|]. split_and!; try done.
  intros _. unfold peek_pieces. simpl. rewrite Nat2Z.id. split; [exact Hg|]. split; [|exact Hall].
  rewrite length_take. lia.
Qed.

Lemma ReadBufStream_new_rep j1 j2 j3 j4 b avail cq held blks :
  br_rep n bs b avail cq held blks → 
  ∃ s, ReadBufStream_new j1 j2 j3 j4 b = Ok s ∧ rs_rep n s blks [] ∧
    rb_head (rs_base s) = 0 ∧ rb_tail (rs_base s) = 0.
Proof.
  intros Hb. unfold ReadBufStream_new, ReadBufBase_new. rewrite (brr_num Hb).
  pose proof (brr_n Hb). destruct (brr_pow Hb) as (k & Hk & E).
  rewrite (proj2 (Z.ltb_ge _ _)) by lia. rewrite int_of_ok by lia. step. rewrite u32_small by lia.
  assert (k < 32) by (apply (Z.pow_lt_mono_r_iff 2); lia).
  eexists. split; [done|]. split; [|done]. split; [split; simpl; try done|]; try len.
  - split; try done; [|simpl; lia]. exists k. split_and!; [lia..|]. len.
  - by intros i ?%not_elem_of_nil.
Qed.
End spec.
End read_buf.
