(* ===== verification/TcpRecv.v ===== *)
(** * TcpRecv: the receive side of TCP channels that share a buffer ring

    The kernel fills provided buffers and posts completions; the read loop of
    the channel (src/net/handler.cpp lines 14-37) decodes the buffer id from
    the completion flags, records the size and queues the buffer; the
    application peeks and consumes.  This file runs arbitrary interleavings of
    kernel, read loops and applications and relates them to one byte queue per
    connection.  It also holds the case the code gets wrong: a peek after the
    32-bit counters wrapped. *)
From S2P Require Import Prelude Ring BufPool WriteBuf WriteBufStream BufRing ReadBuf.

(** ** Completion flags *)

(** IORING_CQE_F_BUFFER and IORING_CQE_F_MORE are bits 0 and 1; the buffer id
    is in the upper half.  [Token] keeps the flags in an [int]. *)
Definition CQE_F_BUFFER : Z := 1.
Definition CQE_F_MORE : Z := 2.
Definition CQE_BUFFER_SHIFT : Z := 16.

Definition cqe_flags (bid : Z) (more : bool) : Z :=
  Z.lor (Z.shiftl bid CQE_BUFFER_SHIFT) (Z.lor CQE_F_BUFFER (if more then CQE_F_MORE else 0)).

(** [(unsigned)(p.token_.flag() >> IORING_CQE_BUFFER_SHIFT)]. *)
Definition flag_bid (flag : Z) : Z := u32 (Z.shiftr flag CQE_BUFFER_SHIFT).
(** [p.token_.flag() & IORING_CQE_F_MORE]. *)
Definition flag_more (flag : Z) : bool := negb (Z.land flag CQE_F_MORE =? 0).

Lemma cqe_flags_value bid more : 0 ≤ bid → cqe_flags bid more = bid * 2 ^ 16 + (if more then 3 else 1).
Proof.
  intros Hb. unfold cqe_flags, CQE_BUFFER_SHIFT, CQE_F_BUFFER, CQE_F_MORE.
  rewrite Z.shiftl_mul_pow2 by lia.
  replace (Z.lor 1 (if more then 2 else 0)) with (if more then 3 else 1) by (by destruct more).
  symmetry. rewrite <- Z.lxor_lor, Z.add_nocarry_lxor; [done| |];
    (apply Z.bits_inj'; intros j Hj; rewrite Z.land_spec, Z.bits_0;
     destruct (decide (j < 16));
     [rewrite Z.mul_pow2_bits_low by lia; done
     |rewrite (Z.bits_above_log2 (if more then 3 else 1));
      [apply andb_false_r|destruct more; lia|destruct more; simpl; lia]]).
Qed.

Lemma flag_bid_flags bid more : 0 ≤ bid < 2 ^ 15 → flag_bid (i32 (cqe_flags bid more)) = bid.
Proof.
  intros Hb. rewrite cqe_flags_value by lia. rewrite i32_small by (destruct more; lia).
  unfold flag_bid, CQE_BUFFER_SHIFT. rewrite Z.shiftr_div_pow2 by lia.
  replace ((bid * 2 ^ 16 + _) / 2 ^ 16) with bid; [apply u32_small; lia|].
  destruct more; (rewrite Z.div_add_l by lia; rewrite Z.div_small by lia; lia).
Qed.

Lemma flag_more_flags bid more : 0 ≤ bid < 2 ^ 15 → flag_more (i32 (cqe_flags bid more)) = more.
Proof.
  intros Hb. rewrite i32_small by (rewrite cqe_flags_value by lia; destruct more; lia).
  unfold flag_more, cqe_flags. rewrite Z.land_lor_distr_l.
  assert (Z.land (Z.shiftl bid CQE_BUFFER_SHIFT) CQE_F_MORE = 0) as ->; [|by destruct more].
  apply Z.bits_inj'. intros j Hj. rewrite Z.land_spec, Z.shiftl_spec, Z.bits_0 by done.
  unfold CQE_BUFFER_SHIFT, CQE_F_MORE. destruct (decide (j < 16)).
  - rewrite Z.testbit_neg_r by lia. done.
  - rewrite (Z.bits_above_log2 2) by (simpl; lia). apply andb_false_r.
Qed.

(** ** The concrete system *)
Section rx.
Context {R : Type} {Hlib : BufRingLib R}.

(** The buffer ring of the worker, the read buffers of its channels and the
    completion queue: channel, result and flags of each receive. *)
Record rx_sys := mkRxSys {
  rx_ring : BufRing R;
  rx_chans : list ReadBufStream;
  rx_cq : list (nat * Z * Z)
}.

Inductive rx_cmd :=
  | RxKernel (c : nat) (data : list byte)   (* bytes arrive on a connection *)
  | RxHandle                                (* the loop handles one completion *)
  | RxPeek (c : nat) (size : Z)
  | RxConsume (c : nat) (size : Z)
  | RxReset (c : nat).                      (* the read loop of a closed channel ends *)

Inductive rx_out := RxDone (ok : bool) | RxBytes (d : option (list byte)).

(** The data branch of [tcp_read_loop] for a completion [res], [flag]. *)
Definition tcp_read_data (s : ReadBufStream) (b : BufRing R) (res flag : Z)
    : result (bool * ReadBufStream * BufRing R) :=
  let idx := flag_bid flag in
  b ← ReadBufBase_set_buf_data_size b idx (u32 res);
  '(ok, rb) ← ReadBufBase_push_buf (rs_base s) b idx;
  Ok (ok, mkReadBufStream rb (rs_head_offset s), b).

Definition rx_step (x : rx_sys) (c : rx_cmd) : result (rx_out * rx_sys) :=
  let '(mkRxSys b chans cq) := x in
  match c with
  | RxKernel c d =>
      r ← kernel_receive b d;
      match r with
      | None => Ok (RxDone false, x)
      | Some (bid, b) =>
          Ok (RxDone true, mkRxSys b chans (cq ++ [(c, Z.of_nat (length d), i32 (cqe_flags bid true))]))
      end
  | RxHandle =>
      match cq with
      | [] => Ok (RxDone false, x)
      | (c, res, flag) :: cq =>
          match chans !! c with
          | None => Ok (RxDone false, mkRxSys b chans cq)
          | Some s =>
              '(ok, s, b) ← tcp_read_data s b res flag;
              Ok (RxDone ok, mkRxSys b (<[c := s]> chans) cq)
          end
      end
  | RxPeek c size =>
      match chans !! c with
      | None => Ok (RxDone false, x)
      | Some s =>
          '(ok, s) ← ReadBufStream_peek s b size;
          Ok (RxBytes (if ok : bool then Some (gather (br_bufs b) (peek_pieces s)) else None),
              mkRxSys b (<[c := s]> chans) cq)
      end
  | RxConsume c size =>
      match chans !! c with
      | None => Ok (RxDone false, x)
      | Some s =>
          '(ok, s, b) ← ReadBufStream_consume s b size; Ok (RxDone ok, mkRxSys b (<[c := s]> chans) cq)
      end
  | RxReset c =>
      match chans !! c with
      | None => Ok (RxDone false, x)
      | Some s => '(s, b) ← ReadBufStream_reset s b; Ok (RxDone true, mkRxSys b (<[c := s]> chans) cq)
      end
  end.

Fixpoint rx_run (x : rx_sys) (cs : list rx_cmd) : result (list rx_out * rx_sys) :=
  match cs with
  | [] => Ok ([], x)
  | c :: cs => '(o, x) ← rx_step x c; '(os, x) ← rx_run x cs; Ok (o :: os, x)
  end.

(** ** The specification: per connection, the unread bytes; globally, the
    chunks that arrived and are not yet handled *)
Record rx_spec := mkRxSpec { rsp_unread : list (list byte); rsp_arrived : list (nat * list byte) }.

(** [taken] tells whether the kernel had a buffer for an arriving chunk. *)
Definition rx_spec_step (sp : rx_spec) (c : rx_cmd) (taken : bool) : rx_out * rx_spec :=
  let '(mkRxSpec unread arrived) := sp in
  match c with
  | RxKernel c d => (RxDone taken, if taken then mkRxSpec unread (arrived ++ [(c, d)]) else sp)
  | RxHandle =>
      match arrived with
      | [] => (RxDone false, sp)
      | (c, d) :: arrived => (RxDone true, mkRxSpec (alter (fun u => u ++ d) c unread) arrived)
      end
  | RxPeek c size =>
      match unread !! c with
      | None => (RxDone false, sp)
      | Some u => (RxBytes (if size <=? Z.of_nat (length u) then Some (take (Z.to_nat size) u) else None), sp)
      end
  | RxConsume c size =>
      match unread !! c with
      | None => (RxDone false, sp)
      | Some u =>
          if size <=? Z.of_nat (length u)
          then (RxDone true, mkRxSpec (<[c := drop (Z.to_nat size) u]> unread) arrived)
          else (RxDone false, sp)
      end
  | RxReset c =>
      match unread !! c with
      | None => (RxDone false, sp)
      | Some _ => (RxDone true, mkRxSpec (<[c := []]> unread) arrived)
      end
  end.

(** The results the specification predicts, given the kernel's choices. *)
Fixpoint rx_spec_run (sp : rx_spec) (cs : list rx_cmd) (outs : list rx_out) : list rx_out :=
  match cs, outs with
  | c :: cs, o :: outs =>
      let '(o', sp') := rx_spec_step sp c (match o with RxDone b => b | _ => false end) in
      o' :: rx_spec_run sp' cs outs
  | _, _ => []
  end.

(** ** The invariant *)
Definition held_by (qs : list (list Z)) : list Z := qs ≫= fun q => q.
Definition held_others (c : nat) (qs : list (list Z)) : list Z := held_by (take c qs ++ drop (S c) qs).

(** [k] bounds the number of buffers a channel has seen, so its counters have
    not wrapped. *)
Record rx_chan_inv (n k : Z) (blks : list (list byte)) (s : ReadBufStream) (q : list Z)
    (u : list byte) : Prop := {
  rci_rep : rs_rep n s blks q;
  rci_unread : recv_stream s blks q = u;
  rci_tail : rb_tail (rs_base s) = rb_head (rs_base s) + Z.of_nat (length q);
  rci_k : rb_tail (rs_base s) ≤ k
}.

(** [items] are the unhandled completions: channel, bytes, buffer. *)
#[local] Set Implicit Arguments.
Record rx_inv (n bs k : Z) (x : rx_sys) (sp : rx_spec) (avail : list Z)
    (items : list (nat * list byte * Z)) (qs : list (list Z)) (blks : list (list byte)) : Prop := {
  ri_ring : br_rep n bs (rx_ring x) avail ((fun it => (it.2, it.1.2)) <$> items) (held_by qs) blks;
  ri_cq : rx_cq x = (fun it => (it.1.1, Z.of_nat (length it.1.2), i32 (cqe_flags it.2 true))) <$> items;
  ri_arrived : rsp_arrived sp = fst <$> items;
  ri_items c d i : (c, d, i) ∈ items → d ≠ [] ∧ (c < length (rx_chans x))%nat;
  ri_qs : length qs = length (rx_chans x);
  ri_sp : length (rsp_unread sp) = length (rx_chans x);
  ri_chan c s q u : rx_chans x !! c = Some s → qs !! c = Some q → rsp_unread sp !! c = Some u →
    rx_chan_inv n k blks s q u
}.
#[local] Unset Implicit Arguments.
Arguments ri_items {_ _ _ _ _ _ _ _ _} _ _ _ _.
Arguments ri_chan {_ _ _ _ _ _ _ _ _} _ _ _ _ _.

(** The kernel delivers non-empty chunks that fit a buffer, on connections
    that exist; sizes are unsigned. *)
Definition rx_cmd_ok (bs : Z) (chans : nat) (c : rx_cmd) : Prop :=
  match c with
  | RxKernel c d => d ≠ [] ∧ Z.of_nat (length d) ≤ bs ∧ (c < chans)%nat
  | RxPeek _ size | RxConsume _ size => 0 ≤ size
  | _ => True
  end.

Section spec.
Context {Hlaws : BufRingLaws R} (n bs : Z).

Lemma held_middle qs c q :
  (c < length qs)%nat → held_by (<[c := q]> qs) ≡ₚ q ++ held_others c qs.
Proof.
  intros Hc. unfold held_others, held_by. rewrite insert_take_drop by done.
  rewrite !bind_app, bind_cons. solve_Permutation.
Qed.

Lemma held_focus qs c q : qs !! c = Some q → held_by qs ≡ₚ q ++ held_others c qs.
Proof.
  intros Hq. rewrite <- held_middle by (by eapply lookup_lt_Some). by rewrite list_insert_id.
Qed.

Lemma held_others_elem qs c d q i : qs !! d = Some q → d ≠ c → i ∈ q → i ∈ held_others c qs.
Proof.
  intros Hd Hne Hi. unfold held_others, held_by. apply list_elem_of_bind. exists q. split; [done|].
  apply elem_of_app. destruct (decide (d < c)%nat).
  - left. apply list_elem_of_lookup_2 with d. by rewrite lookup_take_lt.
  - right. apply list_elem_of_lookup_2 with (d - S c)%nat. rewrite lookup_drop.
    by replace (S c + (d - S c))%nat with d by lia.
Qed.

Lemma rs_rep_same blks blks' s q :
  same_on q blks blks' → rs_rep n s blks q →
  rs_rep n s blks' q ∧ recv_stream s blks' q = recv_stream s blks q.
Proof.
  intros Hs [Hc Hrd].
  assert (recv_stream s blks' q = recv_stream s blks q) as E
    by (unfold recv_stream; by rewrite (stream_same _ blks blks')).
  split; [|done]. split; [|by rewrite E]. split; try apply Hc.
  - destruct (rsr_head Hc) as [?|(y & l & -> & ?)]; [by left|]. right. exists y, l.
    split; [done|]. by rewrite Hs by (by left).
  - intros i Hi. rewrite Hs by done. by eapply rsr_full.
Qed.

Lemma rx_chan_same k k' blks blks' s q u :
  same_on q blks blks' → k ≤ k' → rx_chan_inv n k blks s q u → rx_chan_inv n k' blks' s q u.
Proof.
  intros Hs Hk [Hr Hu Ht Hk0]. destruct (rs_rep_same _ _ _ _ Hs Hr) as [Hr' E].
  split; [done|by rewrite E|done|lia].
Qed.

(** Replacing the state of one channel. *)
Lemma rx_update k k' x sp avail items qs blks c s q u b' avail' items' q' s' u' blks' cq' :
  rx_inv n bs k x sp avail items qs blks → k ≤ k' →
  rx_chans x !! c = Some s → qs !! c = Some q → rsp_unread sp !! c = Some u →
  br_rep n bs b' avail' ((fun it => (it.2, it.1.2)) <$> items') (q' ++ held_others c qs) blks' →
  same_on (held_others c qs) blks blks' → rx_chan_inv n k' blks' s' q' u' →
  items' `suffix_of` items →
  cq' = ((fun it => (it.1.1, Z.of_nat (length it.1.2), i32 (cqe_flags it.2 true))) <$> items') →
  rx_inv n bs k' (mkRxSys b' (<[c := s']> (rx_chans x)) cq')
    (mkRxSpec (<[c := u']> (rsp_unread sp)) (fst <$> items')) avail' items' (<[c := q']> qs) blks'.
Proof.
  intros [Hring Hcq Harr Hit Hqs Hsp Hch] Hk Hc Hq Hu Hb' Hsame Hinv [pre Hsuf] ->.
  pose proof (lookup_lt_Some _ _ _ Hc) as Hlt. split; simpl; rewrite ?length_insert; try done.
  - eapply br_rep_perm; [|exact Hb']. by rewrite held_middle by lia.
  - intros d0 e i Hi. apply (Hit d0 e i). rewrite Hsuf. elt.
  - intros d sd qd ud Hd1 Hd2 Hd3. destruct (decide (c = d)) as [<-|Hne].
    + rewrite list_lookup_insert_eq in Hd1 by lia. rewrite list_lookup_insert_eq in Hd2 by lia.
      rewrite list_lookup_insert_eq in Hd3 by lia. by simplify_eq.
    + rewrite list_lookup_insert_ne in Hd1 by done. rewrite list_lookup_insert_ne in Hd2 by done.
      rewrite list_lookup_insert_ne in Hd3 by done.
      eapply rx_chan_same; [|exact Hk|by eapply Hch]. eapply same_on_sub; [|exact Hsame].
      intros i Hi. by eapply held_others_elem.
Qed.

Lemma rx_mono k k' x sp avail items qs blks :
  k ≤ k' → rx_inv n bs k x sp avail items qs blks → rx_inv n bs k' x sp avail items qs blks.
Proof.
  intros Hk [Hring Hcq Harr Hit Hqs Hsp Hch]. split; try done.
  intros c s q u ???. eapply rx_chan_same; [apply same_on_refl|exact Hk|by eapply Hch].
Qed.

(** The read loop takes over exactly the chunk the kernel wrote. *)
Lemma tcp_read_data_spec s b avail c1 i d c2 q other blks more :
  br_rep n bs b avail (c1 ++ (i, d) :: c2) (q ++ other) blks → rs_rep n s blks q → d ≠ [] →
  ∃ s' b', tcp_read_data s b (Z.of_nat (length d)) (i32 (cqe_flags i more)) = Ok (true, s', b') ∧
    br_rep n bs b' avail (c1 ++ c2) ((q ++ [i]) ++ other) (<[Z.to_nat i := d]> blks) ∧
    rs_rep n s' (<[Z.to_nat i := d]> blks) (q ++ [i]) ∧
    recv_stream s' (<[Z.to_nat i := d]> blks) (q ++ [i]) = recv_stream s blks q ++ d ∧
    same_on other blks (<[Z.to_nat i := d]> blks) ∧
    rb_head (rs_base s') = rb_head (rs_base s) ∧ rb_tail (rs_base s') = u32 (rb_tail (rs_base s) + 1).
Proof.
  intros Hb Hr Hd.
  assert (Hin : i ∈ (c1 ++ (i, d) :: c2).*1) by (rewrite fmap_app; simpl; elt).
  assert (Hi : 0 ≤ i < n) by (eapply br_range; [exact Hb|]; rewrite !elem_of_app; auto).
  pose proof (brr_n Hb) as Hn. pose proof (brr_total Hb).
  destruct (brr_cq Hb (i := i) (d := d)) as [Hdl _]; [elt|].
  assert (Hnot : i ∉ q ++ other).
  { pose proof (br_nodup _ _ _ _ _ _ _ Hb) as (_ & _ & Hnd)%NoDup_app. apply NoDup_app in Hnd as (_ & Hdj & _).
    by apply Hdj. }
  destruct (br_handle n bs _ _ c1 i d c2 _ _ Hb) as (b1 & Hset & Hb1).
  assert (Hsame : same_on (q ++ other) blks (<[Z.to_nat i := d]> blks)).
  { apply same_on_insert; [lia|]. intros j Hj. split; [|by intros ->].
    assert (0 ≤ j < n); [|lia]. eapply br_range; [exact Hb|]. rewrite !elem_of_app in *. tauto. }
  assert (Hblk : blk (<[Z.to_nat i := d]> blks) i = d).
  { apply blk_insert_eq. pose proof (brr_blen Hb). lia. }
  assert (Hsq : same_on q blks (<[Z.to_nat i := d]> blks)) by (eapply same_on_sub; [|exact Hsame]; intros j; elt).
  pose proof (rs_rep_same _ _ _ _ Hsq Hr) as [Hr' Hst'].
  destruct (push_buf_spec n bs s b1 _ _ i q _ _ Hb1 Hr') as (rb' & Hpush & Hr2 & Hst & Hh & Htl); [by rewrite Hblk|].
  unfold tcp_read_data, ReadBufBase_set_buf_data_size.
  rewrite flag_bid_flags by lia. rewrite u32_small by nia. rewrite Hset. step. rewrite Hpush. step.
  eexists _, _. split; [done|]. split; [eapply br_rep_perm; [|exact Hb1]; solve_Permutation|].
  split; [done|]. split; [by rewrite Hst, Hst', Hblk|]. split; [|done].
  eapply same_on_sub; [|exact Hsame]; intros j; elt.
Qed.

(** The kernel takes the first available buffer. *)
Lemma rx_receive k x sp i avail items qs blks c d :
  rx_inv n bs k x sp (i :: avail) items qs blks → d ≠ [] → Z.of_nat (length d) ≤ bs → (c < length (rx_chans x))%nat →
  ∃ b', kernel_receive (rx_ring x) d = Ok (Some (i, b')) ∧
    rx_inv n bs k (mkRxSys b' (rx_chans x) (rx_cq x ++ [(c, Z.of_nat (length d), i32 (cqe_flags i true))]))
      (mkRxSpec (rsp_unread sp) (rsp_arrived sp ++ [(c, d)])) avail (items ++ [(c, d, i)]) qs blks.
Proof.
  intros [Hb Hcq Harr Hit Hqs Hsp Hch] Hd Hl Hc. destruct (br_receive _ _ _ _ _ _ _ _ d Hb Hl) as (b' & Hrun & Hb').
  exists b'. split; [done|]. split; simpl; try done.
  - by rewrite fmap_app.
  - by rewrite fmap_app, Hcq.
  - by rewrite fmap_app, Harr.
  - intros c0 d0 i0 [?|[= -> -> ->]%list_elem_of_singleton]%elem_of_app; [by eapply Hit|done].
Qed.

Definition rx_post (k : Z) (x : rx_sys) (sp : rx_spec) (c : rx_cmd) : Prop :=
  ∃ o x' sp' avail' items' qs' blks', rx_step x c = Ok (o, x') ∧
    rx_spec_step sp c (match o with RxDone b => b | _ => false end) = (o, sp') ∧
    rx_inv n bs (k + 1) x' sp' avail' items' qs' blks' ∧
    length (rx_chans x') = length (rx_chans x).

Section step.
Context (k : Z) (b : BufRing R) (chans : list ReadBufStream) (cq : list (nat * Z * Z))
  (unread : list (list byte)) (arrived : list (nat * list byte))
  (avail : list Z) (items : list (nat * list byte * Z)) (qs : list (list Z)) (blks : list (list byte)).
Let x : rx_sys := mkRxSys b chans cq.
Let sp : rx_spec := mkRxSpec unread arrived.
Hypothesis Hinv : rx_inv n bs k x sp avail items qs blks.
Hypothesis Hk : k + 1 < 2 ^ 32.

Lemma rx_chan_lookup c : chans !! c = None ∧ unread !! c = None ∨
  ∃ s q u, chans !! c = Some s ∧ qs !! c = Some q ∧ unread !! c = Some u ∧
    rx_chan_inv n k blks s q u ∧
    br_rep n bs b avail ((fun it => (it.2, it.1.2)) <$> items) (q ++ held_others c qs) blks.
Proof.
  pose proof (ri_qs Hinv). pose proof (ri_sp Hinv). simpl in *.
  destruct (chans !! c) as [s|] eqn:Hc.
  - right. pose proof (lookup_lt_Some _ _ _ Hc).
    destruct (lookup_lt_is_Some_2 qs c) as [q Hq]; [lia|].
    destruct (lookup_lt_is_Some_2 unread c) as [u Hu]; [lia|].
    exists s, q, u. split_and!; try done; [by eapply (ri_chan Hinv)|].
    eapply br_rep_perm; [|apply (ri_ring Hinv)]. by apply held_focus.
  - left. split; [done|]. apply lookup_ge_None. apply lookup_ge_None in Hc. lia.
Qed.

Lemma rx_refuse c o :
  rx_step x c = Ok (o, x) →
  rx_spec_step sp c (match o with RxDone b => b | _ => false end) = (o, sp) → rx_post k x sp c.
Proof.
  intros E1 E2. eexists o, x, sp, avail, items, qs, blks. split_and!; try done.
  eapply rx_mono; [|exact Hinv]. lia.
Qed.

Lemma rx_step_kernel c d : rx_cmd_ok bs (length chans) (RxKernel c d) → rx_post k x sp (RxKernel c d).
Proof.
  intros (Hd & Hl & Hc). pose proof (ri_ring Hinv) as Hb. simpl in Hb.
  assert (avail = [] ∨ ∃ i avail', avail = i :: avail') as [E|(i & avail' & E)] by (destruct avail; eauto).
  { rewrite E in Hb. apply rx_refuse with (RxDone false); [|done]. simpl.
    by rewrite (br_receive_none _ _ _ _ _ _ d Hb). }
  rewrite E in Hinv. destruct (rx_receive _ _ _ _ _ _ _ _ c d Hinv Hd Hl Hc) as (b' & Hrun & Hinv').
  eexists (RxDone true), _, _, avail', (items ++ [(c, d, i)]), qs, blks. simpl in *. rewrite Hrun. step.
  split_and!; try done. eapply rx_mono; [|exact Hinv']. lia.
Qed.

Lemma rx_step_peek c size : 0 ≤ size → rx_post k x sp (RxPeek c size).
Proof.
  intros Hsz. destruct (rx_chan_lookup c) as [[E1 E2]|(s & q & u & E1 & Eq & E2 & [Hr Hu Ht Hk0] & Hb)].
  { apply rx_refuse with (RxDone false); simpl; by rewrite ?E1, ?E2. }
  destruct (peek_spec _ _ _ _ _ _ _ _ _ size Hb Hr Ht Hsz)
    as (ok & s' & Hrun & Hok & Hr' & Hst & Hh & Htl & Hbytes).
  eexists _, _, sp, avail, items, qs, blks. simpl. rewrite E1, Hrun, E2. step. split; [done|]. split.
  - rewrite <- Hu, <- Hok. destruct ok; [|done]. by rewrite (proj1 (Hbytes eq_refl)).
  - split; [|simpl; by rewrite length_insert].
    rewrite <- (list_insert_id qs c q Eq).
    replace sp with (mkRxSpec (<[c := u]> (rsp_unread sp)) (fst <$> items));
      [|simpl; rewrite list_insert_id by done; by rewrite <- (ri_arrived Hinv)].
    eapply (rx_update k (k + 1) x sp); try done; [lia| |apply Hinv].
    split; [done|congruence|congruence|lia].
Qed.

Lemma rx_step_consume c size : 0 ≤ size → rx_post k x sp (RxConsume c size).
Proof.
  intros Hsz. destruct (rx_chan_lookup c) as [[E1 E2]|(s & q & u & E1 & Eq & E2 & [Hr Hu Ht Hk0] & Hb)].
  { apply rx_refuse with (RxDone false); simpl; by rewrite ?E1, ?E2. }
  destruct (consume_spec _ _ _ _ _ _ _ _ _ size Hb Hr Hsz)
    as (ok & s' & b' & rel & q' & blks' & Hrun & Hok & -> & Hb' & Hr' & Hsm & Hst & Htl & Hh).
  rewrite Hu in Hok, Hst.
  eexists _, _, (mkRxSpec (<[c := (if ok then drop (Z.to_nat size) else id) u]> unread) (fst <$> items)),
    (avail ++ rel), items, (<[c := q']> qs), blks'. simpl. rewrite E1, Hrun, E2. step. split; [done|]. split.
  - rewrite <- Hok. rewrite <- (ri_arrived Hinv). destruct ok; [done|].
    by rewrite list_insert_id.
  - split; [|simpl; by rewrite length_insert].
    eapply (rx_update k (k + 1) x sp); try done; [lia| | |apply Hinv].
    + eapply same_on_sub; [|exact Hsm]. intros i; elt.
    + split; [done|done| |lia].
      pose proof (rk_head (rsr_ring (rsr_core Hr))).
      pose proof (rk_tail (rsr_ring (rsr_core Hr))).
      rewrite length_app in Ht. rewrite Htl, Hh, u32_small by lia. lia.
Qed.

Lemma rx_step_reset c : 0 ≤ k → rx_post k x sp (RxReset c).
Proof.
  intros Hk0. destruct (rx_chan_lookup c) as [[E1 E2]|(s & q & u & E1 & Eq & E2 & [Hr Hu Ht _] & Hb)].
  { apply rx_refuse with (RxDone false); simpl; by rewrite ?E1, ?E2. }
  destruct (read_reset_spec _ _ _ _ _ _ _ _ _ Hb Hr) as (s' & b' & blks' & Hrun & Hb' & Hr' & Hsm & Htl).
  eexists _, _, (mkRxSpec (<[c := []]> unread) (fst <$> items)),
    (avail ++ q), items, (<[c := []]> qs), blks'. simpl. rewrite E1, Hrun, E2. step. split; [done|]. split.
  - by rewrite <- (ri_arrived Hinv).
  - split; [|simpl; by rewrite length_insert].
    eapply (rx_update k (k + 1) x sp); try done; [lia| |apply Hinv].
    pose proof (rsr_ring (rsr_core Hr')) as Hring.
    pose proof (ring_eqb _ _ _ _ _ _ Hring) as He. rewrite bool_decide_true in He by done. bools.
    split; [done| |simpl; lia|lia]. unfold recv_stream, stream. simpl. by rewrite drop_nil.
Qed.

Lemma tcp_read_data_inv s c d i items' q u :
  items = (c, d, i) :: items' → d ≠ [] → rx_chan_inv n k blks s q u →
  br_rep n bs b avail ((fun it => (it.2, it.1.2)) <$> items) (q ++ held_others c qs) blks →
  ∃ s' b', tcp_read_data s b (Z.of_nat (length d)) (i32 (cqe_flags i true)) = Ok (true, s', b') ∧
    br_rep n bs b' avail ((fun it => (it.2, it.1.2)) <$> items') ((q ++ [i]) ++ held_others c qs)
      (<[Z.to_nat i := d]> blks) ∧
    same_on (held_others c qs) blks (<[Z.to_nat i := d]> blks) ∧
    rx_chan_inv n (k + 1) (<[Z.to_nat i := d]> blks) s' (q ++ [i]) (u ++ d).
Proof.
  intros -> Hd [Hr Hu Ht Hk0] Hb.
  destruct (tcp_read_data_spec s b avail [] i d _ q _ blks true Hb Hr Hd)
    as (s' & b' & Hrun & Hb' & Hr' & Hst & Hsame & Hh & Htl).
  exists s', b'. split_and!; try done.
  assert (rb_tail (rs_base s') = rb_tail (rs_base s) + 1) as E.
  { pose proof (rk_tail (rsr_ring (rsr_core Hr))). rewrite Htl. apply u32_small. lia. }
  split; [done|by rewrite Hst, Hu|rewrite E, Hh, length_app; simpl; lia|lia].
Qed.

Lemma rx_step_handle : rx_post k x sp RxHandle.
Proof.
  pose proof (ri_cq Hinv) as Hcq. pose proof (ri_arrived Hinv) as Harr.
  simpl in Hcq, Harr.
  assert (items = [] ∨ ∃ c d i items', items = (c, d, i) :: items') as [E|(c & d & i & items' & E)]
    by (destruct items as [|[[]] ?]; eauto 10).
  { rewrite E in Hcq, Harr. apply rx_refuse with (RxDone false); unfold x, sp; cbn [rx_step rx_spec_step]; by rewrite ?Hcq, ?Harr. }
  destruct (ri_items Hinv c d i) as [Hd Hc]; [rewrite E; by left|].
  destruct (rx_chan_lookup c) as [[E1 _]|(s & q & u & E1 & Eq & E2 & Hch & Hb)].
  { apply lookup_ge_None in E1. simpl in Hc. lia. }
  destruct (tcp_read_data_inv s c d i items' q u E Hd Hch Hb) as (s' & b' & Hrun & Hb' & Hsm & Hch').
  rewrite E in Hcq, Harr. simpl in Hcq, Harr.
  eexists (RxDone true), _, (mkRxSpec (<[c := u ++ d]> unread) (fst <$> items')),
    avail, items', (<[c := q ++ [i]]> qs), _. unfold x, sp. cbn [rx_step rx_spec_step].
  rewrite Hcq, Harr, E1, Hrun. step. split; [done|]. split.
  - by rewrite (list_alter_lookup (fun u => u ++ d) _ _ _ E2).
  - split; [|simpl; by rewrite length_insert].
    eapply (rx_update k (k + 1) x sp); try done; [lia|]. rewrite E. by exists [(c, d, i)].
Qed.
End step.

Lemma rx_step_spec k x sp avail items qs blks c :
  rx_inv n bs k x sp avail items qs blks → 0 ≤ k → k + 1 < 2 ^ 32 →
  rx_cmd_ok bs (length (rx_chans x)) c → rx_post k x sp c.
Proof.
  intros Hinv Hk0 Hk Hc. destruct x as [b chans cq], sp as [unread arrived]. destruct c; simpl in Hc.
  - by eapply rx_step_kernel.
  - by eapply rx_step_handle.
  - by eapply rx_step_peek.
  - by eapply rx_step_consume.
  - by eapply rx_step_reset.
Qed.

Lemma rx_run_spec cs : ∀ k x sp avail items qs blks,
  rx_inv n bs k x sp avail items qs blks → 0 ≤ k → k + Z.of_nat (length cs) < 2 ^ 32 →
  Forall (rx_cmd_ok bs (length (rx_chans x))) cs →
  ∃ outs x', rx_run x cs = Ok (outs, x') ∧ outs = rx_spec_run sp cs outs ∧ length outs = length cs.
Proof.
  induction cs as [|c cs IH]; intros k x sp avail items qs blks Hinv Hk0 Hk Hcs; simpl.
  { by eexists [], x. }
  apply Forall_cons in Hcs as [Hc Hcs]. cbn [length] in Hk.
  destruct (rx_step_spec _ _ _ _ _ _ _ _ Hinv Hk0 ltac:(lia) Hc)
    as (o & x1 & sp1 & av1 & it1 & qs1 & blks1 & -> & Hsp & Hinv1 & Hl). step. rewrite <- Hl in Hcs.
  destruct (IH (k + 1) _ _ _ _ _ _ Hinv1 ltac:(lia) ltac:(lia) Hcs) as (outs & x' & Hrun & Houts & Hlen).
  rewrite Hrun. step. exists (o :: outs), x'. split; [done|]. rewrite Hsp. simpl. by rewrite <- Houts, Hlen.
Qed.
End spec.
End rx.

(** ** Claims *)
Section claims.
Context {R : Type} {Hlib : BufRingLib R} {Hlaws : BufRingLaws R}.

Definition rx_fresh (b : BufRing R) (s : ReadBufStream) (m : nat) : rx_sys :=
  mkRxSys b (replicate m s) [].

Lemma held_fresh m : held_by (replicate m []) = [].
Proof. by induction m. Qed.

Lemma rx_inv_fresh n bs b s m blks avail :
  br_rep n bs b avail [] [] blks → rs_rep n s blks [] →
  rb_head (rs_base s) = 0 → rb_tail (rs_base s) = 0 →
  rx_inv n bs 0 (rx_fresh b s m) (mkRxSpec (replicate m []) []) avail [] (replicate m []) blks.
Proof.
  intros Hb Hs Hh Ht. split; simpl; rewrite ?length_replicate; try done.
  - by rewrite held_fresh.
  - by intros c d i ?%not_elem_of_nil.
  - intros c s' q u [-> _]%lookup_replicate_1 [-> _]%lookup_replicate_1 [-> _]%lookup_replicate_1.
    split; [done| |simpl; lia|lia]. unfold recv_stream, stream. simpl. apply drop_nil.
Qed.

(** C3. For every run of fewer than [2^32] events, over any number of
    connections that share one provided-buffer ring, the receive path never
    faults and behaves as one byte queue per connection: bytes become readable
    in the order the kernel delivered them to that connection, [peek] shows
    exactly the requested prefix, [consume] drops it, and each succeeds exactly
    when that many bytes are unread. *)
Theorem tcp_recv_refines_byte_queue (junk : nat → byte) (j1 j2 j3 : nat → Z) (j4 next k bs : Z)
    (r : R) (m : nat) (cs : list rx_cmd) :
  0 ≤ k → 0 < bs → 2 ^ k * bs < 2 ^ 31 → io_uring_setup_buf_ring (2 ^ k) next = Some r →
  Z.of_nat (length cs) < 2 ^ 32 → Forall (rx_cmd_ok bs m) cs →
  ∃ b next' s outs x, BufRing_new junk next (2 ^ k) bs = Ok (b, next') ∧
    ReadBufStream_new j1 j2 j3 j4 b = Ok s ∧ rx_run (rx_fresh b s m) cs = Ok (outs, x) ∧
    length outs = length cs ∧ outs = rx_spec_run (mkRxSpec (replicate m []) []) cs outs.
Proof.
  intros Hk Hbs Ht Hset Hlen Hcs.
  destruct (BufRing_new_rep junk next k bs r Hk Hbs Ht Hset) as (b & Hnew & _ & Hb).
  destruct (ReadBufStream_new_rep _ _ j1 j2 j3 j4 _ _ _ _ _ Hb) as (s & Hs & Hr & Hh & Htl).
  destruct (rx_run_spec _ _ cs 0 _ _ _ _ _ _ (rx_inv_fresh _ _ _ _ m _ _ Hb Hr Hh Htl))
    as (outs & x & Hrun & Houts & Hl); [lia|lia|simpl; by rewrite length_replicate|].
  by exists b, (i32 (next + 1)), s, outs, x.
Qed.

(** The loop of [peek] compares the counters with [<]: once [tail_] has
    wrapped past [2^32] and [head_] has not, a peek of readable bytes reports
    success with no piece at all. *)
Theorem peek_after_wrap_is_empty n s (b : BufRing R) blks q size :
  rs_rep n s blks q → rb_tail (rs_base s) < rb_head (rs_base s) →
  0 < size ≤ Z.of_nat (length (recv_stream s blks q)) →
  ∃ s', ReadBufStream_peek s b size = Ok (true, s') ∧ peek_pieces s' = [].
Proof.
  intros [Hs Hrd] Hwrap Hsz. unfold ReadBufStream_peek. rewrite Hrd, (proj2 (Z.ltb_ge _ _)) by lia.
  cbn [peek_loop]. rewrite (proj2 (Z.ltb_ge (rb_head _) _)) by lia. step.
  eexists. split; [done|]. done.
Qed.
End claims.

Definition rx_demo : list rx_cmd :=
  [RxKernel 0 [x01; x02; x03]; RxKernel 1 [x0a]; RxKernel 0 [x04; x05]; RxPeek 0 1; RxHandle; RxHandle;
   RxHandle; RxPeek 0 4; RxConsume 0 2; RxPeek 0 3; RxConsume 1 2; RxKernel 1 [x0b; x0c];
   RxKernel 1 [x0d]; RxHandle; RxConsume 0 3; RxReset 1; RxKernel 0 [x06]; RxHandle; RxPeek 0 1].

Lemma tcp_recv_refines_byte_queue_witness :
  (∃ b next' s outs x, BufRing_new (R := list_ring) (fun _ => x00) 0 (2 ^ 2) 4 = Ok (b, next') ∧
    ReadBufStream_new (fun _ => 0) (fun _ => 0) (fun _ => 0) 0 b = Ok s ∧
    rx_run (rx_fresh b s 2) rx_demo = Ok (outs, x) ∧ length outs = length rx_demo ∧
    outs = rx_spec_run (mkRxSpec (replicate 2 []) []) rx_demo outs) ∧
  ('(b, _) ← BufRing_new (R := list_ring) (fun _ => x00) 0 4 4;
   s ← ReadBufStream_new (fun _ => 0) (fun _ => 0) (fun _ => 0) 0 b;
   '(outs, _) ← rx_run (rx_fresh b s 2) rx_demo; Ok outs) =
  Ok [RxDone true; RxDone true; RxDone true; RxBytes None; RxDone true; RxDone true;
      RxDone true; RxBytes (Some [x01; x02; x03; x04]); RxDone true; RxBytes (Some [x03; x04; x05]);
      RxDone false; RxDone true; RxDone false; RxDone true; RxDone true; RxDone true; RxDone true;
      RxDone true; RxBytes (Some [x06])].
Proof.
  split; [|vm_compute; reflexivity].
  eapply tcp_recv_refines_byte_queue; [lia|lia|lia|reflexivity|simpl; lia|].
  repeat (apply Forall_cons; split; [simpl; first [done|lia|split_and!; (done || lia)]|]). apply Forall_nil. done.
Defined.

(** A connection whose [head_] is the last 32-bit value and whose two queued
    buffers hold three bytes. *)
Definition wrapped_stream : ReadBufStream :=
  mkReadBufStream (mkReadBufBase [1; 0; 0; 0] (2 ^ 32 - 1) 1 3 4 3 [0; 0; 0; 0] [0; 0; 0; 0] 0) 0.
Definition wrapped_blocks : list (list byte) := [[x01; x02]; [x03]; []; []].

Lemma peek_after_wrap_is_empty_witness :
  ∃ s', ReadBufStream_peek wrapped_stream
          (mkBufRing 0 2 [] 4 (mkListRing 4 [] []) 3 [2; 1; 0; 0]) 3 = Ok (true, s') ∧ peek_pieces s' = [].
Proof.
  apply (peek_after_wrap_is_empty 4 _ _ wrapped_blocks [0; 1]); [|simpl; lia|vm_compute; done].
  split; [|reflexivity]. split; try done.
  - split; try done; [by exists 2|]. intros [|[|i]] y [= <-]; reflexivity.
  - by left.
  - intros i Hi. repeat (apply elem_of_cons in Hi as [->|Hi]; [done|]). by apply not_elem_of_nil in Hi.
Defined.
