(* ===== verification/Awaiter.v ===== *)
(** * Awaiter: completion tokens and wake-up tokens

    Models include/core/awaiter.hpp and src/core/awaiter.cpp.  A coroutine
    handle is only tested and exchanged, so it is a boolean; an operation that
    resumes the coroutine returns [true] and its caller runs the coroutine. *)
From S2P Require Import Prelude.

Record Token := mkToken { tk_handle : bool; tk_res : Z; tk_flag : Z }.
Definition Token_new : Token := mkToken false 0 0.
Definition Token_await_suspend (t : Token) : Token := mkToken true (tk_res t) (tk_flag t).
Definition Token_await_resume (t : Token) : Z := tk_res t.

(** Returns whether the coroutine is resumed. *)
Definition Token_complete (t : Token) (res flag : Z) : bool * Token :=
  (tk_handle t, mkToken false res flag).

Record NotifyToken := mkNotifyToken { nt_pending : bool; nt_closed : bool; nt_handle : bool }.
Definition NotifyToken_new : NotifyToken := mkNotifyToken false false false.

Definition NotifyToken_await_ready (t : NotifyToken) : bool * NotifyToken :=
  if nt_pending t then (true, mkNotifyToken false (nt_closed t) (nt_handle t)) else (false, t).
Definition NotifyToken_await_suspend (t : NotifyToken) : NotifyToken :=
  mkNotifyToken (nt_pending t) (nt_closed t) true.

(** Returns whether the coroutine is resumed. *)
Definition NotifyToken_notify (t : NotifyToken) : bool * NotifyToken :=
  if nt_handle t then (true, mkNotifyToken (nt_pending t) (nt_closed t) false)
  else (false, mkNotifyToken true (nt_closed t) false).
Definition NotifyToken_notify_close (t : NotifyToken) : bool * NotifyToken :=
  NotifyToken_notify (mkNotifyToken (nt_pending t) true (nt_handle t)).
Definition NotifyToken_is_closed (t : NotifyToken) : bool := nt_closed t.

(** ** Wake-ups

    A consumer coroutine that alternates between waiting on the token and
    working, and producers that notify it at any time. *)
Inductive waiter := Waiting | Working.

Inductive nt_event :=
  | EvNotify                 (* a producer: notify() or notify_close() *)
  | EvClose
  | EvAwait.                 (* the consumer: co_await the token *)

(** The consumer can only await while it works.  [served] counts the times
    the consumer was let through. *)
Definition nt_step (st : NotifyToken * waiter * nat) (e : nt_event) : NotifyToken * waiter * nat :=
  let '(t, w, served) := st in
  match e with
  | EvNotify | EvClose =>
      let '(resume, t) := (if e is EvClose then NotifyToken_notify_close t else NotifyToken_notify t) in
      (t, if resume then Working else w, if resume then S served else served)
  | EvAwait =>
      match w with
      | Waiting => st
      | Working =>
          let '(ready, t) := NotifyToken_await_ready t in
          if ready then (t, Working, S served) else (NotifyToken_await_suspend t, Waiting, served)
      end
  end.

Definition nt_run := foldl nt_step.

(** The state of the token and the coroutine agree: the handle is held exactly
    while waiting, and nobody waits on a token with a wake-up pending. *)
Definition nt_inv (st : NotifyToken * waiter * nat) : Prop :=
  nt_handle st.1.1 = (if st.1.2 is Waiting then true else false) ∧
  (st.1.2 = Waiting → nt_pending st.1.1 = false).

Lemma nt_step_inv st e : nt_inv st → nt_inv (nt_step st e).
Proof.
  destruct st as [[[p c h] w] n]. unfold nt_inv. simpl. intros [Hh Hp].
  destruct e, w; simpl in *; subst; simpl; try done; try (by rewrite Hp).
  destruct p; done.
Qed.

Lemma nt_run_inv es st : nt_inv st → nt_inv (nt_run st es).
Proof. revert st. induction es as [|e es IH]; intros st H; simpl; [done|]. apply IH. by apply nt_step_inv. Qed.

(** Since a wake-up at count [n]: either the consumer was let through again,
    or it still works and the wake-up is pending. *)
Definition owed (n : nat) (st : NotifyToken * waiter * nat) : Prop :=
  (n < st.2)%nat ∨ (st.2 = n ∧ st.1.2 = Working ∧ nt_pending st.1.1 = true).

Lemma owed_step n st e : nt_inv st → owed n st → owed n (nt_step st e).
Proof.
  destruct st as [[[p c h] w] m]. unfold nt_inv, owed. simpl. intros [Hh Hp] Ho.
  destruct e, w; simpl in *; subst; simpl; try (destruct Ho as [?|(? & ? & ?)]; [left; lia|]; naive_solver lia).
  destruct p; simpl; [left; lia|]. destruct Ho as [?|(? & ? & ?)]; [by left|done].
Qed.

Lemma owed_run n es st : nt_inv st → owed n st → owed n (nt_run st es).
Proof.
  revert st. induction es as [|e es IH]; intros st Hi Ho; simpl; [done|].
  apply IH; [by apply nt_step_inv|by apply owed_step].
Qed.

Lemma notify_owed st e : nt_inv st → e ≠ EvAwait → owed st.2 (nt_step st e).
Proof.
  destruct st as [[[p c h] w] m]. unfold nt_inv, owed. simpl. intros [Hh _] He.
  destruct e, w; simpl in *; subst; simpl; try done; (left; lia) || (right; done).
Qed.

(** C29. A wake-up is never lost: whatever the producers and the coroutine do
    after a [notify] or [notify_close], the coroutine can only be found waiting
    on the token again after it was let through at least once since then. *)
Theorem notify_never_lost es1 e es2 :
  e ≠ EvAwait →
  let st1 := nt_run (NotifyToken_new, Working, 0%nat) es1 in
  let st2 := nt_run st1 (e :: es2) in
  st2.1.2 = Waiting → (st1.2 < st2.2)%nat.
Proof.
  intros He st1 st2 Hw. assert (nt_inv st1) as Hi by (by apply nt_run_inv).
  destruct (owed_run st1.2 es2 (nt_step st1 e)) as [?|(_ & E & _)]; [by apply nt_step_inv|by apply notify_owed|done|].
  change (st2.1.2 = Working) in E. congruence.
Qed.

Lemma notify_never_lost_witness :
  (let st1 := nt_run (NotifyToken_new, Working, 0%nat) [EvAwait; EvNotify] in
   let st2 := nt_run st1 [EvNotify; EvNotify; EvAwait; EvAwait] in (st1.2 < st2.2)%nat) ∧
  (nt_run (NotifyToken_new, Working, 0%nat) [EvAwait; EvNotify; EvNotify; EvNotify; EvAwait; EvAwait]).2 = 2%nat.
Proof.
  split; [|reflexivity].
  apply (notify_never_lost [EvAwait; EvNotify] EvNotify [EvNotify; EvAwait; EvAwait]); [done|reflexivity].
Defined.
