(* ===== verification/MsghdrPool.v ===== *)
(** * MsghdrPool: reusable message headers for sendmsg

    Models include/buffer/msghdr_pool.hpp and src/buffer/msghdr_pool.cpp.  A
    pointer to a slot is its index in [slots_], a pointer into [iovecs_] its
    offset.  The pool is a FIFO of clean slots. *)
From S2P Require Import Prelude Ring BufPool.

(** sizeof(sockaddr_storage). *)
Definition sockaddr_storage_size : Z := 128.

Record MsghdrSlot := mkMsghdrSlot {
  ms_channel : bool;               (* token_.channel_ is set *)
  ms_msg_name : option Z;          (* the slot whose [addr] hdr.msg_name points to *)
  ms_msg_namelen : Z;
  ms_msg_iov : option Z;           (* hdr.msg_iov *)
  ms_msg_iovlen : Z;
  ms_addr : list byte;
  ms_iov : Z
}.

Record MsghdrPool := mkMsghdrPool {
  mp_capacity : Z;
  mp_mask : Z;
  mp_max_iov : Z;
  mp_slots : list MsghdrSlot;
  mp_iovecs : list (Z * Z);
  mp_pool : list Z;
  mp_head : Z;
  mp_tail : Z
}.

Definition mp_with_slots (m : MsghdrPool) s : MsghdrPool :=
  mkMsghdrPool (mp_capacity m) (mp_mask m) (mp_max_iov m) s (mp_iovecs m) (mp_pool m) (mp_head m) (mp_tail m).
Definition mp_with_iovecs (m : MsghdrPool) v : MsghdrPool :=
  mkMsghdrPool (mp_capacity m) (mp_mask m) (mp_max_iov m) (mp_slots m) v (mp_pool m) (mp_head m) (mp_tail m).
Definition mp_with_pool (m : MsghdrPool) q h t : MsghdrPool :=
  mkMsghdrPool (mp_capacity m) (mp_mask m) (mp_max_iov m) (mp_slots m) (mp_iovecs m) q h t.

(** The header and address fields after the two [memset]s and assignments that
    the constructor and [release] share. *)
Definition slot_clear (slot : Z) (s : MsghdrSlot) : MsghdrSlot :=
  mkMsghdrSlot (ms_channel s) (Some slot) sockaddr_storage_size None 0
    (replicate (Z.to_nat sockaddr_storage_size) x00) (ms_iov s).

(** [memset(&v[o], 0, n * sizeof(iovec))]. *)
Definition clear_iovecs (v : list (Z * Z)) (o n : Z) : result (list (Z * Z)) :=
  if (0 <=? o) && (0 <=? n) && (o + n <=? Z.of_nat (length v))
  then Ok (take (Z.to_nat o) v ++ replicate (Z.to_nat n) (0, 0) ++ drop (Z.to_nat (o + n)) v)
  else Fault OutOfBounds.

(** One iteration of the constructor's loop. *)
Definition init_slot (i : Z) (m : MsghdrPool) : result MsghdrPool :=
  s ← arr_get (mp_slots m) i;
  let s := slot_clear i (mkMsghdrSlot false None 0 None 0 [] (ms_iov s)) in
  o ← int_of (i * mp_max_iov m);
  sl ← arr_set (mp_slots m) i
         (mkMsghdrSlot (ms_channel s) (ms_msg_name s) (ms_msg_namelen s) (ms_msg_iov s)
            (ms_msg_iovlen s) (ms_addr s) o);
  q ← arr_set (mp_pool m) i i;
  Ok (mp_with_pool (mp_with_slots m sl) q (mp_head m) (mp_tail m)).

Definition MsghdrPool_new (js : nat → MsghdrSlot) (jv : nat → Z * Z) (jp : nat → Z)
    (capacity max_iov : Z) : result MsghdrPool :=
  mask ← int_of (capacity - 1);
  total ← int_of (capacity * max_iov);
  if (capacity <? 0) || (total <? 0) then Fault Exception else
  assert_ (pow2_test capacity);;
  assert_ (0 <? max_iov);;
  v ← clear_iovecs (new_array total jv) 0 total;
  let m := mkMsghdrPool capacity mask max_iov (new_array capacity js) v (new_array capacity jp) 0 0 in
  m ← for_up (Z.to_nat capacity) 0 init_slot m;
  Ok (mp_with_pool m (mp_pool m) (mp_head m) (u32 capacity)).

Definition MsghdrPool_acquire (m : MsghdrPool) : result (option Z * MsghdrPool) :=
  if mp_head m =? mp_tail m then Ok (None, m) else
  slot ← arr_get (mp_pool m) (Z.land (mp_head m) (mp_mask m));
  Ok (Some slot, mp_with_pool m (mp_pool m) (u32 (mp_head m + 1)) (mp_tail m)).

Definition MsghdrPool_release (m : MsghdrPool) (slot : Z) : result MsghdrPool :=
  assert_ (u32 (mp_tail m - mp_head m) <? u32 (mp_capacity m));;
  s ← arr_get (mp_slots m) slot;
  sl ← arr_set (mp_slots m) slot (slot_clear slot s);
  v ← clear_iovecs (mp_iovecs m) (ms_iov s) (mp_max_iov m);
  q ← arr_set (mp_pool m) (Z.land (mp_tail m) (mp_mask m)) slot;
  Ok (mp_with_pool (mp_with_iovecs (mp_with_slots m sl) v) q (mp_head m) (u32 (mp_tail m + 1))).

(** ** The abstraction *)
Definition slot_clean (mi i : Z) (s : MsghdrSlot) : Prop :=
  ms_msg_name s = Some i ∧ ms_msg_namelen s = sockaddr_storage_size ∧ ms_msg_iov s = None ∧
  ms_msg_iovlen s = 0 ∧ ms_addr s = replicate (Z.to_nat sockaddr_storage_size) x00.

#[local] Set Implicit Arguments.
Record mp_rep (cap mi : Z) (m : MsghdrPool) (free : list Z) : Prop := {
  mpr_cap : mp_capacity m = cap;
  mpr_mask : mp_mask m = cap - 1;
  mpr_mi : mp_max_iov m = mi;
  mpr_pos : 0 < mi;
  mpr_total : cap * mi < 2 ^ 31;
  mpr_ring : ring_ok 32 (mp_pool m) (mp_mask m) (mp_head m) (mp_tail m) free;
  mpr_slots : Z.of_nat (length (mp_slots m)) = cap;
  mpr_iovecs : Z.of_nat (length (mp_iovecs m)) = cap * mi;
  mpr_iov (i : nat) s : mp_slots m !! i = Some s → ms_iov s = Z.of_nat i * mi ∧
    Z.of_nat (length (ms_addr s)) = sockaddr_storage_size ∧ ms_msg_name s = Some (Z.of_nat i);
  mpr_clean i : i ∈ free → 0 ≤ i < cap ∧ ∃ s, mp_slots m !! Z.to_nat i = Some s ∧ slot_clean mi i s;
  mpr_nodup : NoDup free
}.
#[local] Unset Implicit Arguments.
Arguments mpr_clean {_ _ _ _} _ _.

Section spec.
Context (cap mi : Z).

Lemma mp_cap_pos m free : mp_rep cap mi m free → 0 < cap < 2 ^ 31.
Proof.
  intros H. destruct (rk_pow (mpr_ring H)) as (k & Hk & E & _).
  rewrite (mpr_mask H) in E. pose proof (mpr_pos H). pose proof (mpr_total H).
  assert (0 < 2 ^ k) by lia. nia.
Qed.

Lemma mp_acquire_none m : mp_rep cap mi m [] → MsghdrPool_acquire m = Ok (None, m).
Proof.
  intros H. unfold MsghdrPool_acquire. by rewrite (ring_eqb _ _ _ _ _ _ (mpr_ring H)).
Qed.

Lemma mp_acquire_some m i free :
  mp_rep cap mi m (i :: free) →
  ∃ m', MsghdrPool_acquire m = Ok (Some i, m') ∧ mp_rep cap mi m' free ∧
    mp_slots m' = mp_slots m ∧ mp_iovecs m' = mp_iovecs m.
Proof.
  intros H. unfold MsghdrPool_acquire. pose proof (mpr_ring H) as Hr.
  rewrite (ring_eqb _ _ _ _ _ _ Hr), bool_decide_false by done.
  rewrite (ring_first _ _ _ _ _ _ _ Hr). step. eexists. split; [done|]. split; [|done].
  split; simpl; try apply H; [exact (ring_pop _ _ _ _ _ _ _ Hr)| |].
  - intros j Hj. apply H. by right.
  - pose proof (mpr_nodup H) as Hnd. by apply NoDup_cons in Hnd as [_ ?].
Qed.

Lemma clear_iovecs_ok (v : list (Z * Z)) o n : 0 ≤ o → 0 ≤ n → o + n ≤ Z.of_nat (length v) →
  ∃ v', clear_iovecs v o n = Ok v' ∧ length v' = length v ∧
    ∀ j, (j < Z.to_nat o ∨ Z.to_nat (o + n) ≤ j)%nat → v' !! j = v !! j.
Proof.
  intros Ho Hn Hl. unfold clear_iovecs. rewrite !(proj2 (Z.leb_le _ _)) by lia. simpl.
  eexists. split; [done|]. split; [len|]. intros j [Hj|Hj].
  - rewrite lookup_app_l by len. by apply lookup_take_lt.
  - rewrite lookup_app_r by len. rewrite lookup_app_r by len. rewrite lookup_drop. f_equal. len.
Qed.

(** A released slot is clean again; the headers and vectors of the other slots
    are untouched. *)
Lemma mp_release m free i :
  mp_rep cap mi m free → 0 ≤ i < cap → i ∉ free →
  ∃ m', MsghdrPool_release m i = Ok m' ∧ mp_rep cap mi m' (free ++ [i]) ∧
    (∀ j, 0 ≤ j → j ≠ i → mp_slots m' !! Z.to_nat j = mp_slots m !! Z.to_nat j) ∧
    (∀ j k, 0 ≤ j → j ≠ i → 0 ≤ k < mi →
       mp_iovecs m' !! Z.to_nat (j * mi + k) = mp_iovecs m !! Z.to_nat (j * mi + k)).
Proof.
  intros H Hi Hni. pose proof (mp_cap_pos _ _ H) as Hcap.
  assert (Hroom : Z.of_nat (length free) < cap).
  { assert (i :: free ⊆+ seqZ 0 cap) as Hs%submseteq_length.
    { apply NoDup_submseteq; [constructor; [done|apply H]|]. intros j [->|Hj]%elem_of_cons; apply elem_of_seqZ; [lia|].
      destruct (mpr_clean H j Hj). lia. }
    rewrite length_seqZ in Hs. simpl in Hs. lia. }
  pose proof H as [Ec Em Ei Hpos Htot Hr Hsl Hiv Hiov Hcl Hnd].
  unfold MsghdrPool_release. rewrite Ec. replace (u32 (mp_tail m - mp_head m)) with (Z.of_nat (length free)) by apply Hr.
  rewrite (u32_small cap), (proj2 (Z.ltb_lt _ _)) by lia. step.
  destruct (lookup_lt_is_Some_2 (mp_slots m) (Z.to_nat i)) as [s Hs]; [lia|].
  rewrite (arr_get_ok _ i _ ltac:(lia) Hs). step. rewrite (arr_set_ok (mp_slots m)) by lia. step.
  destruct (Hiov _ _ Hs) as (Eo & Hal & Hnm). rewrite Z2Nat.id in Eo by lia. rewrite Eo, Ei.
  destruct (clear_iovecs_ok (mp_iovecs m) (i * mi) mi) as (v' & -> & Hvl & Hv); [nia..|]. step.
  destruct (ring_push _ _ _ _ _ _ i Hr) as (q & -> & _ & Hr'); [lia|]. step.
  eexists. split; [done|]. split; [|split].
  - split; simpl; rewrite ?length_insert, ?Hvl; try done.
    + intros j s'. rewrite list_lookup_insert. case_decide as Hj.
      * destruct Hj as [<- _]. intros [= <-]. simpl. rewrite Z2Nat.id by lia. by split_and!.
      * apply Hiov.
    + intros j [Hj| ->%list_elem_of_singleton]%elem_of_app.
      * destruct (Hcl j Hj) as [? (s' & ? & ?)]. split; [done|]. exists s'. split; [|done].
        rewrite list_lookup_insert_ne; [done|]. intros E. apply Hni. by replace i with j by lia.
      * split; [lia|]. eexists. rewrite list_lookup_insert_eq by lia. split; [done|]. done.
    + apply NoDup_app. split_and!; [done| |apply NoDup_singleton]. by intros j Hj ->%list_elem_of_singleton.
  - intros j Hj Hne. simpl. rewrite list_lookup_insert_ne by lia. done.
  - intros j k Hj Hne Hk. simpl. apply Hv. destruct (decide (j < i)); [left|right]; nia.
Qed.
End spec.

(** *** The constructor *)
Lemma MsghdrPool_new_rep js jv jp k mi :
  0 ≤ k → 0 < mi → 2 ^ k * mi < 2 ^ 31 →
  ∃ m, MsghdrPool_new js jv jp (2 ^ k) mi = Ok m ∧ mp_rep (2 ^ k) mi m (seqZ 0 (2 ^ k)).
Proof.
  intros Hk Hmi Ht. assert (0 < 2 ^ k) by lia. assert (2 ^ k < 2 ^ 31) by nia.
  assert (k < 31) by (apply (Z.pow_lt_mono_r_iff 2); lia).
  unfold MsghdrPool_new. rewrite !int_of_ok by nia. step.
  rewrite (proj2 (Z.ltb_ge _ _)), (proj2 (Z.ltb_ge _ _)) by nia. step.
  rewrite (proj2 (pow2_test_spec (2 ^ k))) by eauto. step. rewrite (proj2 (Z.ltb_lt _ _)) by lia. step.
  destruct (clear_iovecs_ok (new_array (2 ^ k * mi) jv) 0 (2 ^ k * mi)) as (v & -> & Hv & _); [lia|nia|len|].
  step. rewrite length_new_array in Hv. set (m0 := mkMsghdrPool _ _ _ _ _ _ _ _).
  destruct (for_up_inv (fun i m => ∃ sl q, m = mp_with_pool (mp_with_slots m0 sl) q 0 0 ∧
      Z.of_nat (length sl) = 2 ^ k ∧ Z.of_nat (length q) = 2 ^ k ∧
      (∀ j : nat, Z.of_nat j < i → q !! j = Some (Z.of_nat j)) ∧
      (∀ j : nat, Z.of_nat j < i → ∃ s, sl !! j = Some s ∧ ms_iov s = Z.of_nat j * mi ∧ slot_clean mi (Z.of_nat j) s))
    init_slot (Z.to_nat (2 ^ k)) 0 m0)
    as (m1 & Hrun & sl & q & -> & Hsl & Hq & Hqj & Hslj).
  { exists (new_array (2 ^ k) js), (new_array (2 ^ k) jp). split; [done|]. split_and!; [len..|lia|lia]. }
  { intros i m Hi (sl & q & -> & Hsl & Hq & Hqj & Hslj). unfold init_slot. simpl.
    destruct (lookup_lt_is_Some_2 sl (Z.to_nat i)) as [s Hs]; [lia|].
    rewrite (arr_get_ok _ i _ ltac:(lia) Hs). step. rewrite int_of_ok by nia. step.
    rewrite (arr_set_ok sl) by lia. step. rewrite arr_set_ok by lia. step.
    eexists. split; [done|]. eexists (<[Z.to_nat i := _]> sl), (<[Z.to_nat i := i]> q). split; [done|]. rewrite !length_insert. split_and!; [lia|lia| |].
    - intros j Hj. rewrite list_lookup_insert. case_decide; [f_equal; lia|]. apply Hqj. lia.
    - intros j Hj. rewrite list_lookup_insert. case_decide as E.
      + destruct E as [<- _]. eexists. split; [done|]. unfold slot_clean. simpl. rewrite Z2Nat.id by lia. by split_and!.
      + apply Hslj. lia. }
  rewrite Hrun. step. rewrite u32_small by lia. eexists. split; [done|].
  split; simpl; try done; try lia.
  - split; try lia.
    + exists k. split_and!; [lia..|done].
    + rewrite length_seqZ, Z.sub_0_r, Z.mod_small by lia. lia.
    + rewrite length_seqZ. lia.
    + intros i x [-> Hi]%lookup_seqZ. rewrite !Z.add_0_l, land_mask by lia.
      rewrite Z.mod_small by lia. rewrite Nat2Z.id. apply Hqj. lia.
  - intros j s Hs. pose proof (lookup_lt_Some _ _ _ Hs). destruct (Hslj j) as (s' & Hs' & E & Hc); [lia|].
    simplify_eq. destruct Hc as (? & ? & ? & ? & Ea). split_and!; [done| |done]. by rewrite Ea.
  - intros i Hi%elem_of_seqZ. split; [lia|]. destruct (Hslj (Z.to_nat i)) as (s & Hs & _ & Hc); [lia|].
    rewrite Z2Nat.id in Hc by lia. eauto.
  - apply NoDup_seqZ.
Qed.
