(* ===== verification/UdpSend.v ===== *)
(** * UdpSend: datagram transmission

    Models class WriteBufDgram (include/buffer/buffer.hpp lines 115-132,
    src/buffer/buffer.cpp lines 251-300), [UdpChannel::submit]
    (include/net/channel.hpp lines 98-123), [udp_write_loop]
    (src/net/handler.cpp lines 102-119) and [MsgToken::complete]
    (src/core/awaiter.cpp lines 27-32): pending blocks become the vector of a
    message header, the header is queued, submitted to the kernel and recycled
    with its blocks when the send completes. *)
From S2P Require Import Prelude Ring BufPool WriteBuf WriteBufStream Awaiter MsghdrPool.

(** ** WriteBufDgram *)
Record WriteBufDgram := mkWriteBufDgram {
  wd_base : WriteBufBase;
  wd_slot_queue : list Z;
  wd_msghdr_head : Z;
  wd_msghdr_tail : Z;
  wd_max_iov : Z
}.

Definition wd_with_base (w : WriteBufDgram) b : WriteBufDgram :=
  mkWriteBufDgram b (wd_slot_queue w) (wd_msghdr_head w) (wd_msghdr_tail w) (wd_max_iov w).
Definition wd_with_queue (w : WriteBufDgram) q h t : WriteBufDgram :=
  mkWriteBufDgram (wd_base w) q h t (wd_max_iov w).

Definition WriteBufDgram_new (j1 j2 j3 : nat → Z) (mp : MsghdrPool) (capacity : Z)
    : result WriteBufDgram :=
  b ← WriteBufBase_new j1 j2 capacity;
  Ok (mkWriteBufDgram b (new_array capacity j3) 0 0 (mp_max_iov mp)).

Definition set_slot (mp : MsghdrPool) (slot : Z) (f : MsghdrSlot → MsghdrSlot) : result MsghdrPool :=
  s ← arr_get (mp_slots mp) slot;
  sl ← arr_set (mp_slots mp) slot (f s);
  Ok (mp_with_slots mp sl).

(** The loop of [submit]: pending blocks become entries of [slot->iov]. *)
Fixpoint submit_iovs (fuel : nat) (b : WriteBufBase) (p : BufPool) (iovs : list (Z * Z))
    (iov iov_count : Z) : result (WriteBufBase * list (Z * Z) * Z) :=
  if wb_pending_head b =? wb_pending_tail b then Ok (b, iovs, iov_count) else
  match fuel with
  | O => Fault OutOfFuel
  | S fuel =>
      idx ← arr_get (wb_pending_bufs b) (Z.land (wb_pending_head b) (wb_mask b));
      dsz ← BufPool_get_data_size p idx;
      iovs ← arr_set iovs (iov + iov_count) (BufPool_buf_addr p idx, dsz);
      submit_iovs fuel
        (wb_with_pending b (wb_pending_bufs b) (u64 (wb_pending_head b + 1)) (wb_pending_tail b))
        p iovs iov (iov_count + 1)
  end.

Definition WriteBufDgram_submit (w : WriteBufDgram) (p : BufPool) (mp : MsghdrPool) (slot : option Z)
    : result (bool * WriteBufDgram * MsghdrPool) :=
  let b := wd_base w in
  let pending_count := u64 (wb_pending_tail b - wb_pending_head b) in
  if pending_count =? 0 then Ok (false, w, mp) else
  if u64 (wb_capacity b) <=? u64 (wd_msghdr_tail w - wd_msghdr_head w) then Ok (false, w, mp) else
  match slot with
  | None => Ok (false, w, mp)
  | Some slot =>
      if u64 (wd_max_iov w) <? pending_count then Ok (false, w, mp) else
      s ← arr_get (mp_slots mp) slot;
      '(b, iovs, iov_count) ← submit_iovs (S (Z.to_nat (wb_capacity b))) b p (mp_iovecs mp) (ms_iov s) 0;
      mp ← set_slot (mp_with_iovecs mp iovs) slot (fun s =>
             mkMsghdrSlot (ms_channel s) (ms_msg_name s) (ms_msg_namelen s) (Some (ms_iov s)) iov_count
               (ms_addr s) (ms_iov s));
      q ← arr_set (wd_slot_queue w) (Z.land (wd_msghdr_tail w) (wb_mask b)) slot;
      Ok (true, wd_with_queue (wd_with_base w b) q (wd_msghdr_head w) (u64 (wd_msghdr_tail w + 1)), mp)
  end.

Definition WriteBufDgram_peek_slot (w : WriteBufDgram) (offset : Z) : result (option Z) :=
  if (offset <? 0) || (u64 (wd_msghdr_tail w - wd_msghdr_head w) <=? u64 offset) then Ok None else
  slot ← arr_get (wd_slot_queue w) (Z.land (u64 (wd_msghdr_head w + u64 offset)) (wb_mask (wd_base w)));
  Ok (Some slot).

Definition WriteBufDgram_release_slot (p : BufPool) (mp : MsghdrPool) (slot : Z)
    : result (BufPool * MsghdrPool) :=
  s ← arr_get (mp_slots mp) slot;
  p ← for_up (Z.to_nat (ms_msg_iovlen s)) 0 (fun i p =>
        e ← arr_get (mp_iovecs mp) (ms_iov s + i); BufPool_release_buf p e.1) p;
  mp ← MsghdrPool_release mp slot;
  Ok (p, mp).

Definition WriteBufDgram_clear_slot_queue (w : WriteBufDgram) : WriteBufDgram :=
  wd_with_queue w (wd_slot_queue w) (wd_msghdr_tail w) (wd_msghdr_tail w).
Definition WriteBufDgram_slot_queue_size (w : WriteBufDgram) : Z :=
  i32 (wd_msghdr_tail w - wd_msghdr_head w).

(** ** The channel, its write coroutine and the submission queue *)
Record UdpTx := mkUdpTx {
  ut_write_buf : WriteBufDgram;
  ut_pool : BufPool;
  ut_msghdr : MsghdrPool;
  ut_notify : NotifyToken;
  ut_alive : bool;                (* the write coroutine has not ended *)
  ut_depth : Z;                   (* entries of the submission queue *)
  ut_sq : list Z;                 (* slots of the prepared sendmsg entries *)
  ut_flight : list Z              (* slots the kernel is sending *)
}.

Definition ut_with_buf (u : UdpTx) w : UdpTx :=
  mkUdpTx w (ut_pool u) (ut_msghdr u) (ut_notify u) (ut_alive u) (ut_depth u) (ut_sq u) (ut_flight u).
Definition ut_with_pools (u : UdpTx) p m : UdpTx :=
  mkUdpTx (ut_write_buf u) p m (ut_notify u) (ut_alive u) (ut_depth u) (ut_sq u) (ut_flight u).
Definition ut_with_notify (u : UdpTx) t : UdpTx :=
  mkUdpTx (ut_write_buf u) (ut_pool u) (ut_msghdr u) t (ut_alive u) (ut_depth u) (ut_sq u) (ut_flight u).
Definition ut_with_sq (u : UdpTx) q f : UdpTx :=
  mkUdpTx (ut_write_buf u) (ut_pool u) (ut_msghdr u) (ut_notify u) (ut_alive u) (ut_depth u) q f.
(** An exception leaves the coroutine at its final suspend point. *)
Definition ut_die (u : UdpTx) : UdpTx :=
  mkUdpTx (ut_write_buf u) (ut_pool u) (ut_msghdr u) (ut_notify u) false (ut_depth u) (ut_sq u) (ut_flight u).

(** One round of the send loop from index [i] on: [false] if [get_sqe] threw. *)
Fixpoint udp_send_slots (count : nat) (i : Z) (u : UdpTx) : result (bool * UdpTx) :=
  match count with
  | O => Ok (true, u)
  | S count =>
      slot ← WriteBufDgram_peek_slot (ut_write_buf u) i;
      match slot with
      | None => Fault NullDereference
      | Some slot =>
          mp ← set_slot (ut_msghdr u) slot (fun s =>
                 mkMsghdrSlot true (ms_msg_name s) (ms_msg_namelen s) (ms_msg_iov s) (ms_msg_iovlen s)
                   (ms_addr s) (ms_iov s));
          let u := ut_with_pools u (ut_pool u) mp in
          if ut_depth u <=? Z.of_nat (length (ut_sq u)) then Ok (false, u) else
          udp_send_slots count (i + 1) (ut_with_sq u (ut_sq u ++ [slot]) (ut_flight u))
      end
  end.

(** [udp_write_loop] from the point where [co_await notify_token_] returns to
    the next suspension. *)
Fixpoint udp_write_resume (fuel : nat) (u : UdpTx) : result UdpTx :=
  match fuel with
  | O => Fault OutOfFuel
  | S fuel =>
      '(ok, u) ← udp_send_slots (Z.to_nat (WriteBufDgram_slot_queue_size (ut_write_buf u))) 0 u;
      if negb ok then Ok (ut_die u) else
      let u := ut_with_buf u (WriteBufDgram_clear_slot_queue (ut_write_buf u)) in
      let '(ready, t) := NotifyToken_await_ready (ut_notify u) in
      let u := ut_with_notify u t in
      if ready : bool then udp_write_resume fuel u
      else Ok (ut_with_notify u (NotifyToken_await_suspend (ut_notify u)))
  end.

Definition UdpChannel_notify (u : UdpTx) : result UdpTx :=
  let '(resume, t) := NotifyToken_notify (ut_notify u) in
  let u := ut_with_notify u t in
  if resume : bool then udp_write_resume 2 u else Ok u.

Definition UdpChannel_discard (u : UdpTx) : result UdpTx :=
  '(b, p) ← WriteBufBase_discard_pending (wd_base (ut_write_buf u)) (ut_pool u);
  Ok (ut_with_pools (ut_with_buf u (wd_with_base (ut_write_buf u) b)) p (ut_msghdr u)).

(** [submit(const sockaddr *addr, socklen_t namelen)], [addr] being the
    [namelen] bytes of the address. *)
Definition UdpChannel_submit (u : UdpTx) (addr : list byte) : result (bool * UdpTx) :=
  '(slot, mp) ← MsghdrPool_acquire (ut_msghdr u);
  let u := ut_with_pools u (ut_pool u) mp in
  match slot with
  | None => u ← UdpChannel_discard u; Ok (false, u)
  | Some slot =>
      s ← arr_get (mp_slots (ut_msghdr u)) slot;
      a ← mem_write (ms_addr s) 0 addr;
      mp ← set_slot (ut_msghdr u) slot (fun s =>
             mkMsghdrSlot (ms_channel s) (ms_msg_name s) (Z.of_nat (length addr)) (ms_msg_iov s)
               (ms_msg_iovlen s) a (ms_iov s));
      '(ok, w, mp) ← WriteBufDgram_submit (ut_write_buf u) (ut_pool u) mp (Some slot);
      let u := ut_with_pools (ut_with_buf u w) (ut_pool u) mp in
      if ok : bool then u ← UdpChannel_notify u; Ok (true, u)
      else
        '(p, mp) ← WriteBufDgram_release_slot (ut_pool u) (ut_msghdr u) slot;
        u ← UdpChannel_discard (ut_with_pools u p mp);
        Ok (false, u)
  end.

(** [submit(const IpAddress &)]: it notifies a second time. *)
Definition UdpChannel_submit_ip (u : UdpTx) (addr : list byte) : result (bool * UdpTx) :=
  '(ok, u) ← UdpChannel_submit u addr;
  if ok : bool then u ← UdpChannel_notify u; Ok (true, u) else Ok (false, u).

Definition UdpChannel_append (u : UdpTx) (d : list byte) : result (bool * UdpTx) :=
  '(ok, b, p) ← WriteBufBase_append (wd_base (ut_write_buf u)) (ut_pool u) d (Z.of_nat (length d));
  Ok (ok, ut_with_pools (ut_with_buf u (wd_with_base (ut_write_buf u) b)) p (ut_msghdr u)).
Definition UdpChannel_prepend (u : UdpTx) (d : list byte) : result (bool * UdpTx) :=
  '(ok, b, p) ← WriteBufBase_prepend (wd_base (ut_write_buf u)) (ut_pool u) d (Z.of_nat (length d));
  Ok (ok, ut_with_pools (ut_with_buf u (wd_with_base (ut_write_buf u) b)) p (ut_msghdr u)).

(** [MsgToken::complete]; the server's [on_write] is up to the application. *)
Definition MsgToken_complete (u : UdpTx) (slot : Z) : result UdpTx :=
  s ← arr_get (mp_slots (ut_msghdr u)) slot;
  if negb (ms_channel s) then Fault NullDereference else
  '(p, mp) ← WriteBufDgram_release_slot (ut_pool u) (ut_msghdr u) slot;
  Ok (ut_with_pools u p mp).

(** ** Traces and their specification *)

(** A datagram: destination address and payload. *)
Definition dgram : Type := list byte * list byte.

(** What the kernel transmits for a message header. *)
Definition kernel_sendmsg (p : BufPool) (mp : MsghdrPool) (slot : Z) : result dgram :=
  s ← arr_get (mp_slots mp) slot;
  match ms_msg_name s, ms_msg_iov s with
  | Some j, Some o =>
      sj ← arr_get (mp_slots mp) j;
      Ok (take (Z.to_nat (ms_msg_namelen s)) (ms_addr sj),
          gather (bp_bufs p) (take (Z.to_nat (ms_msg_iovlen s)) (drop (Z.to_nat o) (mp_iovecs mp))))
  | _, _ => Fault NullDereference
  end.

Inductive udp_cmd :=
  | UAppend (d : list byte)
  | UPrepend (d : list byte)
  | USubmit (addr : list byte)
  | USubmitIp (addr : list byte)
  | UEnter                        (* the loop submits the queue to the kernel *)
  | UComplete (j : nat).          (* the j-th send in flight completes *)

(** A step returns the operation's result and the datagram that left. *)
Definition udp_step (u : UdpTx) (c : udp_cmd) : result (bool * option dgram * UdpTx) :=
  match c with
  | UAppend d => '(ok, u) ← UdpChannel_append u d; Ok (ok, None, u)
  | UPrepend d => '(ok, u) ← UdpChannel_prepend u d; Ok (ok, None, u)
  | USubmit a => '(ok, u) ← UdpChannel_submit u a; Ok (ok, None, u)
  | USubmitIp a => '(ok, u) ← UdpChannel_submit_ip u a; Ok (ok, None, u)
  | UEnter => Ok (true, None, ut_with_sq u [] (ut_flight u ++ ut_sq u))
  | UComplete j =>
      match ut_flight u !! j with
      | None => Ok (false, None, u)
      | Some slot =>
          d ← kernel_sendmsg (ut_pool u) (ut_msghdr u) slot;
          u ← MsgToken_complete (ut_with_sq u (ut_sq u) (delete j (ut_flight u))) slot;
          Ok (true, Some d, u)
      end
  end.

Fixpoint udp_run (u : UdpTx) (cs : list udp_cmd) : result (list bool * list dgram * UdpTx) :=
  match cs with
  | [] => Ok ([], [], u)
  | c :: cs =>
      '(ok, d, u) ← udp_step u c;
      '(oks, ds, u) ← udp_run u cs;
      Ok (ok :: oks, option_list d ++ ds, u)
  end.

Record udp_spec := mkUdpSpec { us_pend : list byte; us_sq : list dgram; us_flight : list dgram }.
Definition udp_spec_0 : udp_spec := mkUdpSpec [] [] [].

(** A failed submit drops what was appended for the datagram. *)
Definition udp_spec_step (sp : udp_spec) (c : udp_cmd) (ok : bool) : option dgram * udp_spec :=
  let '(mkUdpSpec pend sq flight) := sp in
  match c with
  | UAppend d => (None, if ok then mkUdpSpec (pend ++ d) sq flight else sp)
  | UPrepend d => (None, if ok then mkUdpSpec (d ++ pend) sq flight else sp)
  | USubmit a | USubmitIp a =>
      (None, if ok then mkUdpSpec [] (sq ++ [(a, pend)]) flight else mkUdpSpec [] sq flight)
  | UEnter => (None, mkUdpSpec pend [] (flight ++ sq))
  | UComplete j => (flight !! j, mkUdpSpec pend sq (delete j flight))
  end.

Fixpoint udp_spec_run (sp : udp_spec) (cs : list udp_cmd) (oks : list bool) : list dgram :=
  match cs, oks with
  | c :: cs, ok :: oks =>
      let '(d, sp) := udp_spec_step sp c ok in option_list d ++ udp_spec_run sp cs oks
  | _, _ => []
  end.

(** ** The invariant *)

(** A busy slot: its index, its blocks, its datagram. *)
Record busy := mkBusy { bu_slot : Z; bu_blocks : list Z; bu_dgram : dgram }.

Record slot_holds (mi bs : Z) (blks : list (list byte)) (slots : list MsghdrSlot) (iovecs : list (Z * Z))
    (sent : bool) (e : busy) : Prop := {
  sh_slot : ∃ a, slots !! Z.to_nat (bu_slot e) =
    Some (mkMsghdrSlot sent (Some (bu_slot e)) (Z.of_nat (length (bu_dgram e).1))
            (Some (bu_slot e * mi)) (Z.of_nat (length (bu_blocks e))) a (bu_slot e * mi)) ∧
    take (length (bu_dgram e).1) a = (bu_dgram e).1;
  sh_len : bu_blocks e ≠ [] ∧ Z.of_nat (length (bu_blocks e)) ≤ mi;
  sh_iov (k : nat) x : bu_blocks e !! k = Some x →
    iovecs !! Z.to_nat (bu_slot e * mi + Z.of_nat k) = Some (x * bs, Z.of_nat (length (blk blks x)));
  sh_bytes : stream blks (bu_blocks e) = (bu_dgram e).2
}.

Definition busy_blocks (l : list busy) : list Z := l ≫= bu_blocks.

#[local] Set Implicit Arguments.
Record udp_inv (n bs cap mcap mi : Z) (u : UdpTx) (sp : udp_spec) (pend free mfree : list Z)
    (sqb flb : list busy) (blks : list (list byte)) : Prop := {
  ui_wbp : wbp n bs cap (wd_base (ut_write_buf u)) (ut_pool u) pend [] (busy_blocks (sqb ++ flb)) free blks;
  ui_mi : wd_max_iov (ut_write_buf u) = mi;
  ui_mp : mp_rep mcap mi (ut_msghdr u) mfree;
  ui_slots : mfree ++ (bu_slot <$> sqb ++ flb) ≡ₚ seqZ 0 mcap;
  ui_queue : ring_ok 64 (wd_slot_queue (ut_write_buf u)) (cap - 1)
    (wd_msghdr_head (ut_write_buf u)) (wd_msghdr_tail (ut_write_buf u)) [];
  ui_notify : ut_notify u = mkNotifyToken false false true;
  ui_alive : ut_alive u = true;
  ui_sq : ut_sq u = bu_slot <$> sqb;
  ui_flight : ut_flight u = bu_slot <$> flb;
  ui_busy e : e ∈ sqb ++ flb →
    slot_holds mi bs blks (mp_slots (ut_msghdr u)) (mp_iovecs (ut_msghdr u)) true e;
  ui_pend : stream blks pend = us_pend sp;
  ui_sp_sq : us_sq sp = bu_dgram <$> sqb;
  ui_sp_flight : us_flight sp = bu_dgram <$> flb
}.
#[local] Unset Implicit Arguments.
Arguments ui_busy {_ _ _ _ _ _ _ _ _ _ _ _ _} _ _.

Section spec.
Context (n bs cap mcap mi : Z).

Lemma submit_iovs_spec fuel : ∀ b p pend send free blks iovs iov c,
  wb_rep cap b pend send → pool_rep n bs p free blks → (∀ x, x ∈ pend → 0 ≤ x < n) →
  0 ≤ iov + c → iov + c + Z.of_nat (length pend) ≤ Z.of_nat (length iovs) → (length pend ≤ fuel)%nat →
  ∃ b' iovs', submit_iovs fuel b p iovs iov c = Ok (b', iovs', c + Z.of_nat (length pend)) ∧
    wb_rep cap b' [] send ∧ wb_mask b' = wb_mask b ∧ length iovs' = length iovs ∧
    (∀ (k : nat) x, pend !! k = Some x →
       iovs' !! Z.to_nat (iov + c + Z.of_nat k) = Some (x * bs, Z.of_nat (length (blk blks x)))) ∧
    (∀ j, 0 ≤ j → j < iov + c ∨ iov + c + Z.of_nat (length pend) ≤ j →
       iovs' !! Z.to_nat j = iovs !! Z.to_nat j).
Proof.
  induction fuel as [|fuel IH]; intros b p pend send free blks iovs iov c Hw Hp Hin H0 Hl Hf; cbn [submit_iovs].
  all: rewrite (ring_eqb _ _ _ _ _ _ (wr_pend Hw)); case_bool_decide as Hnil.
  1,3: subst; rewrite Z.add_0_r; by exists b, iovs.
  { destruct pend; [done|simpl in Hf; lia]. }
  destruct pend as [|i pend]; [done|]. cbn [length] in Hf, Hl.
  rewrite (ring_first _ _ _ _ _ _ _ (wr_pend Hw)). step.
  assert (0 ≤ i < n) as Hi by (apply Hin; by left).
  rewrite (pool_get_data_size _ _ _ _ _ i _ Hp ltac:(lia) (pool_blk _ _ _ _ _ _ Hp Hi)). step.
  rewrite (pool_buf_addr _ _ _ _ _ _ Hp) by lia. rewrite arr_set_ok by lia. step.
  destruct (IH (wb_with_pending b (wb_pending_bufs b) (u64 (wb_pending_head b + 1)) (wb_pending_tail b))
    p pend send free blks (<[Z.to_nat (iov + c) := (i * bs, Z.of_nat (length (blk blks i)))]> iovs) iov (c + 1))
    as (b' & iovs' & -> & Hw' & Hm' & Hlen & Hk & Hj); try done; rewrite ?length_insert; try lia.
  { eapply wb_rep_pending; [exact Hw|]. exact (ring_pop _ _ _ _ _ _ _ (wr_pend Hw)). }
  { intros x Hx. apply Hin. by right. }
  exists b', iovs'. rewrite length_insert in Hlen. cbn [length]. split_and!; try done.
  - do 2 f_equal. lia.
  - intros [|k] x Hx; simpl in Hx; simplify_eq.
    + rewrite Z.add_0_r, Hj by lia. apply list_lookup_insert_eq. lia.
    + rewrite <- (Hk k x Hx). f_equal. lia.
  - intros j Hj0 Hjr. rewrite Hj by lia. apply list_lookup_insert_ne. lia.
Qed.

Lemma slot_holds_same blks blks' slots slots' iovecs iovecs' sent e :
  slots' !! Z.to_nat (bu_slot e) = slots !! Z.to_nat (bu_slot e) →
  (∀ k, 0 ≤ k < mi → iovecs' !! Z.to_nat (bu_slot e * mi + k) = iovecs !! Z.to_nat (bu_slot e * mi + k)) →
  same_on (bu_blocks e) blks blks' →
  slot_holds mi bs blks slots iovecs sent e → slot_holds mi bs blks' slots' iovecs' sent e.
Proof.
  intros Hs Hv Hb [Hslot Hlen Hiov Hbytes]. split; [by rewrite Hs|done| |].
  - intros k x Hx. pose proof (lookup_lt_Some _ _ _ Hx). rewrite Hv by lia.
    rewrite Hb by (by apply list_elem_of_lookup_2 in Hx). by apply Hiov.
  - rewrite <- Hbytes. by apply stream_same.
Qed.

Lemma clear_snoc l x blks : clear (l ++ [x]) blks = <[Z.to_nat x := []]> (clear l blks).
Proof. unfold clear. by rewrite foldl_app. Qed.

(** The blocks of a header go back to the pool in order, then the header. *)
Lemma release_slot_spec p mp slot s l r free blks mfree :
  pool_rep n bs p free blks → free ++ l ++ r ≡ₚ seqZ 0 n →
  mp_rep mcap mi mp mfree → 0 ≤ slot < mcap → slot ∉ mfree →
  mp_slots mp !! Z.to_nat slot = Some s → ms_msg_iovlen s = Z.of_nat (length l) →
  (∀ (k : nat) x, l !! k = Some x → ∃ z, mp_iovecs mp !! Z.to_nat (slot * mi + Z.of_nat k) = Some (x * bs, z)) →
  ∃ p' mp', WriteBufDgram_release_slot p mp slot = Ok (p', mp') ∧
    pool_rep n bs p' (free ++ l) (clear l blks) ∧ mp_rep mcap mi mp' (mfree ++ [slot]) ∧
    (∀ j, 0 ≤ j → j ≠ slot → mp_slots mp' !! Z.to_nat j = mp_slots mp !! Z.to_nat j) ∧
    (∀ j k, 0 ≤ j → j ≠ slot → 0 ≤ k < mi →
       mp_iovecs mp' !! Z.to_nat (j * mi + k) = mp_iovecs mp !! Z.to_nat (j * mi + k)).
Proof.
  intros Hp Hperm Hmp Hslot Hnf Hs Hlen Hiov. unfold WriteBufDgram_release_slot.
  rewrite (arr_get_ok _ slot _ ltac:(lia) Hs). step.
  destruct (mpr_iov Hmp _ Hs) as (Eo & _). rewrite Z2Nat.id in Eo by lia.
  rewrite Hlen, Nat2Z.id, Eo.
  destruct (for_up_inv (fun i p => pool_rep n bs p (free ++ take (Z.to_nat i) l) (clear (take (Z.to_nat i) l) blks))
    (fun i p => e ← arr_get (mp_iovecs mp) (slot * mi + i); BufPool_release_buf p e.1) (length l) 0 p)
    as (p' & Hrun & Hp').
  { simpl. by rewrite app_nil_r. }
  { intros j q Hj Hq. destruct (lookup_lt_is_Some_2 l (Z.to_nat j)) as [x Hx]; [lia|].
    destruct (Hiov _ _ Hx) as [z Hz]. rewrite Z2Nat.id in Hz by lia. pose proof (mpr_pos Hmp).
    rewrite (arr_get_ok _ (slot * mi + j) _ ltac:(nia) Hz). step. unfold BufPool_release_buf.
    assert (Hperm' : (free ++ take (Z.to_nat j) l) ++ x :: drop (S (Z.to_nat j)) l ++ r ≡ₚ seqZ 0 n).
    { rewrite <- Hperm. rewrite <- (take_drop_middle _ _ _ Hx) at 3. by rewrite <- !(assoc_L (++)). }
    destruct (perm_held _ _ _ x Hperm') as [Hxr Hxn]; [by left|].
    pose proof (pool_buf_index _ _ _ _ _ x 0 Hq Hxr ltac:(pose proof (pr_pos Hp); lia)) as Hix.
    rewrite (pool_buf_addr _ _ _ _ _ _ Hq) in Hix by lia. rewrite Z.add_0_r in Hix. simpl fst. rewrite Hix.
    destruct (pool_release _ _ _ _ _ x Hq Hxr Hxn) as (q' & -> & Hq'). exists q'. split; [done|].
    replace (Z.to_nat (j + 1)) with (S (Z.to_nat j)) by lia. rewrite (take_S_r _ _ _ Hx), clear_snoc.
    by rewrite (assoc_L (++)). }
  rewrite Hrun. step. rewrite Z.add_0_l, Nat2Z.id, take_ge in Hp' by lia.
  destruct (mp_release _ _ _ _ slot Hmp Hslot Hnf) as (mp' & -> & Hmp' & Hs1 & Hs2). step.
  by exists p', mp'.
Qed.

(** Writing the fields of a slot in use. *)
Lemma set_slot_spec mp mfree slot s f :
  mp_rep mcap mi mp mfree → 0 ≤ slot → slot ∉ mfree → mp_slots mp !! Z.to_nat slot = Some s →
  ms_iov (f s) = ms_iov s → length (ms_addr (f s)) = length (ms_addr s) → ms_msg_name (f s) = ms_msg_name s →
  ∃ mp', set_slot mp slot f = Ok mp' ∧ mp_rep mcap mi mp' mfree ∧
    mp_slots mp' = <[Z.to_nat slot := f s]> (mp_slots mp) ∧ mp_iovecs mp' = mp_iovecs mp.
Proof.
  intros Hmp H0 Hnf Hs E1 E2 E3. unfold set_slot. rewrite (arr_get_ok _ slot _ H0 Hs). step.
  pose proof (lookup_lt_Some _ _ _ Hs). rewrite arr_set_ok by lia. step.
  eexists. split; [done|]. split; [|done]. destruct Hmp as [??????? Hiv Hiov Hcl ?].
  split; simpl; rewrite ?length_insert; try done.
  - intros j s'. rewrite list_lookup_insert. case_decide as Hj; [|apply Hiov].
    destruct Hj as [<- _]. intros [= <-]. destruct (Hiov _ _ Hs) as (? & ? & ?). rewrite E1, E2, E3. done.
  - intros j Hj. destruct (Hcl j Hj) as (? & s' & ? & ?). split; [done|]. exists s'. split; [|done].
    rewrite list_lookup_insert_ne; [done|]. intros E. apply Hnf. by replace slot with j by lia.
Qed.

Lemma mp_rep_iovecs mp mfree v :
  mp_rep mcap mi mp mfree → length v = length (mp_iovecs mp) → mp_rep mcap mi (mp_with_iovecs mp v) mfree.
Proof. intros [] E. split; simpl; try done. by rewrite E. Qed.

(** A refused [submit] has no effect. *)
Lemma dgram_submit_no w p mp slot pend send :
  wb_rep cap (wd_base w) pend send → wd_max_iov w = mi → 0 < mi < 2 ^ 31 →
  ring_ok 64 (wd_slot_queue w) (cap - 1) (wd_msghdr_head w) (wd_msghdr_tail w) [] →
  pend = [] ∨ mi < Z.of_nat (length pend) →
  WriteBufDgram_submit w p mp (Some slot) = Ok (false, w, mp).
Proof.
  intros Hw Hmi Hmr Hq Hc. unfold WriteBufDgram_submit.
  replace (u64 (wb_pending_tail (wd_base w) - wb_pending_head (wd_base w)))
    with (Z.of_nat (length pend)) by apply (wr_pend Hw).
  replace (u64 (wd_msghdr_tail w - wd_msghdr_head w)) with 0 by apply (rk_len Hq).
  rewrite (wb_capacity_u64 _ _ _ _ Hw), Hmi, (u64_small mi) by lia. pose proof (wr_pos Hw).
  case_test; [done|]. rewrite (proj2 (Z.leb_gt cap _)) by lia.
  destruct Hc as [->|Hc]; [done|]. by rewrite (proj2 (Z.ltb_lt _ _)).
Qed.

(** A successful one turns the pending blocks into the slot's vector. *)
Lemma dgram_submit_yes w p mp mfree slot s pend send free blks :
  wb_rep cap (wd_base w) pend send → wd_max_iov w = mi → pool_rep n bs p free blks →
  (∀ x, x ∈ pend → 0 ≤ x < n) → mp_rep mcap mi mp mfree → 0 ≤ slot < mcap → slot ∉ mfree →
  mp_slots mp !! Z.to_nat slot = Some s →
  ring_ok 64 (wd_slot_queue w) (cap - 1) (wd_msghdr_head w) (wd_msghdr_tail w) [] →
  pend ≠ [] → Z.of_nat (length pend) ≤ mi →
  ∃ w' mp', WriteBufDgram_submit w p mp (Some slot) = Ok (true, w', mp') ∧
    wb_rep cap (wd_base w') [] send ∧ wd_max_iov w' = mi ∧ mp_rep mcap mi mp' mfree ∧
    mp_slots mp' = <[Z.to_nat slot := mkMsghdrSlot (ms_channel s) (ms_msg_name s) (ms_msg_namelen s)
      (Some (slot * mi)) (Z.of_nat (length pend)) (ms_addr s) (slot * mi)]> (mp_slots mp) ∧
    ring_ok 64 (wd_slot_queue w') (cap - 1) (wd_msghdr_head w') (wd_msghdr_tail w') [slot] ∧
    (∀ (k : nat) x, pend !! k = Some x → mp_iovecs mp' !! Z.to_nat (slot * mi + Z.of_nat k) =
       Some (x * bs, Z.of_nat (length (blk blks x)))) ∧
    (∀ j k, 0 ≤ j → j ≠ slot → 0 ≤ k < mi →
       mp_iovecs mp' !! Z.to_nat (j * mi + k) = mp_iovecs mp !! Z.to_nat (j * mi + k)).
Proof.
  intros Hw Hmi Hp Hin Hmp Hslot Hnf Hs Hq Hne Hle. unfold WriteBufDgram_submit.
  pose proof (mpr_total Hmp). pose proof (mpr_pos Hmp). pose proof (wr_pos Hw).
  replace (u64 (wb_pending_tail (wd_base w) - wb_pending_head (wd_base w)))
    with (Z.of_nat (length pend)) by apply (wr_pend Hw).
  replace (u64 (wd_msghdr_tail w - wd_msghdr_head w)) with 0 by apply (rk_len Hq).
  rewrite (wb_capacity_u64 _ _ _ _ Hw), Hmi, (u64_small mi) by nia.
  rewrite (proj2 (Z.eqb_neq _ _)) by (destruct pend; [done|simpl; lia]).
  rewrite (proj2 (Z.leb_gt cap _)), (proj2 (Z.ltb_ge mi _)) by lia.
  rewrite (arr_get_ok _ slot _ ltac:(lia) Hs). step.
  destruct (mpr_iov Hmp _ Hs) as (Eo & _). rewrite Z2Nat.id in Eo by lia. rewrite Eo.
  pose proof (mpr_iovecs Hmp) as Hivl.
  destruct (submit_iovs_spec (S (Z.to_nat (wb_capacity (wd_base w)))) (wd_base w) p pend send free blks
    (mp_iovecs mp) (slot * mi) 0 Hw Hp Hin) as (b' & iovs' & -> & Hw' & Hm' & Hlen & Hk & Hj); [nia|nia| |].
  { pose proof (wb_pend_le _ _ _ _ Hw). rewrite (wr_cap Hw). lia. }
  step. rewrite Z.add_0_l.
  edestruct (set_slot_spec (mp_with_iovecs mp iovs') mfree slot s) as (mp' & -> & Hmp' & Hsl & Hiv);
    [by apply mp_rep_iovecs|lia|done|done| | | |]; try reflexivity.
  step. destruct (ring_push _ _ _ _ _ _ slot Hq) as (q & Hset & _ & Hr); [simpl; lia|].
  rewrite (wr_mask Hw') in Hm'. rewrite (wr_mask Hw'). rewrite Hset. step.
  eexists _, _. split; [done|]. simpl. rewrite Hiv. split_and!; try done.
  - rewrite Hsl. simpl. by rewrite Eo.
  - intros k x Hx. rewrite <- (Hk k x Hx). f_equal. lia.
  - intros j k Hj0 Hjne Hkr. simpl. apply Hj; [nia|]. destruct (decide (j < slot)); [left|right]; nia.
Qed.

Definition slot_sent (s : MsghdrSlot) : MsghdrSlot :=
  mkMsghdrSlot true (ms_msg_name s) (ms_msg_namelen s) (ms_msg_iov s) (ms_msg_iovlen s) (ms_addr s) (ms_iov s).

Lemma queue_cleared (w : WriteBufDgram) l :
  ring_ok 64 (wd_slot_queue w) (cap - 1) (wd_msghdr_head w) (wd_msghdr_tail w) l →
  let w' := WriteBufDgram_clear_slot_queue w in
  ring_ok 64 (wd_slot_queue w') (cap - 1) (wd_msghdr_head w') (wd_msghdr_tail w') [].
Proof. intros [Hpow Hh Ht Hl Hc Hcells]. split; simpl; try done; [by rewrite Z.sub_diag|lia]. Qed.

Lemma queue_size (w : WriteBufDgram) l :
  ring_ok 64 (wd_slot_queue w) (cap - 1) (wd_msghdr_head w) (wd_msghdr_tail w) l → cap < 2 ^ 31 →
  WriteBufDgram_slot_queue_size w = Z.of_nat (length l).
Proof.
  intros Hq Hcap. unfold WriteBufDgram_slot_queue_size, i32.
  pose proof (rk_len Hq) as Hl. pose proof (rk_cap Hq).
  replace ((wd_msghdr_tail w - wd_msghdr_head w) mod 2 ^ 32) with (Z.of_nat (length l)).
  - by rewrite (proj2 (Z.ltb_lt _ _)) by lia.
  - rewrite <- (Z.mod_small (Z.of_nat (length l)) (2 ^ 32)) by lia. rewrite Hl. apply mod_mod_pow2. lia.
Qed.

(** A wake-up with an empty queue changes nothing but the queue counters. *)
Lemma notify_empty u :
  ring_ok 64 (wd_slot_queue (ut_write_buf u)) (cap - 1) (wd_msghdr_head (ut_write_buf u))
    (wd_msghdr_tail (ut_write_buf u)) [] → cap < 2 ^ 31 →
  ut_notify u = mkNotifyToken false false true →
  UdpChannel_notify u = Ok (ut_with_buf u (WriteBufDgram_clear_slot_queue (ut_write_buf u))).
Proof.
  intros Hq Hcap Hn. unfold UdpChannel_notify. rewrite Hn. cbn [NotifyToken_notify nt_handle udp_write_resume].
  simpl ut_write_buf. rewrite (queue_size _ _ Hq Hcap). simpl. destruct u; simpl in *. by subst.
Qed.

(** A wake-up with one queued slot moves it to the submission queue. *)
Lemma notify_one u mfree slot s :
  ring_ok 64 (wd_slot_queue (ut_write_buf u)) (cap - 1) (wd_msghdr_head (ut_write_buf u))
    (wd_msghdr_tail (ut_write_buf u)) [slot] → cap < 2 ^ 31 →
  wb_mask (wd_base (ut_write_buf u)) = cap - 1 →
  ut_notify u = mkNotifyToken false false true →
  mp_rep mcap mi (ut_msghdr u) mfree → 0 ≤ slot → slot ∉ mfree →
  mp_slots (ut_msghdr u) !! Z.to_nat slot = Some s → Z.of_nat (length (ut_sq u)) < ut_depth u →
  ∃ mp', UdpChannel_notify u = Ok (mkUdpTx (WriteBufDgram_clear_slot_queue (ut_write_buf u)) (ut_pool u) mp'
      (ut_notify u) (ut_alive u) (ut_depth u) (ut_sq u ++ [slot]) (ut_flight u)) ∧
    mp_rep mcap mi mp' mfree ∧ mp_slots mp' = <[Z.to_nat slot := slot_sent s]> (mp_slots (ut_msghdr u)) ∧
    mp_iovecs mp' = mp_iovecs (ut_msghdr u).
Proof.
  intros Hq Hcap Hm Hn Hmp H0 Hnf Hs Hroom. unfold UdpChannel_notify. rewrite Hn.
  cbn [NotifyToken_notify nt_handle udp_write_resume]. cbn [ut_write_buf ut_with_notify].
  rewrite (queue_size _ _ Hq Hcap). change (Z.to_nat (Z.of_nat (length [slot]))) with 1%nat. cbn [udp_send_slots].
  unfold WriteBufDgram_peek_slot. cbn [ut_write_buf ut_with_notify].
  replace (u64 (wd_msghdr_tail (ut_write_buf u) - wd_msghdr_head (ut_write_buf u))) with 1
    by apply (rk_len Hq).
  change (u64 0) with 0. rewrite Z.add_0_r, Hm. cbn [orb]. change ((0 <? 0) || (1 <=? 0)) with false.
  cbv iota. pose proof (rk_head Hq). rewrite (u64_small (wd_msghdr_head _)) by done.
  rewrite (ring_first _ _ _ _ _ _ _ Hq). step.
  edestruct (set_slot_spec (ut_msghdr u) mfree slot s slot_sent) as (mp' & Hset & Hmp' & Hsl & Hiv); try done.
  fold slot_sent in Hset. simpl ut_msghdr. unfold slot_sent in Hset at 1. rewrite Hset. step.
  simpl ut_depth. simpl ut_sq. rewrite (proj2 (Z.leb_gt _ _)) by done. step.
  simpl. exists mp'. split; [|done]. destruct u; simpl in *. by subst.
Qed.

(** *** Preservation *)
Definition udp_post (u : UdpTx) (sp : udp_spec) (c : udp_cmd) : Prop :=
  ∃ ok d u' sp' pend' free' mfree' sqb' flb' blks', udp_step u c = Ok (ok, d, u') ∧
    udp_spec_step sp c ok = (d, sp') ∧ ut_depth u' = ut_depth u ∧
    udp_inv n bs cap mcap mi u' sp' pend' free' mfree' sqb' flb' blks'.

Lemma busy_sub (e : busy) l : e ∈ l → bu_blocks e ⊆ busy_blocks l.
Proof. intros He i Hi. apply list_elem_of_bind. eauto. Qed.

(** A step on the pending side. *)
Lemma inv_pending u sp pend free mfree sqb flb blks b p' pend' free' blks' P :
  udp_inv n bs cap mcap mi u sp pend free mfree sqb flb blks →
  wbp n bs cap b p' pend' [] (busy_blocks (sqb ++ flb)) free' blks' →
  same_on (busy_blocks (sqb ++ flb)) blks blks' → stream blks' pend' = P →
  udp_inv n bs cap mcap mi (ut_with_pools (ut_with_buf u (wd_with_base (ut_write_buf u) b)) p' (ut_msghdr u))
    (mkUdpSpec P (us_sq sp) (us_flight sp)) pend' free' mfree sqb flb blks'.
Proof.
  intros [] Hw Hs HP. split; simpl; try done.
  intros e He. eapply slot_holds_same; [done|done| |by eauto].
  eapply same_on_sub; [|exact Hs]. by apply busy_sub.
Qed.

(** A step on the free message headers. *)
Lemma inv_msghdr u sp pend free mfree sqb flb blks p' mp' mfree' :
  udp_inv n bs cap mcap mi u sp pend free mfree sqb flb blks →
  pool_rep n bs p' free blks → mp_rep mcap mi mp' mfree' → mfree' ≡ₚ mfree →
  (∀ e, e ∈ sqb ++ flb → mp_slots mp' !! Z.to_nat (bu_slot e) = mp_slots (ut_msghdr u) !! Z.to_nat (bu_slot e) ∧
     ∀ k, 0 ≤ k < mi → mp_iovecs mp' !! Z.to_nat (bu_slot e * mi + k) =
       mp_iovecs (ut_msghdr u) !! Z.to_nat (bu_slot e * mi + k)) →
  udp_inv n bs cap mcap mi (ut_with_pools u p' mp') sp pend free mfree' sqb flb blks.
Proof.
  intros [] Hp Hmp Hperm Hsame. split; simpl; try done; [|by rewrite Hperm|].
  - destruct ui_wbp0. by split.
  - intros e He. destruct (Hsame e He). by eapply slot_holds_same; [..|eauto].
Qed.

Section step.
Context (u : UdpTx) (sp : udp_spec) (pend free mfree : list Z) (sqb flb : list busy)
  (blks : list (list byte)).
Hypothesis Hinv : udp_inv n bs cap mcap mi u sp pend free mfree sqb flb blks.

Lemma udp_step_append d : Z.of_nat (length d) < 2 ^ 32 → udp_post u sp (UAppend d).
Proof.
  intros Hd. unfold udp_post. simpl. unfold UdpChannel_append.
  destruct (append_spec _ _ _ _ _ _ _ _ _ _ d _ (ui_wbp Hinv) eq_refl Hd)
    as (ok & b' & p' & pend' & free' & blks' & -> & [Hw Hs Hyes Hno] & _). step.
  pose proof (ui_pend Hinv) as HP. simpl in Hs.
  eexists ok, None, _, (mkUdpSpec (if ok then us_pend sp ++ d else us_pend sp) (us_sq sp) (us_flight sp)),
    pend', free', mfree, sqb, flb, blks'. split; [done|]. split; [destruct sp, ok; done|]. split; [done|].
  eapply inv_pending; [done..|]. destruct ok.
  - destruct (Hyes eq_refl) as [-> _]. by rewrite HP.
  - destruct (Hno eq_refl) as (-> & Hsame & _). by rewrite (stream_same _ _ _ Hsame).
Qed.

Lemma udp_step_prepend d : Z.of_nat (length d) + bs - 1 < 2 ^ 32 → udp_post u sp (UPrepend d).
Proof.
  intros Hd. unfold udp_post. simpl. unfold UdpChannel_prepend.
  destruct (prepend_spec _ _ _ _ _ _ _ _ _ _ d _ (ui_wbp Hinv) eq_refl Hd)
    as (ok & b' & p' & pend' & free' & blks' & -> & [Hw Hs Hyes Hno] & _). step.
  pose proof (ui_pend Hinv) as HP. simpl in Hs.
  eexists ok, None, _, (mkUdpSpec (if ok then d ++ us_pend sp else us_pend sp) (us_sq sp) (us_flight sp)),
    pend', free', mfree, sqb, flb, blks'. split; [done|]. split; [destruct sp, ok; done|]. split; [done|].
  eapply inv_pending; [done|done| |].
  - eapply same_on_sub; [|exact Hs]. intros i; elt.
  - destruct ok.
    + destruct (Hyes eq_refl) as [-> _]. by rewrite HP.
    + destruct (Hno eq_refl) as (-> & _). rewrite (stream_same _ blks); [done|].
      eapply same_on_sub; [|exact Hs]. intros i; elt.
Qed.

Lemma udp_discard : ∃ u' free' blks', UdpChannel_discard u = Ok u' ∧ ut_depth u' = ut_depth u ∧
  udp_inv n bs cap mcap mi u' (mkUdpSpec [] (us_sq sp) (us_flight sp)) [] free' mfree sqb flb blks'.
Proof.
  unfold UdpChannel_discard.
  destruct (discard_pending_spec _ _ _ _ _ _ _ _ _ _ (ui_wbp Hinv))
    as (b' & p' & -> & Hw & Hs). step. eexists _, _, _. split; [done|]. split; [done|]. by eapply inv_pending.
Qed.

Lemma busy_not_free e : e ∈ sqb ++ flb → 0 ≤ bu_slot e < mcap ∧ (bu_slot e ∉ mfree).
Proof.
  intros He. apply (perm_held mcap mfree (bu_slot <$> sqb ++ flb)).
  - apply (ui_slots Hinv).
  - apply list_elem_of_fmap. eauto.
Qed.

Lemma busy_nodup : NoDup (bu_slot <$> sqb ++ flb).
Proof.
  assert (NoDup (mfree ++ (bu_slot <$> sqb ++ flb))) as (_ & _ & ?)%NoDup_app; [|done].
  rewrite (ui_slots Hinv). apply NoDup_seqZ.
Qed.

Lemma udp_step_enter : udp_post u sp UEnter.
Proof.
  eexists true, None, _, (mkUdpSpec (us_pend sp) [] (us_flight sp ++ us_sq sp)), pend, free, mfree, [], (flb ++ sqb), blks.
  split; [done|]. split; [by destruct sp|]. split; [done|]. destruct Hinv. split; simpl; try done.
  - destruct ui_wbp0 as [Hw Hp Hperm]. split; [done|done|]. rewrite <- Hperm. unfold busy_blocks.
    rewrite !bind_app. solve_Permutation.
  - rewrite <- ui_slots0, !fmap_app. solve_Permutation.
  - by rewrite ui_flight0, ui_sq0, fmap_app.
  - intros e He. apply ui_busy0. elt.
  - by rewrite ui_sp_flight0, ui_sp_sq0, fmap_app.
Qed.
End step.

(** The free blocks of the pool, by its counters. *)
Definition pool_free (p : BufPool) : Z := (bp_tail p - bp_head p) mod 2 ^ 32.

Lemma blocks_counted u sp pend free mfree sqb flb blks :
  udp_inv n bs cap mcap mi u sp pend free mfree sqb flb blks →
  pool_free (ut_pool u) = Z.of_nat (length free) ∧
  pool_free (ut_pool u) = n - Z.of_nat (length pend) - Z.of_nat (length (busy_blocks (sqb ++ flb))).
Proof.
  intros H. pose proof (ui_wbp H) as [_ Hp Hperm]. unfold pool_free. rewrite <- (rk_len (pr_ring Hp)). split; [done|].
  apply Permutation_length in Hperm. rewrite !length_app, length_seqZ in Hperm. cbn [length] in Hperm.
  pose proof (rk_pow (pr_ring Hp)) as (k & ? & Hm & _). pose proof (pr_mask Hp). assert (0 < 2 ^ k) by lia. lia.
Qed.
Lemma headers_counted u sp pend free mfree sqb flb blks :
  udp_inv n bs cap mcap mi u sp pend free mfree sqb flb blks →
  Z.of_nat (length mfree) = mcap - Z.of_nat (length (us_sq sp)) - Z.of_nat (length (us_flight sp)).
Proof.
  intros H. pose proof (Permutation_length (ui_slots H)) as Hl. rewrite length_app, length_fmap, length_app, length_seqZ in Hl.
  rewrite (ui_sp_sq H), (ui_sp_flight H), !length_fmap. pose proof (mp_cap_pos _ _ _ _ (ui_mp H)). lia.
Qed.

Definition submit_post (u : UdpTx) (sp : udp_spec) (pend mfree : list Z) (addr : list byte) (ok : bool)
    (u' : UdpTx) : Prop :=
  ok = negb (bool_decide (mfree = [])) && negb (bool_decide (pend = [])) && (Z.of_nat (length pend) <=? mi) ∧
  ut_depth u' = ut_depth u ∧
  pool_free (ut_pool u') = pool_free (ut_pool u) + (if ok then 0 else Z.of_nat (length pend)) ∧
  ∃ free' mfree' sqb' flb' blks', udp_inv n bs cap mcap mi u'
    (if ok then mkUdpSpec [] (us_sq sp ++ [(addr, us_pend sp)]) (us_flight sp)
     else mkUdpSpec [] (us_sq sp) (us_flight sp)) [] free' mfree' sqb' flb' blks'.

Lemma mi_range mp mfree : mp_rep mcap mi mp mfree → 0 < mi < 2 ^ 31.
Proof.
  intros H. pose proof (mpr_pos H). pose proof (mpr_total H).
  pose proof (mp_cap_pos _ _ _ _ H). nia.
Qed.

Section submit.
Context (u : UdpTx) (sp : udp_spec) (pend free : list Z) (sqb flb : list busy)
  (blks : list (list byte)) (addr : list byte).
Hypothesis Haddr : Z.of_nat (length addr) ≤ sockaddr_storage_size.

(** No message header left. *)
Lemma submit_no_slot :
  udp_inv n bs cap mcap mi u sp pend free [] sqb flb blks →
  ∃ u', UdpChannel_submit u addr = Ok (false, u') ∧ submit_post u sp pend [] addr false u'.
Proof.
  intros Hinv. unfold UdpChannel_submit.
  rewrite (mp_acquire_none _ _ _ (ui_mp Hinv)). step.
  replace (ut_with_pools u (ut_pool u) (ut_msghdr u)) with u by (by destruct u).
  destruct (udp_discard _ _ _ _ _ _ _ _ Hinv) as (u' & free' & blks' & -> & Hd & Hinv'). step.
  exists u'. split; [done|]. split; [done|]. split; [done|]. split; [|by eexists _, _, _, _, _].
  destruct (blocks_counted _ _ _ _ _ _ _ _ Hinv) as [_ ->], (blocks_counted _ _ _ _ _ _ _ _ Hinv') as [_ ->]. simpl. lia.
Qed.

Context (slot : Z) (mfree : list Z).
Hypothesis Hinv : udp_inv n bs cap mcap mi u sp pend free (slot :: mfree) sqb flb blks.

Lemma busy_ne_slot e : e ∈ sqb ++ flb → 0 ≤ bu_slot e ∧ bu_slot e ≠ slot.
Proof.
  intros He. destruct (busy_not_free _ _ _ _ _ _ _ _ Hinv e He) as [? Hn]. split; [lia|].
  intros E. apply Hn. rewrite E. by left.
Qed.

(** The header obtained: its address is filled in, everything else is clean. *)
Definition fresh_slot (a : list byte) (ch : bool) : MsghdrSlot :=
  mkMsghdrSlot ch (Some slot) (Z.of_nat (length addr)) None 0 a (slot * mi).

Lemma submit_got_slot :
  ∃ ch a mp, (0 ≤ slot < mcap ∧ (slot ∉ mfree)) ∧ mp_rep mcap mi mp mfree ∧
    mp_slots mp = <[Z.to_nat slot := fresh_slot a ch]> (mp_slots (ut_msghdr u)) ∧
    (Z.to_nat slot < length (mp_slots (ut_msghdr u)))%nat ∧
    mp_iovecs mp = mp_iovecs (ut_msghdr u) ∧ take (length addr) a = addr ∧
    UdpChannel_submit u addr =
      ('(ok, w, mp) ← WriteBufDgram_submit (ut_write_buf u) (ut_pool u) mp (Some slot);
       let u := ut_with_pools (ut_with_buf u w) (ut_pool u) mp in
       if ok : bool then u ← UdpChannel_notify u; Ok (true, u)
       else
         '(p, mp) ← WriteBufDgram_release_slot (ut_pool u) (ut_msghdr u) slot;
         u ← UdpChannel_discard (ut_with_pools u p mp);
         Ok (false, u)).
Proof.
  pose proof (ui_mp Hinv) as Hmp.
  destruct (mp_acquire_some _ _ _ _ _ Hmp) as (m1 & Hacq & Hm1 & Es1 & Ev1).
  destruct (mpr_clean Hmp slot) as (Hr & s & Hs & Hn & Hnl & Hio & Hil & Ha); [by left|].
  assert (Hnf : slot ∉ mfree).
  { pose proof (mpr_nodup Hmp) as Hnd. by apply NoDup_cons in Hnd as [? _]. }
  destruct (mpr_iov Hmp _ Hs) as (Eo & Hal & _). rewrite Z2Nat.id in Eo by lia.
  rewrite <- Es1 in Hs.
  destruct (mem_write_spec (ms_addr s) 0 addr) as (a & Hwr & Hla & Hext & _); [lia|lia|].
  specialize (Hext 0 0 ltac:(lia) ltac:(lia) ltac:(lia)). rewrite mem_read_0, Z.add_0_l in Hext. simpl in Hext.
  edestruct (set_slot_spec m1 mfree slot s (fun s => mkMsghdrSlot (ms_channel s) (ms_msg_name s)
      (Z.of_nat (length addr)) (ms_msg_iov s) (ms_msg_iovlen s) a (ms_iov s)))
    as (m2 & Hset & Hm2 & Es2 & Ev2); try done; [lia|].
  exists (ms_channel s), a, m2. rewrite Es2, Es1, Ev2, Ev1. split; [done|]. split; [done|].
  split; [unfold fresh_slot; simpl; by rewrite Hn, Hio, Hil, Eo|].
  split; [rewrite <- Es1; by eapply lookup_lt_Some|]. split; [done|]. split.
  - unfold mem_read in Hext. rewrite Nat2Z.id in Hext. simpl in Hext. by rewrite drop_0 in Hext.
  - unfold UdpChannel_submit. rewrite Hacq. step. simpl ut_msghdr.
    rewrite (arr_get_ok _ slot _ ltac:(lia) Hs). step. rewrite Hwr. step. rewrite Hset. done.
Qed.

Lemma submit_refused : pend = [] ∨ mi < Z.of_nat (length pend) →
  ∃ u', UdpChannel_submit u addr = Ok (false, u') ∧ submit_post u sp pend (slot :: mfree) addr false u'.
Proof.
  intros Hc. destruct submit_got_slot as (ch & a & mp & [Hr Hnf] & Hmp & Es & Hsl & Ev & Ha & ->).
  pose proof (ui_wbp Hinv) as [Hw Hp Hperm].
  rewrite (dgram_submit_no _ _ _ _ pend [] Hw); [|apply Hinv|by eapply mi_range|apply Hinv|done]. step.
  destruct (release_slot_spec (ut_pool u) mp slot (fresh_slot a ch) [] (pend ++ [] ++ busy_blocks (sqb ++ flb))
    free blks mfree) as (p' & mp' & Hrun & Hp' & Hmp' & Hs1 & Hs2); try done.
  { rewrite Es. by apply list_lookup_insert_eq. }
  simpl ut_pool. simpl ut_msghdr. rewrite Hrun. step. rewrite app_nil_r in Hp'.
  replace (ut_with_pools (ut_with_pools (ut_with_buf u (ut_write_buf u)) (ut_pool u) mp) p' mp')
    with (ut_with_pools u p' mp') by (by destruct u).
  edestruct (udp_discard (ut_with_pools u p' mp') sp pend free (mfree ++ [slot]) sqb flb blks)
    as (u' & free' & blks' & -> & Hd & Hinv').
  { eapply inv_msghdr; [exact Hinv|exact Hp'|exact Hmp'|solve_Permutation|].
    intros e He. destruct (busy_ne_slot e He). split; [|intros k Hk].
    - rewrite Hs1, Es by done. apply list_lookup_insert_ne. lia.
    - by rewrite Hs2, Ev by done. }
  step. exists u'. split; [done|]. split; [|split; [done|split; [|by eexists _, _, _, _, _]]].
  2: { destruct (blocks_counted _ _ _ _ _ _ _ _ Hinv) as [_ ->], (blocks_counted _ _ _ _ _ _ _ _ Hinv') as [_ ->]. simpl. lia. }
  destruct Hc as [->|Hc]; simpl; [done|]. rewrite (proj2 (Z.leb_gt _ _)) by lia. by rewrite andb_false_r.
Qed.

Lemma submit_accepted : pend ≠ [] → Z.of_nat (length pend) ≤ mi → mcap ≤ ut_depth u →
  ∃ u', UdpChannel_submit u addr = Ok (true, u') ∧ submit_post u sp pend (slot :: mfree) addr true u'.
Proof.
  intros Hne Hle Hdep. destruct submit_got_slot as (ch & a & mp & [Hr Hnf] & Hmp & Es & Hsl & Ev & Ha & ->).
  pose proof (ui_wbp Hinv) as Hwbp. pose proof Hwbp as [Hw Hp Hperm].
  assert (Hin : ∀ x, x ∈ pend → 0 ≤ x < n).
  { intros x Hx. apply (wbp_held _ _ _ _ _ _ _ _ _ _ x Hwbp). elt. }
  assert (Hlk : mp_slots mp !! Z.to_nat slot = Some (fresh_slot a ch))
    by (rewrite Es; by apply list_lookup_insert_eq).
  destruct (dgram_submit_yes _ _ _ _ _ _ _ _ _ _ Hw (ui_mi Hinv) Hp Hin Hmp Hr Hnf Hlk
    (ui_queue Hinv) Hne Hle)
    as (w' & mp1 & -> & Hw' & Hmi' & Hmp1 & Es1 & Hq1 & Hiov1 & Hoth1). step.
  pose proof (wr_pos Hw) as Hcap.
  assert (Hroom : Z.of_nat (length (ut_sq u)) < ut_depth u).
  { pose proof (Permutation_length (ui_slots Hinv)) as Hl.
    rewrite length_seqZ, length_app, length_fmap, length_app in Hl.
    rewrite (ui_sq Hinv), length_fmap. simpl in Hl. lia. }
  edestruct (notify_one (ut_with_pools (ut_with_buf u w') (ut_pool u) mp1) mfree slot)
    as (mp2 & -> & Hmp2 & Es2 & Ev2); simpl; try done; [lia|apply Hw'|apply Hinv|lia| |].
  { rewrite Es1. apply list_lookup_insert_eq. rewrite Es, length_insert. done. }
  cbn [ut_msghdr ut_with_pools] in Es2, Ev2.
  step. eexists. split; [done|]. split.
  { rewrite !bool_decide_false by done. rewrite (proj2 (Z.leb_le _ _)) by lia. done. }
  split; [done|]. split; [simpl; lia|]. exists free, mfree, (sqb ++ [mkBusy slot pend (addr, us_pend sp)]), flb, blks.
  pose proof (ui_pend Hinv) as HP.
  assert (Hslots : ∀ e, e ∈ sqb ++ flb → slot_holds mi bs blks (mp_slots mp2) (mp_iovecs mp2) true e).
  { intros e He. destruct (busy_ne_slot e He).
    eapply slot_holds_same; [| |apply same_on_refl|by eapply (ui_busy Hinv)].
    - rewrite Es2, Es1, Es. by rewrite !list_lookup_insert_ne by lia.
    - intros k Hk. rewrite Ev2. by rewrite Hoth1, Ev by done. }
  assert (Hnew : slot_holds mi bs blks (mp_slots mp2) (mp_iovecs mp2) true (mkBusy slot pend (addr, us_pend sp))).
  { split; simpl; [|done| |done].
    - exists a. split; [|done]. rewrite Es2. apply list_lookup_insert_eq.
      rewrite Es1, Es, !length_insert. done.
    - intros k x Hx. rewrite Ev2. by apply Hiov1. }
  destruct Hinv. split; simpl; try done.
  - split; [done|done|]. rewrite <- Hperm. unfold busy_blocks. rewrite !bind_app. simpl. solve_Permutation.
  - rewrite <- ui_slots0, !fmap_app. simpl. solve_Permutation.
  - by eapply queue_cleared.
  - by rewrite ui_sq0, fmap_app.
  - intros e He. assert (e = mkBusy slot pend (addr, us_pend sp) ∨ e ∈ sqb ++ flb) as [->|?] by elt; eauto.
  - by rewrite ui_sp_sq0, fmap_app.
Qed.
End submit.

Lemma udp_submit_spec u sp pend free mfree sqb flb blks addr :
  udp_inv n bs cap mcap mi u sp pend free mfree sqb flb blks →
  Z.of_nat (length addr) ≤ sockaddr_storage_size → mcap ≤ ut_depth u →
  ∃ ok u', UdpChannel_submit u addr = Ok (ok, u') ∧ submit_post u sp pend mfree addr ok u'.
Proof.
  intros Hinv Ha Hd. destruct mfree as [|slot mfree].
  { eexists false. by eapply submit_no_slot. }
  destruct (decide (pend = [] ∨ mi < Z.of_nat (length pend))) as [Hc|Hc].
  - eexists false. by eapply submit_refused.
  - eexists true. eapply submit_accepted; [done..| | |done]; [naive_solver|lia].
Qed.

(** *** Completion *)
Lemma gather_blocks p free blks v o l :
  pool_rep n bs p free blks → (∀ x, x ∈ l → 0 ≤ x < n) →
  (∀ (k : nat) x, l !! k = Some x → v !! (o + k)%nat = Some (x * bs, Z.of_nat (length (blk blks x)))) →
  gather (bp_bufs p) (take (length l) (drop o v)) = stream blks l.
Proof.
  intros Hp. revert o. induction l as [|x l IH]; intros o Hin Hv; [done|].
  pose proof (Hv 0%nat x eq_refl) as Hx. rewrite Nat.add_0_r in Hx. rewrite (drop_S _ _ _ Hx).
  cbn [length take]. unfold gather. rewrite bind_cons, stream_cons. f_equal.
  - assert (0 ≤ x < n) as Hxr by (apply Hin; by left).
    by destruct (pool_block _ _ _ _ _ x _ Hp ltac:(lia) (pool_blk _ _ _ _ _ _ Hp Hxr)) as (_ & _ & _ & ?).
  - apply IH; [intros y Hy; apply Hin; by right|]. intros k y Hy.
    replace (S o + k)%nat with (o + S k)%nat by lia. by apply Hv.
Qed.

Lemma kernel_sendmsg_spec p mp blks free mfree e sent :
  pool_rep n bs p free blks → mp_rep mcap mi mp mfree → 0 ≤ bu_slot e →
  (∀ x, x ∈ bu_blocks e → 0 ≤ x < n) →
  slot_holds mi bs blks (mp_slots mp) (mp_iovecs mp) sent e →
  kernel_sendmsg p mp (bu_slot e) = Ok (bu_dgram e).
Proof.
  intros Hp Hmp H0 Hin [(a & Hs & Ha) _ Hiov Hbytes]. unfold kernel_sendmsg.
  rewrite (arr_get_ok _ (bu_slot e) _ H0 Hs). step. simpl. rewrite (arr_get_ok _ (bu_slot e) _ H0 Hs). step.
  simpl. rewrite !Nat2Z.id, Ha. pose proof (mpr_pos Hmp).
  rewrite (gather_blocks _ free blks); [|done|done|].
  - rewrite Hbytes. by destruct (bu_dgram e).
  - intros k x Hx. rewrite <- (Hiov k x Hx). f_equal. nia.
Qed.

(** Taking one send out of those in flight. *)
Lemma busy_delete u sp pend free mfree sqb flb blks j e :
  udp_inv n bs cap mcap mi u sp pend free mfree sqb flb blks → flb !! j = Some e →
  let flb' := delete j flb in
  busy_blocks (sqb ++ flb) ≡ₚ bu_blocks e ++ busy_blocks (sqb ++ flb') ∧
  (∀ e', e' ∈ sqb ++ flb' → 0 ≤ bu_slot e' ∧ bu_slot e' ≠ bu_slot e ∧ e' ∈ sqb ++ flb) ∧
  (∀ x, x ∈ bu_blocks e → 0 ≤ x < n) ∧
  same_on (pend ++ busy_blocks (sqb ++ flb')) blks (clear (bu_blocks e) blks).
Proof.
  intros Hinv Hj flb'. pose proof (delete_Permutation _ _ _ Hj) as Hdel. fold flb' in Hdel.
  pose proof (ui_wbp Hinv) as Hwbp.
  assert (Hbb : busy_blocks (sqb ++ flb) ≡ₚ bu_blocks e ++ busy_blocks (sqb ++ flb')).
  { unfold busy_blocks. rewrite !bind_app, Hdel, bind_cons. solve_Permutation. }
  assert (Hin : ∀ x, x ∈ bu_blocks e → 0 ≤ x < n).
  { intros x Hx. apply (wbp_held _ _ _ _ _ _ _ _ _ _ x Hwbp). rewrite Hbb. elt. }
  split_and!; [done| |done|].
  - intros e' He'. assert (e' ∈ sqb ++ flb) as Hin' by (rewrite Hdel; elt).
    destruct (busy_not_free _ _ _ _ _ _ _ _ Hinv e' Hin') as [? _]. split_and!; [lia| |done].
    intros E. pose proof (busy_nodup _ _ _ _ _ _ _ _ Hinv) as Hnd.
    assert (NoDup (bu_slot e :: (bu_slot <$> sqb ++ flb'))) as Hnd2.
    { assert (bu_slot e :: (bu_slot <$> sqb ++ flb') ≡ₚ bu_slot <$> sqb ++ flb) as EP
        by (rewrite Hdel, !fmap_app, fmap_cons; solve_Permutation).
      by rewrite EP. }
    apply NoDup_cons in Hnd2 as [Hn _]. apply Hn. rewrite <- E. apply list_elem_of_fmap. eauto.
  - apply same_on_clear; [intros i Hi; apply Hin in Hi; lia|]. intros i Hi.
    assert (Hall : i ∈ pend ++ [] ++ busy_blocks (sqb ++ flb)) by (rewrite Hbb; elt).
    split; [apply (wbp_held _ _ _ _ _ _ _ _ _ _ i Hwbp) in Hall; lia|]. intros Hie.
    pose proof (wbp_nodup _ _ _ _ _ _ _ _ _ _ Hwbp) as (_ & _ & Hnd)%NoDup_app.
    assert (NoDup (bu_blocks e ++ pend ++ busy_blocks (sqb ++ flb'))) as (_ & Hd & _)%NoDup_app; [|by apply (Hd i)].
    assert (bu_blocks e ++ pend ++ busy_blocks (sqb ++ flb') ≡ₚ pend ++ [] ++ busy_blocks (sqb ++ flb)) as EP
      by (rewrite Hbb; solve_Permutation).
    by rewrite EP.
Qed.

Lemma udp_step_complete u sp pend free mfree sqb flb blks j :
  udp_inv n bs cap mcap mi u sp pend free mfree sqb flb blks → udp_post u sp (UComplete j).
Proof.
  intros Hinv. unfold udp_post. simpl. pose proof (ui_flight Hinv) as Hfl.
  pose proof (ui_sp_flight Hinv) as Hsf. rewrite Hfl, list_lookup_fmap.
  destruct (flb !! j) as [e|] eqn:Hj; simpl; last first.
  { exists false, None, u, sp, pend, free, mfree, sqb, flb, blks. split; [done|]. split; [|split; [done|done]].
    destruct sp; simpl in *. rewrite Hsf, list_lookup_fmap, Hj. simpl. do 2 f_equal.
    apply lookup_ge_None in Hj. rewrite delete_take_drop, take_ge, drop_ge, app_nil_r; [done|rewrite length_fmap; lia..]. }
  assert (He : e ∈ sqb ++ flb) by (apply elem_of_app; right; by eapply list_elem_of_lookup_2).
  destruct (busy_not_free _ _ _ _ _ _ _ _ Hinv e He) as [Hr Hnf].
  pose proof (ui_busy Hinv e He) as Hh.
  pose proof (ui_wbp Hinv) as [Hw Hp Hperm].
  destruct (busy_delete _ _ _ _ _ _ _ _ _ _ Hinv Hj) as (Hbb & Hne & Hin & Hsame).
  rewrite (kernel_sendmsg_spec _ _ _ _ _ e _ Hp (ui_mp Hinv) ltac:(lia) Hin Hh). step.
  set (flb' := delete j flb) in *. unfold MsgToken_complete. destruct Hh as [(a & Hs & Ha) _ Hiov _].
  simpl ut_msghdr. rewrite (arr_get_ok _ (bu_slot e) _ ltac:(lia) Hs). step.
  assert (Hperm' : free ++ bu_blocks e ++ pend ++ busy_blocks (sqb ++ flb') ≡ₚ seqZ 0 n).
  { rewrite <- Hperm, Hbb. solve_Permutation. }
  destruct (release_slot_spec _ _ _ _ _ _ _ _ _ Hp Hperm' (ui_mp Hinv) Hr Hnf Hs eq_refl)
    as (p' & mp' & Hrun & Hp' & Hmp' & Hs1 & Hs2).
  { intros k x Hx. rewrite (Hiov k x Hx). eauto. }
  simpl ut_pool. rewrite Hrun. step.
  eexists true, (Some (bu_dgram e)), _, (mkUdpSpec (us_pend sp) (us_sq sp) (bu_dgram <$> flb')),
    pend, (free ++ bu_blocks e), (mfree ++ [bu_slot e]), sqb, flb', (clear (bu_blocks e) blks).
  split; [done|]. split.
  { destruct sp; simpl in *. rewrite Hsf, list_lookup_fmap, Hj. simpl. unfold flb'. by rewrite list_fmap_delete. }
  split; [done|]. destruct Hinv. split; simpl; try done.
  - split; [done|done|]. rewrite <- Hperm, Hbb. solve_Permutation.
  - rewrite <- ui_slots0, !fmap_app, (delete_Permutation _ _ _ Hj), fmap_cons. solve_Permutation.
  - unfold flb'. by rewrite list_fmap_delete.
  - intros e' He'. destruct (Hne e' He') as (? & ? & ?).
    eapply slot_holds_same; [by apply Hs1|intros k Hk; by apply Hs2| |by eauto].
    eapply same_on_sub; [|exact Hsame]. intros i Hi. apply (busy_sub _ _ He') in Hi. elt.
  - rewrite <- ui_pend0. apply stream_same. eapply same_on_sub; [|exact Hsame]. intros i Hi. elt.
Qed.

Lemma udp_step_submit u sp pend free mfree sqb flb blks addr :
  udp_inv n bs cap mcap mi u sp pend free mfree sqb flb blks →
  Z.of_nat (length addr) ≤ sockaddr_storage_size → mcap ≤ ut_depth u → udp_post u sp (USubmit addr).
Proof.
  intros Hinv Ha Hd. unfold udp_post. simpl.
  destruct (udp_submit_spec _ _ _ _ _ _ _ _ _ Hinv Ha Hd) as (ok & u' & -> & _ & Hd' & _ & f' & m' & s' & l' & b' & Hinv').
  step. eexists ok, None, u', _, [], f', m', s', l', b'. split; [done|]. split; [|split; [exact Hd'|exact Hinv']].
  by destruct sp, ok.
Qed.

(** The second wake-up of the IpAddress overload finds nothing to do. *)
Lemma udp_step_submit_ip u sp pend free mfree sqb flb blks addr :
  udp_inv n bs cap mcap mi u sp pend free mfree sqb flb blks →
  Z.of_nat (length addr) ≤ sockaddr_storage_size → mcap ≤ ut_depth u → udp_post u sp (USubmitIp addr).
Proof.
  intros Hinv Ha Hd. unfold udp_post. simpl. unfold UdpChannel_submit_ip.
  destruct (udp_submit_spec _ _ _ _ _ _ _ _ _ Hinv Ha Hd) as (ok & u' & -> & _ & Hd' & _ & f' & m' & s' & l' & b' & Hinv').
  step. destruct ok.
  - pose proof (wr_pos (wbp_wb (ui_wbp Hinv'))).
    rewrite notify_empty; [|apply Hinv'|lia|apply Hinv']. step.
    eexists true, None, _, _, [], f', m', s', l', b'. split; [done|]. split; last first.
    + split; [exact Hd'|]. destruct Hinv'. split; simpl; try done. by eapply queue_cleared.
    + by destruct sp.
  - step. eexists false, None, u', _, [], f', m', s', l', b'. split; [done|]. split; [|split; [exact Hd'|exact Hinv']].
    by destruct sp.
Qed.

Definition udp_cmd_ok (c : udp_cmd) : Prop :=
  match c with
  | UAppend d => Z.of_nat (length d) < 2 ^ 32
  | UPrepend d => Z.of_nat (length d) + bs - 1 < 2 ^ 32
  | USubmit a | USubmitIp a => Z.of_nat (length a) ≤ sockaddr_storage_size
  | _ => True
  end.

Lemma udp_run_spec cs : ∀ u sp pend free mfree sqb flb blks,
  udp_inv n bs cap mcap mi u sp pend free mfree sqb flb blks → mcap ≤ ut_depth u → Forall udp_cmd_ok cs →
  ∃ oks ds u', udp_run u cs = Ok (oks, ds, u') ∧ length oks = length cs ∧ ds = udp_spec_run sp cs oks ∧
    ut_alive u' = true.
Proof.
  induction cs as [|c cs IH]; intros u sp pend free mfree sqb flb blks Hinv Hd Hcs; cbn [udp_run].
  { eexists [], [], u. split_and!; try done. apply Hinv. }
  apply Forall_cons in Hcs as [Hc Hcs].
  assert (udp_post u sp c) as (ok & d & u1 & sp1 & pe & fr & mf & sq & fl & bl & -> & Hsp & Hd1 & Hinv1).
  { destruct c; [by eapply udp_step_append|by eapply udp_step_prepend|by eapply udp_step_submit|
      by eapply udp_step_submit_ip|by eapply udp_step_enter|by eapply udp_step_complete]. }
  step. destruct (IH _ _ _ _ _ _ _ _ Hinv1 ltac:(lia) Hcs) as (oks & ds & u' & -> & Hl & -> & Hal). step.
  eexists (ok :: oks), _, u'. split; [done|]. cbn [length udp_spec_run]. rewrite Hsp, Hl. done.
Qed.
End spec.

Lemma notify_full cap mcap mi u mfree slot s :
  ring_ok 64 (wd_slot_queue (ut_write_buf u)) (cap - 1) (wd_msghdr_head (ut_write_buf u))
    (wd_msghdr_tail (ut_write_buf u)) [slot] → cap < 2 ^ 31 →
  wb_mask (wd_base (ut_write_buf u)) = cap - 1 → ut_notify u = mkNotifyToken false false true →
  mp_rep mcap mi (ut_msghdr u) mfree → 0 ≤ slot → slot ∉ mfree →
  mp_slots (ut_msghdr u) !! Z.to_nat slot = Some s → ut_depth u ≤ Z.of_nat (length (ut_sq u)) →
  ∃ u', UdpChannel_notify u = Ok u' ∧ ut_alive u' = false ∧ ut_sq u' = ut_sq u ∧
    UdpChannel_notify u' = Ok (ut_with_notify u' (mkNotifyToken true false false)).
Proof.
  intros Hq Hcap Hm Hn Hmp H0 Hnf Hs Hfull. unfold UdpChannel_notify at 1. rewrite Hn.
  cbn [NotifyToken_notify nt_handle udp_write_resume]. cbn [ut_write_buf ut_with_notify].
  rewrite (queue_size _ _ _ Hq Hcap). change (Z.to_nat (Z.of_nat (length [slot]))) with 1%nat.
  cbn [udp_send_slots]. unfold WriteBufDgram_peek_slot. cbn [ut_write_buf ut_with_notify].
  replace (u64 (wd_msghdr_tail (ut_write_buf u) - wd_msghdr_head (ut_write_buf u))) with 1
    by apply (rk_len Hq).
  change (u64 0) with 0. rewrite Z.add_0_r, Hm. change ((0 <? 0) || (1 <=? 0)) with false. cbv iota.
  pose proof (rk_head Hq). rewrite (u64_small (wd_msghdr_head _)) by done.
  rewrite (ring_first _ _ _ _ _ _ _ Hq). step.
  edestruct (set_slot_spec mcap mi (ut_msghdr u) mfree slot s slot_sent) as (mp' & Hset & _); try done.
  simpl ut_msghdr. unfold slot_sent in Hset at 1. rewrite Hset. step.
  simpl ut_depth. simpl ut_sq. rewrite (proj2 (Z.leb_le _ _)) by done. step.
  eexists. split; [done|]. by split_and!.
Qed.

(** ** Claims *)

Definition udp_fresh (w : WriteBufDgram) (p : BufPool) (mp : MsghdrPool) (depth : Z) : UdpTx :=
  mkUdpTx w p mp (NotifyToken_await_suspend NotifyToken_new) true depth [] [].

Lemma udp_inv_fresh js jv jp jb jz jq j1 j2 j3 a bs k b mi depth :
  0 ≤ a → 0 < bs → 2 ^ a * bs < 2 ^ 31 → 0 ≤ k < 31 → 0 ≤ b → 0 < mi → 2 ^ b * mi < 2 ^ 31 →
  ∃ p mp w, BufPool_new jb jz jq (2 ^ a) bs = Ok p ∧ MsghdrPool_new js jv jp (2 ^ b) mi = Ok mp ∧
    WriteBufDgram_new j1 j2 j3 mp (2 ^ k) = Ok w ∧
    udp_inv (2 ^ a) bs (2 ^ k) (2 ^ b) mi (udp_fresh w p mp depth) udp_spec_0 [] (seqZ 0 (2 ^ a))
      (seqZ 0 (2 ^ b)) [] [] (replicate (Z.to_nat (2 ^ a)) []).
Proof.
  intros Ha Hbs Ht Hk Hb Hmi Hmt.
  destruct (wbp_fresh jb jz jq j1 j2 a bs k Ha Hbs Ht Hk) as (p & wb & Hp & Hwb & Hw).
  destruct (MsghdrPool_new_rep js jv jp b mi Hb Hmi Hmt) as (mp & Hmp & Hrep).
  exists p, mp. unfold WriteBufDgram_new. rewrite Hwb. step. eexists. split_and!; [done..|].
  assert (0 < 2 ^ k) by lia.
  split; simpl; try done; [apply Hrep|by rewrite app_nil_r| |].
  - split; try done; [|simpl; lia]. exists k. split_and!; [lia..|]. len.
  - by intros e ?%not_elem_of_nil.
Qed.

(** C8. The submission queue has an entry for every message header of the
    pool.  Then any interleaving of appends, prepends, submits, queue flushes and
    completions in any order runs without a fault, the write coroutine stays
    alive, and the datagrams that leave are exactly the submitted ones: each
    completed send carries the address given to its submit and the bytes that
    were pending then, although the kernel reads header, vector and payload only
    at completion. *)
Theorem udp_send_refines_datagrams js jv jp jb jz jq j1 j2 j3 a bs k b mi depth cs :
  0 ≤ a → 0 < bs → 2 ^ a * bs < 2 ^ 31 → 0 ≤ k < 31 → 0 ≤ b → 0 < mi → 2 ^ b * mi < 2 ^ 31 →
  2 ^ b ≤ depth → Forall (udp_cmd_ok bs) cs →
  ∃ p mp w oks ds u, BufPool_new jb jz jq (2 ^ a) bs = Ok p ∧
    MsghdrPool_new js jv jp (2 ^ b) mi = Ok mp ∧ WriteBufDgram_new j1 j2 j3 mp (2 ^ k) = Ok w ∧
    udp_run (udp_fresh w p mp depth) cs = Ok (oks, ds, u) ∧ length oks = length cs ∧
    ds = udp_spec_run udp_spec_0 cs oks ∧ ut_alive u = true.
Proof.
  intros Ha Hbs Ht Hk Hb Hmi Hmt Hd Hcs.
  destruct (udp_inv_fresh js jv jp jb jz jq j1 j2 j3 a bs k b mi depth Ha Hbs Ht Hk Hb Hmi Hmt)
    as (p & mp & w & Hp & Hmp & Hw & Hinv).
  destruct (udp_run_spec _ _ _ _ _ cs _ _ _ _ _ _ _ _ Hinv Hd Hcs) as (oks & ds & u & Hrun & Hl & Hds & Hal).
  by exists p, mp, w, oks, ds, u.
Qed.

Definition udp_demo : list udp_cmd :=
  [UAppend [x01; x02; x03]; USubmit [x7f; x01]; UAppend [x04]; UPrepend [x05; x06]; USubmitIp [x7f; x02; x09];
   UEnter; USubmit [x7f]; UAppend [x07]; USubmit [x0a]; UComplete 1; UEnter; UComplete 0;
   UAppend [x08]; USubmit [x0b]; UEnter; UComplete 0; UComplete 0].

Lemma udp_send_refines_datagrams_witness :
  (∃ p mp w oks ds u, BufPool_new (fun _ => x00) (fun _ => 0) (fun _ => 0) (2 ^ 2) 2 = Ok p ∧
    MsghdrPool_new (fun _ => mkMsghdrSlot false None 0 None 0 [] 0) (fun _ => (0, 0)) (fun _ => 0) (2 ^ 1) 4 = Ok mp ∧
    WriteBufDgram_new (fun _ => 0) (fun _ => 0) (fun _ => 0) mp (2 ^ 2) = Ok w ∧
    udp_run (udp_fresh w p mp 2) udp_demo = Ok (oks, ds, u) ∧ length oks = length udp_demo ∧
    ds = udp_spec_run udp_spec_0 udp_demo oks ∧ ut_alive u = true) ∧
  (p ← BufPool_new (fun _ => x00) (fun _ => 0) (fun _ => 0) 4 2;
   mp ← MsghdrPool_new (fun _ => mkMsghdrSlot false None 0 None 0 [] 0) (fun _ => (0, 0)) (fun _ => 0) 2 4;
   w ← WriteBufDgram_new (fun _ => 0) (fun _ => 0) (fun _ => 0) mp 4;
   '(oks, ds, _) ← udp_run (udp_fresh w p mp 2) udp_demo; Ok (oks, ds)) =
  Ok ([true; true; true; true; true; true; false; false; false; true; true; true; true; true; true; true; false],
      [([x7f; x02; x09], [x05; x06; x04]); ([x7f; x01], [x01; x02; x03]); ([x0b], [x08])]).
Proof.
  split; [|vm_compute; reflexivity].
  apply udp_send_refines_datagrams; try lia.
  repeat (apply Forall_cons; split; [simpl; done || lia|]). apply Forall_nil. done.
Defined.

(** C30. [submit] is transactional, if the submission queue has an entry for
    every message header of the pool: it succeeds exactly when a message header
    is free and the pending bytes fit between one and [max_iov_] blocks; on
    success the datagram is queued for the kernel with the given address, and,
    whether it succeeds or not, nothing stays pending, no block or header is
    lost, and the sends already under way are untouched. *)
Theorem udp_submit_transactional n bs cap mcap mi u sp pend free mfree sqb flb blks addr :
  udp_inv n bs cap mcap mi u sp pend free mfree sqb flb blks →
  Z.of_nat (length addr) ≤ sockaddr_storage_size → mcap ≤ ut_depth u →
  ∃ ok u', UdpChannel_submit u addr = Ok (ok, u') ∧
    ok = negb (bool_decide (mfree = [])) && negb (bool_decide (pend = [])) && (Z.of_nat (length pend) <=? mi) ∧
    ∃ free' mfree' sqb' flb' blks', udp_inv n bs cap mcap mi u'
      (mkUdpSpec [] (us_sq sp ++ if ok then [(addr, us_pend sp)] else []) (us_flight sp))
      [] free' mfree' sqb' flb' blks'.
Proof.
  intros Hinv Ha Hd. destruct (udp_submit_spec _ _ _ _ _ _ _ _ _ _ _ _ _ _ Hinv Ha Hd) as (ok & u' & Hrun & Hok & _ & _ & Hpost).
  exists ok, u'. split; [done|]. split; [done|]. destruct ok; [done|]. by rewrite app_nil_r.
Qed.

Lemma udp_submit_transactional_witness :
  ∃ u sp pend free mfree blks ok u', udp_inv 4 2 4 2 4 u sp pend free mfree [] [] blks ∧
    UdpChannel_submit u [x7f] = Ok (ok, u') ∧ us_pend sp = [x01; x02; x03] ∧ ok = true ∧
    ∃ free' mfree' sqb' flb' blks', udp_inv 4 2 4 2 4 u' (mkUdpSpec [] [([x7f], [x01; x02; x03])] [])
      [] free' mfree' sqb' flb' blks'.
Proof.
  destruct (udp_inv_fresh (fun _ => mkMsghdrSlot false None 0 None 0 [] 0) (fun _ => (0, 0)) (fun _ => 0)
    (fun _ => x00) (fun _ => 0) (fun _ => 0) (fun _ => 0) (fun _ => 0) (fun _ => 0) 2 2 2 1 4 2)
    as (p & mp & w & _ & _ & _ & H0); try lia.
  destruct (append_spec _ _ _ _ _ _ _ _ _ _ [x01; x02; x03] 3 (ui_wbp H0)
    eq_refl ltac:(lia)) as (ok & b & p1 & pend & free & blks & _ & [Hw Hs Hyes _] & Hfit).
  destruct ok; [|vm_compute in Hfit; discriminate].
  destruct (Hyes eq_refl) as (Hst & more & E & Hfr). simpl in E. subst more.
  pose proof (inv_pending _ _ _ _ _ _ _ _ _ _ _ _ _ b p1 pend free blks [x01; x02; x03] H0 Hw Hs Hst) as H1.
  destruct (udp_submit_transactional _ _ _ _ _ _ _ _ _ _ _ _ _ [x7f] H1 ltac:(vm_compute; discriminate) ltac:(vm_compute; discriminate))
    as (ok & u' & Hrun & Hok & Hpost).
  assert (ok = true) as Hok'.
  { rewrite Hok. apply (f_equal length) in Hfr. rewrite length_app, length_seqZ in Hfr.
    rewrite (proj2 (Z.leb_le _ _)) by lia. by destruct pend. }
  rewrite Hok' in Hrun, Hpost.
  eexists _, _, pend, free, _, blks, true, u'. split_and!; [exact H1|exact Hrun|reflexivity|reflexivity|exact Hpost].
Defined.


(** When the submission queue is full, a submit that reports success
    kills the write coroutine: [get_sqe] throws, the exception is dropped, the
    datagram is not handed to the kernel, and every later wake-up is only
    recorded. *)
Theorem udp_writer_dies_when_sq_full n bs cap mcap mi u sp pend free slot mfree sqb flb blks addr :
  udp_inv n bs cap mcap mi u sp pend free (slot :: mfree) sqb flb blks →
  Z.of_nat (length addr) ≤ sockaddr_storage_size → pend ≠ [] → Z.of_nat (length pend) ≤ mi →
  ut_depth u ≤ Z.of_nat (length (ut_sq u)) →
  ∃ u', UdpChannel_submit u addr = Ok (true, u') ∧ ut_alive u' = false ∧ ut_sq u' = ut_sq u ∧
    UdpChannel_notify u' = Ok (ut_with_notify u' (mkNotifyToken true false false)).
Proof.
  intros Hinv Haddr Hne Hle Hfull.
  destruct (submit_got_slot n bs cap mcap mi u sp pend free sqb flb blks addr Haddr slot mfree Hinv)
    as (ch & a & mp & [Hr Hnf] & Hmp & Es & Hsl & Ev & Ha & ->).
  pose proof (ui_wbp Hinv) as Hwbp. pose proof Hwbp as [Hw Hp Hperm].
  assert (Hin : ∀ x, x ∈ pend → 0 ≤ x < n).
  { intros x Hx. apply (wbp_held _ _ _ _ _ _ _ _ _ _ x Hwbp). elt. }
  assert (Hlk : mp_slots mp !! Z.to_nat slot = Some (fresh_slot mi addr slot a ch))
    by (rewrite Es; by apply list_lookup_insert_eq).
  destruct (dgram_submit_yes _ _ _ _ _ _ _ _ _ _ _ _ _ _ _ Hw (ui_mi Hinv) Hp Hin Hmp
    Hr Hnf Hlk (ui_queue Hinv) Hne Hle)
    as (w' & mp1 & -> & Hw' & _ & Hmp1 & Es1 & Hq1 & _). step. pose proof (wr_pos Hw) as Hcap.
  edestruct (notify_full cap mcap mi (ut_with_pools (ut_with_buf u w') (ut_pool u) mp1) mfree slot)
    as (u' & -> & Hal & Hsq & Hno); simpl; try done; [lia|apply Hw'|apply Hinv|lia| |].
  { rewrite Es1. apply list_lookup_insert_eq. rewrite Es, length_insert. done. }
  step. by exists u'.
Qed.

Lemma udp_writer_dies_when_sq_full_witness :
  ∃ u u', ut_depth u = 0 ∧ ut_alive u = true ∧ UdpChannel_submit u [x7f] = Ok (true, u') ∧ ut_alive u' = false ∧
    ut_sq u' = ut_sq u ∧ UdpChannel_notify u' = Ok (ut_with_notify u' (mkNotifyToken true false false)).
Proof.
  destruct (udp_inv_fresh (fun _ => mkMsghdrSlot false None 0 None 0 [] 0) (fun _ => (0, 0)) (fun _ => 0)
    (fun _ => x00) (fun _ => 0) (fun _ => 0) (fun _ => 0) (fun _ => 0) (fun _ => 0) 2 2 2 1 4 0)
    as (p & mp & w & _ & _ & _ & H0); try lia.
  destruct (append_spec _ _ _ _ _ _ _ _ _ _ [x01; x02; x03] 3 (ui_wbp H0)
    eq_refl ltac:(lia)) as (ok & b & p1 & pend & free & blks & _ & [Hw Hs Hyes _] & Hfit).
  destruct ok; [|vm_compute in Hfit; discriminate].
  destruct (Hyes eq_refl) as (Hst & more & E & Hfr). simpl in E. subst more.
  pose proof (inv_pending _ _ _ _ _ _ _ _ _ _ _ _ _ b p1 pend free blks [x01; x02; x03] H0 Hw Hs Hst) as H1.
  change (seqZ 0 (2 ^ 1)) with [0; 1] in H1.
  destruct (udp_writer_dies_when_sq_full _ _ _ _ _ _ _ _ _ _ _ _ _ _ [x7f] H1) as (u' & Hrun & Hal & Hsq & Hno).
  - vm_compute. discriminate.
  - by intros ->.
  - apply (f_equal length) in Hfr. rewrite length_app, length_seqZ in Hfr. lia.
  - simpl. lia.
  - eexists _, u'. split; [|split; [|split; [exact Hrun|done]]]; reflexivity.
Defined.
