(* ===== verification/TcpChannel.v ===== *)
(** * TcpChannel: connections, their two coroutines and their pool

    Models class TcpChannel (include/net/channel.hpp lines 42-88,
    src/net/channel.cpp), [tcp_read_loop] and [tcp_write_loop]
    (src/net/handler.cpp lines 5-73), TcpChannelPool, the accept loop
    (src/net/acceptor.cpp) and the per-batch work of TcpThread and IoThread, over
    the real buffers of the other files.

    A coroutine is its suspension point; resuming it runs the code from there
    to the next one.  The server callbacks are arbitrary programs over the
    channel interface ([app]).  liburing's submission queue is the list of
    prepared operations, bounded by the queue depth. *)
From S2P Require Import Prelude Ring BufPool WriteBuf WriteBufStream BufRing ReadBuf TcpRecv Awaiter.

(** Where a coroutine is: not created, waiting for its completion token,
    waiting for the notify token, running, at its final suspension point. *)
Inductive coro := CoNone | CoToken | CoNotify | CoRunning | CoDone.
#[export] Instance coro_eq_dec : EqDecision coro.
Proof. solve_decision. Defined.

(** Prepared operations, by channel. *)
Inductive sqe :=
  | SqeAccept
  | SqeRecv (c : nat) (fd : Z)
  | SqeWritev (c : nat) (fd : Z) (vecs : list (Z * Z)).

Record TcpChannel := mkTcpChannel {
  tch_fd : Z;
  tch_notify_token : NotifyToken;
  tch_read_buf : ReadBufStream;
  tch_write_buf : WriteBufStream;
  tch_in_flight : Z;
  tch_in_pending_reads : bool;
  tch_read : coro;
  tch_write : coro;
  tch_submitted : Z                (* [submitted_bytes] in the write frame *)
}.

(** A callback: what the server does with the channel it is given. *)
Inductive app :=
  | AppRet
  | AppReadable (k : Z → app)                                   (* readable_bytes() *)
  | AppPeek (size : Z) (k : option (list (list byte)) → app)    (* peek: the pieces *)
  | AppConsume (size : Z) (k : bool → app)
  | AppAppend (d : list byte) (k : bool → app)
  | AppPrepend (d : list byte) (k : bool → app)
  | AppSubmit (k : bool → app)
  | AppClose (k : app).

(** class TcpServer, as far as the channels use it: a callback depends on what it
    reads of its channel, keeps no state of its own and uses no other channel. *)
Record TcpHandlers := mkTcpHandlers {
  h_on_read : app;
  h_on_write : Z → app;
  h_on_accept : app;
  h_on_close : Z → app
}.

Section tcp.
Context {R : Type} {Hlib : BufRingLib R}.

Record TcpThread := mkTcpThread {
  tt_buf_ring : BufRing R;
  tt_buf_pool : BufPool;
  tt_depth : Z;
  tt_sq : list sqe;
  tt_channels : list TcpChannel;
  tt_free_queue : list Z;
  tt_head : Z;
  tt_tail : Z;
  tt_mask : Z;
  tt_pending_reads : list nat;
  tt_accept : coro;
  tt_closed_fds : list Z           (* arguments of ::close, in order *)
}.

Definition tt_with_bufs (t : TcpThread) b p : TcpThread :=
  mkTcpThread b p (tt_depth t) (tt_sq t) (tt_channels t) (tt_free_queue t) (tt_head t) (tt_tail t)
    (tt_mask t) (tt_pending_reads t) (tt_accept t) (tt_closed_fds t).
Definition tt_with_sq (t : TcpThread) q : TcpThread :=
  mkTcpThread (tt_buf_ring t) (tt_buf_pool t) (tt_depth t) q (tt_channels t) (tt_free_queue t) (tt_head t)
    (tt_tail t) (tt_mask t) (tt_pending_reads t) (tt_accept t) (tt_closed_fds t).
Definition tt_with_channels (t : TcpThread) cs : TcpThread :=
  mkTcpThread (tt_buf_ring t) (tt_buf_pool t) (tt_depth t) (tt_sq t) cs (tt_free_queue t) (tt_head t)
    (tt_tail t) (tt_mask t) (tt_pending_reads t) (tt_accept t) (tt_closed_fds t).
Definition tt_with_free (t : TcpThread) q h tl : TcpThread :=
  mkTcpThread (tt_buf_ring t) (tt_buf_pool t) (tt_depth t) (tt_sq t) (tt_channels t) q h tl
    (tt_mask t) (tt_pending_reads t) (tt_accept t) (tt_closed_fds t).
Definition tt_with_pending (t : TcpThread) l : TcpThread :=
  mkTcpThread (tt_buf_ring t) (tt_buf_pool t) (tt_depth t) (tt_sq t) (tt_channels t) (tt_free_queue t)
    (tt_head t) (tt_tail t) (tt_mask t) l (tt_accept t) (tt_closed_fds t).
Definition tt_with_accept (t : TcpThread) a : TcpThread :=
  mkTcpThread (tt_buf_ring t) (tt_buf_pool t) (tt_depth t) (tt_sq t) (tt_channels t) (tt_free_queue t)
    (tt_head t) (tt_tail t) (tt_mask t) (tt_pending_reads t) a (tt_closed_fds t).
Definition tt_close_fd (t : TcpThread) fd : TcpThread :=
  mkTcpThread (tt_buf_ring t) (tt_buf_pool t) (tt_depth t) (tt_sq t) (tt_channels t) (tt_free_queue t)
    (tt_head t) (tt_tail t) (tt_mask t) (tt_pending_reads t) (tt_accept t) (tt_closed_fds t ++ [fd]).

Definition tch_with_fd (ch : TcpChannel) fd : TcpChannel :=
  mkTcpChannel fd (tch_notify_token ch) (tch_read_buf ch) (tch_write_buf ch) (tch_in_flight ch)
    (tch_in_pending_reads ch) (tch_read ch) (tch_write ch) (tch_submitted ch).
Definition tch_with_notify (ch : TcpChannel) n : TcpChannel :=
  mkTcpChannel (tch_fd ch) n (tch_read_buf ch) (tch_write_buf ch) (tch_in_flight ch)
    (tch_in_pending_reads ch) (tch_read ch) (tch_write ch) (tch_submitted ch).
Definition tch_with_read_buf (ch : TcpChannel) r : TcpChannel :=
  mkTcpChannel (tch_fd ch) (tch_notify_token ch) r (tch_write_buf ch) (tch_in_flight ch)
    (tch_in_pending_reads ch) (tch_read ch) (tch_write ch) (tch_submitted ch).
Definition tch_with_write_buf (ch : TcpChannel) w : TcpChannel :=
  mkTcpChannel (tch_fd ch) (tch_notify_token ch) (tch_read_buf ch) w (tch_in_flight ch)
    (tch_in_pending_reads ch) (tch_read ch) (tch_write ch) (tch_submitted ch).
Definition tch_with_in_flight (ch : TcpChannel) n : TcpChannel :=
  mkTcpChannel (tch_fd ch) (tch_notify_token ch) (tch_read_buf ch) (tch_write_buf ch) n
    (tch_in_pending_reads ch) (tch_read ch) (tch_write ch) (tch_submitted ch).
Definition tch_with_pending (ch : TcpChannel) b : TcpChannel :=
  mkTcpChannel (tch_fd ch) (tch_notify_token ch) (tch_read_buf ch) (tch_write_buf ch) (tch_in_flight ch)
    b (tch_read ch) (tch_write ch) (tch_submitted ch).
Definition tch_with_read (ch : TcpChannel) r : TcpChannel :=
  mkTcpChannel (tch_fd ch) (tch_notify_token ch) (tch_read_buf ch) (tch_write_buf ch) (tch_in_flight ch)
    (tch_in_pending_reads ch) r (tch_write ch) (tch_submitted ch).
Definition tch_with_write (ch : TcpChannel) w : TcpChannel :=
  mkTcpChannel (tch_fd ch) (tch_notify_token ch) (tch_read_buf ch) (tch_write_buf ch) (tch_in_flight ch)
    (tch_in_pending_reads ch) (tch_read ch) w (tch_submitted ch).
Definition tch_with_submitted (ch : TcpChannel) n : TcpChannel :=
  mkTcpChannel (tch_fd ch) (tch_notify_token ch) (tch_read_buf ch) (tch_write_buf ch) (tch_in_flight ch)
    (tch_in_pending_reads ch) (tch_read ch) (tch_write ch) n.

(** ** Access to the channels of the thread *)
Definition chan (t : TcpThread) (c : nat) : result TcpChannel :=
  match tt_channels t !! c with Some ch => Ok ch | None => Fault OutOfBounds end.
Definition upd (t : TcpThread) (c : nat) (f : TcpChannel → TcpChannel) : TcpThread :=
  tt_with_channels t (alter f c (tt_channels t)).

Definition TcpChannel_is_closing (ch : TcpChannel) : bool := NotifyToken_is_closed (tch_notify_token ch).
Definition TcpChannel_is_closed (ch : TcpChannel) : bool := tch_fd ch =? -1.
Definition TcpChannel_has_in_flight (ch : TcpChannel) : bool := 0 <? tch_in_flight ch.

(** [get_sqe]: [None] when it throws. *)
Definition get_sqe (t : TcpThread) (op : sqe) : option TcpThread :=
  if tt_depth t <=? Z.of_nat (length (tt_sq t)) then None else Some (tt_with_sq t (tt_sq t ++ [op])).

Definition TcpChannel_in_flight_inc (t : TcpThread) (c : nat) : result TcpThread :=
  ch ← chan t c;
  n ← int_of (tch_in_flight ch + 1);
  Ok (upd t c (fun ch => tch_with_in_flight ch n)).

(** ** TcpChannelPool::release; the counters are [int]s. *)
Definition TcpChannelPool_release (t : TcpThread) (c : nat) : result TcpThread :=
  ch ← chan t c;
  assert_ (TcpChannel_is_closed ch);;
  q ← arr_set (tt_free_queue t) (Z.land (tt_tail t) (tt_mask t)) (Z.of_nat c);
  tl ← int_of (tt_tail t + 1);
  Ok (tt_with_free t q (tt_head t) tl).

(** ** Operations that may wake the write coroutine

    [wake] runs the write coroutine of a channel from [co_await notify_token_]. *)
Section wake.
Context (wake : nat → TcpThread → result TcpThread).

Definition TcpChannel_notify (t : TcpThread) (c : nat) (closing : bool) : result TcpThread :=
  ch ← chan t c;
  let '(resume, n) := (if closing then NotifyToken_notify_close else NotifyToken_notify) (tch_notify_token ch) in
  let t := upd t c (fun ch => tch_with_notify ch n) in
  if resume : bool then wake c t else Ok t.

Definition TcpChannel_submit (t : TcpThread) (c : nat) : result (bool * TcpThread) :=
  ch ← chan t c;
  '(ok, w) ← WriteBufStream_submit (tch_write_buf ch);
  let t := upd t c (fun ch => tch_with_write_buf ch w) in
  if negb ok then Ok (false, t) else t ← TcpChannel_notify t c false; Ok (true, t).

Definition TcpChannel_close (t : TcpThread) (c : nat) : result TcpThread :=
  t ← TcpChannel_notify t c true;
  ch ← chan t c;
  let t := tt_close_fd t (tch_fd ch) in
  Ok (upd t c (fun ch => tch_with_fd ch (-1))).

Definition TcpChannel_on_drained (t : TcpThread) (c : nat) : result TcpThread :=
  ch ← chan t c;
  if TcpChannel_is_closing ch
  then t ← TcpChannel_notify t c false; TcpChannelPool_release t c
  else Ok t.

Definition TcpChannel_in_flight_dec (t : TcpThread) (c : nat) : result TcpThread :=
  ch ← chan t c;
  n ← int_of (tch_in_flight ch - 1);
  let t := upd t c (fun ch => tch_with_in_flight ch n) in
  if n =? 0 then TcpChannel_on_drained t c else Ok t.

(** ** A callback *)
Fixpoint run_app (a : app) (t : TcpThread) (c : nat) : result TcpThread :=
  match a with
  | AppRet => Ok t
  | AppReadable k => ch ← chan t c; run_app (k (rb_readable_bytes (rs_base (tch_read_buf ch)))) t c
  | AppPeek size k =>
      ch ← chan t c;
      '(ok, s) ← ReadBufStream_peek (tch_read_buf ch) (tt_buf_ring t) size;
      let t := upd t c (fun ch => tch_with_read_buf ch s) in
      run_app (k (if ok : bool
                  then Some ((fun e => mem_read (br_bufs (tt_buf_ring t)) e.1 e.2) <$> peek_pieces s)
                  else None)) t c
  | AppConsume size k =>
      ch ← chan t c;
      '(ok, s, b) ← ReadBufStream_consume (tch_read_buf ch) (tt_buf_ring t) size;
      run_app (k ok) (upd (tt_with_bufs t b (tt_buf_pool t)) c (fun ch => tch_with_read_buf ch s)) c
  | AppAppend d k =>
      ch ← chan t c;
      '(ok, w, p) ← WriteBufStream_append (tch_write_buf ch) (tt_buf_pool t) d (Z.of_nat (length d));
      run_app (k ok) (upd (tt_with_bufs t (tt_buf_ring t) p) c (fun ch => tch_with_write_buf ch w)) c
  | AppPrepend d k =>
      ch ← chan t c;
      '(ok, w, p) ← WriteBufStream_prepend (tch_write_buf ch) (tt_buf_pool t) d (Z.of_nat (length d));
      run_app (k ok) (upd (tt_with_bufs t (tt_buf_ring t) p) c (fun ch => tch_with_write_buf ch w)) c
  | AppSubmit k => '(ok, t) ← TcpChannel_submit t c; run_app (k ok) t c
  | AppClose k => t ← TcpChannel_close t c; run_app k t c
  end.
End wake.

(** ** tcp_write_loop *)
Section handlers.
Context (h : TcpHandlers).

(** The end of the coroutine: [write_buf_.reset()] and the final suspension. *)
Definition write_finish (t : TcpThread) (c : nat) : result TcpThread :=
  ch ← chan t c;
  '(w, p) ← WriteBufStream_reset (tch_write_buf ch) (tt_buf_pool t);
  Ok (upd (tt_with_bufs t (tt_buf_ring t) p) c (fun ch => tch_with_write (tch_with_write_buf ch w) CoDone)).

(** From behind the [co_await] to the next suspension or loop iteration; the
    boolean tells whether the loop continues. *)
Definition write_try (t : TcpThread) (c : nat) : result (bool * TcpThread) :=
  ch ← chan t c;
  if TcpChannel_is_closing ch && negb (TcpChannel_has_in_flight ch)
  then t ← write_finish t c; Ok (false, t) else
  '(count, bytes, vecs, w) ← WriteBufStream_peek_iovec (tch_write_buf ch) (tt_buf_pool t);
  let t := upd t c (fun ch => tch_with_write_buf ch w) in
  match vecs with
  | None => Ok (true, t)
  | Some vecs =>
      match get_sqe t (SqeWritev c (tch_fd ch) vecs) with
      | None => Ok (false, upd t c (fun ch => tch_with_write ch CoDone))
      | Some t =>
          t ← TcpChannel_in_flight_inc t c;
          Ok (false, upd t c (fun ch => tch_with_submitted (tch_with_write ch CoToken) bytes))
      end
  end.

(** The loop from its head: await the notify token unless data is queued. *)
Fixpoint write_head (fuel : nat) (t : TcpThread) (c : nat) : result TcpThread :=
  match fuel with
  | O => Fault OutOfFuel
  | S fuel =>
      ch ← chan t c;
      if WriteBufStream_has_send_data (tch_write_buf ch)
      then '(again, t) ← write_try t c; if again : bool then write_head fuel t c else Ok t
      else
        let '(ready, n) := NotifyToken_await_ready (tch_notify_token ch) in
        let t := upd t c (fun ch => tch_with_notify ch n) in
        if ready : bool
        then '(again, t) ← write_try t c; if again : bool then write_head fuel t c else Ok t
        else Ok (upd t c (fun ch =>
               tch_with_write (tch_with_notify ch (NotifyToken_await_suspend n)) CoNotify))
  end.

(** At most three rounds: one that finds a pending wake-up, one that finds
    none, and one that sends. *)
Definition write_fuel : nat := 4.

(** Resumed by the notify token. *)
Definition write_wake (c : nat) (t : TcpThread) : result TcpThread :=
  let t := upd t c (fun ch => tch_with_write ch CoRunning) in
  '(again, t) ← write_try t c;
  if again : bool then write_head write_fuel t c else Ok t.

(** Resumed by its completion token; [wake] is what a notification that finds
    the token's handle would resume meanwhile. *)
Definition write_resume (wake : nat → TcpThread → result TcpThread) (t : TcpThread) (c : nat) (res : Z)
    : result TcpThread :=
  let t := upd t c (fun ch => tch_with_write ch CoRunning) in
  t ← TcpChannel_in_flight_dec wake t c;
  ch ← chan t c;
  if res <=? 0 then
    t ← (if TcpChannel_is_closing ch then Ok t else TcpChannel_close wake t c);
    write_finish t c
  else
    assert_ (u32 res <=? tch_submitted ch);;
    '(w, p) ← WriteBufStream_consume_written (tch_write_buf ch) (tt_buf_pool t) (u32 res);
    let t := upd (tt_with_bufs t (tt_buf_ring t) p) c (fun ch => tch_with_write_buf ch w) in
    t ← run_app wake (h_on_write h res) t c;
    write_head write_fuel t c.

(** The coroutine that runs has taken its handle out of the token, so [wake]
    is never called (TcpWrites.v); resuming a running coroutine would be a
    fault. *)
Definition no_wake (c : nat) (t : TcpThread) : result TcpThread := Fault ResumedRunning.
Definition write_complete : TcpThread → nat → Z → result TcpThread := write_resume no_wake.

(** ** tcp_read_loop *)
Definition arm_recv (t : TcpThread) (c : nat) : result (bool * TcpThread) :=
  ch ← chan t c;
  match get_sqe t (SqeRecv c (tch_fd ch)) with
  | None => Ok (false, upd t c (fun ch => tch_with_read ch CoDone))
  | Some t => t ← TcpChannel_in_flight_inc t c; Ok (true, t)
  end.

Definition mark_pending_read (t : TcpThread) (c : nat) : result TcpThread :=
  ch ← chan t c;
  if tch_in_pending_reads ch then Ok t else
  Ok (tt_with_pending (upd t c (fun ch => tch_with_pending ch true)) (tt_pending_reads t ++ [c])).

(** The buffer of a completion with data. *)
Definition read_store (t : TcpThread) (c : nat) (res flag : Z) : result TcpThread :=
  ch ← chan t c;
  '(_, s, b) ← tcp_read_data (tch_read_buf ch) (tt_buf_ring t) res flag;
  let t := upd (tt_with_bufs t b (tt_buf_pool t)) c (fun ch => tch_with_read_buf ch s) in
  t ← mark_pending_read t c;
  Ok (upd t c (fun ch => tch_with_read ch CoToken)).

(** The end of the coroutine after an error or end of stream. *)
Definition read_close (t : TcpThread) (c : nat) (res : Z) : result TcpThread :=
  t ← run_app write_wake (h_on_close h res) t c;
  ch ← chan t c;
  t ← (if TcpChannel_is_closing ch then Ok t else TcpChannel_close write_wake t c);
  ch ← chan t c;
  '(s, b) ← ReadBufStream_reset (tch_read_buf ch) (tt_buf_ring t);
  Ok (upd (tt_with_bufs t b (tt_buf_pool t)) c (fun ch => tch_with_read (tch_with_read_buf ch s) CoDone)).

Definition read_complete (t : TcpThread) (c : nat) (res flag : Z) : result TcpThread :=
  let t := upd t c (fun ch => tch_with_read ch CoRunning) in
  t ← TcpChannel_in_flight_dec write_wake t c;
  if res <=? 0 then read_close t c res
  else if flag_more flag then read_store t c res flag
  else
    '(armed, t) ← arm_recv t c;
    if armed : bool then read_store t c res flag else Ok t.

(** ** TcpChannel::assign and TcpChannelPool::acquire *)

(** A finished coroutine is destroyed; a live one stays. *)
Definition destroy_done (co : coro) : coro := if decide (co = CoDone) then CoNone else co.

Definition start_read (t : TcpThread) (c : nat) : result TcpThread :=
  ch ← chan t c;
  if decide (tch_read ch = CoNone) then
    '(armed, t) ← arm_recv t c;
    Ok (if armed : bool then upd t c (fun ch => tch_with_read ch CoToken) else t)
  else Fault FrameOverwritten.

(** The frame has its place in the channel: building a coroutine where one is
    still suspended is the fault [FrameOverwritten].  The C++ goes on there with
    a destroyed frame. *)
Definition start_write (t : TcpThread) (c : nat) : result TcpThread :=
  ch ← chan t c;
  if decide (tch_write ch = CoNone)
  then write_head write_fuel (upd t c (fun ch => tch_with_write ch CoRunning)) c
  else Fault FrameOverwritten.

(** [reset(fd)], which no code calls: [assign] keeps the counter and the mark
    of the connection before. *)
Definition Channel_reset (ch : TcpChannel) (fd : Z) : TcpChannel := tch_with_fd ch fd.
Definition TcpChannel_reset (ch : TcpChannel) (fd : Z) : TcpChannel :=
  tch_with_pending (tch_with_in_flight (Channel_reset ch fd) 0) false.

Definition TcpChannel_assign (t : TcpThread) (c : nat) (fd : Z) : result TcpThread :=
  let t := upd t c (fun ch => tch_with_read ch (destroy_done (tch_read ch))) in
  let t := upd t c (fun ch => tch_with_write ch (destroy_done (tch_write ch))) in
  let t := upd t c (fun ch => tch_with_notify (tch_with_fd ch fd) NotifyToken_new) in
  t ← start_read t c;
  t ← start_write t c;
  run_app write_wake (h_on_accept h) t c.

Definition TcpChannelPool_acquire (t : TcpThread) (fd : Z) : result (option nat * TcpThread) :=
  if tt_head t =? tt_tail t then Ok (None, t) else
  idx ← arr_get (tt_free_queue t) (Z.land (tt_head t) (tt_mask t));
  hd ← int_of (tt_head t + 1);
  let t := tt_with_free t (tt_free_queue t) hd (tt_tail t) in
  t ← TcpChannel_assign t (Z.to_nat idx) fd;
  Ok (Some (Z.to_nat idx), t).

(** ** The accept loop: an exception in it terminates the program. *)
Definition accept_complete (t : TcpThread) (res flag : Z) : result TcpThread :=
  if res <? 0 then Ok (tt_with_accept t CoDone) else
  t ← (if flag_more flag then Ok t else
       match get_sqe t SqeAccept with None => Fault Exception | Some t => Ok t end);
  '(ch, t) ← TcpChannelPool_acquire t res;
  Ok (match ch with None => tt_close_fd t res | Some _ => t end).

Definition accept_start (t : TcpThread) : result TcpThread :=
  match get_sqe t SqeAccept with
  | None => Fault Exception
  | Some t => Ok (tt_with_accept t CoToken)
  end.

(** ** One round of the event loop *)

(** A completion: its token, result and flags. *)
Inductive token_id := TokAccept | TokRead (c : nat) | TokWrite (c : nat).

(** [token->complete(res, flags)]: only a suspended coroutine is resumed. *)
Definition complete (t : TcpThread) (tok : token_id) (res flag : Z) : result TcpThread :=
  match tok with
  | TokAccept => if decide (tt_accept t = CoToken) then accept_complete t res flag else Ok t
  | TokRead c =>
      ch ← chan t c;
      if decide (tch_read ch = CoToken) then read_complete t c res flag else Ok t
  | TokWrite c =>
      ch ← chan t c;
      if decide (tch_write ch = CoToken) then write_complete t c res else Ok t
  end.

Fixpoint complete_all (t : TcpThread) (cqes : list (token_id * Z * Z)) : result TcpThread :=
  match cqes with
  | [] => Ok t
  | (tok, res, flag) :: cqes => t ← complete t tok res flag; complete_all t cqes
  end.

(** [for (TcpChannel *ch : pending_reads_)]. *)
Fixpoint read_pending (t : TcpThread) (l : list nat) : result TcpThread :=
  match l with
  | [] => Ok t
  | c :: l =>
      let t := upd t c (fun ch => tch_with_pending ch false) in
      t ← run_app write_wake (h_on_read h) t c;
      read_pending t l
  end.

Definition TcpThread_on_batch_done (t : TcpThread) : result TcpThread :=
  t ← read_pending t (tt_pending_reads t);
  Ok (tt_with_pending t []).

(** One iteration of [IoThread::run_loop]: submit, handle the completions.  The
    kernel takes every entry at the submission, as it does without SQPOLL. *)
Definition TcpThread_round (t : TcpThread) (cqes : list (token_id * Z * Z)) : result TcpThread :=
  t ← complete_all (tt_with_sq t []) cqes;
  TcpThread_on_batch_done t.
End handlers.

(** ** Construction *)

(** The configuration of a TcpServer. *)
Record TcpConfig := mkTcpConfig {
  cfg_buf_pool_size : Z;
  cfg_channel_capacity : Z;
  cfg_buf_ring_size : Z;
  cfg_pool_size : Z;
  cfg_queue_depth : Z;
  cfg_buf_size : Z                (* the default argument of the buffer classes *)
}.

(** The indeterminate contents of fresh arrays. *)
Record junk := mkJunk { junk_byte : nat → byte; junk_z : nat → Z; junk_iov : nat → Z * Z }.

Definition TcpChannel_new (j : junk) (b : BufRing R) (fd capacity : Z) : result TcpChannel :=
  r ← ReadBufStream_new (junk_z j) (junk_z j) (junk_z j) (junk_z j 0) b;
  w ← WriteBufStream_new (junk_z j) (junk_z j) (junk_iov j) capacity;
  Ok (mkTcpChannel fd NotifyToken_new r w 0 false CoNone CoNone 0).

(** The loop of TcpChannelPool's constructor. *)
Definition pool_init_slot (j : junk) (capacity : Z) (i : Z) (t : TcpThread) : result TcpThread :=
  ch ← TcpChannel_new j (tt_buf_ring t) (-1) capacity;
  q ← arr_set (tt_free_queue t) (Z.land (tt_tail t) (tt_mask t)) i;
  tl ← int_of (tt_tail t + 1);
  Ok (tt_with_free (tt_with_channels t (tt_channels t ++ [ch])) q (tt_head t) tl).

Definition TcpChannelPool_new (j : junk) (cfg : TcpConfig) (t : TcpThread) : result TcpThread :=
  let pool_size := cfg_pool_size cfg in
  mask ← int_of (pool_size - 1);
  assert_ (pow2_test pool_size);;
  let t := mkTcpThread (tt_buf_ring t) (tt_buf_pool t) (tt_depth t) (tt_sq t) [] (new_array pool_size (junk_z j))
             0 0 mask (tt_pending_reads t) (tt_accept t) (tt_closed_fds t) in
  for_up (Z.to_nat pool_size) 0 (pool_init_slot j (cfg_channel_capacity cfg)) t.

(** [do_init_resources] without the ring; [next] is the next buffer group id. *)
Definition TcpThread_do_init_resources (j : junk) (cfg : TcpConfig) (next : Z) : result TcpThread :=
  '(b, _) ← BufRing_new (junk_byte j) next (cfg_buf_ring_size cfg) (cfg_buf_size cfg);
  p ← BufPool_new (junk_byte j) (junk_z j) (junk_z j) (cfg_buf_pool_size cfg) (cfg_buf_size cfg);
  TcpChannelPool_new j cfg (mkTcpThread b p (cfg_queue_depth cfg) [] [] [] 0 0 0 [] CoNone []).

(** [run_loop] takes an entry for the read of [wakeup_fd_] and throws when the
    submission queue is full.  The completion of that read resumes nothing, so
    the entry is not in the list of prepared operations. *)
Definition wakeup_start (t : TcpThread) : result TcpThread :=
  if tt_depth t <=? Z.of_nat (length (tt_sq t)) then Fault Exception else Ok t.

(** Then the beginning of [run_loop]: [on_loop_start], the accept loop up to its
    first suspension, and the read of [wakeup_fd_]; the queue needs room for
    both. *)
Definition TcpThread_init (j : junk) (cfg : TcpConfig) (next : Z) : result TcpThread :=
  t ← TcpThread_do_init_resources j cfg next; t ← accept_start t; wakeup_start t.

(** ** Runs: one event of the network per round *)
Inductive net_event :=
  | NAccept (fd : Z)
  | NData (c : nat) (d : list byte) (more : bool)
  | NEnd (c : nat) (res : Z)            (* end of stream, or an error *)
  | NWritten (c : nat) (res : Z).

(** -ENOBUFS: no provided buffer was left. *)
Definition ENOBUFS : Z := 105.

Definition net_round (h : TcpHandlers) (t : TcpThread) (e : net_event) : result TcpThread :=
  match e with
  | NAccept fd => TcpThread_round h t [(TokAccept, fd, CQE_F_MORE)]
  | NData c d more =>
      r ← kernel_receive (tt_buf_ring t) d;
      match r with
      | None => TcpThread_round h t [(TokRead c, - ENOBUFS, 0)]
      | Some (bid, b) =>
          TcpThread_round h (tt_with_bufs t b (tt_buf_pool t))
            [(TokRead c, Z.of_nat (length d), i32 (cqe_flags bid more))]
      end
  | NEnd c res => TcpThread_round h t [(TokRead c, res, 0)]
  | NWritten c res => TcpThread_round h t [(TokWrite c, res, 0)]
  end.

Fixpoint net_run (h : TcpHandlers) (t : TcpThread) (es : list net_event) : result TcpThread :=
  match es with
  | [] => Ok t
  | e :: es => t ← net_round h t e; net_run h t es
  end.
End tcp.
Arguments TcpThread : clear implicits.

(** ** Servers *)

(** TcpEchoServer of benchmarks/echo_server.cpp: the result of [append] is
    not looked at. *)
Fixpoint echo_append (pieces : list (list byte)) (k : app) : app :=
  match pieces with
  | [] => k
  | d :: pieces => AppAppend d (fun _ => echo_append pieces k)
  end.

Definition echo_on_read : app :=
  AppReadable (fun avail =>
    if avail =? 0 then AppRet else
    AppPeek avail (fun res =>
      match res with
      | None => AppRet
      | Some pieces => echo_append pieces (AppConsume avail (fun _ => AppSubmit (fun _ => AppRet)))
      end)).

Definition TcpEchoServer : TcpHandlers :=
  mkTcpHandlers echo_on_read (fun _ => AppRet) AppRet (fun _ => AppRet).
