(* ===== verification/TcpLifecycle.v ===== *)
(** * TcpLifecycle: opening, closing and recycling connections

    Theorems about the connection state machine of TcpChannel.v: what a close
    does on each path, when the channel returns to its pool, and the
    consequences of counting one in-flight operation per multishot receive
    while every completion of it counts down.  Complete runs of the model over
    the list instance of the buffer ring show each situation arise. *)
From S2P Require Import Prelude Ring BufPool WriteBuf WriteBufStream BufRing ReadBuf TcpRecv Awaiter TcpChannel.

Section lifecycle.
Context {R : Type} {Hlib : BufRingLib R} {Hlaws : BufRingLaws R}.
Implicit Types (t : TcpThread R) (ch : TcpChannel) (c : nat).

(** *** Reading and updating channels *)
Lemma chan_upd t c ch f : chan t c = Ok ch → chan (upd t c f) c = Ok (f ch).
Proof.
  unfold chan, upd. destruct (tt_channels t !! c) as [ch'|] eqn:E; [|done]. intros [= ->]. simpl.
  by rewrite list_lookup_alter, decide_True, E.
Qed.

Lemma chan_upd_ne t c d f : c ≠ d → chan (upd t c f) d = chan t d.
Proof. intros Hne. unfold chan, upd. simpl. by rewrite list_lookup_alter_ne. Qed.

(** An update under another one that hides it. *)
Lemma upd_absorb t c f g b p :
  (∀ ch, g (f ch) = g ch) → upd (tt_with_bufs (upd t c f) b p) c g = upd (tt_with_bufs t b p) c g.
Proof.
  intros E. unfold upd, tt_with_bufs, tt_with_channels. simpl. f_equal.
  rewrite list_alter_alter_eq. apply list_alter_ext; [|done]. intros ch _. apply E.
Qed.

Lemma upd_upd t c f g : upd (upd t c f) c g = upd t c (fun ch => g (f ch)).
Proof. unfold upd, tt_with_channels. simpl. by rewrite list_alter_alter_eq. Qed.

(** *** The buffers of a channel

    [q] are the receive buffers it holds, [pend] and [send] its send blocks;
    everything else in the ring and in the pool belongs to others. *)
Definition conn_bufs (rn rbs pn pbs cap : Z) (b : BufRing R) (p : BufPool) (ch : TcpChannel)
    (q pend send : list Z) : Prop :=
  ∃ avail cq other rblks frame free blks,
    br_rep rn rbs b avail cq (q ++ other) rblks ∧ rs_rep rn (tch_read_buf ch) rblks q ∧
    ws_ok pn pbs cap (tch_write_buf ch) p pend send frame free blks.

(** A channel's own control state. *)
#[local] Set Implicit Arguments.
Record conn_state (ch : TcpChannel) (closing pending handle : bool) (r w : coro) (inflight : Z) : Prop := {
  cs_notify : tch_notify_token ch = mkNotifyToken pending closing handle;
  cs_read : tch_read ch = r;
  cs_write : tch_write ch = w;
  cs_inflight : tch_in_flight ch = inflight
}.
#[local] Unset Implicit Arguments.

(** What an operation on one channel leaves alone. *)
Definition same_pool t t' : Prop :=
  tt_free_queue t' = tt_free_queue t ∧ tt_head t' = tt_head t ∧ tt_tail t' = tt_tail t ∧ tt_mask t' = tt_mask t.

Section conn.
Context (rn rbs pn pbs cap : Z).
Let bufs := conn_bufs rn rbs pn pbs cap.

Lemma write_finish_spec t c ch q pend send :
  chan t c = Ok ch → bufs (tt_buf_ring t) (tt_buf_pool t) ch q pend send →
  ∃ w p, write_finish t c =
      Ok (upd (tt_with_bufs t (tt_buf_ring t) p) c (fun ch => tch_with_write (tch_with_write_buf ch w) CoDone)) ∧
    bufs (tt_buf_ring t) p (tch_with_write (tch_with_write_buf ch w) CoDone) q [] [].
Proof.
  intros Hc (avail & cq & other & rblks & frame & free & blks & Hb & Hr & Hw). unfold write_finish.
  rewrite Hc. step. destruct (reset_spec _ _ _ _ _ _ _ _ _ _ Hw) as (w & p & blks' & -> & Hw' & _). step.
  exists w, p. split; [done|]. by eexists _, _, _, _, _, _, _.
Qed.

(** Waking the write coroutine of a closing channel with nothing in flight
    ends it. *)
Lemma wake_ends t c ch pending q pend send infl :
  chan t c = Ok ch → conn_state ch true pending false (tch_read ch) CoNotify infl → infl ≤ 0 →
  bufs (tt_buf_ring t) (tt_buf_pool t) ch q pend send →
  ∃ w p, write_wake c t =
      Ok (upd (tt_with_bufs t (tt_buf_ring t) p) c (fun ch => tch_with_write (tch_with_write_buf ch w) CoDone)) ∧
    bufs (tt_buf_ring t) p (tch_with_write (tch_with_write_buf ch w) CoDone) q [] [].
Proof.
  intros Hc [Hn _ _ Hi] Hle Hb. unfold write_wake, write_try.
  rewrite (chan_upd _ _ _ _ Hc). step. unfold TcpChannel_is_closing, TcpChannel_has_in_flight. simpl tch_notify_token.
  simpl tch_in_flight. rewrite Hn, Hi, (proj2 (Z.ltb_ge _ _)) by lia. step.
  destruct (write_finish_spec (upd t c (fun ch => tch_with_write ch CoRunning)) c
    (tch_with_write ch CoRunning) q pend send) as (w & p & -> & Hb');
    [exact (chan_upd _ _ _ (fun ch => tch_with_write ch CoRunning) Hc)|done|].
  step. exists w, p. split; [|done]. by rewrite upd_absorb.
Qed.

(** Closing a channel whose write coroutine waits, with nothing in flight. *)
Lemma close_idle t c ch q pend send infl :
  chan t c = Ok ch → conn_state ch false false true (tch_read ch) CoNotify infl → infl ≤ 0 →
  bufs (tt_buf_ring t) (tt_buf_pool t) ch q pend send →
  ∃ t' ch', TcpChannel_close write_wake t c = Ok t' ∧ chan t' c = Ok ch' ∧
    conn_state ch' true false false (tch_read ch) CoDone infl ∧ tch_fd ch' = -1 ∧
    tch_in_pending_reads ch' = tch_in_pending_reads ch ∧ same_pool t t' ∧
    tt_closed_fds t' = tt_closed_fds t ++ [tch_fd ch] ∧
    bufs (tt_buf_ring t') (tt_buf_pool t') ch' q [] [].
Proof.
  intros Hc [Hn Hr Hw Hi] Hle Hb. unfold TcpChannel_close, TcpChannel_notify. rewrite Hc. step.
  rewrite Hn. cbn [NotifyToken_notify_close NotifyToken_notify nt_handle nt_pending nt_closed].
  set (n1 := mkNotifyToken false true false).
  destruct (wake_ends (upd t c (fun ch => tch_with_notify ch n1)) c (tch_with_notify ch n1) false q pend send infl)
    as (w & p & -> & Hb'); [exact (chan_upd _ _ _ (fun ch => tch_with_notify ch n1) Hc)|by split|done|done|].
  step. erewrite chan_upd; last first.
  { exact (chan_upd (tt_with_bufs t (tt_buf_ring t) p) c ch (fun ch => tch_with_notify ch n1) Hc). }
  step. eexists _, _. split; [done|]. split.
  { eapply chan_upd. eapply (chan_upd (upd (tt_with_bufs t (tt_buf_ring t) p) c (fun ch => tch_with_notify ch n1))).
    exact (chan_upd (tt_with_bufs t (tt_buf_ring t) p) c ch (fun ch => tch_with_notify ch n1) Hc). }
  split_and!; try done.
Qed.

(** The end of the read coroutine of a channel that is closing. *)
Lemma read_close_closing h t c ch q pend send infl pending handle w res :
  h_on_close h res = AppRet → chan t c = Ok ch → conn_state ch true pending handle (tch_read ch) w infl →
  bufs (tt_buf_ring t) (tt_buf_pool t) ch q pend send →
  ∃ t' ch', read_close h t c res = Ok t' ∧ chan t' c = Ok ch' ∧
    conn_state ch' true pending handle CoDone w infl ∧ tch_fd ch' = tch_fd ch ∧ same_pool t t' ∧
    tt_closed_fds t' = tt_closed_fds t ∧ bufs (tt_buf_ring t') (tt_buf_pool t') ch' [] pend send.
Proof.
  intros Hh Hc [Hn Hr Hw Hi] (avail & cq & other & rblks & frame & free & blks & Hb & Hrs & Hws).
  unfold read_close. rewrite Hh. cbn [run_app]. step. rewrite Hc. step.
  unfold TcpChannel_is_closing at 1. rewrite Hn. cbn [NotifyToken_is_closed nt_closed]. step. rewrite Hc. step.
  destruct (read_reset_spec _ _ _ _ _ _ _ _ _ Hb Hrs) as (s' & b' & rblks' & -> & Hb' & Hrs' & _). step.
  eexists _, _. split; [done|].
  split; [exact (chan_upd (tt_with_bufs t b' (tt_buf_pool t)) c ch
    (fun ch => tch_with_read (tch_with_read_buf ch s') CoDone) Hc)|].
  split_and!; try done. by exists (avail ++ q), cq, other, rblks', frame, free, blks.
Qed.

(** End of stream or an error on a connection with no write in flight: both
    coroutines end and every buffer goes back, but the channel pool is left as
    it was. *)
Lemma peer_close_spec h t c ch q pend send infl res flag :
  h_on_close h res = AppRet → chan t c = Ok ch → conn_state ch false false true CoToken CoNotify infl →
  - 2 ^ 31 < infl ≤ 1 → res ≤ 0 → bufs (tt_buf_ring t) (tt_buf_pool t) ch q pend send →
  ∃ t' ch', complete h t (TokRead c) res flag = Ok t' ∧ chan t' c = Ok ch' ∧
    conn_state ch' true false false CoDone CoDone (infl - 1) ∧ tch_fd ch' = -1 ∧ same_pool t t' ∧
    tt_closed_fds t' = tt_closed_fds t ++ [tch_fd ch] ∧ bufs (tt_buf_ring t') (tt_buf_pool t') ch' [] [] [].
Proof.
  intros Hh Hc [Hn Hr Hw Hi] Hinfl Hres Hb. cbn [complete]. rewrite Hc. step.
  rewrite decide_True by done. unfold read_complete, TcpChannel_in_flight_dec.
  rewrite (chan_upd _ _ _ _ Hc). step. simpl tch_in_flight. rewrite Hi, int_of_ok by lia. step.
  set (f := fun ch => tch_with_in_flight ch (infl - 1)). set (g := fun ch => tch_with_read ch CoRunning).
  pose proof (chan_upd _ _ _ f (chan_upd _ _ _ g Hc)) as Hc1.
  assert (Hdr : (if infl - 1 =? 0 then TcpChannel_on_drained write_wake (upd (upd t c g) c f) c
                 else Ok (upd (upd t c g) c f)) = Ok (upd (upd t c g) c f)).
  { case_test; [|done]. unfold TcpChannel_on_drained. rewrite Hc1. step.
    unfold TcpChannel_is_closing. simpl tch_notify_token. by rewrite Hn. }
  rewrite Hdr. step. rewrite (proj2 (Z.leb_le _ _)) by done.
  destruct (close_idle (upd (upd t c g) c f) c (f (g ch)) q pend send (infl - 1))
    as (t2 & ch2 & Hcl & Hc2 & Hs2 & Hfd2 & _ & Hp2 & Hfds & Hb2); [done|by split|lia|done|].
  unfold read_close. rewrite Hh. cbn [run_app]. step. rewrite Hc1. step.
  unfold TcpChannel_is_closing at 1. simpl tch_notify_token. rewrite Hn. cbn [NotifyToken_is_closed nt_closed].
  rewrite Hcl. step.
  destruct (read_close_closing h t2 c ch2 q [] [] (infl - 1) false false CoDone res Hh Hc2)
    as (t3 & ch3 & Hrc & Hc3 & Hs3 & Hfd3 & Hp3 & Hfds3 & Hb3); [destruct Hs2; by split|done|].
  unfold read_close in Hrc. rewrite Hh in Hrc. cbn [run_app mbind result_bind] in Hrc. rewrite Hc2 in Hrc.
  cbn [mbind result_bind] in Hrc. unfold TcpChannel_is_closing at 1 in Hrc.
  rewrite (cs_notify Hs2) in Hrc. cbn [NotifyToken_is_closed nt_closed mbind result_bind] in Hrc.
  exists t3, ch3. split; [exact Hrc|]. split_and!; try done.
  - by rewrite Hfd3.
  - destruct Hp2 as (? & ? & ? & ?), Hp3 as (? & ? & ? & ?). unfold same_pool. simpl in *. by split_and!; congruence.
  - by rewrite Hfds3, Hfds.
Qed.

(** The channel pool gained channel [c], at its tail. *)
Definition pool_gains t t' (c : nat) : Prop :=
  tt_free_queue t' = <[Z.to_nat (Z.land (tt_tail t) (tt_mask t)) := Z.of_nat c]> (tt_free_queue t) ∧
  tt_head t' = tt_head t ∧ tt_tail t' = tt_tail t + 1 ∧ tt_mask t' = tt_mask t.

(** The pool's ring has its next cell in range and its counter is no [INT_MAX]. *)
Definition pool_room t : Prop :=
  0 ≤ Z.land (tt_tail t) (tt_mask t) < Z.of_nat (length (tt_free_queue t)) ∧ 0 ≤ tt_tail t < 2 ^ 31 - 1.

Lemma pool_release_spec t c ch :
  chan t c = Ok ch → tch_fd ch = -1 → pool_room t →
  ∃ t', TcpChannelPool_release t c = Ok t' ∧ pool_gains t t' c ∧ tt_channels t' = tt_channels t ∧
    tt_buf_ring t' = tt_buf_ring t ∧ tt_buf_pool t' = tt_buf_pool t ∧ tt_closed_fds t' = tt_closed_fds t.
Proof.
  intros Hc Hfd [Hr1 Hr2]. unfold TcpChannelPool_release. rewrite Hc. step.
  unfold TcpChannel_is_closed. rewrite Hfd. step. rewrite arr_set_ok by lia. step.
  rewrite int_of_ok by lia. step. eexists. split; [done|]. by split_and!.
Qed.

(** Waking a drained connection: a waiting write coroutine ends, one whose
    write is in flight stays where it is. *)
Lemma notify_drained t c ch q pend send handle pending r w :
  chan t c = Ok ch → conn_state ch true pending handle r w 0 →
  (handle = true ∧ w = CoNotify ∧ pending = false ∨ handle = false ∧ w = CoToken) →
  bufs (tt_buf_ring t) (tt_buf_pool t) ch q pend send →
  ∃ t' ch', TcpChannel_notify write_wake t c false = Ok t' ∧ chan t' c = Ok ch' ∧ same_pool t t' ∧
    conn_state ch' true (negb handle) false r (if handle then CoDone else w) 0 ∧ tch_fd ch' = tch_fd ch ∧
    bufs (tt_buf_ring t') (tt_buf_pool t') ch' q (if handle then [] else pend) (if handle then [] else send).
Proof.
  intros Hc [Hn Hr Hw Hi] Hcase Hb. unfold TcpChannel_notify. rewrite Hc. step. rewrite Hn.
  destruct Hcase as [(-> & -> & ->)|(-> & ->)]; cbn [NotifyToken_notify nt_handle nt_pending nt_closed].
  - set (n1 := mkNotifyToken false true false).
    pose proof (chan_upd t c _ (fun ch => tch_with_notify ch n1) Hc) as Hc2.
    destruct (wake_ends (upd t c (fun ch => tch_with_notify ch n1)) c _ false q pend send 0 Hc2)
      as (w2 & p2 & -> & Hb2); [by split|lia|done|].
    eexists _, _. split; [done|]. split.
    { exact (chan_upd (tt_with_bufs (upd t c (fun ch => tch_with_notify ch n1)) (tt_buf_ring t) p2) c _ _ Hc2). }
    by split_and!.
  - eexists _, _. split; [done|].
    split; [exact (chan_upd t c _ (fun ch => tch_with_notify ch (mkNotifyToken true true false)) Hc)|].
    by split_and!.
Qed.

(** The receive of a closing connection ends when it is the last counted
    operation: the connection is drained. *)
Lemma drained_spec h t c ch q pend send handle pending w res flag :
  h_on_close h res = AppRet → chan t c = Ok ch → conn_state ch true pending handle CoToken w 1 →
  (handle = true ∧ w = CoNotify ∧ pending = false ∨ handle = false ∧ w = CoToken) →
  tch_fd ch = -1 → pool_room t → res ≤ 0 → bufs (tt_buf_ring t) (tt_buf_pool t) ch q pend send →
  ∃ t' ch', complete h t (TokRead c) res flag = Ok t' ∧ chan t' c = Ok ch' ∧ pool_gains t t' c ∧
    conn_state ch' true (negb handle) false CoDone (if handle then CoDone else w) 0 ∧ tch_fd ch' = -1 ∧
    bufs (tt_buf_ring t') (tt_buf_pool t') ch' [] (if handle then [] else pend) (if handle then [] else send).
Proof.
  intros Hh Hc [Hn Hr Hw Hi] Hcase Hfd Hroom Hres Hb. cbn [complete]. rewrite Hc. step.
  rewrite decide_True by done. unfold read_complete, TcpChannel_in_flight_dec.
  rewrite (chan_upd _ _ _ _ Hc). step. simpl tch_in_flight. rewrite Hi, int_of_ok by lia. step.
  set (f := fun ch => tch_with_in_flight ch (1 - 1)). set (g := fun ch => tch_with_read ch CoRunning).
  pose proof (chan_upd _ _ _ f (chan_upd _ _ _ g Hc)) as Hc1. set (t1 := upd (upd t c g) c f) in *.
  change (1 - 1 =? 0) with true. cbv iota. unfold TcpChannel_on_drained. rewrite Hc1. step.
  unfold TcpChannel_is_closing at 1. simpl tch_notify_token. rewrite Hn. cbn [NotifyToken_is_closed nt_closed].
  destruct (notify_drained t1 c _ q pend send handle pending CoRunning w Hc1)
    as (t2 & ch2 & -> & Hc2 & Hp2 & Hs2 & Hfd2 & Hb2); [by split|done|done|]. simpl tch_fd in Hfd2. rewrite Hfd in Hfd2.
  step. destruct Hp2 as (Eq & Eh & Et & Em).
  destruct (pool_release_spec t2 c ch2 Hc2 Hfd2) as (t3 & -> & Hg & Ec & Eb & Ep & _).
  { unfold pool_room. rewrite Eq, Et, Em. exact Hroom. }
  step. rewrite (proj2 (Z.leb_le _ _)) by done.
  destruct (read_close_closing h t3 c ch2 q (if handle then [] else pend) (if handle then [] else send)
    0 (negb handle) false (if handle then CoDone else w) res Hh)
    as (t4 & ch4 & -> & Hc4 & Hs4 & Hfd4 & (Eq4 & Eh4 & Et4 & Em4) & _ & Hb4).
  { unfold chan in *. by rewrite Ec. } { destruct Hs2. by split. } { by rewrite Eb, Ep. }
  exists t4, ch4. split; [done|]. split; [done|]. split; [|split_and!; try done; congruence].
  destruct Hg as (E1 & E2 & E3 & E4). unfold pool_gains. rewrite Eq4, Eh4, Et4, Em4, E1, E2, E3, E4, Eq, Eh, Et, Em.
  done.
Qed.

(** A completion with data that leaves the multishot receive armed. *)
Lemma more_spec h t c ch pending handle w infl avail i d cq q other rblks :
  chan t c = Ok ch → conn_state ch false pending handle CoToken w infl → - 2 ^ 31 < infl < 2 ^ 31 →
  br_rep rn rbs (tt_buf_ring t) avail ((i, d) :: cq) (q ++ other) rblks → rs_rep rn (tch_read_buf ch) rblks q →
  d ≠ [] →
  ∃ t' ch', complete h t (TokRead c) (Z.of_nat (length d)) (i32 (cqe_flags i true)) = Ok t' ∧
    chan t' c = Ok ch' ∧ conn_state ch' false pending handle CoToken w (infl - 1) ∧ tt_sq t' = tt_sq t ∧
    tch_in_pending_reads ch' = true ∧ (tch_in_pending_reads ch = false → c ∈ tt_pending_reads t') ∧
    recv_stream (tch_read_buf ch') (<[Z.to_nat i := d]> rblks) (q ++ [i]) =
      recv_stream (tch_read_buf ch) rblks q ++ d.
Proof.
  intros Hc [Hn Hr Hw Hi] Hinfl Hb Hrs Hd. cbn [complete]. rewrite Hc. step.
  rewrite decide_True by done. unfold read_complete, TcpChannel_in_flight_dec.
  rewrite (chan_upd _ _ _ _ Hc). step. simpl tch_in_flight. rewrite Hi, int_of_ok by lia. step.
  set (f := fun ch => tch_with_in_flight ch (infl - 1)). set (g := fun ch => tch_with_read ch CoRunning).
  pose proof (chan_upd _ _ _ f (chan_upd _ _ _ g Hc)) as Hc1. set (t1 := upd (upd t c g) c f) in *.
  assert (Hdr : (if infl - 1 =? 0 then TcpChannel_on_drained write_wake t1 c else Ok t1) = Ok t1).
  { case_test; [|done]. unfold TcpChannel_on_drained. rewrite Hc1. step.
    unfold TcpChannel_is_closing. simpl tch_notify_token. by rewrite Hn. }
  rewrite Hdr. step. rewrite (proj2 (Z.leb_gt _ _)) by (destruct d; [done|simpl; lia]).
  assert (Hir : 0 ≤ i < rn) by (eapply br_range; [exact Hb|simpl; elt]).
  pose proof (brr_n Hb). rewrite flag_more_flags by lia. unfold read_store. rewrite Hc1. step.
  destruct (tcp_read_data_spec rn rbs _ _ _ [] i d cq q other rblks true Hb Hrs Hd)
    as (s' & b' & Hrun & Hb' & Hr' & Hst & _). simpl tch_read_buf. simpl tt_buf_ring. rewrite Hrun. step.
  set (t2 := upd _ c _). assert (Hc2 : chan t2 c = Ok (tch_with_read_buf (f (g ch)) s')).
  { exact (chan_upd (tt_with_bufs t1 b' (tt_buf_pool t)) c _ (fun ch => tch_with_read_buf ch s') Hc1). }
  unfold mark_pending_read. rewrite Hc2. step. simpl tch_in_pending_reads.
  destruct (tch_in_pending_reads ch) eqn:Hpr; step.
  - eexists _, _. split; [done|]. split; [exact (chan_upd _ _ _ (fun ch => tch_with_read ch CoToken) Hc2)|].
    by split_and!.
  - eexists _, _. split; [done|].
    split; [exact (chan_upd _ _ _ (fun ch => tch_with_read ch CoToken) (chan_upd t2 c _ (fun ch => tch_with_pending ch true) Hc2))|].
    split_and!; try done. intros _. simpl. apply elem_of_app. right. by left.
Qed.

(** A channel whose write coroutine is live cannot be assigned again. *)
Lemma assign_live h t c ch fd infl pending handle :
  chan t c = Ok ch → conn_state ch true pending handle CoDone CoToken infl → - 2 ^ 31 ≤ infl < 2 ^ 31 - 1 →
  Z.of_nat (length (tt_sq t)) < tt_depth t → TcpChannel_assign h t c fd = Fault FrameOverwritten.
Proof.
  intros Hc [Hn Hr Hw Hi] Hinfl Hsq. unfold TcpChannel_assign.
  set (f1 := fun ch => tch_with_read ch (destroy_done (tch_read ch))).
  set (f2 := fun ch => tch_with_write ch (destroy_done (tch_write ch))).
  set (f3 := fun ch => tch_with_notify (tch_with_fd ch fd) NotifyToken_new).
  pose proof (chan_upd _ _ _ f3 (chan_upd _ _ _ f2 (chan_upd _ _ _ f1 Hc))) as Hc3.
  set (t3 := upd (upd (upd t c f1) c f2) c f3) in *.
  unfold start_read. rewrite Hc3. step.
  rewrite decide_True by (simpl; by rewrite Hr). unfold arm_recv. rewrite Hc3. step.
  unfold get_sqe. simpl tt_depth. simpl tt_sq. rewrite (proj2 (Z.leb_gt _ _)) by done.
  unfold TcpChannel_in_flight_inc. set (t4 := tt_with_sq t3 _).
  assert (Hc4 : chan t4 c = Ok (f3 (f2 (f1 ch)))) by exact Hc3. rewrite Hc4. step.
  simpl tch_in_flight. rewrite Hi, int_of_ok by lia. step.
  unfold start_write. erewrite chan_upd; [|eapply chan_upd; exact Hc4]. step.
  by rewrite decide_False by (simpl; by rewrite Hw).
Qed.
End conn.
End lifecycle.

(** ** Claims *)

(** C39. A connection the peer ends never returns to the channel pool, if the
    server does nothing in [on_close], no write is in flight, the write
    coroutine waits for a notification and the count of operations is at most
    one: both coroutines end, the socket is closed and every buffer is given
    back, but the pool is unchanged, and no later completion of the channel's
    tokens changes anything. *)
Theorem peer_close_leaks_channel {R} {Hlib : BufRingLib R} {Hlaws : BufRingLaws R}
    rn rbs pn pbs cap h (t : TcpThread R) c ch q pend send infl res flag :
  h_on_close h res = AppRet → chan t c = Ok ch → conn_state ch false false true CoToken CoNotify infl →
  - 2 ^ 31 < infl ≤ 1 → res ≤ 0 →
  conn_bufs rn rbs pn pbs cap (tt_buf_ring t) (tt_buf_pool t) ch q pend send →
  ∃ t' ch', complete h t (TokRead c) res flag = Ok t' ∧ chan t' c = Ok ch' ∧ tch_fd ch' = -1 ∧
    tt_closed_fds t' = tt_closed_fds t ++ [tch_fd ch] ∧
    conn_bufs rn rbs pn pbs cap (tt_buf_ring t') (tt_buf_pool t') ch' [] [] [] ∧ same_pool t t' ∧
    ∀ r f, complete h t' (TokRead c) r f = Ok t' ∧ complete h t' (TokWrite c) r f = Ok t'.
Proof.
  intros Hh Hc Hs Hi Hr Hb.
  destruct (peer_close_spec _ _ _ _ _ h t c ch q pend send infl res flag Hh Hc Hs Hi Hr Hb)
    as (t' & ch' & Hrun & Hc' & Hs' & Hfd & Hp & Hfds & Hb').
  exists t', ch'. split_and!; try done. intros r f. destruct Hs' as [_ Er Ew _].
  cbn [complete]. rewrite Hc'. step. by rewrite !decide_False by congruence.
Qed.

(** A connection of a fresh worker with the given control state. *)
Definition one_conn {R} (b : BufRing R) (p : BufPool) (r : ReadBufStream) (w : WriteBufStream)
    (fd infl : Z) (n : NotifyToken) (wr : coro) : TcpThread R :=
  mkTcpThread b p 8 [] [mkTcpChannel fd n r w infl false CoToken wr 0] [0] 1 1 0 [] CoToken [].

Lemma fresh_conn_bufs :
  ∃ (b : BufRing list_ring) p r w, ∀ ch, tch_read_buf ch = r → tch_write_buf ch = w →
    conn_bufs 4 4 4 4 4 b p ch [] [] [].
Proof.
  destruct (BufRing_new_rep (R := list_ring) (fun _ => x00) 0 2 4 (mkListRing 4 [] [])) as (b & _ & _ & Hb);
    [lia..|reflexivity|].
  destruct (ReadBufStream_new_rep (R := list_ring) _ _ (fun _ => 0) (fun _ => 0) (fun _ => 0) 0 _ _ _ _ _ Hb)
    as (r & _ & Hr & _).
  destruct (wbp_fresh (fun _ => x00) (fun _ => 0) (fun _ => 0) (fun _ => 0) (fun _ => 0) 2 4 2)
    as (p & w & _ & _ & Hw); [lia..|].
  exists b, p, r, (mkWriteBufStream w (replicate 4 (0, 0)) 0). intros ch Er Ew.
  eexists _, _, [], _, [], _, _. rewrite Er, Ew. split_and!; [exact Hb|exact Hr|].
  split; simpl; [exact Hw|done|lia|by left].
Qed.

Lemma peer_close_leaks_channel_witness :
  ∃ t t' : TcpThread list_ring, ∃ ch', complete TcpEchoServer t (TokRead 0) 0 0 = Ok t' ∧ chan t' 0 = Ok ch' ∧
    tch_fd ch' = -1 ∧ tt_closed_fds t' = tt_closed_fds t ++ [5] ∧
    conn_bufs 4 4 4 4 4 (tt_buf_ring t') (tt_buf_pool t') ch' [] [] [] ∧ same_pool t t' ∧
    ∀ r f, complete TcpEchoServer t' (TokRead 0) r f = Ok t' ∧ complete TcpEchoServer t' (TokWrite 0) r f = Ok t'.
Proof.
  destruct fresh_conn_bufs as (b & p & r & w & Hb).
  exists (one_conn b p r w 5 1 (mkNotifyToken false false true) CoNotify).
  apply (peer_close_leaks_channel 4 4 4 4 4 TcpEchoServer _ 0
    (mkTcpChannel 5 (mkNotifyToken false false true) r w 1 false CoToken CoNotify 0) [] [] [] 1 0 0);
    [reflexivity|reflexivity|by split|lia|lia|by apply Hb].
Defined.

(** C32. A connection the server closed is recycled when its receive ends, if
    that receive is the last operation and counted as one, so that no write is
    in flight and the write coroutine waits for a notification, the server does
    nothing in [on_close] and the ring of the pool has room: the write coroutine
    ends too, all buffers return and the channel is in the pool exactly once
    more. *)
Theorem local_close_recycles_channel {R} {Hlib : BufRingLib R} {Hlaws : BufRingLaws R}
    rn rbs pn pbs cap h (t : TcpThread R) c ch q pend send res flag :
  h_on_close h res = AppRet → chan t c = Ok ch → conn_state ch true false true CoToken CoNotify 1 →
  tch_fd ch = -1 → pool_room t → res ≤ 0 →
  conn_bufs rn rbs pn pbs cap (tt_buf_ring t) (tt_buf_pool t) ch q pend send →
  ∃ t' ch', complete h t (TokRead c) res flag = Ok t' ∧ chan t' c = Ok ch' ∧ pool_gains t t' c ∧
    conn_state ch' true false false CoDone CoDone 0 ∧
    conn_bufs rn rbs pn pbs cap (tt_buf_ring t') (tt_buf_pool t') ch' [] [] [].
Proof.
  intros Hh Hc Hs Hfd Hroom Hr Hb.
  destruct (drained_spec rn rbs pn pbs cap h t c ch q pend send true false CoNotify res flag Hh Hc Hs)
    as (t' & ch' & Hrun & Hc' & Hg & Hs' & _ & Hb'); try done; [by left|].
  by exists t', ch'.
Qed.

Lemma local_close_recycles_channel_witness :
  ∃ t t' : TcpThread list_ring, ∃ ch', complete TcpEchoServer t (TokRead 0) 0 0 = Ok t' ∧ chan t' 0 = Ok ch' ∧
    pool_gains t t' 0 ∧ conn_state ch' true false false CoDone CoDone 0 ∧
    conn_bufs 4 4 4 4 4 (tt_buf_ring t') (tt_buf_pool t') ch' [] [] [].
Proof.
  destruct fresh_conn_bufs as (b & p & r & w & Hb).
  exists (one_conn b p r w (-1) 1 (mkNotifyToken false true true) CoNotify).
  apply (local_close_recycles_channel 4 4 4 4 4 TcpEchoServer _ 0
    (mkTcpChannel (-1) (mkNotifyToken false true true) r w 1 false CoToken CoNotify 0) [] [] [] 0 0);
    [reflexivity|reflexivity|by split|reflexivity|by vm_compute|lia|by apply Hb].
Defined.

(** C40. A channel can return to the pool too early.  Each completion with data
    of a multishot receive takes one off the count of operations although the
    receive stays armed.  When the server has closed a connection that has both
    a receive and a write outstanding but is counted as having one, then the end
    of the receive (with an [on_close] that does nothing) puts the channel in the
    pool while its write coroutine still waits for the kernel; assigning the
    channel to a new connection then builds a coroutine in the live frame, if the
    submission queue has room for the receive. *)
Theorem drained_with_write_in_flight {R} {Hlib : BufRingLib R} {Hlaws : BufRingLaws R}
    rn rbs pn pbs cap h (t : TcpThread R) c ch q pend send pending res flag :
  h_on_close h res = AppRet → chan t c = Ok ch → conn_state ch true pending false CoToken CoToken 1 →
  tch_fd ch = -1 → pool_room t → res ≤ 0 →
  conn_bufs rn rbs pn pbs cap (tt_buf_ring t) (tt_buf_pool t) ch q pend send →
  ∃ t' ch', complete h t (TokRead c) res flag = Ok t' ∧ chan t' c = Ok ch' ∧ pool_gains t t' c ∧
    tch_write ch' = CoToken ∧
    ∀ fd, Z.of_nat (length (tt_sq t')) < tt_depth t' → TcpChannel_assign h t' c fd = Fault FrameOverwritten.
Proof.
  intros Hh Hc Hs Hfd Hroom Hr Hb.
  destruct (drained_spec rn rbs pn pbs cap h t c ch q pend send false pending CoToken res flag Hh Hc Hs)
    as (t' & ch' & Hrun & Hc' & Hg & Hs' & _ & Hb'); try done; [by right|].
  exists t', ch'. split_and!; try done; [apply Hs'|]. intros fd Hsq.
  by eapply (assign_live h t' c ch' fd 0 true false).
Qed.

Lemma drained_with_write_in_flight_witness :
  ∃ t t' : TcpThread list_ring, ∃ ch', complete TcpEchoServer t (TokRead 0) 0 0 = Ok t' ∧ chan t' 0 = Ok ch' ∧
    pool_gains t t' 0 ∧ tch_write ch' = CoToken ∧
    ∀ fd, Z.of_nat (length (tt_sq t')) < tt_depth t' → TcpChannel_assign TcpEchoServer t' 0 fd = Fault FrameOverwritten.
Proof.
  destruct fresh_conn_bufs as (b & p & r & w & Hb).
  exists (one_conn b p r w (-1) 1 (mkNotifyToken true true false) CoToken).
  apply (drained_with_write_in_flight 4 4 4 4 4 TcpEchoServer _ 0
    (mkTcpChannel (-1) (mkNotifyToken true true false) r w 1 false CoToken CoToken 0) [] [] [] true 0 0);
    [reflexivity|reflexivity|by split|reflexivity|by vm_compute|lia|by apply Hb].
Defined.

(** A completion with data of a multishot receive appends exactly its
    bytes to the unread ones and marks the channel for reading, but takes one
    off the in-flight count although the receive stays armed and nothing new is
    submitted: after [k] such completions the count is [k] below the number of
    operations the kernel holds. *)
Theorem more_completion_uncounts {R} {Hlib : BufRingLib R} {Hlaws : BufRingLaws R}
    rn rbs h (t : TcpThread R) c ch pending handle w infl avail i d cq q other rblks :
  chan t c = Ok ch → conn_state ch false pending handle CoToken w infl → - 2 ^ 31 < infl < 2 ^ 31 →
  br_rep rn rbs (tt_buf_ring t) avail ((i, d) :: cq) (q ++ other) rblks → rs_rep rn (tch_read_buf ch) rblks q →
  d ≠ [] →
  ∃ t' ch', complete h t (TokRead c) (Z.of_nat (length d)) (i32 (cqe_flags i true)) = Ok t' ∧
    chan t' c = Ok ch' ∧ conn_state ch' false pending handle CoToken w (infl - 1) ∧ tt_sq t' = tt_sq t ∧
    tch_in_pending_reads ch' = true ∧
    recv_stream (tch_read_buf ch') (<[Z.to_nat i := d]> rblks) (q ++ [i]) =
      recv_stream (tch_read_buf ch) rblks q ++ d.
Proof.
  intros Hc Hs Hi Hb Hr Hd.
  destruct (more_spec rn rbs h t c ch pending handle w infl avail i d cq q other rblks Hc Hs Hi Hb Hr Hd)
    as (t' & ch' & Hrun & Hc' & Hs' & Hsq & Hp & _ & Hst).
  by exists t', ch'.
Qed.

Lemma more_completion_uncounts_witness :
  ∃ t t' : TcpThread list_ring, ∃ ch' rblks, 
    complete TcpEchoServer t (TokRead 0) 2 (i32 (cqe_flags 0 true)) = Ok t' ∧
    chan t' 0 = Ok ch' ∧ conn_state ch' false false true CoToken CoNotify 0 ∧ tt_sq t' = tt_sq t ∧
    tch_in_pending_reads ch' = true ∧ recv_stream (tch_read_buf ch') rblks [0] = [x01; x02].
Proof.
  destruct (BufRing_new_rep (R := list_ring) (fun _ => x00) 0 2 4 (mkListRing 4 [] [])) as (b & _ & _ & Hb);
    [lia..|reflexivity|].
  destruct (ReadBufStream_new_rep (R := list_ring) _ _ (fun _ => 0) (fun _ => 0) (fun _ => 0) 0 _ _ _ _ _ Hb)
    as (r & _ & Hr & _).
  change (seqZ 0 (2 ^ 2)) with [0; 1; 2; 3] in Hb.
  destruct (br_receive _ _ _ _ _ _ _ _ [x01; x02] Hb ltac:(simpl; lia)) as (b' & _ & Hb').
  destruct (wbp_fresh (fun _ => x00) (fun _ => 0) (fun _ => 0) (fun _ => 0) (fun _ => 0) 2 4 2)
    as (p & w & _ & _ & _); [lia..|].
  set (w' := mkWriteBufStream w (replicate 4 (0, 0)) 0).
  pose proof (more_completion_uncounts 4 4 TcpEchoServer
    (one_conn b' p r w' 5 1 (mkNotifyToken false false true) CoNotify) 0
    (mkTcpChannel 5 (mkNotifyToken false false true) r w' 1 false CoToken CoNotify 0) false true CoNotify 1
    [1; 2; 3] 0 [x01; x02] [] [] [] _ eq_refl ltac:(by split) ltac:(lia) Hb' Hr ltac:(done))
    as (t' & ch' & H1 & H2 & H3 & H4 & H5 & H6).
  eexists _, t', ch', _. split_and!; [exact H1|exact H2|exact H3|exact H4|exact H5|].
  etransitivity; [exact H6|]. unfold recv_stream, stream. simpl. by rewrite drop_nil.
Defined.

(** *** Complete runs *)
Definition run_junk : junk := mkJunk (fun _ => x00) (fun _ => 0) (fun _ => (0, 0)).

(** A worker with the given number of channels, four four-byte buffers on each
    side and a submission queue of eight entries. *)
Definition run_server (pool_size : Z) (h : TcpHandlers) (es : list net_event) : result (TcpThread list_ring) :=
  t ← TcpThread_init run_junk (mkTcpConfig 4 4 4 pool_size 8 4) 0; net_run h t es.

(** Fault, or the sockets closed so far. *)
Definition closed_fds (r : result (TcpThread list_ring)) : result (list Z) := t ← r; Ok (tt_closed_fds t).

(** An echo server with two channels serves two connections, each ended by
    its peer, and from then on drops every connection it accepts. *)
Theorem peer_closes_exhaust_the_pool :
  closed_fds (run_server 2 TcpEchoServer
    [NAccept 5; NData 0 [x01; x02] true; NWritten 0 2; NEnd 0 0; NAccept 6; NEnd 1 0; NAccept 7; NAccept 8]) =
  Ok [5; 6; 7; 8].
Proof. vm_compute. reflexivity. Qed.

(** A server that answers a request and closes. *)
Definition reply_and_close : TcpHandlers :=
  mkTcpHandlers (AppAppend [x2a] (fun _ => AppSubmit (fun _ => AppClose AppRet))) (fun _ => AppRet) AppRet
    (fun _ => AppRet).

(** The same events with and without IORING_CQE_F_MORE on the request: a
    server that answers and closes recycles its channel when the receive was
    re-armed, and with a multishot receive builds the next connection's
    coroutine in the frame of a live one. *)
Theorem reply_and_close_overwrites_live_frame :
  closed_fds (run_server 1 reply_and_close
    [NAccept 5; NData 0 [x01] false; NEnd 0 0; NWritten 0 1; NAccept 6]) = Ok [5] ∧
  closed_fds (run_server 1 reply_and_close [NAccept 5; NData 0 [x01] true; NEnd 0 0; NAccept 6]) =
  Fault FrameOverwritten.
Proof. split; vm_compute; reflexivity. Qed.
