(* ===== verification/TcpWrites.v ===== *)
(** * TcpWrites: at most one write per connection

    The step relation of a TCP worker and the kernel that holds its submitted
    operations, and the invariant that makes the README's promise "at most one
    write SQE in flight per connection" true in every reachable state, for
    every server and every order of completions. *)
From stdpp Require Import relations.
From S2P Require Import Prelude Ring BufPool WriteBuf WriteBufStream BufRing ReadBuf TcpRecv Awaiter TcpChannel TcpLifecycle.

Section writes.
Context {R : Type} {Hlib : BufRingLib R}.
Implicit Types (t : TcpThread R) (ch : TcpChannel) (c : nat) (k : nat → nat).

(** The writes of a channel among prepared operations. *)
Definition is_write (c : nat) (e : sqe) : bool :=
  match e with SqeWritev d _ _ => bool_decide (c = d) | _ => false end.
Definition writes (c : nat) (l : list sqe) : nat := length (filter (is_write c) l).

(** A worker together with the number of writes the kernel holds for each
    channel. *)
Inductive kstep (h : TcpHandlers) : TcpThread R * (nat → nat) → TcpThread R * (nat → nat) → Prop :=
  | k_submit t k : kstep h (t, k) (tt_with_sq t [], fun c => (k c + writes c (tt_sq t))%nat)
  | k_receive t k d bid b :
      kernel_receive (tt_buf_ring t) d = Ok (Some (bid, b)) →
      kstep h (t, k) (tt_with_bufs t b (tt_buf_pool t), k)
  | k_accept t k res flag t' :
      complete h t TokAccept res flag = Ok t' → kstep h (t, k) (t', k)
  | k_read t k c res flag t' :
      complete h t (TokRead c) res flag = Ok t' → kstep h (t, k) (t', k)
  | k_write t k c res flag t' :
      (0 < k c)%nat → complete h t (TokWrite c) res flag = Ok t' →
      kstep h (t, k) (t', fun d => if decide (d = c) then (k d - 1)%nat else k d)
  | k_batch t k t' : TcpThread_on_batch_done h t = Ok t' → kstep h (t, k) (t', k).

(** ** The invariant *)
Definition on_token (ch : TcpChannel) : nat := if decide (tch_write ch = CoToken) then 1%nat else 0%nat.

Record chan_w (n : nat) (ch : TcpChannel) : Prop := {
  cw_handle : nt_handle (tch_notify_token ch) = true → tch_write ch = CoNotify;
  cw_count : n = on_token ch
}.

Definition winv (k : nat → nat) t : Prop :=
  ∀ c ch, tt_channels t !! c = Some ch → chan_w (writes c (tt_sq t) + k c) ch.

Lemma chan_Some t c ch : chan t c = Ok ch ↔ tt_channels t !! c = Some ch.
Proof. unfold chan. destruct (_ !! _); split; intros; simplify_eq; done. Qed.

(** Updating a channel's state. *)
Lemma winv_upd k t c f :
  winv k t →
  (∀ ch, chan t c = Ok ch → chan_w (writes c (tt_sq t) + k c) ch → chan_w (writes c (tt_sq t) + k c) (f ch)) →
  winv k (upd t c f).
Proof.
  intros H Hf d ch. unfold upd. simpl. destruct (decide (c = d)) as [<-|Hne].
  - rewrite list_lookup_alter_eq. destruct (tt_channels t !! c) as [ch0|] eqn:E; simpl; [|done].
    intros [= <-]. apply Hf; [by apply chan_Some|by apply H].
  - rewrite list_lookup_alter_ne by done. apply H.
Qed.

(** Updates that keep the write coroutine and the token. *)
Definition keeps (f : TcpChannel → TcpChannel) : Prop :=
  ∀ ch, tch_write (f ch) = tch_write ch ∧ tch_notify_token (f ch) = tch_notify_token ch.

Lemma winv_keep k t c f : winv k t → keeps f → winv k (upd t c f).
Proof.
  intros H Hf. apply winv_upd; [done|]. intros ch _ [H1 H2]. destruct (Hf ch) as [E1 E2].
  split; unfold on_token in *; by rewrite ?E1, ?E2.
Qed.

Lemma winv_bufs k t b p : winv k t → winv k (tt_with_bufs t b p).
Proof. done. Qed.

(** Preparing an operation that is not a write. *)
Lemma writes_app c l l' : writes c (l ++ l') = (writes c l + writes c l')%nat.
Proof. unfold writes. by rewrite filter_app, length_app. Qed.

Lemma get_sqe_winv k t op t' :
  winv k t → get_sqe t op = Some t' → (∀ c, is_write c op = false) → winv k t'.
Proof.
  unfold get_sqe. intros H Hs Hop. case_match; simplify_eq. intros c ch Hc. simpl.
  rewrite writes_app. unfold writes at 2. rewrite filter_cons_False, filter_nil by (rewrite Hop; intros []).
  simpl. rewrite Nat.add_0_r. by apply H.
Qed.

(** Close a goal about an update that matters to nobody. *)
Ltac keep := repeat first
  [ assumption
  | apply winv_keep; [|by intros ?]
  | apply winv_bufs ].

Lemma in_flight_inc_winv k t c t' : winv k t → TcpChannel_in_flight_inc t c = Ok t' → winv k t'.
Proof. unfold TcpChannel_in_flight_inc. intros. ok_inv. keep. Qed.

Lemma pool_release_winv k t c t' : winv k t → TcpChannelPool_release t c = Ok t' → winv k t'.
Proof. unfold TcpChannelPool_release. intros. ok_inv. done. Qed.

(** ** Operations that may wake the write coroutine

    The coroutine is woken with its token's handle just taken. *)
Definition wakes k (wake : nat → TcpThread R → result (TcpThread R)) : Prop :=
  ∀ c t ch t', winv k t → chan t c = Ok ch → tch_write ch = CoNotify →
    nt_handle (tch_notify_token ch) = false → wake c t = Ok t' → winv k t'.

Section wake.
Context (k : nat → nat) (wake : nat → TcpThread R → result (TcpThread R)) (Hw : wakes k wake).

(** A notification takes the handle out of the token. *)
Lemma notify_handle (closing : bool) n r n' :
  (if closing then NotifyToken_notify_close else NotifyToken_notify) n = (r, n') →
  r = nt_handle n ∧ nt_handle n' = false.
Proof. destruct closing, n as [p cl []]; cbn; intros; simplify_eq/=; done. Qed.

Lemma notify_winv t c b t' : winv k t → TcpChannel_notify wake t c b = Ok t' → winv k t'.
Proof.
  unfold TcpChannel_notify. intros H E. ok_inv. rename x into ch.
  destruct ((if b then _ else _) _) as [r n'] eqn:En. apply notify_handle in En as [-> Hn'].
  assert (H' : winv k (upd t c (fun ch => tch_with_notify ch n'))).
  { apply winv_upd; [done|]. intros ch' _ [_ Hc]. split; simpl; [by rewrite Hn'|done]. }
  case_match eqn:Eh; [|by simplify_eq].
  eapply Hw; [exact H'|exact (chan_upd _ _ _ (fun ch => tch_with_notify ch n') H0)|..|exact E]; [|done].
  simpl. apply chan_Some in H0. by apply (H _ _ H0).
Qed.

Lemma submit_winv t c r t' : winv k t → TcpChannel_submit wake t c = Ok (r, t') → winv k t'.
Proof.
  unfold TcpChannel_submit. intros H E. ok_inv. case_match; ok_inv; [simplify_eq; keep|].
  simplify_eq. eapply notify_winv; [|done]. keep.
Qed.

Lemma close_winv t c t' : winv k t → TcpChannel_close wake t c = Ok t' → winv k t'.
Proof.
  unfold TcpChannel_close. intros H E. ok_inv. apply notify_winv in H0; [|done]. by keep.
Qed.

Lemma in_flight_dec_winv t c t' : winv k t → TcpChannel_in_flight_dec wake t c = Ok t' → winv k t'.
Proof.
  unfold TcpChannel_in_flight_dec, TcpChannel_on_drained. intros H E. ok_inv.
  case_match; ok_inv; [|keep]. case_match; ok_inv; [|keep].
  eapply pool_release_winv; [|done]. eapply notify_winv; [|done]. keep.
Qed.

Lemma run_app_winv a : ∀ t c t', winv k t → run_app wake a t c = Ok t' → winv k t'.
Proof.
  induction a; intros t c t' Ht E; cbn [run_app] in E; ok_inv; try done;
    try (eapply H; [|done]; keep).
  - eapply submit_winv; done.
  - eapply IHa; [|done]. by eapply close_winv.
Qed.
End wake.

(** ** The write coroutine *)
Definition running t c : Prop := ∃ ch, chan t c = Ok ch ∧ tch_write ch = CoRunning.

Lemma running_upd t c f : running t c → (∀ ch, tch_write (f ch) = tch_write ch) → running (upd t c f) c.
Proof. intros (ch & Hc & Hr) Hf. exists (f ch). split; [by apply chan_upd|by rewrite Hf]. Qed.

(** A running coroutine has no write prepared and has left its token. *)
Lemma running_chan_w k t c ch : winv k t → running t c → chan t c = Ok ch →
  (writes c (tt_sq t) + k c)%nat = 0%nat ∧ nt_handle (tch_notify_token ch) = false.
Proof.
  intros H (ch' & Hc & Hr) Hc'. rewrite Hc in Hc'. simplify_eq. apply chan_Some in Hc.
  destruct (H _ _ Hc) as [Hh Hn]. unfold on_token in Hn. rewrite decide_False in Hn by congruence.
  split; [done|]. destruct (nt_handle _); [|done]. by rewrite Hh in Hr.
Qed.

(** It may stop anywhere but on its completion token. *)
Lemma winv_stop k t c f co :
  winv k t → running t c → co ≠ CoToken → (∀ ch, tch_write (f ch) = co) →
  (∀ ch, nt_handle (tch_notify_token (f ch)) = true →
     nt_handle (tch_notify_token ch) = true ∨ co = CoNotify) →
  winv k (upd t c f).
Proof.
  intros H Hr Hco Hf Hh. apply winv_upd; [done|]. intros ch Hc _.
  destruct (running_chan_w k t c ch H Hr Hc) as [-> Hn].
  split; unfold on_token; rewrite Hf; [|by rewrite decide_False].
  intros Hx. destruct (Hh ch Hx); [congruence|done].
Qed.

Lemma write_finish_winv k t c t' : winv k t → running t c → write_finish t c = Ok t' → winv k t'.
Proof.
  unfold write_finish. intros H Hr E. ok_inv. eapply (winv_stop _ _ _ _ CoDone); [done..|by left].
Qed.

(** Preparing a write and waiting for it. *)
Lemma winv_prepare k t c fd vecs t1 t2 bytes :
  winv k t → running t c → get_sqe t (SqeWritev c fd vecs) = Some t1 →
  TcpChannel_in_flight_inc t1 c = Ok t2 →
  winv k (upd t2 c (fun ch => tch_with_submitted (tch_with_write ch CoToken) bytes)).
Proof.
  unfold get_sqe, TcpChannel_in_flight_inc. intros H Hr Hs E. case_match; simplify_eq. ok_inv.
  set (sq := tt_sq t ++ _). intros d ch. unfold upd. simpl.
  assert (Hd : writes d sq = (writes d (tt_sq t) + if decide (d = c) then 1 else 0)%nat).
  { unfold sq. rewrite writes_app. f_equal. unfold writes. simpl. unfold filter, list_filter. simpl.
    repeat case_decide; simplify_eq; try done; exfalso; by repeat case_bool_decide. }
  destruct (decide (c = d)) as [<-|Hne].
  - rewrite !list_lookup_alter_eq. destruct (tt_channels t !! c) as [ch0|] eqn:Ec; simpl; [|done].
    intros [= <-]. apply chan_Some in Ec. destruct (running_chan_w k t c ch0 H Hr Ec) as [Hz Hn].
    split; simpl; [congruence|]. rewrite Hd, decide_True by done. unfold on_token. simpl. lia.
  - rewrite !list_lookup_alter_ne by done. intros Hc. rewrite Hd, decide_False, Nat.add_0_r by done.
    by apply H.
Qed.

Lemma write_try_winv k t c again t' :
  winv k t → running t c → write_try t c = Ok (again, t') →
  winv k t' ∧ (again = true → running t' c).
Proof.
  unfold write_try. intros H Hr E. ok_inv. case_match; ok_inv.
  { simplify_eq. split; [by eapply write_finish_winv|done]. }
  match type of E with context [upd t c ?f] => set (t1 := upd t c f) in * end.
  assert (winv k t1) by keep. assert (running t1 c) by by apply running_upd.
  case_match; [|by simplify_eq]. case_match; ok_inv; simplify_eq; (split; [|done]).
  - by eapply winv_prepare.
  - eapply (winv_stop _ _ _ _ CoDone); [done..|by left].
Qed.

Lemma write_head_winv fuel k : ∀ t c t',
  winv k t → running t c → write_head fuel t c = Ok t' → winv k t'.
Proof.
  assert (Hgo : ∀ fuel t c t',
    (∀ t c t', winv k t → running t c → write_head fuel t c = Ok t' → winv k t') →
    winv k t → running t c →
    ('(again, t) ← write_try t c; if again : bool then write_head fuel t c else Ok t) = Ok t' → winv k t').
  { clear. intros fuel t c t' IH H Hr E. ok_inv. apply (write_try_winv k) in H0 as [? ?]; [|done..].
    case_match; [eauto|by simplify_eq]. }
  induction fuel as [|fuel IH]; intros t c t' H Hr E; cbn [write_head] in E; [done|]. ok_inv.
  case_match; [by eapply Hgo|].
  unfold NotifyToken_await_ready in E. destruct (nt_pending (tch_notify_token x)) eqn:Ep; cbn beta iota in E.
  - eapply Hgo; [done| | |exact E]; [|by apply running_upd]. apply winv_upd; [done|].
    intros ch Hc [? ?]. split; [|done]. simpl. by assert (x = ch) as -> by congruence.
  - simplify_eq. rewrite upd_upd. eapply (winv_stop _ _ _ _ CoNotify); [done..|by right].
Qed.

Lemma write_wake_winv k : wakes k write_wake.
Proof.
  intros c t ch t' H Hc Hn Hh E. unfold write_wake in E.
  assert (running (upd t c (fun ch => tch_with_write ch CoRunning)) c).
  { eexists. split; [by apply chan_upd|done]. }
  assert (winv k (upd t c (fun ch => tch_with_write ch CoRunning))).
  { apply winv_upd; [done|]. intros ch' Hc' [_ Hn']. simplify_eq. rewrite Hc in Hc'. simplify_eq.
    split; simpl; [by rewrite Hh|]. rewrite Hn'. unfold on_token. by rewrite Hn. }
  ok_inv. apply (write_try_winv k) in H2 as [? ?]; [|done..].
  case_match; [|by simplify_eq]. eapply write_head_winv; [| |exact E]; auto.
Qed.

Lemma no_wake_winv k : wakes k no_wake.
Proof. by intros c t ch t' _ _ _ _ E. Qed.

(** ** The completions *)
Section complete.
Context (h : TcpHandlers).

(** The rest of [write_complete], with the coroutine running. *)
Lemma notify_running t c b t' :
  running t c → TcpChannel_notify no_wake t c b = Ok t' → running t' c.
Proof.
  unfold TcpChannel_notify. intros Hr E. ok_inv. destruct ((if b then _ else _) _) as [r n'].
  case_match; [done|]. simplify_eq. by apply running_upd.
Qed.

Lemma close_running t c t' : running t c → TcpChannel_close no_wake t c = Ok t' → running t' c.
Proof.
  unfold TcpChannel_close. intros Hr E. ok_inv. eapply notify_running in H; [|done]. by apply running_upd.
Qed.

Lemma in_flight_dec_running t c t' :
  running t c → TcpChannel_in_flight_dec no_wake t c = Ok t' → running t' c.
Proof.
  unfold TcpChannel_in_flight_dec, TcpChannel_on_drained, TcpChannelPool_release. intros Hr E. ok_inv.
  case_match; ok_inv; [case_match; ok_inv|]; try by apply running_upd.
  match goal with H : TcpChannel_notify _ _ _ _ = Ok _ |- _ => eapply notify_running in H; [exact H|] end.
  by apply running_upd.
Qed.

Lemma submit_running t c r t' : running t c → TcpChannel_submit no_wake t c = Ok (r, t') → running t' c.
Proof.
  unfold TcpChannel_submit. intros H E. ok_inv. case_match; ok_inv; simplify_eq; [by apply running_upd|].
  eapply notify_running; [|done]. by apply running_upd.
Qed.

Lemma run_app_running a : ∀ t c t', running t c → run_app no_wake a t c = Ok t' → running t' c.
Proof.
  induction a; intros t c t' Ht E; cbn [run_app] in E; ok_inv; try done;
    try (eapply H; [|done]; by apply running_upd).
  - by eapply H.
  - eapply H; [|done]. by eapply submit_running.
  - eapply IHa; [|done]. by eapply close_running.
Qed.

(** A completed write leaves the kernel and its coroutine runs. *)
Definition after_write k c : nat → nat := fun d => if decide (d = c) then (k d - 1)%nat else k d.

Lemma resume_winv k t c ch :
  winv k t → chan t c = Ok ch → tch_write ch = CoToken → (0 < k c)%nat →
  winv (after_write k c) (upd t c (fun ch => tch_with_write ch CoRunning)) ∧
  running (upd t c (fun ch => tch_with_write ch CoRunning)) c.
Proof.
  intros H Hc Hco Hk. split; [|by eexists; split; [by apply chan_upd|done]].
  intros d ch'. unfold upd, after_write. simpl. case_decide as Hd; [subst d|].
  - rewrite list_lookup_alter_eq. apply chan_Some in Hc. rewrite Hc. simpl. intros [= <-].
    destruct (H _ _ Hc) as [Hh Hn]. unfold on_token in Hn. rewrite decide_True in Hn by done.
    split; simpl; [|unfold on_token; simpl; lia]. intros Ht. rewrite Hh in Hco by done. done.
  - rewrite list_lookup_alter_ne by done. apply H.
Qed.

Lemma write_complete_winv k t c res ch t' :
  winv k t → chan t c = Ok ch → tch_write ch = CoToken → (0 < k c)%nat →
  write_complete h t c res = Ok t' → winv (after_write k c) t'.
Proof.
  unfold write_complete, write_resume. intros H Hc Hco Hk E.
  destruct (resume_winv k t c ch H Hc Hco Hk) as [H0 Hr].
  set (t0 := upd t c _) in *. set (k' := after_write k c) in *.
  ok_inv. rename H1 into Ed. pose proof (in_flight_dec_running _ _ _ Hr Ed).
  apply (in_flight_dec_winv k' _ (no_wake_winv k')) in Ed; [|done]. case_match; ok_inv.
  - match goal with Hx : (if TcpChannel_is_closing _ then _ else _) = Ok _ |- _ => rename Hx into Ex end.
    eapply write_finish_winv; [..|exact E]; (case_match; [by simplify_eq|]).
    + eapply close_winv; [apply no_wake_winv| |exact Ex]. done.
    + by eapply close_running.
  - eapply write_head_winv; [..|exact E].
    + eapply run_app_winv; [apply no_wake_winv| |done]. keep.
    + eapply run_app_running; [|done]. by apply running_upd.
Qed.

(** What runs inside the coroutine does not depend on what a wake-up would
    do. *)
Section reentry.
Context (k : nat → nat) (wake : nat → TcpThread R → result (TcpThread R)).

Lemma notify_no_wake t c b :
  winv k t → running t c → TcpChannel_notify wake t c b = TcpChannel_notify no_wake t c b.
Proof.
  intros H Hr. unfold TcpChannel_notify. destruct (chan t c) as [ch|] eqn:Hc; [|done]. step.
  destruct (running_chan_w k t c ch H Hr Hc) as [_ Hh].
  destruct ((if b then _ else _) _) as [r n'] eqn:En. apply notify_handle in En as [-> _]. by rewrite Hh.
Qed.

Lemma submit_no_wake t c :
  winv k t → running t c → TcpChannel_submit wake t c = TcpChannel_submit no_wake t c.
Proof.
  intros H Hr. unfold TcpChannel_submit. destruct (chan t c); [|done]. step.
  destruct (WriteBufStream_submit _) as [[[] w]|]; [|done..]. step.
  rewrite notify_no_wake; [done|keep|by apply running_upd].
Qed.

Lemma close_no_wake t c :
  winv k t → running t c → TcpChannel_close wake t c = TcpChannel_close no_wake t c.
Proof. intros. unfold TcpChannel_close. by rewrite notify_no_wake. Qed.

Lemma in_flight_dec_no_wake t c :
  winv k t → running t c → TcpChannel_in_flight_dec wake t c = TcpChannel_in_flight_dec no_wake t c.
Proof.
  intros H Hr. unfold TcpChannel_in_flight_dec, TcpChannel_on_drained.
  destruct (chan t c); [|done]. step. destruct (int_of _); [|done]. step. case_match; [|done].
  destruct (chan (upd _ _ _) c); [|done]. step. case_match; [|done].
  rewrite notify_no_wake; [done|keep|by apply running_upd].
Qed.

Lemma run_app_no_wake a : ∀ t c,
  winv k t → running t c → run_app wake a t c = run_app no_wake a t c.
Proof.
  induction a; intros t c Ht Hr; cbn [run_app]; try done;
    try (destruct (chan t c); [step|done]).
  - by apply H.
  - destruct (ReadBufStream_peek _ _ _) as [[? ?]|]; [step|done]. apply H; [keep|by apply running_upd].
  - destruct (ReadBufStream_consume _ _ _) as [[[? ?] ?]|]; [step|done]. apply H; [keep|by apply running_upd].
  - destruct (WriteBufStream_append _ _ _ _) as [[[? ?] ?]|]; [step|done]. apply H; [keep|by apply running_upd].
  - destruct (WriteBufStream_prepend _ _ _ _) as [[[? ?] ?]|]; [step|done]. apply H; [keep|by apply running_upd].
  - rewrite submit_no_wake by done. destruct (TcpChannel_submit no_wake t c) as [[r t1]|] eqn:E; [step|done].
    apply H; [by eapply submit_winv; [apply no_wake_winv|..]|by eapply submit_running].
  - rewrite close_no_wake by done. destruct (TcpChannel_close no_wake t c) as [t1|] eqn:E; [step|done].
    apply IHa; [by eapply close_winv; [apply no_wake_winv|..]|by eapply close_running].
Qed.
End reentry.

Lemma write_resume_no_wake k wake t c ch res :
  winv k t → chan t c = Ok ch → tch_write ch = CoToken → (0 < k c)%nat →
  write_resume h wake t c res = write_complete h t c res.
Proof.
  intros H Hc Hco Hk. destruct (resume_winv k t c ch H Hc Hco Hk) as [H0 Hr].
  unfold write_complete, write_resume. set (t0 := upd t c _) in *. set (k' := after_write k c) in *.
  rewrite (in_flight_dec_no_wake k') by done.
  destruct (TcpChannel_in_flight_dec no_wake t0 c) as [t1|] eqn:Ed; [step|done].
  assert (H1 : winv k' t1) by by eapply in_flight_dec_winv; [apply no_wake_winv|..].
  assert (Hr1 : running t1 c) by by eapply in_flight_dec_running.
  destruct (chan t1 c) as [ch1|]; [step|done].
  rewrite (close_no_wake k') by done. case_match; [done|].
  destruct (assert_ _) as [[]|]; [step|done].
  destruct (WriteBufStream_consume_written _ _ _) as [[w p]|]; [step|done].
  rewrite (run_app_no_wake k'); [done|keep|by apply running_upd].
Qed.

Lemma arm_recv_winv k t c r t' : winv k t → arm_recv t c = Ok (r, t') → winv k t'.
Proof.
  unfold arm_recv. intros H E. ok_inv. case_match eqn:Es; ok_inv; simplify_eq; [|keep].
  eapply in_flight_inc_winv; [|done]. by eapply get_sqe_winv.
Qed.

Lemma read_store_winv k t c res flag t' : winv k t → read_store t c res flag = Ok t' → winv k t'.
Proof.
  unfold read_store, mark_pending_read. intros H E. ok_inv. keep.
  match goal with Hx : (if _ then _ else _) = Ok _ |- _ => rename Hx into Ex end.
  case_match; simplify_eq; [keep|]. apply (winv_keep k); [keep|by intros ?].
Qed.

Lemma read_close_winv k t c res t' : winv k t → read_close h t c res = Ok t' → winv k t'.
Proof.
  unfold read_close. intros H E. ok_inv. keep.
  apply (run_app_winv _ _ (write_wake_winv k)) in H0; [|done].
  case_match; simplify_eq; [done|]. by eapply close_winv; [apply write_wake_winv|..].
Qed.

Lemma read_complete_winv k t c res flag t' : winv k t → read_complete h t c res flag = Ok t' → winv k t'.
Proof.
  unfold read_complete. intros H E. ok_inv.
  apply (in_flight_dec_winv _ _ (write_wake_winv k)) in H0; [|keep].
  case_match; [by eapply read_close_winv|]. case_match; [by eapply read_store_winv|]. ok_inv.
  apply (arm_recv_winv k) in H3; [|done]. case_match; [by eapply read_store_winv|by simplify_eq].
Qed.

(** ** Accepting a connection *)
Lemma start_read_winv k t c t' : winv k t → start_read t c = Ok t' → winv k t'.
Proof.
  unfold start_read. intros H E. ok_inv. case_decide; ok_inv. simplify_eq.
  apply (arm_recv_winv k) in H2; [|done]. case_match; [keep|done].
Qed.

Lemma start_write_winv k t c t' : winv k t → start_write t c = Ok t' → winv k t'.
Proof.
  unfold start_write. intros H E. ok_inv. case_decide; [|done].
  eapply write_head_winv; [..|exact E].
  - apply winv_upd; [done|]. intros ch Hc [Hh Hn]. rewrite Hc in H0. simplify_eq.
    split; simpl; [intros Ht; rewrite Hh in H1 by done; done|]. rewrite Hn. unfold on_token. by rewrite H1.
  - eexists. split; [by apply chan_upd|done].
Qed.

(** A finished coroutine holds no write; a new token holds no handle. *)
Lemma assign_winv k t c fd t' : winv k t → TcpChannel_assign h t c fd = Ok t' → winv k t'.
Proof.
  unfold TcpChannel_assign. intros H E. ok_inv.
  eapply run_app_winv; [apply write_wake_winv| |exact E].
  eapply start_write_winv; [|done]. eapply start_read_winv; [|done].
  rewrite !upd_upd. apply winv_upd; [done|]. intros ch _ [Hh Hn]. split; simpl; [done|].
  rewrite Hn. unfold on_token, destroy_done. simpl. destruct (tch_write ch); done.
Qed.

Lemma accept_winv k t res flag t' : winv k t → accept_complete h t res flag = Ok t' → winv k t'.
Proof.
  unfold accept_complete, TcpChannelPool_acquire. intros H E. case_match; ok_inv; [done|].
  match goal with Hx : (if flag_more _ then _ else _) = Ok _ |- _ => rename Hx into Ex end.
  assert (H' : winv k x).
  { clear -H Ex. case_match; simplify_eq; [done|]. case_match eqn:Es; simplify_eq. by eapply get_sqe_winv. }
  assert (winv k t0); [|by destruct o].
  match goal with Hx : (if tt_head _ =? _ then _ else _) = Ok _ |- _ => rename Hx into Ey end.
  clear Ex. case_match; ok_inv; simplify_eq; [done|]. eapply assign_winv; [|done]. exact H'.
Qed.

Lemma batch_winv k t t' : winv k t → TcpThread_on_batch_done h t = Ok t' → winv k t'.
Proof.
  unfold TcpThread_on_batch_done. intros H E. ok_inv. change (winv k x).
  assert (Hgo : ∀ l t t', winv k t → read_pending h t l = Ok t' → winv k t').
  { clear. induction l as [|c l IH]; intros t t' H E; cbn [read_pending] in E; [by simplify_eq|]. ok_inv.
    eapply IH; [|exact E]. eapply run_app_winv; [apply write_wake_winv| |done]. keep. }
  by eapply Hgo.
Qed.

Lemma kstep_winv s s' : kstep h s s' → winv s.2 s.1 → winv s'.2 s'.1.
Proof.
  intros [t k|t k d bid b E|t k res flag t' E|t k c res flag t' E|t k c res flag t' Hk E|t k t' E] H; cbn [fst snd] in *.
  - intros c ch Hc. simpl. rewrite Nat.add_comm. by apply H.
  - by apply winv_bufs.
  - unfold complete in E. case_decide; [by eapply accept_winv|by simplify_eq].
  - unfold complete in E. ok_inv. case_decide; [by eapply read_complete_winv|by simplify_eq].
  - unfold complete in E. ok_inv. case_decide as Hco; [by eapply write_complete_winv|].
    exfalso. apply chan_Some in H0. destruct (H _ _ H0) as [_ Hn]. unfold on_token in Hn.
    rewrite decide_False in Hn by done. lia.
  - by eapply batch_winv.
Qed.

Lemma reachable_winv s s' : rtc (kstep h) s s' → winv s.2 s.1 → winv s'.2 s'.1.
Proof. induction 1; eauto using kstep_winv. Qed.
End complete.

(** A new worker has nothing in flight. *)
Lemma do_init_winv j cfg next t :
  TcpThread_do_init_resources j cfg next = Ok t → winv (fun _ => 0%nat) t ∧ tt_sq t = [].
Proof.
  unfold TcpThread_do_init_resources, TcpChannelPool_new. intros E. ok_inv.
  eapply (for_up_partial (fun t => winv (fun _ => 0%nat) t ∧ tt_sq t = [])); [| |done]; [|by split].
  clear. intros i t t' [H Hs] E. unfold pool_init_slot, TcpChannel_new in E. ok_inv. split; [|done].
  intros c ch. simpl. rewrite Hs. intros [Hl|[_ Hl]]%lookup_app_Some; [by specialize (H _ _ Hl); rewrite Hs in H|].
  apply list_lookup_singleton_Some in Hl as [_ <-]. by split.
Qed.

Lemma accept_start_winv k t t' : winv k t → accept_start t = Ok t' → winv k t'.
Proof.
  unfold accept_start. intros H E. case_match eqn:Es; simplify_eq. by eapply get_sqe_winv in Es.
Qed.

Lemma init_winv j cfg next t : TcpThread_init j cfg next = Ok t → winv (fun _ => 0%nat) t.
Proof.
  unfold TcpThread_init, wakeup_start. intros E. ok_inv. case_match; ok_inv. eapply accept_start_winv; [|done]. by eapply do_init_winv.
Qed.
End writes.

(** A connection has at most one write in flight: whatever the server
    does in its callbacks and in whatever order the kernel completes what it
    was given, in every state a worker can reach from its start the writes
    prepared for a channel and those the kernel holds for it are one when its
    write coroutine waits for a completion and none otherwise. *)
Theorem at_most_one_write_in_flight {R} {Hlib : BufRingLib R} (h : TcpHandlers) j cfg next (t0 : TcpThread R) t k c ch :
  TcpThread_init j cfg next = Ok t0 →
  rtc (kstep h) (t0, fun _ => 0%nat) (t, k) →
  chan t c = Ok ch →
  (writes c (tt_sq t) + k c)%nat = if decide (tch_write ch = CoToken) then 1%nat else 0%nat.
Proof.
  intros Hi%init_winv Hr Hc%chan_Some. exact (cw_count _ _ (reachable_winv h _ _ Hr Hi c ch Hc)).
Qed.

(** C28. A coroutine is never resumed while it runs: in every reachable state,
    what a completed write does (its bookkeeping, the server's [on_write] with
    any further appends, submits and closes, the next write) is the same
    whatever a wake-up of the write coroutine would do, so no wake-up
    happens. *)
Theorem write_coroutine_never_reentered {R} {Hlib : BufRingLib R} (h : TcpHandlers) j cfg next
    (t0 : TcpThread R) t k c ch res wake :
  TcpThread_init j cfg next = Ok t0 →
  rtc (kstep h) (t0, fun _ => 0%nat) (t, k) →
  chan t c = Ok ch → tch_write ch = CoToken → (0 < k c)%nat →
  write_resume h wake t c res = write_complete h t c res.
Proof. intros Hi%init_winv Hr. apply write_resume_no_wake. exact (reachable_winv h _ _ Hr Hi). Qed.

(** An echo server that has read two bytes and waits for their write. *)
Lemma echo_reachable :
  ∃ (t0 t : TcpThread list_ring) k ch, TcpThread_init run_junk (mkTcpConfig 4 4 4 1 8 4) 0 = Ok t0 ∧
    rtc (kstep TcpEchoServer) (t0, fun _ => 0%nat) (t, k) ∧ chan t 0 = Ok ch ∧ tch_write ch = CoToken ∧
    writes 0 (tt_sq t) = 1%nat.
Proof.
  assert (∃ t0 t1 bid b t2 t3 ch, TcpThread_init (R := list_ring) run_junk (mkTcpConfig 4 4 4 1 8 4) 0 = Ok t0 ∧
    complete TcpEchoServer (tt_with_sq t0 []) TokAccept 5 CQE_F_MORE = Ok t1 ∧
    kernel_receive (tt_buf_ring t1) [x01; x02] = Ok (Some (bid, b)) ∧
    complete TcpEchoServer (tt_with_bufs t1 b (tt_buf_pool t1)) (TokRead 0) 2 (i32 (cqe_flags bid true)) = Ok t2 ∧
    TcpThread_on_batch_done TcpEchoServer t2 = Ok t3 ∧ chan t3 0 = Ok ch ∧ tch_write ch = CoToken ∧
    writes 0 (tt_sq t3) = 1%nat)
    as (t0 & t1 & bid & b & t2 & t3 & ch & E0 & E1 & Eb & E2 & E3 & Ec & Ew & En).
  { do 7 eexists. split; [vm_compute; reflexivity|]. split; [vm_compute; reflexivity|].
    split; [vm_compute; reflexivity|]. split; [vm_compute; reflexivity|]. split; [vm_compute; reflexivity|].
    split; [vm_compute; reflexivity|]. split; reflexivity. }
  exists t0, t3, (fun c => (0 + writes c (tt_sq t0))%nat), ch.
  split; [exact E0|]. split; [|split; [exact Ec|split; [exact Ew|exact En]]].
  eapply rtc_l; [apply k_submit|]. eapply rtc_l; [exact (k_accept _ _ _ _ _ _ E1)|].
  eapply rtc_l; [exact (k_receive _ _ _ _ _ _ Eb)|]. eapply rtc_l; [exact (k_read _ _ _ _ _ _ _ E2)|].
  eapply rtc_l; [exact (k_batch _ _ _ _ E3)|]. apply rtc_refl.
Qed.

Lemma at_most_one_write_in_flight_witness :
  ∃ (t : TcpThread list_ring) k ch, chan t 0 = Ok ch ∧ tch_write ch = CoToken ∧
    (writes 0 (tt_sq t) + k 0)%nat = 1%nat.
Proof.
  destruct echo_reachable as (t0 & t & k & ch & E0 & Hr & Hc & Hw & _). exists t, k, ch.
  split; [exact Hc|]. split; [exact Hw|].
  rewrite (at_most_one_write_in_flight TcpEchoServer _ _ _ t0 t k 0 ch E0 Hr Hc). by rewrite decide_True.
Defined.

Lemma write_coroutine_never_reentered_witness :
  ∃ t : TcpThread list_ring, ∀ wake res,
    write_resume TcpEchoServer wake t 0 res = write_complete TcpEchoServer t 0 res.
Proof.
  destruct echo_reachable as (t0 & t & k & ch & E0 & Hr & Hc & Hw & Hn). exists (tt_with_sq t []).
  intros wake res.
  refine (write_coroutine_never_reentered TcpEchoServer _ _ _ t0 (tt_with_sq t []) (fun c => (k c + writes c (tt_sq t))%nat) 0 ch
    res wake E0 _ Hc Hw _); [|rewrite Hn; lia].
  eapply rtc_r; [exact Hr|apply k_submit].
Defined.

(** ** The write coroutine reaches a suspension point *)
Section suspends.
Context {R : Type} {Hlib : BufRingLib R} (n bs cap : Z).
Implicit Types (t : TcpThread R) (ch : TcpChannel) (c : nat) (pend send frame free : list Z).

(** The coroutine ends when the channel is closing with nothing in flight. *)
Definition stops (ch : TcpChannel) : bool := TcpChannel_is_closing ch && negb (TcpChannel_has_in_flight ch).

(** Where the loop stops and what it has prepared then, given what it finds. *)
Definition write_outcome t c ch send (blks : list (list byte)) : coro * list sqe :=
  if bool_decide (send = []) then
    (if nt_pending (tch_notify_token ch) && stops ch then CoDone else CoNotify, tt_sq t)
  else if stops ch || (tt_depth t <=? Z.of_nat (length (tt_sq t))) then (CoDone, tt_sq t)
  else (CoToken, tt_sq t ++ [SqeWritev c (tch_fd ch) (iov_of bs blks (ws_send_head_offset (tch_write_buf ch)) send)]).

Lemma has_send_data_spec s p pend send frame free blks :
  ws_ok n bs cap s p pend send frame free blks →
  WriteBufStream_has_send_data s = negb (bool_decide (send = [])).
Proof.
  intros H. pose proof (wr_send (wbp_wb (wso_wbp H))) as Hr.
  unfold WriteBufStream_has_send_data. f_equal. apply ring_empty in Hr.
  case_bool_decide; [apply Z.eqb_eq|apply Z.eqb_neq]; tauto.
Qed.

(** One pass through the body. *)
Lemma write_try_spec t c ch pend send frame free blks :
  chan t c = Ok ch → ws_ok n bs cap (tch_write_buf ch) (tt_buf_pool t) pend send frame free blks →
  - 2 ^ 31 ≤ tch_in_flight ch + 1 < 2 ^ 31 →
  ∃ again t' ch', write_try t c = Ok (again, t') ∧ chan t' c = Ok ch' ∧
    again = bool_decide (send = []) && negb (stops ch) ∧
    (if stops ch then tch_write ch' = CoDone ∧ tt_sq t' = tt_sq t
     else if bool_decide (send = []) then
       tt_sq t' = tt_sq t ∧ tt_buf_pool t' = tt_buf_pool t ∧ tch_notify_token ch' = tch_notify_token ch ∧
       ws_ok n bs cap (tch_write_buf ch') (tt_buf_pool t) pend send frame free blks
     else (tch_write ch', tt_sq t') = write_outcome t c ch send blks).
Proof.
  intros Hc Hw Hi. unfold write_try. rewrite Hc. step. fold (stops ch).
  destruct (stops ch) eqn:Es.
  { destruct (reset_spec _ _ _ _ _ _ _ _ _ _ Hw) as (w & p & blks' & Er & _). unfold write_finish.
    rewrite Hc. step. rewrite Er. step. eexists _, _, _. split; [done|].
    split; [exact (chan_upd (tt_with_bufs t (tt_buf_ring t) p) c ch
      (fun ch => tch_with_write (tch_with_write_buf ch w) CoDone) Hc)|].
    by rewrite andb_false_r. }
  destruct (peek_iovec_spec _ _ _ _ _ _ _ _ _ _ Hw) as (w & -> & Hw' & _ & Hoff). step.
  set (f := fun ch => tch_with_write_buf ch w). pose proof (chan_upd t c ch f Hc) as Hc1.
  case_bool_decide as Hsend; [by eexists _, _, _|]. unfold get_sqe, write_outcome.
  rewrite bool_decide_false, Es by done. simpl tt_depth. simpl tt_sq. simpl.
  destruct (tt_depth t <=? Z.of_nat (length (tt_sq t))).
  { eexists _, _, _. split; [done|]. split; [exact (chan_upd _ _ _ (fun ch => tch_with_write ch CoDone) Hc1)|done]. }
  set (t1 := tt_with_sq _ _). change (chan t1 c = Ok (f ch)) in Hc1. unfold TcpChannel_in_flight_inc.
  rewrite Hc1. step. simpl tch_in_flight. rewrite int_of_ok by done. step.
  eexists _, _, _. split; [done|]. split; [by eapply chan_upd, chan_upd|done].
Qed.

(** The loop from a state whose wake-up has been taken. *)
Lemma write_head_idle fuel t c ch pend frame free blks :
  chan t c = Ok ch → ws_ok n bs cap (tch_write_buf ch) (tt_buf_pool t) pend [] frame free blks →
  nt_pending (tch_notify_token ch) = false →
  ∃ t' ch', write_head (S fuel) t c = Ok t' ∧ chan t' c = Ok ch' ∧ tch_write ch' = CoNotify ∧ tt_sq t' = tt_sq t.
Proof.
  intros Hc Hw Hp. cbn [write_head]. rewrite Hc. step.
  rewrite (has_send_data_spec _ _ _ _ _ _ _ Hw). unfold NotifyToken_await_ready. rewrite Hp. step.
  eexists _, _. split; [done|]. split; [by eapply chan_upd, chan_upd|done].
Qed.

Lemma write_head_spec fuel t c ch pend send frame free blks :
  chan t c = Ok ch → ws_ok n bs cap (tch_write_buf ch) (tt_buf_pool t) pend send frame free blks →
  - 2 ^ 31 ≤ tch_in_flight ch + 1 < 2 ^ 31 →
  ∃ t' ch', write_head (S (S fuel)) t c = Ok t' ∧ chan t' c = Ok ch' ∧
    (tch_write ch', tt_sq t') = write_outcome t c ch send blks.
Proof.
  intros Hc Hw Hi. remember (S fuel) as fuel1 eqn:Ef. cbn [write_head]. rewrite Hc. step.
  rewrite (has_send_data_spec _ _ _ _ _ _ _ Hw). destruct (bool_decide (send = [])) eqn:Es; step.
  - apply bool_decide_eq_true in Es. subst send. unfold NotifyToken_await_ready, write_outcome.
    rewrite bool_decide_true by done. destruct (nt_pending (tch_notify_token ch)) eqn:Ep; step.
    2: { eexists _, _. split; [done|]. split; [by eapply chan_upd, chan_upd|done]. }
    set (nt := mkNotifyToken false _ _).
    pose proof (chan_upd t c ch (fun ch => tch_with_notify ch nt) Hc) as Hc1.
    destruct (write_try_spec _ _ _ _ _ _ _ _ Hc1 Hw Hi) as (again & t1 & ch1 & -> & Hc2 & -> & H2).
    rewrite bool_decide_true in H2 |- * by done. change (stops (tch_with_notify ch nt)) with (stops ch) in *.
    step. destruct (stops ch).
    { destruct H2 as [Hd Hsq]. exists t1, ch1. split_and!; [done..|]. by rewrite Hd, Hsq. }
    destruct H2 as (Hsq & Hp & Hn & Hw2). rewrite <- Hp in Hw2.
    destruct (write_head_idle fuel _ _ _ _ _ _ _ Hc2 Hw2) as (t' & ch' & Hr & Hc' & Hco & Hsq'); [by rewrite Hn|].
    subst fuel1. exists t', ch'. split_and!; [done..|]. by rewrite Hco, Hsq', Hsq.
  - destruct (write_try_spec _ _ _ _ _ _ _ _ Hc Hw Hi) as (again & t1 & ch1 & -> & Hc2 & -> & H2).
    rewrite Es in *. step. exists t1, ch1. split_and!; [done..|].
    destruct (stops ch) eqn:Est; [|done]. unfold write_outcome. rewrite Es, Est. by destruct H2 as [-> ->].
Qed.

(** More fuel changes nothing. *)
Lemma write_head_mono fuel fuel' t c t' :
  (fuel ≤ fuel')%nat → write_head fuel t c = Ok t' → write_head fuel' t c = Ok t'.
Proof.
  assert (Hgo : ∀ (f g : TcpThread R → result (TcpThread R)) t,
    (∀ t, f t = Ok t' → g t = Ok t') →
    ('(again, t) ← write_try t c; if again : bool then f t else Ok t) = Ok t' →
    ('(again, t) ← write_try t c; if again : bool then g t else Ok t) = Ok t').
  { intros f g t0 Hfg E. ok_inv. rewrite H. step. destruct b; auto. }
  revert fuel' t. induction fuel as [|fuel IH]; intros [|fuel'] t Hle E; try done; [lia|].
  cbn [write_head] in E |- *. ok_inv. rewrite H. step.
  case_match; [eapply Hgo; [|exact E]; intros; eapply IH; [lia|done]|].
  destruct (NotifyToken_await_ready _) as [[] m]; [eapply Hgo; [|exact E]; intros; eapply IH; [lia|done]|done].
Qed.
End suspends.

(** The write coroutine never spins: whenever it runs, over any legal
    state of its buffers, it reaches a suspension point within two rounds of
    its loop (the model allows four).  With nothing queued it waits for a
    notification; with queued data it prepares exactly one vectored write of all of it
    and waits for its completion; it ends only when the connection is closing
    with nothing in flight or the submission queue is full. *)
Theorem write_loop_suspends {R} {Hlib : BufRingLib R} n bs cap (t : TcpThread R) c ch pend send frame free blks :
  chan t c = Ok ch → ws_ok n bs cap (tch_write_buf ch) (tt_buf_pool t) pend send frame free blks →
  - 2 ^ 31 ≤ tch_in_flight ch + 1 < 2 ^ 31 →
  ∃ t' ch', write_head write_fuel t c = Ok t' ∧ write_head 2 t c = Ok t' ∧ chan t' c = Ok ch' ∧
    (tch_write ch', tt_sq t') = write_outcome bs t c ch send blks.
Proof.
  intros Hc Hw Hi. destruct (write_head_spec n bs cap 0 t c ch pend send frame free blks Hc Hw Hi)
    as (t' & ch' & Hr & Hc' & Ho).
  exists t', ch'. split_and!; try done. exact (write_head_mono 2 4 t c t' ltac:(lia) Hr).
Qed.

Lemma write_loop_suspends_witness :
  ∃ t t' : TcpThread list_ring, ∃ ch', write_head write_fuel t 0 = Ok t' ∧ write_head 2 t 0 = Ok t' ∧
    chan t' 0 = Ok ch' ∧ tch_write ch' = CoNotify.
Proof.
  destruct fresh_conn_bufs as (b & p & r & w & Hb).
  set (ch := mkTcpChannel 5 (mkNotifyToken true false false) r w 1 false CoToken CoRunning 0).
  destruct (Hb ch eq_refl eq_refl) as (_ & _ & _ & _ & frame & free & blks & _ & _ & Hw).
  exists (one_conn b p r w 5 1 (mkNotifyToken true false false) CoRunning).
  destruct (write_loop_suspends 4 4 4 (one_conn b p r w 5 1 (mkNotifyToken true false false) CoRunning) 0 ch
    [] [] frame free blks eq_refl Hw ltac:(simpl; lia)) as (t' & ch' & H1 & H2 & H3 & H4).
  exists t', ch'. split; [exact H1|]. split; [exact H2|]. split; [exact H3|].
  change (write_outcome 4 (one_conn b p r w 5 1 (mkNotifyToken true false false) CoRunning) 0 ch [] blks)
    with (CoNotify, @nil sqe) in H4. congruence.
Defined.
