(* ===== verification/UdpRecv.v ===== *)
(** * UdpRecv: datagram reception and the UDP echo server

    Models classes ReadBufDgram (include/buffer/buffer.hpp lines 58-68,
    src/buffer/buffer.cpp lines 70-95) and DgramMsg
    (include/buffer/dgram_msg.hpp), [udp_read_loop] (src/net/handler.cpp lines
    75-101) and the server callback of benchmarks/echo_server.cpp lines 95-106,
    over the buffer ring and the transmit side of UdpSend.v.

    The layout of a multishot recvmsg buffer is liburing's: it is the class
    [RecvmsgLib], with what io_uring_prep_recvmsg_multishot(3) documents as
    [RecvmsgLaws], and an instance. *)
From Stdlib Require Strings.Byte.
From S2P Require Import Prelude Ring BufPool WriteBuf WriteBufStream BufRing ReadBuf TcpRecv Awaiter MsghdrPool UdpSend.

(** ** The recvmsg buffer of liburing *)

(** The bytes of a buffer; name and control lengths of the msghdr. *)
Class RecvmsgLib := {
  (** What the kernel writes for a peer address and a payload. *)
  recvmsg_frame : Z → Z → list byte → list byte → list byte;
  recvmsg_overhead : Z → Z → Z;
  io_uring_recvmsg_validate : list byte → Z → Z → bool;  (* false: null *)
  io_uring_recvmsg_name : Z;                             (* offset *)
  recvmsg_out_namelen : list byte → Z;
  io_uring_recvmsg_payload : Z → Z → Z;                  (* offset *)
  io_uring_recvmsg_payload_length : list byte → Z → Z → Z
}.

(** sizeof(sockaddr_in). *)
Definition sizeof_sockaddr_in : Z := 16.

Class RecvmsgLaws `{RecvmsgLib} := {
  recvmsg_law name payload :
    Z.of_nat (length name) ≤ sizeof_sockaddr_in →
    let f := recvmsg_frame sizeof_sockaddr_in 0 name payload in
    Z.of_nat (length f) = recvmsg_overhead sizeof_sockaddr_in 0 + Z.of_nat (length payload) ∧
    io_uring_recvmsg_validate f sizeof_sockaddr_in 0 = true ∧
    recvmsg_out_namelen f = Z.of_nat (length name) ∧
    0 ≤ io_uring_recvmsg_name ∧
    io_uring_recvmsg_name + Z.of_nat (length name) ≤ Z.of_nat (length f) ∧
    mem_read f io_uring_recvmsg_name (Z.of_nat (length name)) = name ∧
    io_uring_recvmsg_payload_length f sizeof_sockaddr_in 0 = Z.of_nat (length payload) ∧
    0 ≤ io_uring_recvmsg_payload sizeof_sockaddr_in 0 ∧
    io_uring_recvmsg_payload sizeof_sockaddr_in 0 + Z.of_nat (length payload) ≤ Z.of_nat (length f) ∧
    mem_read f (io_uring_recvmsg_payload sizeof_sockaddr_in 0) (Z.of_nat (length payload)) = payload;
  recvmsg_overhead_pos : 0 < recvmsg_overhead sizeof_sockaddr_in 0
}.

(** ** ReadBufDgram and DgramMsg *)
Section udp.
Context {R : Type} {Hlib : BufRingLib R} {Hrm : RecvmsgLib}.

Record DgramMsg := mkDgramMsg { dm_buf : Z; dm_size : Z }.

Record ReadBufDgram := mkReadBufDgram {
  rd_base : ReadBufBase;
  rd_namelen : Z;
  rd_controllen : Z;
  rd_peeked : option DgramMsg
}.

Definition ReadBufDgram_new (j1 j2 j3 : nat → Z) (j4 : Z) (b : BufRing R) : result ReadBufDgram :=
  rb ← ReadBufBase_new j1 j2 j3 j4 b;
  Ok (mkReadBufDgram rb sizeof_sockaddr_in 0 None).

(** The bytes of the buffer a message lies in. *)
Definition dgram_bytes (b : BufRing R) (m : DgramMsg) : list byte := mem_read (br_bufs b) (dm_buf m) (dm_size m).

(** The constructor of DgramMsg asserts that the buffer is valid. *)
Definition DgramMsg_new (b : BufRing R) (s : ReadBufDgram) (buf size : Z) : result DgramMsg :=
  let m := mkDgramMsg buf size in
  assert_ (io_uring_recvmsg_validate (dgram_bytes b m) (rd_namelen s) (rd_controllen s));;
  Ok m.

(** The bytes at [peer_addr()] and [payload()], of the lengths given with them. *)
Definition DgramMsg_peer (b : BufRing R) (m : DgramMsg) : list byte :=
  mem_read (br_bufs b) (dm_buf m + io_uring_recvmsg_name) (recvmsg_out_namelen (dgram_bytes b m)).
Definition DgramMsg_payload (b : BufRing R) (s : ReadBufDgram) (m : DgramMsg) : list byte :=
  mem_read (br_bufs b) (dm_buf m + io_uring_recvmsg_payload (rd_namelen s) (rd_controllen s))
    (io_uring_recvmsg_payload_length (dgram_bytes b m) (rd_namelen s) (rd_controllen s)).

Definition ReadBufDgram_peek (s : ReadBufDgram) (b : BufRing R) : result (option DgramMsg * ReadBufDgram) :=
  let rb := rd_base s in
  if ReadBufBase_empty rb then Ok (None, s) else
  idx ← arr_get (rb_buf_queue rb) (Z.land (rb_head rb) (rb_mask rb));
  size ← BufRing_get_data_size b idx;
  m ← DgramMsg_new b s (BufRing_buf_addr b idx) size;
  Ok (Some m, mkReadBufDgram rb (rd_namelen s) (rd_controllen s) (Some m)).

Definition ReadBufDgram_consume (s : ReadBufDgram) (b : BufRing R) : result (bool * ReadBufDgram * BufRing R) :=
  let rb := rd_base s in
  if ReadBufBase_empty rb then Ok (false, s, b) else
  idx ← arr_get (rb_buf_queue rb) (Z.land (rb_head rb) (rb_mask rb));
  size ← BufRing_get_data_size b idx;
  b ← BufRing_release b idx;
  Ok (true, mkReadBufDgram (rb_with_queue rb (rb_buf_queue rb) (u32 (rb_head rb + 1)) (rb_tail rb)
        (u32 (rb_readable_bytes rb - size))) (rd_namelen s) (rd_controllen s) (rd_peeked s), b).

(** ** The channel of a UDP worker *)
Record UdpChannel := mkUdpChannel {
  uc_buf_ring : BufRing R;
  uc_read_buf : ReadBufDgram;
  uc_tx : UdpTx;                   (* [ut_depth]: the queue entries left to sends *)
  uc_read_alive : bool             (* the read coroutine has not ended *)
}.

Definition uc_with_tx (c : UdpChannel) u : UdpChannel :=
  mkUdpChannel (uc_buf_ring c) (uc_read_buf c) u (uc_read_alive c).
Definition uc_with_rx (c : UdpChannel) b s : UdpChannel := mkUdpChannel b s (uc_tx c) (uc_read_alive c).

(** A callback on the channel; the address and payload of a peeked message are
    the bytes its pointers give. *)
Inductive uapp :=
  | UaRet
  | UaSpin                                                       (* no bound left for a loop *)
  | UaPeek (k : option (list byte * list byte) → uapp)
  | UaConsume (k : bool → uapp)
  | UaAppend (d : list byte) (k : bool → uapp)
  | UaSubmit (addr : list byte) (k : bool → uapp).

Fixpoint run_uapp (a : uapp) (c : UdpChannel) : result UdpChannel :=
  match a with
  | UaRet => Ok c
  | UaSpin => Fault OutOfFuel
  | UaPeek k =>
      '(m, s) ← ReadBufDgram_peek (uc_read_buf c) (uc_buf_ring c);
      run_uapp (k ((fun m => (DgramMsg_peer (uc_buf_ring c) m, DgramMsg_payload (uc_buf_ring c) s m)) <$> m))
        (uc_with_rx c (uc_buf_ring c) s)
  | UaConsume k =>
      '(ok, s, b) ← ReadBufDgram_consume (uc_read_buf c) (uc_buf_ring c);
      run_uapp (k ok) (uc_with_rx c b s)
  | UaAppend d k => '(ok, u) ← UdpChannel_append (uc_tx c) d; run_uapp (k ok) (uc_with_tx c u)
  | UaSubmit addr k => '(ok, u) ← UdpChannel_submit (uc_tx c) addr; run_uapp (k ok) (uc_with_tx c u)
  end.

(** Preparing the multishot receive takes an entry of the submission queue;
    [None] when [get_sqe] throws. *)
Definition udp_arm (c : UdpChannel) : option UdpChannel :=
  let u := uc_tx c in
  if ut_depth u <=? Z.of_nat (length (ut_sq u)) then None else
  Some (uc_with_tx c (mkUdpTx (ut_write_buf u) (ut_pool u) (ut_msghdr u) (ut_notify u) (ut_alive u)
                        (ut_depth u - 1) (ut_sq u) (ut_flight u))).

(** [udp_read_loop] from a completion to the next suspension. *)
Definition udp_read_complete (on_read : uapp) (c : UdpChannel) (res flag : Z) : result UdpChannel :=
  match (if flag_more flag then Some c else udp_arm c) with
  | None => Ok (mkUdpChannel (uc_buf_ring c) (uc_read_buf c) (uc_tx c) false)
  | Some c =>
      if res <? 0 then Ok c else
      let s := uc_read_buf c in
      let idx := flag_bid flag in
      b ← ReadBufBase_set_buf_data_size (uc_buf_ring c) idx (u32 res);
      '(_, rb) ← ReadBufBase_push_buf (rd_base s) b idx;
      run_uapp on_read (uc_with_rx c b (mkReadBufDgram rb (rd_namelen s) (rd_controllen s) (rd_peeked s)))
  end.

(** UdpEchoServer::on_read; [rounds] bounds its loop. *)
Fixpoint udp_echo (rounds : nat) : uapp :=
  match rounds with
  | O => UaSpin
  | S rounds =>
      UaPeek (fun m =>
        match m with
        | None => UaRet
        | Some (peer, payload) =>
            let next := UaConsume (fun _ => udp_echo rounds) in
            UaAppend payload (fun ok => if ok then UaSubmit peer (fun _ => next) else next)
        end)
  end.

(** Completions of one batch, in order. *)
Fixpoint udp_reads (on_read : uapp) (c : UdpChannel) (cqes : list (Z * Z)) : result UdpChannel :=
  match cqes with
  | [] => Ok c
  | (res, flag) :: cqes => c ← udp_read_complete on_read c res flag; udp_reads on_read c cqes
  end.

(** ** The abstraction: the datagrams received and not yet consumed *)
Definition frame_of (d : dgram) : list byte := recvmsg_frame sizeof_sockaddr_in 0 d.1 d.2.
Definition peer_ok (d : dgram) : Prop := Z.of_nat (length d.1) ≤ sizeof_sockaddr_in.

#[local] Set Implicit Arguments.
Record rd_rep (n : Z) (s : ReadBufDgram) (blks : list (list byte)) (q : list Z) (ds : list dgram) : Prop := {
  rdr_base : rs_rep n (mkReadBufStream (rd_base s) 0) blks q;
  rdr_name : rd_namelen s = sizeof_sockaddr_in;
  rdr_control : rd_controllen s = 0;
  rdr_msgs : Forall2 (fun i d => blk blks i = frame_of d ∧ peer_ok d) q ds
}.
#[local] Unset Implicit Arguments.

Section spec.
Context {Hlaws : BufRingLaws R} {Hrl : RecvmsgLaws} (n bs : Z).

Lemma mem_read_sub m o size k l :
  0 ≤ o → 0 ≤ k → 0 ≤ l → k + l ≤ size → mem_read (mem_read m o size) k l = mem_read m (o + k) l.
Proof.
  intros. apply list_eq. intros j. rewrite !mem_read_lookup. case_decide; [|done].
  rewrite decide_True by lia. f_equal. lia.
Qed.

Lemma frame_nonempty d : peer_ok d → frame_of d ≠ [].
Proof.
  intros Hd E. destruct (recvmsg_law d.1 d.2 Hd) as (Hl & _). pose proof recvmsg_overhead_pos.
  unfold frame_of in E. rewrite E in Hl. simpl in Hl. lia.
Qed.

Lemma rd_empty s blks q ds : rd_rep n s blks q ds → ReadBufBase_empty (rd_base s) = bool_decide (q = []).
Proof.
  intros H. pose proof (rsr_ring (rsr_core (rdr_base H))) as Hr.
  exact (ring_eqb _ _ _ _ _ _ Hr).
Qed.

Lemma dgram_peek_spec s b avail cq i q blks d ds :
  br_rep n bs b avail cq (i :: q) blks → rd_rep n s blks (i :: q) (d :: ds) →
  ∃ m s', ReadBufDgram_peek s b = Ok (Some m, s') ∧ DgramMsg_peer b m = d.1 ∧ DgramMsg_payload b s' m = d.2 ∧
    rd_rep n s' blks (i :: q) (d :: ds).
Proof.
  intros Hb Hs. unfold ReadBufDgram_peek. rewrite (rd_empty _ _ _ _ Hs), bool_decide_false by done.
  pose proof (rsr_ring (rsr_core (rdr_base Hs))) as Hr. simpl in Hr.
  rewrite (ring_first _ _ _ _ _ _ _ Hr). step.
  assert (0 ≤ i < n) as Hi by (eapply br_range; [exact Hb|elt]).
  rewrite (br_get_data_size _ _ _ _ _ _ _ i Hb) by done. step. rewrite (br_buf_addr _ _ _ _ _ _ _ i Hb) by done.
  destruct (br_block _ _ _ _ _ _ _ i Hb Hi) as (_ & _ & Hsz & Hblk).
  pose proof (rdr_msgs Hs) as Hm. apply Forall2_cons in Hm as [[Hf Hp] Hm].
  destruct (recvmsg_law d.1 d.2 Hp) as (Hl & Hv & Hnl & Hn0 & Hn1 & Hname & Hpl & Hp0 & Hp1 & Hpay).
  fold (frame_of d) in *. rewrite <- Hf in *. pose proof (brr_pos Hb).
  unfold DgramMsg_new. cbv zeta. unfold dgram_bytes at 1. cbn [dm_buf dm_size].
  rewrite <- Hblk, (rdr_name Hs), (rdr_control Hs), Hv. step.
  eexists _, _. split; [done|]. unfold DgramMsg_peer, DgramMsg_payload, dgram_bytes. cbn [dm_buf dm_size rd_namelen rd_controllen].
  rewrite <- Hblk, Hnl, Hpl. split_and!.
  - rewrite <- Hname at 2. rewrite Hblk at 1. rewrite mem_read_sub by lia. done.
  - rewrite <- Hpay at 2. rewrite Hblk at 1. rewrite mem_read_sub by lia. done.
  - destruct Hs. by split.
Qed.

Lemma dgram_consume_spec s b avail cq i q blks d ds :
  br_rep n bs b avail cq (i :: q) blks → rd_rep n s blks (i :: q) (d :: ds) →
  ∃ s' b' blks', ReadBufDgram_consume s b = Ok (true, s', b') ∧ br_rep n bs b' (avail ++ [i]) cq q blks' ∧
    rd_rep n s' blks' q ds.
Proof.
  intros Hb Hs. unfold ReadBufDgram_consume. rewrite (rd_empty _ _ _ _ Hs), bool_decide_false by done.
  pose proof (rdr_base Hs) as [Hc Hrd].
  pose proof (rsr_ring Hc) as Hr. simpl in Hr.
  rewrite (ring_first _ _ _ _ _ _ _ Hr). step.
  assert (0 ≤ i < n) as Hi by (eapply br_range; [exact Hb|elt]).
  rewrite (br_get_data_size _ _ _ _ _ _ _ i Hb) by done. step.
  destruct (rs_pop n bs (mkReadBufStream (rd_base s) 0) b avail cq i q [] blks) as (b' & blks' & -> & Hb' & Hc' & Hsame);
    [by rewrite app_nil_r|done|].
  rewrite app_nil_r in Hb', Hsame. step. eexists _, _, blks'. split; [done|]. split; [done|].
  pose proof (rdr_msgs Hs) as Hm. apply Forall2_cons in Hm as [_ Hm].
  split; simpl; try apply Hs.
  - split; [destruct Hc'; by split|]. cbn [rs_base rb_with_queue rb_readable_bytes] in Hrd |- *. rewrite Hrd.
    unfold recv_stream. cbn [rs_head_offset]. change (Z.to_nat 0) with 0%nat. rewrite !drop_0, stream_cons, length_app, (stream_same _ _ _ Hsame).
    destruct (recv_bound n bs b avail cq (i :: q) [] blks) as [Hbd _]; [by rewrite app_nil_r|].
    rewrite stream_cons, length_app in Hbd. rewrite u32_small; lia.
  - clear -Hm Hsame. induction Hm as [|j d' q' ds' [Hf Hp] Hm IH]; [constructor|].
    constructor; [|apply IH; intros k Hk; apply Hsame; by right]. split; [|done]. rewrite Hsame by (by left). done.
Qed.

(** ** The echo server *)
Context (pn pbs cap mcap mi : Z).

(** Both sides of a channel; [q] holds the unread datagrams [ds]. *)
Definition uc_inv (c : UdpChannel) (avail : list Z) (cq : list (Z * list byte)) (q : list Z) (ds : list dgram)
    (sp : udp_spec) : Prop :=
  uc_read_alive c = true ∧ mcap ≤ ut_depth (uc_tx c) ∧
  ∃ blks free mfree sqb flb tblks, br_rep n bs (uc_buf_ring c) avail cq q blks ∧
    rd_rep n (uc_read_buf c) blks q ds ∧ udp_inv pn pbs cap mcap mi (uc_tx c) sp [] free mfree sqb flb tblks.

(** The datagrams that still find a free block and a free message header. *)
Definition udp_room (u : UdpTx) (sp : udp_spec) : Z :=
  Z.min (pool_free (ut_pool u)) (mcap - Z.of_nat (length (us_sq sp)) - Z.of_nat (length (us_flight sp))).

(** Appending and submitting one datagram. *)
Definition echo_sends (peer payload : list byte) (u : UdpTx) : result (bool * UdpTx) :=
  '(ok, u) ← UdpChannel_append u payload;
  if ok : bool then UdpChannel_submit u peer else Ok (false, u).

Lemma echo_sends_spec u sp free mfree sqb flb blks d :
  udp_inv pn pbs cap mcap mi u sp [] free mfree sqb flb blks → mcap ≤ ut_depth u →
  peer_ok d → Z.of_nat (length d.2) < 2 ^ 32 →
  ∃ ok u' free' mfree' sqb' flb' blks', echo_sends d.1 d.2 u = Ok (ok, u') ∧ ut_depth u' = ut_depth u ∧
    udp_inv pn pbs cap mcap mi u' (mkUdpSpec [] (us_sq sp ++ if ok then [d] else []) (us_flight sp)) []
      free' mfree' sqb' flb' blks' ∧
    (Z.of_nat (length d.2) ≤ pbs → ok = negb (bool_decide (free = [])) && negb (bool_decide (mfree = [])) ∧
       pool_free (ut_pool u') = pool_free (ut_pool u) - (if ok then 1 else 0)).
Proof.
  intros Hinv Hdep Hp Hl. unfold echo_sends, UdpChannel_append.
  pose proof (ui_wbp Hinv) as Hwbp.
  destruct (append_spec _ _ _ _ _ _ _ _ _ _ d.2 _ Hwbp eq_refl Hl)
    as (ok & b & p & pend & free' & blks' & Hap & [Hw Hs Hyes Hno] & Hfit).
  assert (Hone : Z.of_nat (length d.2) ≤ pbs →
    ok = negb (bool_decide (free = [])) ∧ (ok = true → Z.of_nat (length pend) = 1)).
  { intros Hle. destruct free as [|i free].
    - assert (ok = false) as -> by (rewrite Hfit; unfold append_need; simpl; apply fits_no; simpl; lia).
      by split.
    - destruct (append_one_block _ _ _ _ _ _ _ _ _ _ _ Hwbp Hle) as (w1 & p1 & blks1 & Hap1 & Hpost1).
      rewrite Hap1 in Hap. injection Hap as <- <- <-. split; [done|]. intros _.
      pose proof (rk_len (wr_pend (wbp_wb Hw))) as E.
      rewrite E. symmetry.
      destruct Hpost1 as [Hw1 _ _ _].
      exact (rk_len (wr_pend (wbp_wb Hw1))). }
  rewrite Hap. step. simpl in Hs. destruct ok.
  - destruct (Hyes eq_refl) as (Hst & _). unfold stream at 2 in Hst. simpl in Hst.
    pose proof (inv_pending _ _ _ _ _ _ _ _ _ _ _ _ _ b p pend free' blks' d.2 Hinv Hw Hs Hst) as Hinv1.
    destruct (udp_submit_spec _ _ _ _ _ _ _ _ _ _ _ _ _ d.1 Hinv1) as (ok & u' & Hrun & Hok & Hd' & Hpf & f & m & sq & fl & bl & Hpost);
      [unfold peer_ok, sizeof_sockaddr_in in Hp; unfold sockaddr_storage_size; lia|done|].
    simpl in Hpost. exists ok, u', f, m, sq, fl, bl. split; [exact Hrun|]. split; [exact Hd'|]. split.
    + destruct d, ok; simpl in *; rewrite ?app_nil_r; done.
    + intros Hle. destruct (Hone Hle) as [<- Hlen]. specialize (Hlen eq_refl). split.
      * rewrite Hok. pose proof (mi_range _ _ _ _ (ui_mp Hinv)).
        rewrite (bool_decide_false (pend = [])) by (intros ->; done). rewrite (proj2 (Z.leb_le _ _)) by lia.
        by rewrite !andb_true_r.
      * rewrite Hpf. destruct (blocks_counted _ _ _ _ _ _ _ _ _ _ _ _ _ Hinv) as [_ ->], (blocks_counted _ _ _ _ _ _ _ _ _ _ _ _ _ Hinv1) as [_ ->].
        rewrite Hlen. simpl length. destruct ok; lia.
  - destruct (Hno eq_refl) as (-> & _ & _).
    pose proof (inv_pending _ _ _ _ _ _ _ _ _ _ _ _ _ b p [] free' blks' [] Hinv Hw Hs eq_refl) as Hinv1.
    eexists false, _, free', mfree, sqb, flb, blks'. split; [done|]. split; [done|].
    simpl. rewrite app_nil_r. split; [done|]. intros Hle. destruct (Hone Hle) as [<- _]. split; [done|].
    destruct (blocks_counted _ _ _ _ _ _ _ _ _ _ _ _ _ Hinv) as [_ ->], (blocks_counted _ _ _ _ _ _ _ _ _ _ _ _ _ Hinv1) as [_ E].
    cbn [ut_pool ut_with_pools] in E |- *. lia.
Qed.

(** A datagram that fits a block is passed on exactly when there is room. *)
Lemma echo_sends_room u sp free mfree sqb flb blks d :
  udp_inv pn pbs cap mcap mi u sp [] free mfree sqb flb blks → mcap ≤ ut_depth u → peer_ok d → Z.of_nat (length d.2) ≤ pbs →
  let fits := 0 <? udp_room u sp in
  let sp' := mkUdpSpec [] (us_sq sp ++ if fits then [d] else []) (us_flight sp) in
  ∃ u' free' mfree' sqb' flb' blks', echo_sends d.1 d.2 u = Ok (fits, u') ∧ ut_depth u' = ut_depth u ∧
    udp_inv pn pbs cap mcap mi u' sp' [] free' mfree' sqb' flb' blks' ∧
    udp_room u' sp' = udp_room u sp - (if fits then 1 else 0).
Proof.
  intros Hinv Hdep Hp Hl fits sp'. pose proof (wbp_pool (ui_wbp Hinv)) as Hpr.
  assert (pbs < 2 ^ 31) as Hpbs.
  { pose proof (pr_total Hpr). pose proof (pr_pos Hpr). pose proof (pr_mask Hpr).
    destruct (rk_pow (pr_ring Hpr)) as (k & ? & ? & ?). assert (0 < 2 ^ k) by lia. nia. }
  destruct (echo_sends_spec u sp free mfree sqb flb blks d Hinv Hdep Hp ltac:(lia))
    as (ok & u' & f & m & sq & fl & bl & Hrun & Hd & Hinv' & Hok). destruct (Hok Hl) as [Eok Epf].
  assert (ok = fits) as ->.
  { subst fits ok. unfold udp_room. destruct (blocks_counted _ _ _ _ _ _ _ _ _ _ _ _ _ Hinv) as [-> _].
    rewrite <- (headers_counted _ _ _ _ _ _ _ _ _ _ _ _ _ Hinv). clear. destruct free, mfree; cbn [length bool_decide]; case_bool_decide; try done;
      repeat case_bool_decide; try done; symmetry; (apply Z.ltb_lt || apply Z.ltb_ge); lia. }
  exists u', f, m, sq, fl, bl. split; [done|]. split; [done|]. split; [exact Hinv'|]. unfold udp_room. rewrite Epf. subst sp'. cbn [us_sq us_flight].
  rewrite length_app. destruct fits; cbn [length]; lia.
Qed.

Lemma take_room {A} (r : Z) (d : A) ds :
  take (Z.to_nat r) (d :: ds) = (if 0 <? r then [d] else []) ++ take (Z.to_nat (r - if 0 <? r then 1 else 0)) ds.
Proof.
  destruct (Z.ltb_spec 0 r).
  - replace (Z.to_nat r) with (S (Z.to_nat (r - 1))) by lia. done.
  - rewrite Z.sub_0_r. by replace (Z.to_nat r) with 0%nat by lia.
Qed.

(** One round of the loop of [on_read]. *)
Lemma udp_echo_unfold rounds c m s :
  ReadBufDgram_peek (uc_read_buf c) (uc_buf_ring c) = Ok (Some m, s) →
  run_uapp (udp_echo (S rounds)) c =
  ('(_, u) ← echo_sends (DgramMsg_peer (uc_buf_ring c) m) (DgramMsg_payload (uc_buf_ring c) s m) (uc_tx c);
   '(_, s, b) ← ReadBufDgram_consume s (uc_buf_ring c);
   run_uapp (udp_echo rounds) (mkUdpChannel b s u (uc_read_alive c))).
Proof.
  intros Hm. cbn [udp_echo run_uapp]. rewrite Hm. step. cbn [fmap option_fmap option_map run_uapp uc_tx uc_with_rx].
  unfold echo_sends. destruct (UdpChannel_append _ _) as [[[] u]|]; [|done..]. step.
  cbn [run_uapp uc_tx uc_with_tx uc_with_rx]. by destruct (UdpChannel_submit _ _) as [[ok u']|].
Qed.

(** The datagrams there is room for, from the first, are passed on; the others
    are dropped. *)
Lemma udp_echo_spec ds : ∀ rounds c avail cq q sp,
  uc_inv c avail cq q ds sp → (length ds < rounds)%nat → Forall (fun d => Z.of_nat (length d.2) ≤ pbs) ds →
  let sent := take (Z.to_nat (udp_room (uc_tx c) sp)) ds in
  let sp' := mkUdpSpec [] (us_sq sp ++ sent) (us_flight sp) in
  ∃ c', run_uapp (udp_echo rounds) c = Ok c' ∧ uc_inv c' (avail ++ q) cq [] [] sp' ∧
    udp_room (uc_tx c') sp' = udp_room (uc_tx c) sp - Z.of_nat (length sent).
Proof.
  induction ds as [|d ds IH]; intros [|rounds] c avail cq q sp Hinv Hr Hfit sent sp'; [simpl in *; lia..| |simpl in *; lia|].
  - destruct Hinv as (Hal & Hdep & blks & free & mfree & sqb & flb & tblks & Hb & Hd & Hu).
    pose proof (rdr_msgs Hd) as Hq%Forall2_nil_inv_r. subst q.
    cbn [udp_echo run_uapp]. unfold ReadBufDgram_peek. rewrite (rd_empty _ _ _ _ Hd), bool_decide_true by done. step.
    assert (sp' = sp) as ->.
    { pose proof (ui_pend Hu) as HP. unfold stream in HP. simpl in HP. subst sp' sent. rewrite take_nil, app_nil_r. by destruct sp; simpl in *; subst. }
    exists (uc_with_rx c (uc_buf_ring c) (uc_read_buf c)). subst sent. rewrite take_nil, app_nil_r. split; [done|]. split; [|simpl; lia].
    split; [done|]. split; [done|]. by exists blks, free, mfree, sqb, flb, tblks.
  - destruct Hinv as (Hal & Hdep & blks & free & mfree & sqb & flb & tblks & Hb & Hd & Hu). apply Forall_cons in Hfit as [Hl Hfit].
    pose proof (rdr_msgs Hd) as Hq. apply Forall2_cons_inv_r in Hq as (i & q' & [Hf Hp] & Hq & ->).
    destruct (dgram_peek_spec _ _ _ _ _ _ _ _ _ Hb Hd) as (m & s' & Hpk & Hpeer & Hpay & Hd').
    rewrite (udp_echo_unfold _ _ _ _ Hpk), Hpeer, Hpay.
    destruct (echo_sends_room _ _ _ _ _ _ _ d Hu Hdep Hp Hl) as (u' & free' & mfree' & sqb' & flb' & tblks' & -> & Hdep' & Hu' & Hroom). step.
    destruct (dgram_consume_spec _ _ _ _ _ _ _ _ _ Hb Hd') as (s2 & b2 & blks2 & -> & Hb2 & Hd2). step.
    edestruct (IH rounds (mkUdpChannel b2 s2 u' (uc_read_alive c)) (avail ++ [i]) cq q') as (c' & Hrun & Hinv' & Hroom').
    { split; [done|]. split; [simpl; lia|]. by eexists _, _, _, _, _, _. } { simpl in Hr. lia. } { done. }
    exists c'. split; [exact Hrun|]. cbn [uc_tx] in Hinv', Hroom'. rewrite Hroom in Hinv', Hroom'.
    cbn [us_sq us_flight] in Hinv', Hroom'. rewrite <- !(assoc_L (++)) in Hinv'. rewrite <- (assoc_L (++)) in Hroom'. subst sp' sent.
    rewrite (take_room (udp_room (uc_tx c) sp) d ds). split; [exact Hinv'|]. rewrite Hroom', length_app. destruct (0 <? _); cbn [length]; lia.
Qed.

(** A datagram completion queues its buffer behind the unread ones. *)
Lemma udp_push_spec c avail i d cq q ds sp more :
  uc_inv c avail ((i, frame_of d) :: cq) q ds sp → peer_ok d →
  ∃ b rb, ReadBufBase_set_buf_data_size (uc_buf_ring c) (flag_bid (i32 (cqe_flags i more)))
      (u32 (Z.of_nat (length (frame_of d)))) = Ok b ∧
    ReadBufBase_push_buf (rd_base (uc_read_buf c)) b (flag_bid (i32 (cqe_flags i more))) = Ok (true, rb) ∧
    uc_inv (uc_with_rx c b (mkReadBufDgram rb (rd_namelen (uc_read_buf c)) (rd_controllen (uc_read_buf c))
      (rd_peeked (uc_read_buf c)))) avail cq (q ++ [i]) (ds ++ [d]) sp.
Proof.
  intros (Hal & Hdep & blks & free & mfree & sqb & flb & tblks & Hb & Hd & Hu) Hp.
  destruct (tcp_read_data_spec n bs (mkReadBufStream (rd_base (uc_read_buf c)) 0) (uc_buf_ring c) avail [] i (frame_of d) cq q [] blks more)
    as (s' & b' & Hrun & Hb' & Hr' & _ & _ & _); [by rewrite app_nil_r|apply Hd|by apply frame_nonempty|].
  unfold tcp_read_data in Hrun. cbn [rs_base rs_head_offset] in Hrun. ok_inv. simplify_eq.
  eexists _, _. split; [done|]. split; [done|]. rewrite app_nil_r in Hb'.
  split; [done|]. split; [done|]. eexists _, _, _, _, _, _. split_and!; [exact Hb'| |exact Hu].
  assert (Hi : 0 ≤ i < n) by (eapply br_range; [exact Hb|simpl; elt]).
  pose proof (brr_blen Hb). pose proof (br_nodup _ _ _ _ _ _ _ Hb') as Hnd.
  apply NoDup_app in Hnd as (_ & _ & (_ & _ & (_ & Hnq & _)%NoDup_app)%NoDup_app).
  split; simpl; try apply Hd; [exact Hr'|]. apply Forall2_app.
  - assert (Hq : ∀ j, j ∈ q → blk (<[Z.to_nat i := frame_of d]> blks) j = blk blks j).
    { intros j Hj. assert (0 ≤ j < n) by (eapply br_range; [exact Hb|elt]).
      apply blk_insert_ne; [lia..|]. intros ->. apply (Hnq j Hj). by left. }
    pose proof (rdr_msgs Hd) as Hm. clear -Hm Hq.
    induction Hm as [|j d' q' ds' [Hf Hp] Hm IH]; [constructor|].
    constructor; [|apply IH; intros k Hk; apply Hq; by right]. split; [|done]. rewrite Hq by (by left). done.
  - constructor; [|constructor]. split; [|done]. apply blk_insert_eq; lia.
Qed.

(** What the read loop does with a completion that leaves the receive armed. *)
Lemma udp_read_complete_more on_read c i d :
  0 ≤ i < 2 ^ 15 →
  udp_read_complete on_read c (Z.of_nat (length (frame_of d))) (i32 (cqe_flags i true)) =
  (b ← ReadBufBase_set_buf_data_size (uc_buf_ring c) (flag_bid (i32 (cqe_flags i true)))
         (u32 (Z.of_nat (length (frame_of d))));
   '(_, rb) ← ReadBufBase_push_buf (rd_base (uc_read_buf c)) b (flag_bid (i32 (cqe_flags i true)));
   run_uapp on_read (uc_with_rx c b (mkReadBufDgram rb (rd_namelen (uc_read_buf c)) (rd_controllen (uc_read_buf c))
     (rd_peeked (uc_read_buf c))))).
Proof.
  intros Hi. unfold udp_read_complete. rewrite flag_more_flags by done.
  by rewrite (proj2 (Z.ltb_ge _ _)) by lia.
Qed.

Lemma uc_range c avail i f cq q ds sp : uc_inv c avail ((i, f) :: cq) q ds sp → 0 ≤ i < 2 ^ 15.
Proof.
  intros (_ & _ & blks & _ & _ & _ & _ & _ & Hb & _). pose proof (brr_n Hb).
  assert (0 ≤ i < n) by (eapply br_range; [exact Hb|simpl; elt]). lia.
Qed.

Lemma udp_echo_reads rounds items : ∀ c avail sp,
  (2 ≤ rounds)%nat → Forall (fun it => peer_ok it.2 ∧ Z.of_nat (length it.2.2) ≤ pbs) items →
  uc_inv c avail ((fun it => (it.1, frame_of it.2)) <$> items) [] [] sp →
  ∃ c', udp_reads (udp_echo rounds) c
      ((fun it => (Z.of_nat (length (frame_of it.2)), i32 (cqe_flags it.1 true))) <$> items) = Ok c' ∧
    uc_inv c' (avail ++ items.*1) [] [] []
      (mkUdpSpec [] (us_sq sp ++ take (Z.to_nat (udp_room (uc_tx c) sp)) items.*2) (us_flight sp)).
Proof.
  induction items as [|[i d] items IH]; intros c avail sp Hr Hp Hinv.
  - exists c. split; [done|]. simpl. rewrite take_nil, !app_nil_r.
    destruct Hinv as (? & ? & blks & free & mfree & sqb & flb & tblks & ? & ? & Hu).
    split; [done|]. split; [done|]. exists blks, free, mfree, sqb, flb, tblks. split_and!; try done.
    pose proof (ui_pend Hu) as HP. unfold stream in HP. simpl in HP. destruct sp. simpl in *. by subst.
  - apply Forall_cons in Hp as [[Hpd Hld] Hp]. simpl in Hpd, Hld.
    cbn [fmap list_fmap fst snd udp_reads] in Hinv |- *.
    rewrite udp_read_complete_more by (by eapply uc_range).
    destruct (udp_push_spec c avail i d _ [] [] sp true Hinv Hpd) as (b & rb & -> & Hpush & Hinv1). step.
    rewrite Hpush. step.
    destruct (udp_echo_spec [d] rounds _ _ _ _ _ Hinv1) as (c1 & -> & Hinv2 & Hroom); [simpl; lia|by constructor|]. step.
    destruct (IH c1 (avail ++ [i]) _ Hr Hp Hinv2) as (c' & Hrun & Hinv').
    exists c'. split; [exact Hrun|]. rewrite Hroom in Hinv'. cbn [us_sq us_flight uc_tx uc_with_rx] in Hinv'.
    rewrite <- !(assoc_L (++)) in Hinv'. set (r := udp_room (uc_tx c) sp) in *. rewrite (take_room r d items.*2).
    replace (take (Z.to_nat r) [d]) with (if 0 <? r then [d] else []) in Hinv' by (by rewrite take_room, take_nil, app_nil_r).
    by replace (Z.of_nat (length (if 0 <? r then [d] else []))) with (if 0 <? r then 1 else 0) in Hinv' by (by destruct (0 <? r)).
Qed.
End spec.
End udp.
Arguments UdpChannel : clear implicits.

(** An instance: a header of sixteen bytes that starts with the name length, the
    name padded to its field, the payload. *)
Definition small_bytes : list byte :=
  [x00; x01; x02; x03; x04; x05; x06; x07; x08; x09; x0a; x0b; x0c; x0d; x0e; x0f; x10].
Definition flat_frame (namelen controllen : Z) (name payload : list byte) : list byte :=
  (default x00 (small_bytes !! length name) :: replicate 15 x00) ++ name ++
  replicate (Z.to_nat (namelen + controllen) - length name) x00 ++ payload.

#[export] Instance flat_recvmsg : RecvmsgLib := {
  recvmsg_frame := flat_frame;
  recvmsg_overhead nl cl := 16 + nl + cl;
  io_uring_recvmsg_validate f nl cl := 16 + nl + cl <=? Z.of_nat (length f);
  io_uring_recvmsg_name := 16;
  recvmsg_out_namelen f := Z.of_N (Strings.Byte.to_N (default x00 (f !! 0%nat)));
  io_uring_recvmsg_payload nl cl := 16 + nl + cl;
  io_uring_recvmsg_payload_length f nl cl := Z.of_nat (length f) - (16 + nl + cl)
}.

Lemma mem_read_app l1 l2 l3 o k :
  o = Z.of_nat (length l1) → k = Z.of_nat (length l2) → mem_read (l1 ++ l2 ++ l3) o k = l2.
Proof.
  intros -> ->. unfold mem_read. rewrite !Nat2Z.id, drop_app_length. apply take_app_length.
Qed.

Lemma small_bytes_N k : (k ≤ 16)%nat → Z.of_N (Strings.Byte.to_N (default x00 (small_bytes !! k))) = Z.of_nat k.
Proof. intros Hk. do 17 (destruct k as [|k]; [reflexivity|]). lia. Qed.

#[export] Instance flat_recvmsg_laws : RecvmsgLaws.
Proof.
  split; [|simpl; unfold sizeof_sockaddr_in; lia]. intros name payload Hn. unfold sizeof_sockaddr_in in *. cbv zeta.
  assert (Hlen : Z.of_nat (length (flat_frame 16 0 name payload)) = 32 + Z.of_nat (length payload)).
  { unfold flat_frame. rewrite !length_app, !length_replicate. simpl length. rewrite ?length_replicate. lia. }
  cbn [recvmsg_frame recvmsg_overhead io_uring_recvmsg_validate io_uring_recvmsg_name recvmsg_out_namelen
    io_uring_recvmsg_payload io_uring_recvmsg_payload_length flat_recvmsg].
  split_and!; try lia.
  - unfold flat_frame. apply small_bytes_N. lia.
  - unfold flat_frame. by apply mem_read_app.
  - unfold flat_frame. rewrite !(assoc_L (++)). rewrite <- (app_nil_r payload) at 1.
    apply mem_read_app; [|done]. rewrite !length_app, !length_replicate. simpl. rewrite ?length_replicate. lia.
Qed.

(** A channel over fresh buffers. *)
Lemma uc_inv_fresh :
  ∃ c : UdpChannel list_ring, uc_inv 4 64 4 8 4 2 4 c (seqZ 0 4) [] [] [] udp_spec_0 ∧ udp_room 2 (uc_tx c) udp_spec_0 = 2.
Proof.
  destruct (BufRing_new_rep (R := list_ring) (fun _ => x00) 0 2 64 (mkListRing 4 [] [])) as (b & _ & _ & Hb);
    [lia..|reflexivity|].
  destruct (ReadBufStream_new_rep (R := list_ring) _ _ (fun _ => 0) (fun _ => 0) (fun _ => 0) 0 _ _ _ _ _ Hb)
    as (r & Er & Hr & _).
  unfold ReadBufStream_new in Er. ok_inv.
  destruct (udp_inv_fresh (fun _ => mkMsghdrSlot false None 0 None 0 [] 0) (fun _ => (0, 0)) (fun _ => 0)
    (fun _ => x00) (fun _ => 0) (fun _ => 0) (fun _ => 0) (fun _ => 0) (fun _ => 0) 2 8 2 1 4 2)
    as (p & mp & w & _ & _ & _ & H0); try lia.
  eexists (mkUdpChannel b (mkReadBufDgram _ sizeof_sockaddr_in 0 None) _ true).
  split.
  - split; [done|]. split; last first.
    { eexists _, _, _, _, _, _. split_and!; [exact Hb| |exact H0]. split; [exact Hr|done|done|constructor]. }
    simpl. lia.
  - unfold udp_room. cbn [uc_tx]. destruct (blocks_counted _ _ _ _ _ _ _ _ _ _ _ _ _ H0) as [_ ->]. done.
Qed.

(** Two datagrams have arrived at it. *)
Lemma uc_inv_two (d1 d2 : dgram) :
  Z.of_nat (length (frame_of d1)) ≤ 64 → Z.of_nat (length (frame_of d2)) ≤ 64 →
  ∃ c : UdpChannel list_ring,
    uc_inv 4 64 4 8 4 2 4 c [2; 3] [(0, frame_of d1); (1, frame_of d2)] [] [] udp_spec_0 ∧
    udp_room 2 (uc_tx c) udp_spec_0 = 2.
Proof.
  intros H1 H2. destruct uc_inv_fresh as (c & (Hal & Hdep & blks & free & mfree & sqb & flb & tblks & Hb & Hd & Hu) & Hroom).
  change (seqZ 0 4) with [0; 1; 2; 3] in Hb.
  destruct (br_receive _ _ _ _ _ _ _ _ _ Hb H1) as (b1 & _ & Hb1).
  destruct (br_receive _ _ _ _ _ _ _ _ _ Hb1 H2) as (b2 & _ & Hb2).
  exists (uc_with_rx c b2 (uc_read_buf c)). split; [|exact Hroom]. split; [done|]. split; [done|].
  by exists blks, free, mfree, sqb, flb, tblks.
Qed.

(** ** Claims *)

(** C14. The UDP echo server answers what it receives.  The submission queue has
    an entry for every message header, and each datagram of a batch of receive
    completions, all of which leave the receive armed, fits a block of the send
    pool.  Then the server ends with no unread datagram, every receive buffer is
    given back to the kernel in order, the read coroutine is alive, and exactly
    the first so many datagrams as there were free send blocks and free message
    headers, whichever are fewer, are handed to the transmit queue: their
    payloads, each addressed to its sender, in the order of arrival.  The
    others, which found no block or no header, are dropped. *)
Theorem udp_echo_answers_in_order {R} {Hlib : BufRingLib R} {Hlaws : BufRingLaws R} {Hrm : RecvmsgLib}
    {Hrl : RecvmsgLaws} n bs pn pbs cap mcap mi rounds (c : UdpChannel R) avail (items : list (Z * dgram)) sp :
  (2 ≤ rounds)%nat → Forall (fun it => peer_ok it.2 ∧ Z.of_nat (length it.2.2) ≤ pbs) items →
  uc_inv n bs pn pbs cap mcap mi c avail ((fun it => (it.1, frame_of it.2)) <$> items) [] [] sp →
  ∃ c', udp_reads (udp_echo rounds) c
      ((fun it => (Z.of_nat (length (frame_of it.2)), i32 (cqe_flags it.1 true))) <$> items) = Ok c' ∧
    uc_inv n bs pn pbs cap mcap mi c' (avail ++ items.*1) [] [] []
      (mkUdpSpec [] (us_sq sp ++ take (Z.to_nat (udp_room mcap (uc_tx c) sp)) items.*2) (us_flight sp)).
Proof. intros. by apply udp_echo_reads. Qed.

(** Two headers are free, and four blocks: both datagrams are answered. *)
Lemma udp_echo_answers_in_order_witness :
  ∃ c c' : UdpChannel list_ring, udp_reads (udp_echo 2) c
      [(Z.of_nat (length (frame_of ([x7f; x01], [x61; x62]))), i32 (cqe_flags 0 true));
       (Z.of_nat (length (frame_of ([x7f; x02], [x63]))), i32 (cqe_flags 1 true))] = Ok c' ∧
    uc_inv 4 64 4 8 4 2 4 c' [2; 3; 0; 1] [] [] []
      (mkUdpSpec [] [([x7f; x01], [x61; x62]); ([x7f; x02], [x63])] []).
Proof.
  destruct (uc_inv_two ([x7f; x01], [x61; x62]) ([x7f; x02], [x63])) as (c & Hc & Hroom); [vm_compute; discriminate..|].
  destruct (udp_echo_answers_in_order 4 64 4 8 4 2 4 2 c [2; 3]
    [(0, ([x7f; x01], [x61; x62])); (1, ([x7f; x02], [x63]))] udp_spec_0) as (c' & Hrun & Hinv).
  - lia.
  - repeat constructor; vm_compute; discriminate.
  - exact Hc.
  - exists c, c'. split; [exact Hrun|]. rewrite Hroom in Hinv. exact Hinv.
Defined.

(** A datagram is dropped only for want of resources: one whose payload
    fits a block of the send pool is sent exactly when a block and a message
    header are free. *)
Theorem udp_echo_sends_when_room pn pbs cap mcap mi u sp free mfree sqb flb blks peer payload :
  udp_inv pn pbs cap mcap mi u sp [] free mfree sqb flb blks → mcap ≤ ut_depth u →
  Z.of_nat (length peer) ≤ sizeof_sockaddr_in → Z.of_nat (length payload) ≤ pbs →
  ∃ ok u' free' mfree' sqb' flb' blks', echo_sends peer payload u = Ok (ok, u') ∧
    ok = negb (bool_decide (free = [])) && negb (bool_decide (mfree = [])) ∧
    udp_inv pn pbs cap mcap mi u'
      (mkUdpSpec [] (us_sq sp ++ if ok then [(peer, payload)] else []) (us_flight sp)) []
      free' mfree' sqb' flb' blks'.
Proof.
  intros Hinv Hdep Hp Hl.
  assert (pbs < 2 ^ 31) as Hpbs.
  { pose proof (wbp_pool (ui_wbp Hinv)) as Hpr.
    pose proof (pr_total Hpr). pose proof (pr_pos Hpr). pose proof (pr_mask Hpr).
    destruct (rk_pow (pr_ring Hpr)) as (k & ? & ? & ?). assert (0 < 2 ^ k) by lia. nia. }
  destruct (echo_sends_spec pn pbs cap mcap mi u sp free mfree sqb flb blks (peer, payload) Hinv Hdep Hp ltac:(simpl; lia))
    as (ok & u' & f & m & sq & fl & bl & Hrun & _ & Hinv' & Hok).
  exists ok, u', f, m, sq, fl, bl. split; [exact Hrun|]. split; [exact (proj1 (Hok Hl))|exact Hinv'].
Qed.

Lemma udp_echo_sends_when_room_witness :
  ∃ u u', echo_sends [x7f] [x01; x02] u = Ok (true, u').
Proof.
  destruct (udp_inv_fresh (fun _ => mkMsghdrSlot false None 0 None 0 [] 0) (fun _ => (0, 0)) (fun _ => 0)
    (fun _ => x00) (fun _ => 0) (fun _ => 0) (fun _ => 0) (fun _ => 0) (fun _ => 0) 2 2 2 1 4 2)
    as (p & mp & w & _ & _ & _ & H0); try lia.
  destruct (udp_echo_sends_when_room _ _ _ _ _ _ _ _ _ _ _ _ [x7f] [x01; x02] H0) as (ok & u' & _ & _ & _ & _ & _ & H1 & H2 & _);
    [simpl; lia|vm_compute; discriminate|simpl; lia|].
  eexists _, u'. rewrite H1, H2. reflexivity.
Defined.
