(* ===== verification/MpscQueue.v ===== *)
(** * MpscQueue: the bounded multi-producer single-consumer queue

    Models include/util/mpsc_queue.hpp.  [enqueue] and [dequeue] are broken at
    every access to memory that other threads share, so that threads interleave
    between any two of them; memory is sequentially consistent, which the
    acquire and release orders of the source give for the slots.  The counters
    are [size_t] and the comparison goes through [intptr_t]. *)
From stdpp Require Import relations.
From S2P Require Import Prelude.

Section mpsc.
Context {T : Type}.

(** Slot: sequence number and data. *)
Record MPSCQueue := mkMPSCQueue { mq_head : Z; mq_tail : Z; mq_buffer : list (Z * T) }.

(** The constructor stores [i] in slot [i]; [junk] is the unset data. *)
Definition MPSCQueue_new (capacity : Z) (junk : nat → T) : MPSCQueue :=
  mkMPSCQueue 0 0 ((fun i => (Z.of_nat i, junk i)) <$> seq 0 (Z.to_nat capacity)).

Definition mq_index (capacity pos : Z) : Z := Z.land pos (capacity - 1).

(** Difference of two [size_t] cast to [intptr_t]. *)
Definition seq_diff (a b : Z) : result Z :=
  let d := i64 a - i64 b in
  if (- 2 ^ 63 <=? d) && (d <? 2 ^ 63) then Ok d else Fault SignedOverflow.

(** Where a producer is inside [enqueue]. *)
Inductive enq_pc :=
  | EnqRet (r : bool)                    (* returned; also: not started *)
  | EnqLoad (item : T)                   (* before tail_.load *)
  | EnqSeq (item : T) (pos : Z)          (* before sequence.load *)
  | EnqCas (item : T) (pos : Z)          (* before compare_exchange_weak *)
  | EnqData (item : T) (pos : Z)         (* before slot->data = item *)
  | EnqPublish (item : T) (pos : Z).     (* before sequence.store *)

(** One step; [spurious] makes the weak exchange fail. *)
Definition enqueue_step (capacity : Z) (spurious : bool) (q : MPSCQueue) (pc : enq_pc) : result (MPSCQueue * enq_pc) :=
  match pc with
  | EnqRet r => Ok (q, EnqRet r)
  | EnqLoad item => Ok (q, EnqSeq item (mq_tail q))
  | EnqSeq item pos =>
      '(s, _) ← arr_get (mq_buffer q) (mq_index capacity pos);
      diff ← seq_diff s pos;
      Ok (q, if diff =? 0 then EnqCas item pos else if diff <? 0 then EnqRet false else EnqLoad item)
  | EnqCas item pos =>
      if negb spurious && (mq_tail q =? pos)
      then Ok (mkMPSCQueue (mq_head q) (u64 (pos + 1)) (mq_buffer q), EnqData item pos)
      else Ok (q, EnqLoad item)
  | EnqData item pos =>
      '(s, _) ← arr_get (mq_buffer q) (mq_index capacity pos);
      b ← arr_set (mq_buffer q) (mq_index capacity pos) (s, item);
      Ok (mkMPSCQueue (mq_head q) (mq_tail q) b, EnqPublish item pos)
  | EnqPublish item pos =>
      '(_, d) ← arr_get (mq_buffer q) (mq_index capacity pos);
      b ← arr_set (mq_buffer q) (mq_index capacity pos) (u64 (pos + 1), d);
      Ok (mkMPSCQueue (mq_head q) (mq_tail q) b, EnqRet true)
  end.

(** Where the consumer is inside [dequeue]. *)
Inductive deq_pc :=
  | DeqRet (r : option T)                (* returned; also: not started *)
  | DeqSeq                               (* before sequence.load *)
  | DeqData                              (* before item = slot.data *)
  | DeqStore (item : T)                  (* before sequence.store *)
  | DeqHead (item : T).                  (* before head_++ *)

Definition dequeue_step (capacity : Z) (q : MPSCQueue) (pc : deq_pc) : result (MPSCQueue * deq_pc) :=
  match pc with
  | DeqRet r => Ok (q, DeqRet r)
  | DeqSeq =>
      '(s, _) ← arr_get (mq_buffer q) (mq_index capacity (mq_head q));
      diff ← seq_diff s (u64 (mq_head q + 1));
      Ok (q, if diff =? 0 then DeqData else DeqRet None)
  | DeqData =>
      '(_, d) ← arr_get (mq_buffer q) (mq_index capacity (mq_head q));
      Ok (q, DeqStore d)
  | DeqStore item =>
      '(_, d) ← arr_get (mq_buffer q) (mq_index capacity (mq_head q));
      b ← arr_set (mq_buffer q) (mq_index capacity (mq_head q)) (u64 (mq_head q + capacity), d);
      Ok (mkMPSCQueue (mq_head q) (mq_tail q) b, DeqHead item)
  | DeqHead item => Ok (mkMPSCQueue (u64 (mq_head q + 1)) (mq_tail q) (mq_buffer q), DeqRet (Some item))
  end.

(** Calls with no other thread inside the queue; an enqueue takes at most five
    steps, a dequeue four. *)
Fixpoint enqueue_alone (fuel : nat) (capacity : Z) (q : MPSCQueue) (pc : enq_pc) : result (MPSCQueue * bool) :=
  match pc with
  | EnqRet r => Ok (q, r)
  | _ =>
      match fuel with
      | O => Fault OutOfFuel
      | S fuel => '(q, pc) ← enqueue_step capacity false q pc; enqueue_alone fuel capacity q pc
      end
  end.
Definition MPSCQueue_enqueue (capacity : Z) (q : MPSCQueue) (item : T) : result (MPSCQueue * bool) :=
  enqueue_alone 5 capacity q (EnqLoad item).

Fixpoint dequeue_alone (fuel : nat) (capacity : Z) (q : MPSCQueue) (pc : deq_pc) : result (MPSCQueue * option T) :=
  match pc with
  | DeqRet r => Ok (q, r)
  | _ =>
      match fuel with
      | O => Fault OutOfFuel
      | S fuel => '(q, pc) ← dequeue_step capacity q pc; dequeue_alone fuel capacity q pc
      end
  end.
Definition MPSCQueue_dequeue (capacity : Z) (q : MPSCQueue) : result (MPSCQueue * option T) :=
  dequeue_alone 4 capacity q DeqSeq.

(** ** Threads

    Any number of producers and the consumer.  [ms_claimed] lists the items in
    the order their producers won the exchange, [ms_taken] the items the
    consumer has taken out of the buffer. *)
Record mstate := mkMstate {
  ms_queue : MPSCQueue;
  ms_enq : list enq_pc;
  ms_deq : deq_pc;
  ms_claimed : list T;
  ms_taken : list T
}.

(** The item a step of a producer claims a slot for. *)
Definition claims (pc pc' : enq_pc) : list T :=
  match pc, pc' with EnqCas item _, EnqData _ _ => [item] | _, _ => [] end.
Definition takes (pc : deq_pc) : list T := match pc with DeqStore item => [item] | _ => [] end.

Inductive mstep (capacity : Z) : mstate → mstate → Prop :=
  | m_call q ps d cl tk p r item :
      ps !! p = Some (EnqRet r) →
      mstep capacity (mkMstate q ps d cl tk) (mkMstate q (<[p := EnqLoad item]> ps) d cl tk)
  | m_enq q ps d cl tk p pc spurious q' pc' :
      ps !! p = Some pc → enqueue_step capacity spurious q pc = Ok (q', pc') →
      mstep capacity (mkMstate q ps d cl tk) (mkMstate q' (<[p := pc']> ps) d (cl ++ claims pc pc') tk)
  | m_call_deq q ps r cl tk :
      mstep capacity (mkMstate q ps (DeqRet r) cl tk) (mkMstate q ps DeqSeq cl tk)
  | m_deq q ps d cl tk q' d' :
      dequeue_step capacity q d = Ok (q', d') →
      mstep capacity (mkMstate q ps d cl tk) (mkMstate q' ps d' cl (tk ++ takes d)).

Definition mstart (capacity : Z) (junk : nat → T) (producers : nat) : mstate :=
  mkMstate (MPSCQueue_new capacity junk) (replicate producers (EnqRet false)) (DeqRet None) [] [].

(** ** The invariant *)
Section inv.
Context (k : Z) (Hk : 1 ≤ k) (capacity : Z) (Hcap : capacity = 2 ^ k).
Let N : nat := Z.to_nat capacity.

Definition slot (q : MPSCQueue) (x : nat) : option (Z * T) := mq_buffer q !! (x mod N)%nat.

(** The position a producer has claimed and not yet published. *)
Definition owns (pc : enq_pc) (x : nat) (item : T) : Prop :=
  pc = EnqData item (Z.of_nat x) ∨ pc = EnqPublish item (Z.of_nat x).

(** Positions below [h] are consumed, from [h] to the number of claimed items
    they hold an item, from there to [h + N] they are free. *)
Record minv (h : nat) (st : mstate) : Prop := {
  mi_len : length (mq_buffer (ms_queue st)) = N;
  mi_tail : mq_tail (ms_queue st) = Z.of_nat (length (ms_claimed st));
  mi_head : (mq_head (ms_queue st) + if ms_deq st is DeqHead _ then 1 else 0) = Z.of_nat h;
  mi_taken : ms_taken st = take h (ms_claimed st);
  mi_le : (h ≤ length (ms_claimed st) ≤ h + N)%nat;
  mi_free x : (length (ms_claimed st) ≤ x < h + N)%nat → ∃ d, slot (ms_queue st) x = Some (Z.of_nat x, d);
  mi_used x item : (h ≤ x)%nat → ms_claimed st !! x = Some item →
    ∃ d, slot (ms_queue st) x = Some (Z.of_nat x, d) ∨ slot (ms_queue st) x = Some (Z.of_nat x + 1, item);
  mi_own p pc x item : ms_enq st !! p = Some pc → owns pc x item →
    (h ≤ x)%nat ∧ ms_claimed st !! x = Some item ∧
    ∃ d, slot (ms_queue st) x = Some (Z.of_nat x, d) ∧ (pc = EnqPublish item (Z.of_nat x) → d = item);
  mi_unique p p' pc pc' x item item' : ms_enq st !! p = Some pc → ms_enq st !! p' = Some pc' →
    owns pc x item → owns pc' x item' → p = p';
  mi_pc p pc : ms_enq st !! p = Some pc →
    match pc with
    | EnqSeq _ pos => ∃ x, pos = Z.of_nat x ∧ (x ≤ length (ms_claimed st))%nat
    | EnqCas _ pos => ∃ x, pos = Z.of_nat x ∧ (x ≤ length (ms_claimed st))%nat ∧ (x < h + N)%nat
    | EnqData item pos | EnqPublish item pos => ∃ x, pos = Z.of_nat x
    | _ => True
    end;
  mi_deq :
    match ms_deq st with
    | DeqData => ∃ item, ms_claimed st !! h = Some item ∧ slot (ms_queue st) h = Some (Z.of_nat h + 1, item)
    | DeqStore item => ms_claimed st !! h = Some item ∧ slot (ms_queue st) h = Some (Z.of_nat h + 1, item)
    | _ => True
    end
}.

(** *** Arithmetic of positions *)
Lemma N_ge2 : (2 ≤ N)%nat ∧ Z.of_nat N = capacity.
Proof.
  assert (2 ^ 1 ≤ 2 ^ k) by (apply Z.pow_le_mono_r; lia). unfold N. lia.
Qed.

Lemma mq_index_nat x : mq_index capacity (Z.of_nat x) = Z.of_nat (x mod N).
Proof.
  pose proof N_ge2 as [? HN]. unfold mq_index. rewrite Hcap at 1. rewrite land_mask by lia.
  rewrite <- Hcap, <- HN. by rewrite Nat2Z.inj_mod.
Qed.

Lemma slot_inj x y : (x < y + N)%nat → (y < x + N)%nat → (x mod N = y mod N)%nat → x = y.
Proof.
  pose proof N_ge2 as [? _]. intros H1 H2 E.
  pose proof (Nat.div_mod_eq x N). pose proof (Nat.div_mod_eq y N). rewrite E in *.
  assert (x / N = y / N)%nat by nia. congruence.
Qed.

Lemma slot_wrap x : ((x + N) mod N = x mod N)%nat.
Proof. pose proof N_ge2. rewrite <- (Nat.mul_1_l N) at 1. apply Nat.Div0.mod_add. Qed.

(** *** Access to the slots *)
Lemma seq_diff_small a b : 0 ≤ a < 2 ^ 63 → 0 ≤ b < 2 ^ 63 → seq_diff a b = Ok (a - b).
Proof.
  intros. unfold seq_diff, i64. rewrite !Z.mod_small by lia. rewrite !(proj2 (Z.ltb_lt _ (2 ^ 63))) by lia.
  by rewrite (proj2 (Z.leb_le _ _)) by lia.
Qed.

Lemma slot_get q x sd : slot q x = Some sd → arr_get (mq_buffer q) (mq_index capacity (Z.of_nat x)) = Ok sd.
Proof. intros. rewrite mq_index_nat. by apply arr_get_nat. Qed.

Lemma slot_set q x v :
  length (mq_buffer q) = N →
  arr_set (mq_buffer q) (mq_index capacity (Z.of_nat x)) v = Ok (<[(x mod N)%nat := v]> (mq_buffer q)).
Proof.
  intros Hl. pose proof N_ge2 as [? _]. pose proof (Nat.mod_upper_bound x N).
  rewrite mq_index_nat, arr_set_ok by lia. by rewrite Nat2Z.id.
Qed.

Lemma slot_upd h t b x v y :
  length b = N →
  slot (mkMPSCQueue h t (<[(x mod N)%nat := v]> b)) y =
  if decide (x mod N = y mod N)%nat then Some v else b !! (y mod N)%nat.
Proof.
  intros Hl. pose proof N_ge2 as [? _]. pose proof (Nat.mod_upper_bound x N). unfold slot. simpl.
  case_decide as E; [rewrite <- E; apply list_lookup_insert_eq; lia|by apply list_lookup_insert_ne].
Qed.

(** *** Producers *)
Definition idle_pc (pc : enq_pc) : Prop := ∀ x item, ¬ owns pc x item.

(** A producer that owns no slot moves without touching the queue. *)
Lemma minv_pc h q ps d cl tk p pc pc' :
  minv h (mkMstate q ps d cl tk) → ps !! p = Some pc → idle_pc pc' →
  (match pc' with
   | EnqSeq _ pos => ∃ x, pos = Z.of_nat x ∧ (x ≤ length cl)%nat
   | EnqCas _ pos => ∃ x, pos = Z.of_nat x ∧ (x ≤ length cl)%nat ∧ (x < h + N)%nat
   | EnqData item pos | EnqPublish item pos => ∃ x, pos = Z.of_nat x
   | _ => True end) →
  minv h (mkMstate q (<[p := pc']> ps) d cl tk).
Proof.
  intros [Hlen Htail Hhead Htk Hle Hfree Hused Hown Huniq Hpcs Hdeq] Hp Hidle Hpc. split; simpl in *; try done.
  - intros p' pc1 x item [[-> [<- _]]|[Hne Hp']]%list_lookup_insert_Some Ho; [by destruct (Hidle x item)|].
    exact (Hown _ _ _ _ Hp' Ho).
  - intros p1 p2 pc1 pc2 x i1 i2 [[-> [<- _]]|[Hne1 Hp1]]%list_lookup_insert_Some
      [[-> [<- _]]|[Hne2 Hp2]]%list_lookup_insert_Some Ho1 Ho2;
      [done|by destruct (Hidle x i1)|by destruct (Hidle x i2)|exact (Huniq _ _ _ _ _ _ _ Hp1 Hp2 Ho1 Ho2)].
  - intros p' pc1 [[-> [<- _]]|[Hne Hp']]%list_lookup_insert_Some; [done|exact (Hpcs _ _ Hp')].
Qed.

(** Every slot belongs to one live position. *)
Lemma slot_live h st x :
  minv h st → ∃ y s d, (h ≤ y < h + N)%nat ∧ (x mod N = y mod N)%nat ∧ slot (ms_queue st) x = Some (s, d) ∧
    (s = Z.of_nat y ∨ s = Z.of_nat y + 1 ∧ (y < length (ms_claimed st))%nat).
Proof.
  intros H. pose proof N_ge2 as [HN _].
  assert (∃ y, (h ≤ y < h + N)%nat ∧ (x mod N = y mod N)%nat) as (y & Hy & Exy).
  { pose proof (Nat.mod_upper_bound (x + N - h mod N) N). pose proof (Nat.mod_upper_bound h N).
    exists (h + (x + N - h mod N) mod N)%nat. split; [lia|].
    rewrite Nat.Div0.add_mod_idemp_r. rewrite (Nat.div_mod_eq h N) at 1.
    replace (N * (h / N) + h mod N + (x + N - h mod N))%nat with (x + (1 + h / N) * N)%nat by lia.
    by rewrite Nat.Div0.mod_add. }
  destruct (decide (length (ms_claimed st) ≤ y)%nat).
  - destruct (mi_free _ _ H y) as (d & Hs); [lia|]. exists y, (Z.of_nat y), d. unfold slot in *. rewrite Exy. auto.
  - destruct (lookup_lt_is_Some_2 (ms_claimed st) y ltac:(lia)) as [item Hi].
    destruct (mi_used _ _ H y item ltac:(lia) Hi) as (d & [Hs|Hs]); unfold slot in *; rewrite Exy;
      eexists y, _, _; (split_and!; [lia..|done|done|]); [by left|right; split; [done|lia]].
Qed.

Lemma enq_seq_ok sp h q ps d cl tk p item pos :
  minv h (mkMstate q ps d cl tk) → ps !! p = Some (EnqSeq item pos) → Z.of_nat (length cl) + capacity < 2 ^ 63 →
  ∃ pc', enqueue_step capacity sp q (EnqSeq item pos) = Ok (q, pc') ∧
    minv h (mkMstate q (<[p := pc']> ps) d (cl ++ claims (EnqSeq item pos) pc') tk).
Proof.
  intros H Hp Hb. pose proof N_ge2 as [HN HNc]. destruct (mi_pc _ _ H _ _ Hp) as (x & -> & Hx).
  destruct (slot_live _ _ x H) as (y & s & d' & Hy & Exy & Hs & Hsy). pose proof (mi_le _ _ H) as Hle. simpl in *.
  rewrite (slot_get _ _ _ Hs). step. rewrite seq_diff_small by lia. step. eexists. split; [done|].
  rewrite app_nil_r.
  eapply minv_pc; [done|done|repeat case_match; by intros ?? [?|?]|].
  destruct (_ =? 0) eqn:E0; bools; [|by destruct (_ <? 0)]. exists x. split_and!; [done..|].
  destruct (decide (x = h + N)%nat) as [->|]; [|lia]. rewrite slot_wrap in Exy.
  pose proof (slot_inj h y ltac:(lia) ltac:(lia) Exy). lia.
Qed.

(** Winning the exchange claims the first free position. *)
Lemma enq_claim_ok h q ps d cl tk p item :
  minv h (mkMstate q ps d cl tk) → ps !! p = Some (EnqCas item (mq_tail q)) →
  Z.of_nat (length cl) + capacity < 2 ^ 63 →
  minv h (mkMstate (mkMPSCQueue (mq_head q) (u64 (mq_tail q + 1)) (mq_buffer q))
    (<[p := EnqData item (mq_tail q)]> ps) d (cl ++ [item]) tk).
Proof.
  intros H Hp Hb. pose proof N_ge2 as [HN HNc]. destruct (mi_pc _ _ H _ _ Hp) as (x & Hx & Hxl & Hxh).
  destruct H as [Hlen Htail Hhead Htk Hle Hfree Hused Hown Huniq Hpc Hdeq]. simpl in *.
  assert (x = length cl) as -> by lia. rewrite Htail.
  assert (Hlt : ∀ y it, cl !! y = Some it → (y < length cl)%nat) by (intros; by eapply lookup_lt_Some).
  split; simpl; try done.
  - rewrite u64_small, length_app by lia. simpl. lia.
  - rewrite Htk, take_app_le by lia. done.
  - rewrite length_app. simpl. lia.
  - intros y. rewrite length_app. simpl. intros. apply Hfree. lia.
  - intros y it Hy [Hc|[Hl Hc]]%lookup_app_Some; [eauto|].
    apply list_lookup_singleton_Some in Hc as [Hy0 <-]. replace y with (length cl) by lia.
    destruct (Hfree (length cl) ltac:(lia)) as (d0 & Hs). exists d0. by left.
  - intros p' pc x it [[-> [<- _]]|[Hne Hp']]%list_lookup_insert_Some Ho.
    + destruct Ho as [[= -> Ex]|?]; [|done]. replace x with (length cl) by lia.
      split_and!; [lia|by rewrite lookup_app_r, Nat.sub_diag by lia|].
      destruct (Hfree (length cl) ltac:(lia)) as (d0 & Hs). by exists d0.
    + destruct (Hown _ _ _ _ Hp' Ho) as (? & ? & ?). split_and!; [done|by apply lookup_app_l_Some|done].
  - assert (Hno : ∀ p' pc' it, ps !! p' = Some pc' → ¬ owns pc' (length cl) it).
    { intros p' pc' it Hp' Ho. destruct (Hown _ _ _ _ Hp' Ho) as (_ & Hc & _). apply Hlt in Hc. lia. }
    intros p1 p2 pc1 pc2 x i1 i2 [[-> [<- _]]|[Hne1 Hp1]]%list_lookup_insert_Some
      [[-> [<- _]]|[Hne2 Hp2]]%list_lookup_insert_Some Ho1 Ho2;
      [done|..|exact (Huniq _ _ _ _ _ _ _ Hp1 Hp2 Ho1 Ho2)].
    + destruct Ho1 as [[= -> Ex]|?]; [|done]. replace x with (length cl) in Ho2 by lia. by eapply Hno in Ho2.
    + destruct Ho2 as [[= -> Ex]|?]; [|done]. replace x with (length cl) in Ho1 by lia. by eapply Hno in Ho1.
  - intros p' pc [[-> [<- _]]|[Hne Hp']]%list_lookup_insert_Some; [by eexists|].
    specialize (Hpc _ _ Hp'). rewrite length_app. destruct pc; try done.
    + destruct Hpc as (y & -> & ?). exists y. split; [done|lia].
    + destruct Hpc as (y & -> & ? & ?). exists y. split_and!; [done|lia|done].
  - destruct d; try done; [destruct Hdeq as (it & Hc & ?); exists it|destruct Hdeq as (Hc & ?)];
      (split; [by apply lookup_app_l_Some|done]).
Qed.

(** The owner of a position writes its data or publishes it. *)
Lemma minv_slot h q ps d cl tk p pc x item s pc' :
  minv h (mkMstate q ps d cl tk) → ps !! p = Some pc → owns pc x item →
  (s = Z.of_nat x ∧ pc' = EnqPublish item (Z.of_nat x) ∨ s = Z.of_nat x + 1 ∧ pc' = EnqRet true) →
  minv h (mkMstate (mkMPSCQueue (mq_head q) (mq_tail q) (<[(x mod N)%nat := (s, item)]> (mq_buffer q)))
    (<[p := pc']> ps) d cl tk).
Proof.
  intros [Hlen Htail Hhead Htk Hle Hfree Hused Hown Huniq Hpc Hdeq] Hp Ho Hnew. simpl in *.
  destruct (Hown _ _ _ _ Hp Ho) as (Hhx & Hcx & d0 & Hsx & _). pose proof (lookup_lt_Some _ _ _ Hcx) as Hxt.
  pose proof N_ge2 as [HN _].
  assert (Heq : slot (mkMPSCQueue (mq_head q) (mq_tail q) (<[(x mod N)%nat := (s, item)]> (mq_buffer q))) x
    = Some (s, item)) by (rewrite slot_upd, decide_True by done; done).
  assert (Hother : ∀ y, (h ≤ y < h + N)%nat → y ≠ x →
    slot (mkMPSCQueue (mq_head q) (mq_tail q) (<[(x mod N)%nat := (s, item)]> (mq_buffer q))) y = slot q y).
  { intros y Hy Hne. rewrite slot_upd, decide_False; [done| |done]. intros E. apply Hne. symmetry.
    apply slot_inj; [lia..|done]. }
  split; simpl; try done.
  - by rewrite length_insert.
  - intros y Hy. rewrite Hother by lia. apply Hfree. lia.
  - intros y it Hy Hc. pose proof (lookup_lt_Some _ _ _ Hc). destruct (decide (y = x)) as [->|].
    + rewrite Heq. rewrite Hcx in Hc. simplify_eq. exists it. destruct Hnew as [[-> _]|[-> _]]; [by left|by right].
    + rewrite Hother by lia. by apply Hused.
  - intros p' pc1 y it [[-> [<- _]]|[Hne Hp']]%list_lookup_insert_Some Ho1.
    + destruct Hnew as [[-> ->]|[_ ->]]; [|by destruct Ho1]. destruct Ho1 as [?|[= <- Exy]]; [done|].
      assert (y = x) as -> by lia. split_and!; [done..|]. exists item. by split.
    + destruct (Hown _ _ _ _ Hp' Ho1) as (Hy & Hc & Hd). pose proof (lookup_lt_Some _ _ _ Hc).
      split_and!; [done..|]. rewrite Hother; [done|lia|]. intros ->. apply Hne. exact (Huniq _ _ _ _ _ _ _ Hp Hp' Ho Ho1).
  - assert (Hsame : ∀ y it, owns pc' y it → y = x).
    { intros y it Ho1. destruct Hnew as [[-> ->]|[_ ->]]; [|by destruct Ho1]. destruct Ho1; simplify_eq. lia. }
    intros p1 p2 pc1 pc2 y i1 i2 [[-> [<- _]]|[Hne1 Hp1]]%list_lookup_insert_Some
      [[-> [<- _]]|[Hne2 Hp2]]%list_lookup_insert_Some Ho1 Ho2.
    + done.
    + rewrite (Hsame _ _ Ho1) in Ho2. exact (Huniq _ _ _ _ _ _ _ Hp Hp2 Ho Ho2).
    + rewrite (Hsame _ _ Ho2) in Ho1. exact (Huniq _ _ _ _ _ _ _ Hp1 Hp Ho1 Ho).
    + exact (Huniq _ _ _ _ _ _ _ Hp1 Hp2 Ho1 Ho2).
  - intros p' pc1 [[-> [<- _]]|[Hne Hp']]%list_lookup_insert_Some; [|exact (Hpc _ _ Hp')].
    destruct Hnew as [[-> ->]|[_ ->]]; [by eexists|done].
  - assert (Hh : ∀ it, slot q h = Some (Z.of_nat h + 1, it) → h ≠ x) by (intros it E ->; simplify_eq; lia).
    destruct d; try done.
    + destruct Hdeq as (it & Hc & E). exists it. split; [done|]. rewrite Hother; [done|lia|by eapply Hh].
    + destruct Hdeq as (Hc & E). split; [done|]. rewrite Hother; [done|lia|by eapply Hh].
Qed.

(** Every step of a producer returns and keeps the invariant. *)
Lemma enqueue_step_ok sp h q ps d cl tk p pc :
  minv h (mkMstate q ps d cl tk) → ps !! p = Some pc → Z.of_nat (length cl) + capacity < 2 ^ 63 →
  ∃ q' pc', enqueue_step capacity sp q pc = Ok (q', pc') ∧
    minv h (mkMstate q' (<[p := pc']> ps) d (cl ++ claims pc pc') tk).
Proof.
  intros H Hp Hb. pose proof (mi_pc _ _ H _ _ Hp) as Hpc. destruct pc as [r|item|item pos|item pos|item pos|item pos].
  - eexists _, _. split; [done|]. rewrite app_nil_r. eapply minv_pc; [done|done|by intros ?? [?|?]|done].
  - eexists _, _. split; [done|]. rewrite app_nil_r. eapply minv_pc; [done|done|by intros ?? [?|?]|].
    pose proof (mi_tail _ _ H) as Ht. simpl in Ht |- *. by eexists.
  - destruct (enq_seq_ok sp _ _ _ _ _ _ _ _ _ H Hp Hb) as (pc' & Hs & Hi). by exists q, pc'.
  - cbn [enqueue_step]. destruct (negb sp && (mq_tail q =? pos)) eqn:E; bools; eexists _, _; (split; [done|]).
    + subst pos. by apply enq_claim_ok.
    + rewrite app_nil_r. eapply minv_pc; [done|done|by intros ?? [?|?]|done].
  - destruct Hpc as (x & ->). assert (Ho : owns (EnqData item (Z.of_nat x)) x item) by by left.
    destruct (mi_own _ _ H _ _ _ _ Hp Ho) as (_ & _ & d0 & Hs & _). simpl in Hs. cbn [enqueue_step].
    rewrite (slot_get _ _ _ Hs). step. rewrite (slot_set _ _ _ (mi_len _ _ H)). step.
    eexists _, _. split; [done|]. rewrite app_nil_r. eapply minv_slot; [done..|by left].
  - destruct Hpc as (x & ->). assert (Ho : owns (EnqPublish item (Z.of_nat x)) x item) by by right.
    destruct (mi_own _ _ H _ _ _ _ Hp Ho) as (_ & Hc & d0 & Hs & Hd). simpl in Hs, Hc. cbn [enqueue_step].
    pose proof (lookup_lt_Some _ _ _ Hc). pose proof N_ge2 as [_ HNc].
    rewrite (slot_get _ _ _ Hs). step. rewrite (slot_set _ _ _ (mi_len _ _ H)). step.
    rewrite (Hd eq_refl), u64_small by lia.
    eexists _, _. split; [done|]. rewrite app_nil_r. eapply minv_slot; [done..|by right].
Qed.

(** *** The consumer *)
Lemma minv_deq h q ps d d' cl tk :
  minv h (mkMstate q ps d cl tk) →
  match d with DeqHead _ => False | _ => True end →
  match d' with
  | DeqData => ∃ item, cl !! h = Some item ∧ slot q h = Some (Z.of_nat h + 1, item)
  | DeqStore item => cl !! h = Some item ∧ slot q h = Some (Z.of_nat h + 1, item)
  | DeqHead _ => False
  | _ => True
  end → minv h (mkMstate q ps d' cl tk).
Proof.
  intros [Hlen Htail Hhead Htk Hle Hfree Hused Hown Huniq Hpc Hdeq] Hd Hd'. simpl in *.
  split; simpl; try done; [by destruct d, d'|by destruct d'].
Qed.

(** Taking the first item frees its position for the next lap. *)
Lemma deq_store_ok h q ps cl tk item :
  minv h (mkMstate q ps (DeqStore item) cl tk) → Z.of_nat (length cl) + capacity < 2 ^ 63 →
  minv (S h) (mkMstate (mkMPSCQueue (mq_head q) (mq_tail q)
    (<[(h mod N)%nat := (Z.of_nat (h + N), item)]> (mq_buffer q))) ps (DeqHead item) cl (tk ++ [item])).
Proof.
  intros [Hlen Htail Hhead Htk Hle Hfree Hused Hown Huniq Hpc Hdeq] Hb. simpl in *.
  destruct Hdeq as [Hc Hs]. pose proof (lookup_lt_Some _ _ _ Hc) as Hlt. pose proof N_ge2 as [HN _].
  set (q' := mkMPSCQueue _ _ _).
  assert (Hother : ∀ y, (h < y < h + N)%nat → slot q' y = slot q y).
  { intros y Hy. unfold q'. rewrite slot_upd, decide_False; [done| |done]. intros E.
    apply (slot_inj h y) in E; lia. }
  split; simpl; try done.
  - by rewrite length_insert.
  - lia.
  - by rewrite Htk, (take_S_r _ _ _ Hc).
  - lia.
  - intros y Hy. destruct (decide (y = h + N)%nat) as [->|].
    + exists item. unfold q'. rewrite slot_upd, slot_wrap, decide_True by done. done.
    + rewrite Hother by lia. apply Hfree. lia.
  - intros y it Hy Hcy. pose proof (lookup_lt_Some _ _ _ Hcy). rewrite Hother by lia. apply Hused; [lia|done].
  - intros p pc y it Hp Ho. destruct (Hown _ _ _ _ Hp Ho) as (Hy & Hcy & d0 & Hsy & Hd).
    pose proof (lookup_lt_Some _ _ _ Hcy). assert (y ≠ h) by (intros ->; simplify_eq; lia).
    split_and!; [lia|done|]. rewrite Hother by lia. by exists d0.
  - intros p pc Hp. specialize (Hpc _ _ Hp). destruct pc; try done.
    destruct Hpc as (y & -> & ? & ?). exists y. split_and!; [done..|lia].
Qed.

Lemma dequeue_step_ok h q ps d cl tk :
  minv h (mkMstate q ps d cl tk) → Z.of_nat (length cl) + capacity < 2 ^ 63 →
  ∃ q' d' h', dequeue_step capacity q d = Ok (q', d') ∧ minv h' (mkMstate q' ps d' cl (tk ++ takes d)).
Proof.
  intros H Hb. pose proof (mi_head _ _ H) as Hh. pose proof (mi_deq _ _ H) as Hd. pose proof N_ge2 as [HN HNc].
  pose proof (mi_le _ _ H) as Hle. simpl in *. destruct d as [r| | |item|item]; cbn [dequeue_step takes];
    rewrite ?app_nil_r, ?Z.add_0_r in *.
  - by eexists _, _, h.
  - destruct (slot_live _ _ h H) as (y & s & d' & Hy & Exy & Hs & Hsy). simpl in Hs, Hsy.
    apply (slot_inj h y) in Exy; [|lia..]. subst y. rewrite Hh, (slot_get _ _ _ Hs). step.
    rewrite u64_small by lia. rewrite seq_diff_small by lia. step. eexists _, _, h. split; [done|].
    eapply minv_deq; [done|done|]. destruct (_ =? 0) eqn:E; bools; [|done].
    destruct Hsy as [->|[-> Hlt]]; [lia|]. destruct (lookup_lt_is_Some_2 cl h Hlt) as [it Hc].
    destruct (mi_used _ _ H h it ltac:(lia) Hc) as (d0 & [Hs'|Hs']); simpl in Hs'; simplify_eq; [lia|]. by eexists.
  - destruct Hd as (it & Hc & Hs). rewrite Hh, (slot_get _ _ _ Hs). step. eexists _, _, h. split; [done|].
    by eapply minv_deq.
  - destruct Hd as (Hc & Hs). rewrite Hh, (slot_get _ _ _ Hs). step.
    rewrite (slot_set _ _ _ (mi_len _ _ H)). step.
    rewrite u64_small by lia. replace (Z.of_nat h + capacity) with (Z.of_nat (h + N)) by lia.
    eexists _, _, (S h). split; [done|]. rewrite <- Hh. by apply deq_store_ok.
  - eexists _, _, h. split; [done|]. rewrite u64_small by lia.
    destruct H as [Hlen Htail Hhead Htk _ Hfree Hused Hown Huniq Hpc Hdeq]. simpl in *.
    split; simpl; try done. lia.
Qed.

(** *** Reachable states *)
Lemma mstart_inv junk n : minv 0 (mstart capacity junk n).
Proof.
  pose proof N_ge2 as [HN _].
  assert (Hps : ∀ p pc, ms_enq (mstart capacity junk n) !! p = Some pc → pc = EnqRet false).
  { simpl. intros p pc Hp. by apply lookup_replicate in Hp as [-> _]. }
  assert (Hno : ∀ x item, ¬ owns (EnqRet false) x item) by by intros ?? [?|?].
  split; try done.
  - simpl. by rewrite length_fmap, length_seq.
  - simpl. lia.
  - simpl. intros x Hx. exists (junk x). unfold slot. simpl. rewrite list_lookup_fmap.
    rewrite Nat.mod_small by lia. by rewrite lookup_seq_lt by (unfold N in *; lia).
  - intros p pc x item Hp%Hps Ho. subst. by apply Hno in Ho.
  - intros p p' pc pc' x i i' Hp%Hps _ Ho. subst. by apply Hno in Ho.
  - intros p pc Hp%Hps. by subst.
Qed.

Lemma mstep_claimed st st' : mstep capacity st st' → (length (ms_claimed st) ≤ length (ms_claimed st'))%nat.
Proof. destruct 1; simpl; rewrite ?length_app; lia. Qed.

Lemma mstep_inv st st' h :
  mstep capacity st st' → minv h st → Z.of_nat (length (ms_claimed st)) + capacity < 2 ^ 63 → ∃ h', minv h' st'.
Proof.
  intros Hs H Hb. destruct Hs; simpl in Hb.
  - exists h. eapply minv_pc; [done|done|by intros ?? [?|?]|done].
  - destruct (enqueue_step_ok spurious _ _ _ _ _ _ _ _ H ltac:(done) Hb) as (q1 & pc1 & E & Hi).
    assert ((q1, pc1) = (q', pc')) as [= -> ->] by congruence. by exists h.
  - exists h. by eapply minv_deq.
  - destruct (dequeue_step_ok _ _ _ _ _ _ H Hb) as (q1 & d1 & h' & E & Hi).
    assert ((q1, d1) = (q', d')) as [= -> ->] by congruence. by exists h'.
Qed.

Lemma reachable_minv junk n st :
  rtc (mstep capacity) (mstart capacity junk n) st → Z.of_nat (length (ms_claimed st)) + capacity < 2 ^ 63 →
  ∃ h, minv h st.
Proof.
  intros Hr. pattern st. eapply rtc_ind_r; [| |exact Hr].
  - intros _. exists 0%nat. apply mstart_inv.
  - intros st1 st2 _ Hs IH Hb. pose proof (mstep_claimed _ _ Hs). destruct IH as [h Hi]; [lia|].
    eapply mstep_inv; [done..|lia].
Qed.

(** *** Calls without interference *)
Record mq_rep (h : nat) (q : MPSCQueue) (l : list T) : Prop := {
  mr_len : length (mq_buffer q) = N;
  mr_head : mq_head q = Z.of_nat h;
  mr_tail : mq_tail q = Z.of_nat (h + length l);
  mr_le : (length l ≤ N)%nat;
  mr_used i item : l !! i = Some item → slot q (h + i) = Some (Z.of_nat (h + i) + 1, item);
  mr_free x : (h + length l ≤ x < h + N)%nat → ∃ d, slot q x = Some (Z.of_nat x, d)
}.

Lemma enqueue_alone_spec h q l item :
  mq_rep h q l → Z.of_nat (h + N + N) < 2 ^ 63 →
  ∃ q', MPSCQueue_enqueue capacity q item = Ok (q', bool_decide (length l < N)%nat) ∧
    mq_rep h q' (if bool_decide (length l < N)%nat then l ++ [item] else l).
Proof.
  intros H Hb. pose proof H as [Hlen Hhead Htail Hle Hused Hfree]. pose proof N_ge2 as [HN HNc].
  unfold MPSCQueue_enqueue. cbn [enqueue_alone enqueue_step]. step. cbn [enqueue_alone enqueue_step].
  rewrite Htail. case_bool_decide as Hl.
  - destruct (Hfree (h + length l)%nat ltac:(lia)) as (d & Hs). rewrite (slot_get _ _ _ Hs). step.
    rewrite seq_diff_small by lia. step. rewrite Z.sub_diag. cbn [enqueue_alone enqueue_step Z.eqb]. step.
    rewrite Htail, Z.eqb_refl. step. cbn [enqueue_alone enqueue_step mq_buffer]. rewrite (slot_get _ _ _ Hs). step.
    rewrite (slot_set _ _ _ Hlen). step. cbn [enqueue_alone enqueue_step].
    set (x := (h + length l)%nat) in *.
    set (q1 := mkMPSCQueue _ _ _). assert (Hl1 : length (mq_buffer q1) = N) by (simpl; by rewrite length_insert).
    assert (Hs1 : slot q1 x = Some (Z.of_nat x, item)).
    { unfold q1. rewrite slot_upd, decide_True by done. done. }
    rewrite (slot_get _ _ _ Hs1). step. rewrite (slot_set _ _ _ Hl1). step. cbn [enqueue_alone].
    eexists. split; [done|].
    assert (Hother : ∀ y, (h ≤ y < h + N)%nat → y ≠ x →
      slot (mkMPSCQueue (mq_head q1) (mq_tail q1) (<[(x mod N)%nat:=(u64 (Z.of_nat x + 1), item)]> (mq_buffer q1))) y = slot q y).
    { intros y Hy Hne. assert (x mod N ≠ y mod N)%nat by (intros E; apply (slot_inj x y) in E; lia).
      rewrite slot_upd, decide_False by done. unfold q1. simpl. by rewrite list_lookup_insert_ne. }
    split; simpl; rewrite ?length_app, ?length_insert; simpl; try done; [by rewrite u64_small; lia|lia|..].
    + intros i it [Hi|[Hi Hj]]%lookup_app_Some.
      * pose proof (lookup_lt_Some _ _ _ Hi). rewrite Hother by lia. by apply Hused.
      * apply list_lookup_singleton_Some in Hj as [Hj <-]. replace (h + i)%nat with x by lia.
        rewrite slot_upd, decide_True by done. by rewrite u64_small by lia.
    + intros y Hy. rewrite Hother by lia. apply Hfree. lia.
  - destruct l as [|it l]; [simpl in *; lia|].
    pose proof (Hused 0%nat it eq_refl) as Hs. rewrite Nat.add_0_r in Hs.
    assert (Hs' : slot q (h + length (it :: l)) = Some (Z.of_nat h + 1, it)).
    { unfold slot in *. replace (length (it :: l)) with N by lia. by rewrite slot_wrap. }
    rewrite (slot_get _ _ _ Hs'). step. rewrite seq_diff_small by lia. step.
    rewrite (proj2 (Z.eqb_neq _ _)), (proj2 (Z.ltb_lt _ _)) by lia. by eexists.
Qed.

Lemma dequeue_alone_spec h q l :
  mq_rep h q l → Z.of_nat (h + N + N) < 2 ^ 63 →
  ∃ q' h', MPSCQueue_dequeue capacity q = Ok (q', head l) ∧ mq_rep h' q' (tail l) ∧ (h' ≤ S h)%nat.
Proof.
  intros H Hb. pose proof H as [Hlen Hhead Htail Hle Hused Hfree]. pose proof N_ge2 as [HN HNc].
  unfold MPSCQueue_dequeue. cbn [dequeue_alone dequeue_step]. rewrite Hhead. destruct l as [|it l]; simpl head; simpl tail.
  - destruct (Hfree h) as (d & Hs); [simpl; lia|]. rewrite (slot_get _ _ _ Hs). step.
    rewrite u64_small, seq_diff_small by lia. step. rewrite (proj2 (Z.eqb_neq _ _)) by lia.
    exists q, h. split_and!; [done..|lia].
  - pose proof (Hused 0%nat it eq_refl) as Hs. rewrite Nat.add_0_r in Hs. rewrite (slot_get _ _ _ Hs). step.
    rewrite u64_small, seq_diff_small by lia. step. rewrite Z.sub_diag. cbn [dequeue_alone dequeue_step Z.eqb].
    rewrite Hhead, (slot_get _ _ _ Hs). step. cbn [dequeue_alone dequeue_step].
    rewrite Hhead, (slot_get _ _ _ Hs). step. rewrite (slot_set _ _ _ Hlen). step.
    cbn [dequeue_alone dequeue_step mq_head mq_tail mq_buffer]. step. cbn [dequeue_alone].
    rewrite !u64_small by lia. eexists _, (S h). split; [done|]. split; [|lia]. simpl in *.
    assert (Hother : ∀ y hd, (h < y < h + N)%nat → slot (mkMPSCQueue hd (mq_tail q)
      (<[(h mod N)%nat:=(Z.of_nat h + capacity, it)]> (mq_buffer q))) y = slot q y).
    { intros y hd Hy. rewrite slot_upd, decide_False; [done| |done]. intros E. apply (slot_inj h y) in E; lia. }
    split; simpl; try done; [by rewrite length_insert|lia|lia|lia|..].
    + intros i it' Hi. pose proof (lookup_lt_Some _ _ _ Hi). rewrite Hother by lia.
      replace (S (h + i)) with (h + S i)%nat by lia. by apply Hused.
    + intros y Hy. destruct (decide (y = h + N)%nat) as [->|]; [|rewrite Hother by lia; apply Hfree; lia].
      exists it. rewrite slot_upd, slot_wrap, decide_True by done. repeat f_equal. lia.
Qed.

Lemma MPSCQueue_new_rep junk : mq_rep 0 (MPSCQueue_new capacity junk) [].
Proof.
  pose proof N_ge2 as [HN _]. split; simpl; try done; [by rewrite length_fmap, length_seq|lia|].
  intros x Hx. exists (junk x). unfold slot. simpl. rewrite list_lookup_fmap, Nat.mod_small by lia.
  by rewrite lookup_seq_lt by (unfold N in *; lia).
Qed.
End inv.

(** ** Sequences of calls *)
Inductive mq_call := MqEnqueue (item : T) | MqDequeue.
Inductive mq_answer := AnsEnqueue (ok : bool) | AnsDequeue (item : option T).

Fixpoint mq_run (capacity : Z) (q : MPSCQueue) (calls : list mq_call) : result (list mq_answer) :=
  match calls with
  | [] => Ok []
  | MqEnqueue item :: calls =>
      '(q, r) ← MPSCQueue_enqueue capacity q item; l ← mq_run capacity q calls; Ok (AnsEnqueue r :: l)
  | MqDequeue :: calls =>
      '(q, r) ← MPSCQueue_dequeue capacity q; l ← mq_run capacity q calls; Ok (AnsDequeue r :: l)
  end.

(** A list bounded by the capacity. *)
Fixpoint fifo_run (capacity : nat) (l : list T) (calls : list mq_call) : list mq_answer :=
  match calls with
  | [] => []
  | MqEnqueue item :: calls =>
      if decide (length l < capacity)%nat
      then AnsEnqueue true :: fifo_run capacity (l ++ [item]) calls
      else AnsEnqueue false :: fifo_run capacity l calls
  | MqDequeue :: calls => AnsDequeue (head l) :: fifo_run capacity (tail l) calls
  end.

Lemma mq_run_spec k capacity calls : 1 ≤ k → capacity = 2 ^ k → ∀ h q l,
  mq_rep capacity h q l → Z.of_nat (h + length calls) + capacity + capacity < 2 ^ 63 →
  mq_run capacity q calls = Ok (fifo_run (Z.to_nat capacity) l calls).
Proof.
  intros Hk Hcap. pose proof (N_ge2 k Hk capacity Hcap) as [_ HN].
  induction calls as [|[item|] calls IH]; intros h q l H Hb; cbn [mq_run fifo_run length] in *; [done|..].
  - destruct (enqueue_alone_spec k Hk capacity Hcap h q l item H) as (q' & -> & H'); [lia|]. step.
    rewrite (IH h q' _ H' ltac:(lia)). step. case_bool_decide; case_decide; done.
  - destruct (dequeue_alone_spec k Hk capacity Hcap h q l H) as (q' & h' & -> & H' & Hh'); [lia|]. step.
    by rewrite (IH h' q' _ H' ltac:(lia)).
Qed.
End mpsc.
Arguments MPSCQueue : clear implicits.
Arguments enq_pc : clear implicits.
Arguments deq_pc : clear implicits.
Arguments mstate : clear implicits.
Arguments mq_call : clear implicits.
Arguments mq_answer : clear implicits.

(** ** Claims *)

(** C11. A queue of capacity two or more is FIFO under any interleaving: with
    any number of producers stopped and resumed between any two of their memory accesses, spurious
    failures of the exchange included, the items the consumer has taken are, in
    order, the first of those the producers have claimed slots for; at most
    [capacity] are claimed and not taken; and no thread's next step accesses the
    buffer out of bounds or overflows. *)
Theorem mpsc_fifo {T} k (junk : nat → T) producers (st : mstate T) :
  1 ≤ k →
  rtc (mstep (2 ^ k)) (mstart (2 ^ k) junk producers) st →
  Z.of_nat (length (ms_claimed st)) + 2 ^ k < 2 ^ 63 →
  ms_taken st `prefix_of` ms_claimed st ∧
  Z.of_nat (length (ms_claimed st)) - Z.of_nat (length (ms_taken st)) ≤ 2 ^ k ∧
  (∀ p pc spurious, ms_enq st !! p = Some pc → ∃ r, enqueue_step (2 ^ k) spurious (ms_queue st) pc = Ok r) ∧
  ∃ r, dequeue_step (2 ^ k) (ms_queue st) (ms_deq st) = Ok r.
Proof.
  intros Hk Hr Hb. destruct (reachable_minv k Hk _ eq_refl junk producers st Hr Hb) as [h Hi].
  pose proof (N_ge2 k Hk _ eq_refl) as [_ HN]. pose proof (mi_le _ _ _ Hi). destruct st as [q ps d cl tk]. simpl in *.
  pose proof (mi_taken _ _ _ Hi) as Htk. simpl in Htk. subst tk. split_and!.
  - exists (drop h cl). by rewrite take_drop.
  - rewrite length_take. lia.
  - intros p pc sp Hp. destruct (enqueue_step_ok k Hk _ eq_refl sp _ _ _ _ _ _ _ _ Hi Hp Hb) as (q' & pc' & E & _).
    by exists (q', pc').
  - destruct (dequeue_step_ok k Hk _ eq_refl _ _ _ _ _ _ Hi Hb) as (q' & d' & _ & E & _). by exists (q', d').
Qed.

(** Two producers that have claimed their slots. *)
Definition mpsc_demo : mstate nat :=
  mkMstate (mkMPSCQueue 0 2 [(0, 0%nat); (1, 0%nat)]) [EnqData 7%nat 0; EnqData 8%nat 1] (DeqRet None) [7%nat; 8%nat] [].

Lemma mpsc_demo_reachable : rtc (mstep (2 ^ 1)) (mstart (2 ^ 1) (fun _ => 0%nat) 2) mpsc_demo.
Proof.
  eapply rtc_l; [eapply (m_call _ _ _ _ _ _ 0%nat _ 7%nat); reflexivity|].
  eapply rtc_l; [eapply (m_call _ _ _ _ _ _ 1%nat _ 8%nat); reflexivity|].
  do 3 (eapply rtc_l; [eapply (m_enq _ _ _ _ _ _ 0%nat _ false); [reflexivity|vm_compute; reflexivity]|]).
  do 3 (eapply rtc_l; [eapply (m_enq _ _ _ _ _ _ 1%nat _ false); [reflexivity|vm_compute; reflexivity]|]).
  apply rtc_refl.
Qed.

Lemma mpsc_fifo_witness :
  ms_taken mpsc_demo `prefix_of` ms_claimed mpsc_demo ∧ 2 - 0 ≤ 2 ^ 1 ∧
  (∀ p pc spurious, ms_enq mpsc_demo !! p = Some pc → ∃ r, enqueue_step (2 ^ 1) spurious (ms_queue mpsc_demo) pc = Ok r) ∧
  ∃ r, dequeue_step (2 ^ 1) (ms_queue mpsc_demo) (ms_deq mpsc_demo) = Ok r.
Proof.
  apply (mpsc_fifo 1 (fun _ => 0%nat) 2 mpsc_demo); [lia|apply mpsc_demo_reachable|reflexivity].
Defined.

(** The slots' data, which is not atomic, is free of races: no two
    producers about to write data or publish address the same slot, and none of
    them addresses the slot the consumer is reading. *)
Theorem mpsc_no_data_race {T} k (junk : nat → T) producers (st : mstate T) p p' item item' pos pos' :
  1 ≤ k →
  rtc (mstep (2 ^ k)) (mstart (2 ^ k) junk producers) st →
  Z.of_nat (length (ms_claimed st)) + 2 ^ k < 2 ^ 63 →
  ms_enq st !! p = Some (EnqData item pos) →
  (p ≠ p' → (ms_enq st !! p' = Some (EnqData item' pos') ∨ ms_enq st !! p' = Some (EnqPublish item' pos')) →
    mq_index (2 ^ k) pos ≠ mq_index (2 ^ k) pos') ∧
  (ms_deq st = DeqData → mq_index (2 ^ k) pos ≠ mq_index (2 ^ k) (mq_head (ms_queue st))).
Proof.
  intros Hk Hr Hb Hp. destruct (reachable_minv k Hk _ eq_refl junk producers st Hr Hb) as [h Hi].
  pose proof (N_ge2 k Hk _ eq_refl) as [_ HN]. pose proof (mi_le _ _ _ Hi) as Hle.
  destruct (mi_pc _ _ _ Hi _ _ Hp) as (x & ->).
  destruct (mi_own _ _ _ Hi _ _ x item Hp (or_introl eq_refl)) as (Hx & Hc & d & Hs & _).
  pose proof (lookup_lt_Some _ _ _ Hc) as Hxl. rewrite (mq_index_nat k Hk _ eq_refl x). split.
  - intros Hne Hp'.
    assert (∃ pc', ms_enq st !! p' = Some pc' ∧ ∃ x', pos' = Z.of_nat x' ∧ owns pc' x' item') as (pc' & Hpc' & x' & -> & Ho').
    { destruct Hp' as [Hp'|Hp']; destruct (mi_pc _ _ _ Hi _ _ Hp') as (x' & ->);
        eexists; (split; [done|]); exists x'; (split; [done|]); [by left|by right]. }
    destruct (mi_own _ _ _ Hi _ _ x' item' Hpc' Ho') as (Hx' & Hc' & _). pose proof (lookup_lt_Some _ _ _ Hc').
    rewrite (mq_index_nat k Hk _ eq_refl x'). intros E%Nat2Z.inj. apply (slot_inj k Hk _ eq_refl x x') in E; [|lia..].
    subst x'. apply Hne. exact (mi_unique _ _ _ Hi _ _ _ _ _ _ _ Hp Hpc' (or_introl eq_refl) Ho').
  - intros Hd. pose proof (mi_deq _ _ _ Hi) as Hdq. pose proof (mi_head _ _ _ Hi) as Hh. rewrite Hd in Hdq, Hh.
    destruct Hdq as (it & _ & Hs'). rewrite Z.add_0_r in Hh. rewrite Hh, (mq_index_nat k Hk _ eq_refl h).
    intros E%Nat2Z.inj. unfold slot in *. rewrite E in Hs. rewrite Hs in Hs'. injection Hs' as Hs'.
    apply (slot_inj k Hk _ eq_refl x h) in E; lia.
Qed.

Lemma mpsc_no_data_race_witness :
  ms_enq mpsc_demo !! 0%nat = Some (EnqData 7%nat 0) ∧ ms_enq mpsc_demo !! 1%nat = Some (EnqData 8%nat 1) ∧
  mq_index (2 ^ 1) 0 ≠ mq_index (2 ^ 1) 1.
Proof.
  split; [reflexivity|]. split; [reflexivity|].
  apply (mpsc_no_data_race 1 (fun _ => 0%nat) 2 mpsc_demo 0%nat 1%nat 7%nat 8%nat 0 1);
    [lia|apply mpsc_demo_reachable|reflexivity|reflexivity|lia|by left].
Defined.

(** C31. Without interference a queue of capacity two or more is a bounded list:
    over any sequence of enqueues and dequeues on a new queue, each call returns what a list of at
    most [capacity] items would. *)
Theorem mpsc_refines_bounded_fifo {T} k (junk : nat → T) (calls : list (mq_call T)) :
  1 ≤ k → Z.of_nat (length calls) + 2 ^ k + 2 ^ k < 2 ^ 63 →
  mq_run (2 ^ k) (MPSCQueue_new (2 ^ k) junk) calls = Ok (fifo_run (Z.to_nat (2 ^ k)) [] calls).
Proof. intros Hk Hb. apply (mq_run_spec k _ calls Hk eq_refl 0 _ _ (MPSCQueue_new_rep k Hk _ eq_refl junk)). lia. Qed.

Lemma mpsc_refines_bounded_fifo_witness :
  mq_run (2 ^ 1) (MPSCQueue_new (2 ^ 1) (fun _ => 0%nat))
    [MqEnqueue 5%nat; MqEnqueue 6%nat; MqEnqueue 7%nat; MqDequeue; MqEnqueue 8%nat; MqDequeue; MqDequeue; MqDequeue] =
  Ok [AnsEnqueue true; AnsEnqueue true; AnsEnqueue false; AnsDequeue (Some 5%nat); AnsEnqueue true;
      AnsDequeue (Some 6%nat); AnsDequeue (Some 8%nat); AnsDequeue None].
Proof. rewrite (mpsc_refines_bounded_fifo 1); [reflexivity|lia|reflexivity]. Defined.

(** A capacity of one, which the static assertion admits, loses items: the
    published sequence number of the only slot is the number a free slot has in
    the next lap, so a second enqueue overwrites the unread item. *)
Theorem mpsc_capacity_one_loses_items :
  mq_run 1 (MPSCQueue_new 1 (fun _ => 0%nat)) [MqEnqueue 5%nat; MqEnqueue 6%nat; MqDequeue; MqDequeue] =
  Ok [AnsEnqueue true; AnsEnqueue true; AnsDequeue None; AnsDequeue None].
Proof. vm_compute. reflexivity. Qed.
