(* ===== verification/Timestamp.v ===== *)
(** * Timestamp: the cached time strings of the logger

    Models class TimestampCache (include/util/timestamp.hpp,
    src/util/timestamp.cpp): a sequence lock around two strings that are
    rewritten by the first thread that sees a new second.  Every access to
    shared memory is one step, byte by byte for the copies, so that threads
    interleave between any two of them; memory is sequentially consistent.  The
    text of a second ([localtime_r] and [strftime] in the current time zone) is
    a pair of functions, the time a call reads is an argument. *)
From stdpp Require Import relations.
From S2P Require Import Prelude.

(** Which string a call copies: [get_datetime] or [get_date]. *)
Inductive ts_call := GetDatetime | GetDate.

Record TimestampCache := mkTimestampCache {
  tsc_cached_second : Z;
  tsc_seq : Z;                     (* unsigned *)
  tsc_datetime_str : list byte;
  tsc_date_str : list byte
}.

Definition ts_len (k : ts_call) : nat := match k with GetDatetime => 24 | GetDate => 12 end.
Definition TimestampCache_new : TimestampCache :=
  mkTimestampCache 0 0 (replicate 24 x00) (replicate 12 x00).

Definition ts_array (k : ts_call) (c : TimestampCache) : list byte :=
  match k with GetDatetime => tsc_datetime_str c | GetDate => tsc_date_str c end.

(** Where a thread is inside a call. *)
Inductive ts_pc :=
  | TsIdle (r : option (ts_call * list byte))    (* returned; also: not started *)
  | TsLoad (k : ts_call) (now : Z)               (* before cached_second_.load *)
  | TsCas (k : ts_call) (now expected : Z)       (* before compare_exchange_strong *)
  | TsBegin (k : ts_call) (now : Z)              (* before the first fetch_add *)
  | TsDt (k : ts_call) (now : Z) (i : nat)       (* before byte [i] of datetime_str_ *)
  | TsD (k : ts_call) (now : Z) (i : nat)        (* before byte [i] of date_str_ *)
  | TsEnd (k : ts_call)                          (* before the second fetch_add *)
  | TsSeq1 (k : ts_call)                         (* before s1 = seq_.load *)
  | TsRead (k : ts_call) (s1 : Z) (out : list byte)   (* before the next byte of the copy *)
  | TsSeq2 (k : ts_call) (s1 : Z) (out : list byte).  (* before s2 = seq_.load *)

Section timestamp.
Context (dt d : Z → list byte).

Definition ts_fmt (k : ts_call) : Z → list byte := match k with GetDatetime => dt | GetDate => d end.

(** *** [maybe_update] followed by the copying loop of [get_datetime] or
    [get_date], one shared access at a time. *)
Definition maybe_update_step (c : TimestampCache) (pc : ts_pc) : result (TimestampCache * ts_pc) :=
  match pc with
  | TsLoad k now =>
      Ok (c, if now =? tsc_cached_second c then TsSeq1 k else TsCas k now (tsc_cached_second c))
  | TsCas k now expected =>
      if tsc_cached_second c =? expected
      then Ok (mkTimestampCache now (tsc_seq c) (tsc_datetime_str c) (tsc_date_str c), TsBegin k now)
      else Ok (c, TsSeq1 k)
  | TsBegin k now =>
      Ok (mkTimestampCache (tsc_cached_second c) (u32 (tsc_seq c + 1)) (tsc_datetime_str c) (tsc_date_str c),
          TsDt k now 0)
  | TsDt k now i =>
      b ← arr_get (dt now) (Z.of_nat i);
      a ← arr_set (tsc_datetime_str c) (Z.of_nat i) b;
      Ok (mkTimestampCache (tsc_cached_second c) (tsc_seq c) a (tsc_date_str c),
          if decide (S i < 24)%nat then TsDt k now (S i) else TsD k now 0)
  | TsD k now i =>
      b ← arr_get (d now) (Z.of_nat i);
      a ← arr_set (tsc_date_str c) (Z.of_nat i) b;
      Ok (mkTimestampCache (tsc_cached_second c) (tsc_seq c) (tsc_datetime_str c) a,
          if decide (S i < 12)%nat then TsD k now (S i) else TsEnd k)
  | TsEnd k =>
      Ok (mkTimestampCache (tsc_cached_second c) (u32 (tsc_seq c + 1)) (tsc_datetime_str c) (tsc_date_str c),
          TsSeq1 k)
  | pc => Ok (c, pc)
  end.

Definition copy_step (c : TimestampCache) (pc : ts_pc) : result ts_pc :=
  match pc with
  | TsSeq1 k => Ok (if Z.land (tsc_seq c) 1 =? 0 then TsRead k (tsc_seq c) [] else TsSeq1 k)
  | TsRead k s1 out =>
      b ← arr_get (ts_array k c) (Z.of_nat (length out));
      Ok (if decide (S (length out) < ts_len k)%nat then TsRead k s1 (out ++ [b]) else TsSeq2 k s1 (out ++ [b]))
  | TsSeq2 k s1 out => Ok (if s1 =? tsc_seq c then TsIdle (Some (k, out)) else TsSeq1 k)
  | pc => Ok pc
  end.

Definition ts_step (c : TimestampCache) (pc : ts_pc) : result (TimestampCache * ts_pc) :=
  match pc with
  | TsSeq1 _ | TsRead _ _ _ | TsSeq2 _ _ _ => pc ← copy_step c pc; Ok (c, pc)
  | pc => maybe_update_step c pc
  end.

(** A call with no other thread inside the cache: at most 66 steps. *)
Fixpoint ts_alone (fuel : nat) (c : TimestampCache) (pc : ts_pc) : result (list byte * TimestampCache) :=
  match pc with
  | TsIdle (Some (_, out)) => Ok (out, c)
  | _ =>
      match fuel with
      | O => Fault OutOfFuel
      | S fuel => '(c, pc) ← ts_step c pc; ts_alone fuel c pc
      end
  end.
Definition TimestampCache_get (k : ts_call) (now : Z) (c : TimestampCache) : result (list byte * TimestampCache) :=
  ts_alone 66 c (TsLoad k now).

Fixpoint ts_calls (c : TimestampCache) (calls : list (ts_call * Z)) : result (list (list byte)) :=
  match calls with
  | [] => Ok []
  | (k, now) :: calls =>
      '(out, c) ← TimestampCache_get k now c;
      outs ← ts_calls c calls;
      Ok (out :: outs)
  end.

(** ** Threads

    [tst_hist] lists the seconds whose strings were or are being written, in
    order; [tst_start] holds, for each thread, the number of updates that were
    complete when its call began. *)
Record tstate := mkTstate {
  tst_cache : TimestampCache;
  tst_pcs : list ts_pc;
  tst_hist : list Z;
  tst_start : list nat
}.

Inductive ts_event :=
  | TsCall (p : nat) (k : ts_call) (now : Z)
  | TsRun (p : nat).

Definition begins (pc : ts_pc) : list Z := match pc with TsBegin _ now => [now] | _ => [] end.

(** An event that is not possible changes nothing. *)
Definition ts_event_step (st : tstate) (e : ts_event) : result tstate :=
  let '(mkTstate c pcs hist start) := st in
  match e with
  | TsCall p k now =>
      match pcs !! p with
      | Some (TsIdle _) =>
          Ok (mkTstate c (<[p := TsLoad k now]> pcs) hist (<[p := Z.to_nat (tsc_seq c / 2)]> start))
      | _ => Ok st
      end
  | TsRun p =>
      match pcs !! p with
      | Some pc =>
          '(c, pc') ← ts_step c pc;
          Ok (mkTstate c (<[p := pc']> pcs) (hist ++ begins pc) start)
      | None => Ok st
      end
  end.

Fixpoint ts_run (st : tstate) (es : list ts_event) : result tstate :=
  match es with [] => Ok st | e :: es => st ← ts_event_step st e; ts_run st es end.

Definition ts_start_state (threads : nat) : tstate :=
  mkTstate TimestampCache_new (replicate threads (TsIdle None)) [] (replicate threads 0%nat).

(** Between the two increments of [seq_]. *)
Definition writing (pc : ts_pc) : bool :=
  match pc with TsDt _ _ _ | TsD _ _ _ | TsEnd _ => true | _ => false end.
Definition one_writer (st : tstate) : Prop :=
  ∀ p q pc pc', tst_pcs st !! p = Some pc → tst_pcs st !! q = Some pc' →
    writing pc = true → writing pc' = true → p = q.

(** Steps that never put two threads between the increments. *)
Definition tstep (st st' : tstate) : Prop := ∃ e, ts_event_step st e = Ok st' ∧ one_writer st'.

(** The string after [m] updates; before the first one the array is all zeros. *)
Definition ts_value (k : ts_call) (hist : list Z) (m : nat) : list byte :=
  match m with
  | O => replicate (ts_len k) x00
  | S m => match hist !! m with Some t => ts_fmt k t | None => [] end
  end.

(** ** The invariant *)
Section inv.
Context (Hdt : ∀ t, length (dt t) = 24%nat) (Hd : ∀ t, length (d t) = 12%nat).

(** The strings while a thread writes them. *)
Definition half_written (hist : list Z) (c : TimestampCache) (pc : ts_pc) : Prop :=
  let n := length hist in
  match pc with
  | TsDt _ now i =>
      last hist = Some now ∧ (i < 24)%nat ∧
      tsc_datetime_str c = take i (dt now) ++ drop i (ts_value GetDatetime hist (n - 1)) ∧
      tsc_date_str c = ts_value GetDate hist (n - 1)
  | TsD _ now i =>
      last hist = Some now ∧ (i < 12)%nat ∧ tsc_datetime_str c = dt now ∧
      tsc_date_str c = take i (d now) ++ drop i (ts_value GetDate hist (n - 1))
  | _ => ∀ k, ts_array k c = ts_value k hist n
  end.

(** What a reader has copied: the string after [m] updates, unless [seq_] has
    moved on; [s] updates were complete when its call began. *)
Definition reader_ok (hist : list Z) (seq : Z) (s : nat) (pc : ts_pc) : Prop :=
  match pc with
  | TsRead k s1 out =>
      ∃ m, s1 = 2 * Z.of_nat m ∧ (s ≤ m)%nat ∧ s1 ≤ seq ∧ (length out < ts_len k)%nat ∧
        (s1 = seq → out = take (length out) (ts_value k hist m))
  | TsSeq2 k s1 out =>
      ∃ m, s1 = 2 * Z.of_nat m ∧ (s ≤ m)%nat ∧ s1 ≤ seq ∧ (s1 = seq → out = ts_value k hist m)
  | TsIdle (Some (k, out)) => ∃ m, (s ≤ m)%nat ∧ 2 * Z.of_nat m ≤ seq ∧ out = ts_value k hist m
  | _ => True
  end.

Record ts_inv (st : tstate) : Prop := {
  ti_start : length (tst_start st) = length (tst_pcs st);
  ti_excl : one_writer st;
  ti_seq : 0 ≤ tsc_seq (tst_cache st);
  ti_lens k : length (ts_array k (tst_cache st)) = ts_len k;
  ti_quiet : (∀ p pc, tst_pcs st !! p = Some pc → writing pc = false) →
    tsc_seq (tst_cache st) = 2 * Z.of_nat (length (tst_hist st)) ∧
    ∀ k, ts_array k (tst_cache st) = ts_value k (tst_hist st) (length (tst_hist st));
  ti_writer p pc : tst_pcs st !! p = Some pc → writing pc = true →
    tsc_seq (tst_cache st) = 2 * Z.of_nat (length (tst_hist st)) - 1 ∧
    half_written (tst_hist st) (tst_cache st) pc;
  ti_reader p pc s : tst_pcs st !! p = Some pc → tst_start st !! p = Some s →
    2 * Z.of_nat s ≤ tsc_seq (tst_cache st) ∧ reader_ok (tst_hist st) (tsc_seq (tst_cache st)) s pc
}.

Lemma ts_fmt_length k t : length (ts_fmt k t) = ts_len k.
Proof. destruct k; [apply Hdt|apply Hd]. Qed.

Lemma ts_value_length k hist m : (m ≤ length hist)%nat → length (ts_value k hist m) = ts_len k.
Proof.
  destruct m as [|m]; intros Hm; simpl; [by rewrite length_replicate|].
  destruct (lookup_lt_is_Some_2 hist m) as [t ->]; [lia|]. apply ts_fmt_length.
Qed.

Lemma ts_value_app k hist l m : (m ≤ length hist)%nat → ts_value k (hist ++ l) m = ts_value k hist m.
Proof. destruct m as [|m]; intros Hm; simpl; [done|]. by rewrite lookup_app_l by lia. Qed.

Lemma ts_value_last k hist now :
  last hist = Some now → ts_value k hist (length hist) = ts_fmt k now ∧ (1 ≤ length hist)%nat.
Proof.
  intros H. rewrite last_lookup in H. destruct (length hist) as [|n] eqn:E.
  { apply lookup_lt_Some in H. lia. }
  simpl in *. rewrite H. split; [done|lia].
Qed.

(** Either no thread writes, or one does. *)
Lemma ts_writer_dec (pcs : list ts_pc) :
  (∀ p pc, pcs !! p = Some pc → writing pc = false) ∨ (∃ p pc, pcs !! p = Some pc ∧ writing pc = true).
Proof.
  induction pcs as [|pc pcs IH]; [left; intros p pc Hp; by rewrite lookup_nil in Hp|].
  destruct (writing pc) eqn:E; [right; by exists 0%nat, pc|].
  destruct IH as [IH|(p & pc' & ? & ?)]; [left|right; by exists (S p), pc'].
  intros [|p] pc' Hp; simplify_eq/=; eauto.
Qed.

Lemma ts_seq_bound st : ts_inv st →
  2 * Z.of_nat (length (tst_hist st)) - 1 ≤ tsc_seq (tst_cache st) ≤ 2 * Z.of_nat (length (tst_hist st)).
Proof.
  intros H. destruct (ts_writer_dec (tst_pcs st)) as [Hq|(p & pc & Hp & Hw)].
  - destruct (ti_quiet _ H Hq). lia.
  - destruct (ti_writer _ H _ _ Hp Hw). lia.
Qed.

Lemma reader_ok_mono hist l seq seq' s pc :
  reader_ok hist seq s pc → seq ≤ seq' → seq ≤ 2 * Z.of_nat (length hist) → reader_ok (hist ++ l) seq' s pc.
Proof.
  intros H Hs Hn. destruct pc as [[[k out]|]| | | | | | | | |]; simpl in *; try done.
  - destruct H as (m & ? & ? & ->). exists m. split_and!; [done|lia|]. by rewrite ts_value_app by lia.
  - destruct H as (m & ? & ? & ? & ? & Ho). exists m. split_and!; [done..|lia|done|].
    intros E. rewrite ts_value_app by lia. apply Ho. lia.
  - destruct H as (m & ? & ? & ? & Ho). exists m. split_and!; [done..|lia|].
    intros E. rewrite ts_value_app by lia. apply Ho. lia.
Qed.

(** *** Steps of a thread that does not write *)
Lemma ts_inv_other_step c c' pcs hist start start' p pc pc' :
  ts_inv (mkTstate c pcs hist start) → pcs !! p = Some pc → writing pc = false → writing pc' = false →
  tsc_seq c' = tsc_seq c → (∀ k, ts_array k c' = ts_array k c) →
  length start' = length start → (∀ q, q ≠ p → start' !! q = start !! q) →
  (∀ s, start' !! p = Some s → 2 * Z.of_nat s ≤ tsc_seq c ∧ reader_ok hist (tsc_seq c) s pc') →
  ts_inv (mkTstate c' (<[p := pc']> pcs) hist start').
Proof.
  intros [Hst Hex Hs0 Hl Hq Hw Hr] Hp Hpc Hpc' Hseq Harr Hlen Hoth Hrd. simpl in *.
  pose proof (Harr GetDatetime) as Hdtm. pose proof (Harr GetDate) as Hdte. simpl in Hdtm, Hdte.
  split; simpl; rewrite ?Hseq.
  - by rewrite length_insert, Hlen.
  - intros q1 q2 pc1 pc2 [[-> [<- _]]|[_ H1]]%list_lookup_insert_Some
      [[-> [<- _]]|[_ H2]]%list_lookup_insert_Some W1 W2; [congruence..|eapply Hex; eauto].
  - done.
  - intros k. by rewrite Harr.
  - intros Hall. destruct Hq as [-> Hv].
    { intros q pcq Hpcq. destruct (decide (q = p)) as [->|]; [congruence|].
      eapply Hall. by rewrite list_lookup_insert_ne by done. }
    split; [done|]. intros k. by rewrite Harr.
  - intros q pcq [[-> [<- _]]|[_ Hpcq]]%list_lookup_insert_Some Wq; [congruence|].
    destruct (Hw _ _ Hpcq Wq) as [? Hh]. split; [done|]. unfold half_written in *. rewrite Hdtm, Hdte.
    destruct pcq; try done; intros k'; rewrite Harr; apply Hh.
  - intros q pcq s [[-> [<- _]]|[Hne Hpcq]]%list_lookup_insert_Some Hs; [auto|].
    rewrite Hoth in Hs by done. exact (Hr _ _ _ Hpcq Hs).
Qed.

(** *** Steps of the thread that writes *)
Lemma ts_inv_writer_step c c' pcs hist l start p pc pc' :
  ts_inv (mkTstate c pcs hist start) → pcs !! p = Some pc →
  (∀ q pcq, q ≠ p → pcs !! q = Some pcq → writing pcq = false) →
  tsc_seq c ≤ tsc_seq c' → (∀ k, length (ts_array k c') = ts_len k) → (∀ s seq h, reader_ok h seq s pc') →
  (let n := length (hist ++ l) in
   if writing pc' then tsc_seq c' = 2 * Z.of_nat n - 1 ∧ half_written (hist ++ l) c' pc'
   else tsc_seq c' = 2 * Z.of_nat n ∧ ∀ k, ts_array k c' = ts_value k (hist ++ l) n) →
  ts_inv (mkTstate c' (<[p := pc']> pcs) (hist ++ l) start).
Proof.
  intros Hi Hp Hoth Hseq Hlens Hrd Hst. pose proof (ts_seq_bound _ Hi) as Hb.
  destruct Hi as [Hs Hex Hs0 Hl Hq Hw Hr]. simpl in *.
  assert (Hne : ∀ q pcq, <[p:=pc']> pcs !! q = Some pcq → writing pcq = true → q = p ∧ pcq = pc').
  { intros q pcq [[-> [<- _]]|[Hne Hpcq]]%list_lookup_insert_Some Wq; [done|].
    by rewrite (Hoth q pcq) in Wq. }
  assert (Hpp : <[p:=pc']> pcs !! p = Some pc').
  { apply list_lookup_insert_eq. by eapply lookup_lt_Some. }
  split; simpl; [by rewrite length_insert| |lia|done|..].
  - intros q1 q2 pc1 pc2 H1 H2 W1 W2. destruct (Hne _ _ H1 W1), (Hne _ _ H2 W2). congruence.
  - intros Hall. by rewrite (Hall _ _ Hpp) in Hst.
  - intros q pcq Hpcq Wq. destruct (Hne _ _ Hpcq Wq) as [-> ->]. by rewrite Wq in Hst.
  - intros q pcq s [[-> [<- _]]|[Hneq Hpcq]]%list_lookup_insert_Some Hsq.
    + destruct (Hr _ _ _ Hp Hsq). split; [lia|auto].
    + destruct (Hr _ _ _ Hpcq Hsq). split; [lia|]. eapply reader_ok_mono; [done|lia|lia].
Qed.

(** Copying one more byte of [new] over [old]. *)
Lemma copy_byte (new old a : list byte) i b :
  length new = length old → a = take i new ++ drop i old → new !! i = Some b →
  <[i := b]> a = take (S i) new ++ drop (S i) old.
Proof.
  intros Hl -> Hb. pose proof (lookup_lt_Some _ _ _ Hb) as Hi.
  rewrite insert_app_r_alt by (rewrite length_take; lia). rewrite length_take, Nat.min_l, Nat.sub_diag by lia.
  destruct (lookup_lt_is_Some_2 old i) as [o Ho]; [lia|].
  rewrite (drop_S old o i Ho). simpl. rewrite (take_S_r new i b Hb). by rewrite <- app_assoc.
Qed.

(** *** The copying loop *)

(** With [seq_] even nobody writes. *)
Lemma ts_even_quiet st m : ts_inv st → tsc_seq (tst_cache st) = 2 * Z.of_nat m →
  m = length (tst_hist st) ∧ ∀ k, ts_array k (tst_cache st) = ts_value k (tst_hist st) m.
Proof.
  intros H E. destruct (ts_writer_dec (tst_pcs st)) as [Hq|(p & pc & Hp & Hw)].
  - destruct (ti_quiet _ H Hq) as [? Hv]. assert (m = length (tst_hist st)) as -> by lia. done.
  - destruct (ti_writer _ H _ _ Hp Hw). lia.
Qed.

Lemma copy_step_ok st p pc s :
  ts_inv st → tst_pcs st !! p = Some pc → tst_start st !! p = Some s →
  ∃ pc', copy_step (tst_cache st) pc = Ok pc' ∧
    (writing pc = false → writing pc' = false ∧ reader_ok (tst_hist st) (tsc_seq (tst_cache st)) s pc').
Proof.
  intros H Hp Hs. destruct (ti_reader _ H _ _ _ Hp Hs) as [Hsq Hrd].
  destruct pc as [| | | | | | |k|k s1 out|k s1 out]; try (eexists; split; [done|]; by split).
  - (* TsSeq1 *)
    eexists. split; [done|]. intros _. destruct (_ =? 0) eqn:E; [|done]. bools. split; [done|].
    change 1 with (2 ^ 1 - 1) in E. rewrite land_mask in E by lia. change (2 ^ 1) with 2 in E.
    pose proof (ts_seq_bound _ H). exists (Z.to_nat (tsc_seq (tst_cache st) / 2)).
    pose proof (Z.div_mod (tsc_seq (tst_cache st)) 2). split_and!; [lia..| |done]. destruct k; simpl; lia.
  - (* TsRead *)
    destruct Hrd as (m & Hm & Hsm & Hle & Hout & Hval). cbn [copy_step].
    destruct (lookup_lt_is_Some_2 (ts_array k (tst_cache st)) (length out)) as [b Hb].
    { by rewrite (ti_lens _ H). }
    rewrite (arr_get_nat _ _ _ Hb). step. eexists. split; [done|]. intros _.
    assert (Hv : s1 = tsc_seq (tst_cache st) →
      out ++ [b] = take (length (out ++ [b])) (ts_value k (tst_hist st) m)).
    { intros E. destruct (ts_even_quiet _ m H) as [_ Hq]; [lia|]. rewrite Hq in Hb.
      rewrite length_app, Nat.add_1_r, (take_S_r _ _ _ Hb). by rewrite <- Hval. }
    case_decide; (split; [done|]); exists m; split_and!; try done; [rewrite length_app; simpl; lia|].
    intros E. specialize (Hv E). rewrite Hv. apply take_ge. rewrite length_app. simpl.
    destruct (ts_even_quiet _ m H) as [-> _]; [lia|]. rewrite ts_value_length by done. lia.
  - (* TsSeq2 *)
    destruct Hrd as (m & Hm & Hsm & Hle & Hval). eexists. split; [done|]. intros _.
    destruct (_ =? _) eqn:E; [|done]. bools. split; [done|]. exists m. split_and!; [done|lia|auto].
Qed.

(** *** Every step preserves the invariant *)
Lemma ts_writer_alone c pcs hist start p pc :
  ts_inv (mkTstate c pcs hist start) → pcs !! p = Some pc → writing pc = true →
  ∀ q pcq, q ≠ p → pcs !! q = Some pcq → writing pcq = false.
Proof.
  intros H Hp Hw q pcq Hne Hq. destruct (writing pcq) eqn:E; [|done].
  by destruct Hne, (ti_excl _ H q p pcq pc).
Qed.

(** A step of [maybe_update] succeeds and keeps the invariant. *)
Definition update_ok c pcs hist start p pc : Prop :=
  ∃ c' pc', maybe_update_step c pc = Ok (c', pc') ∧
    (one_writer (mkTstate c' (<[p := pc']> pcs) (hist ++ begins pc) start) →
     ts_inv (mkTstate c' (<[p := pc']> pcs) (hist ++ begins pc) start)).

(** The update begins: no other thread is writing. *)
Lemma update_begin_ok c pcs hist start p k now :
  ts_inv (mkTstate c pcs hist start) → pcs !! p = Some (TsBegin k now) → Z.of_nat (length (hist ++ begins (TsBegin k now))) < 2 ^ 31 →
  update_ok c pcs hist start p (TsBegin k now).
Proof.
  intros H Hp Hb. pose proof (ts_seq_bound _ H) as Hsb. rewrite length_app in Hb. simpl in Hsb.
  pose proof (ti_lens _ H GetDatetime) as Hl1. pose proof (ti_lens _ H GetDate) as Hl2. simpl in Hl1, Hl2.
  unfold update_ok. cbn [maybe_update_step].
  eexists _, _. split; [done|]. intros Hex. simpl in Hb.
  assert (Hoth : ∀ q pcq, q ≠ p → pcs !! q = Some pcq → writing pcq = false).
  { intros q pcq Hne Hq. destruct (writing pcq) eqn:E; [|done]. exfalso. apply Hne.
    apply (Hex q p pcq (TsDt k now 0)); [by apply list_lookup_insert_Some; right| |done|done].
    apply list_lookup_insert_eq. by eapply lookup_lt_Some. }
  destruct (ti_quiet _ H) as [Hseq Hv].
  { intros q pcq Hq. destruct (decide (q = p)) as [->|]; [simpl in Hq; by simplify_eq|by eapply Hoth]. }
  simpl in Hseq, Hv. rewrite u32_small by lia.
  eapply ts_inv_writer_step; try done; simpl; [lia|by intros [|]|].
  rewrite length_app. simpl. split; [lia|]. rewrite last_snoc, Nat.add_sub, !ts_value_app by lia.
  split_and!; [done|lia|apply (Hv GetDatetime)|apply (Hv GetDate)].
Qed.

(** A byte of the first string, *)
Lemma update_dt_ok c pcs hist start p k now i :
  ts_inv (mkTstate c pcs hist start) → pcs !! p = Some (TsDt k now i) → Z.of_nat (length (hist ++ begins (TsDt k now i))) < 2 ^ 31 →
  update_ok c pcs hist start p (TsDt k now i).
Proof.
  intros H Hp Hb. pose proof (ts_seq_bound _ H) as Hsb. rewrite length_app in Hb. simpl in Hsb.
  pose proof (ti_lens _ H GetDatetime) as Hl1. pose proof (ti_lens _ H GetDate) as Hl2. simpl in Hl1, Hl2.
  unfold update_ok. cbn [maybe_update_step].
  destruct (ti_writer _ H _ _ Hp eq_refl) as [Hseq (Hlast & Hi & Ha & Ha')]. simpl in *.
  destruct (ts_value_last GetDatetime _ _ Hlast) as [_ Hn].
  destruct (lookup_lt_is_Some_2 (dt now) i) as [b Hbi]; [by rewrite Hdt|].
  rewrite (arr_get_nat _ _ _ Hbi). step. rewrite arr_set_ok by lia. step. rewrite Nat2Z.id.
  eexists _, _. split; [done|]. intros _.
  assert (Hc : <[i:=b]> (tsc_datetime_str c) =
    take (S i) (dt now) ++ drop (S i) (ts_value GetDatetime hist (length hist - 1))).
  { apply copy_byte; [|done|done]. by rewrite Hdt, ts_value_length by lia. }
  eapply ts_inv_writer_step; try done; simpl.
  - by eapply ts_writer_alone.
  - by intros [|]; simpl; rewrite ?length_insert.
  - by case_decide.
  - rewrite app_nil_r. case_decide; simpl; (split; [lia|]); rewrite Hc; split_and!; try done; try lia.
    assert (S i = 24%nat) as -> by lia.
    rewrite take_ge, drop_ge, app_nil_r; [done|rewrite ts_value_length by lia; done|by rewrite Hdt].
Qed.

(** and of the second. *)
Lemma update_d_ok c pcs hist start p k now i :
  ts_inv (mkTstate c pcs hist start) → pcs !! p = Some (TsD k now i) → Z.of_nat (length (hist ++ begins (TsD k now i))) < 2 ^ 31 →
  update_ok c pcs hist start p (TsD k now i).
Proof.
  intros H Hp Hb. pose proof (ts_seq_bound _ H) as Hsb. rewrite length_app in Hb. simpl in Hsb.
  pose proof (ti_lens _ H GetDatetime) as Hl1. pose proof (ti_lens _ H GetDate) as Hl2. simpl in Hl1, Hl2.
  unfold update_ok. cbn [maybe_update_step].
  destruct (ti_writer _ H _ _ Hp eq_refl) as [Hseq (Hlast & Hi & Ha & Ha')]. simpl in *.
  destruct (ts_value_last GetDatetime _ _ Hlast) as [Hv1 Hn]. destruct (ts_value_last GetDate _ _ Hlast) as [Hv2 _].
  destruct (lookup_lt_is_Some_2 (d now) i) as [b Hbi]; [by rewrite Hd|].
  rewrite (arr_get_nat _ _ _ Hbi). step. rewrite arr_set_ok by lia. step. rewrite Nat2Z.id.
  eexists _, _. split; [done|]. intros _.
  assert (Hc : <[i:=b]> (tsc_date_str c) =
    take (S i) (d now) ++ drop (S i) (ts_value GetDate hist (length hist - 1))).
  { apply copy_byte; [|done|done]. by rewrite Hd, ts_value_length by lia. }
  eapply ts_inv_writer_step; try done; simpl.
  - by eapply ts_writer_alone.
  - by intros [|]; simpl; rewrite ?length_insert.
  - by case_decide.
  - rewrite app_nil_r. case_decide; simpl; (split; [lia|]); [rewrite Hc; split_and!; try done; lia|].
    intros [|]; [by rewrite Hv1|]. rewrite Hv2. simpl. rewrite Hc. assert (S i = 12%nat) as -> by lia.
    rewrite take_ge, drop_ge, app_nil_r; [done|rewrite ts_value_length by lia; done|by rewrite Hd].
Qed.

Lemma maybe_update_ok c pcs hist start p pc :
  ts_inv (mkTstate c pcs hist start) → pcs !! p = Some pc → Z.of_nat (length (hist ++ begins pc)) < 2 ^ 31 →
  update_ok c pcs hist start p pc.
Proof.
  intros H Hp Hb. pose proof (ts_seq_bound _ H) as Hsb. rewrite length_app in Hb. simpl in Hsb.
  pose proof (ti_lens _ H GetDatetime) as Hl1. pose proof (ti_lens _ H GetDate) as Hl2. simpl in Hl1, Hl2.
  assert (Hsame : ∀ c' pc', writing pc = false → writing pc' = false → begins pc = [] →
    tsc_seq c' = tsc_seq c → (∀ k, ts_array k c' = ts_array k c) →
    (∀ s, start !! p = Some s → reader_ok hist (tsc_seq c) s pc') →
    ts_inv (mkTstate c' (<[p := pc']> pcs) (hist ++ begins pc) start)).
  { intros c' pc' ? ? -> ? ? Hrd. rewrite app_nil_r. eapply ts_inv_other_step; [done..|].
    intros s Hs. split; [apply (ti_reader _ H _ _ _ Hp Hs)|auto]. }
  destruct pc as [r|k now|k now e|k now|k now i|k now i|k|k|k s1 out|k s1 out]; unfold update_ok; cbn [maybe_update_step];
    try (eexists _, _; split; [done|]; intros _; apply Hsame; [done..|];
         intros s Hs; apply (ti_reader _ H _ _ _ Hp Hs)).
  - eexists _, _. split; [done|]. intros _. destruct (_ =? _); by apply Hsame.
  - destruct (_ =? _); (eexists _, _; split; [done|]); intros _; apply Hsame; try done; by intros [].
  - apply update_begin_ok; [done..|by rewrite length_app].
  - apply update_dt_ok; [done..|by rewrite length_app].
  - apply update_d_ok; [done..|by rewrite length_app].
  - (* TsEnd *)
    destruct (ti_writer _ H _ _ Hp eq_refl) as [Hseq Hv]. simpl in *. rewrite app_nil_r.
    eexists _, _. split; [done|]. intros _. rewrite u32_small by lia. rewrite <- (app_nil_r hist).
    eapply ts_inv_writer_step; try done; simpl; [by eapply ts_writer_alone|lia|by intros [|]|].
    rewrite app_nil_r. split; [lia|]. intros [|]; [apply (Hv GetDatetime)|apply (Hv GetDate)].
Qed.

Lemma ts_event_ok st e :
  ts_inv st → Z.of_nat (length (tst_hist st)) < 2 ^ 31 - 1 →
  ∃ st', ts_event_step st e = Ok st' ∧ tst_hist st `prefix_of` tst_hist st' ∧ (one_writer st' → ts_inv st').
Proof.
  destruct st as [c pcs hist start]. intros H Hb. destruct e as [p k now|p]; simpl in *.
  - destruct (pcs !! p) as [[r| | | | | | | | |]|] eqn:Hp; try (eexists; split; [done|]; by split).
    eexists. split; [done|]. split; [done|]. intros _.
    pose proof (ts_seq_bound _ H). simpl in *.
    eapply ts_inv_other_step; try done; [by rewrite length_insert|intros; by apply list_lookup_insert_ne|].
    intros s [[_ [<- _]]|[? _]]%list_lookup_insert_Some; [|done]. split; [|done].
    pose proof (ti_seq _ H) as Hs0. simpl in Hs0. pose proof (Z.mul_div_le (tsc_seq c) 2 ltac:(lia)).
    pose proof (Z.div_pos (tsc_seq c) 2 Hs0 ltac:(lia)). lia.
  - destruct (pcs !! p) as [pc|] eqn:Hp; [|eexists; split; [done|]; by split].
    destruct (lookup_lt_is_Some_2 start p) as [s Hs].
    { pose proof (ti_start _ H) as Hl. simpl in Hl. rewrite Hl. by eapply lookup_lt_Some. }
    assert (Hbb : Z.of_nat (length (hist ++ begins pc)) < 2 ^ 31).
    { rewrite length_app. destruct pc; simpl; lia. }
    destruct (maybe_update_ok _ _ _ _ _ _ H Hp Hbb) as (c' & pc1 & Hu & Hi).
    destruct (copy_step_ok _ _ _ _ H Hp Hs) as (pc2 & Hc & Hr).
    destruct pc; cbn [ts_step];
      try (rewrite Hu; step; eexists; split; [done|]; split; [by apply prefix_app_r|done]);
      cbn [tst_cache] in Hc; rewrite Hc; step; eexists; (split; [done|]; split; [by apply prefix_app_r|]);
      intros _; rewrite app_nil_r; destruct (Hr eq_refl) as [Hw2 Hr2];
      (apply (ts_inv_other_step c c pcs hist start start p _ pc2 H Hp); try done);
      intros s' Hs'; simplify_eq; (split; [apply (ti_reader _ H _ _ _ Hp Hs)|exact Hr2]).
Qed.

Lemma ts_inv_start threads : ts_inv (ts_start_state threads).
Proof.
  assert (Hidle : ∀ p pc, tst_pcs (ts_start_state threads) !! p = Some pc → pc = TsIdle None).
  { intros p pc Hp. by apply lookup_replicate in Hp as [-> _]. }
  split; simpl.
  - by rewrite !length_replicate.
  - intros p q pc pc' Hp Hq Hw. apply Hidle in Hp as ->. done.
  - done.
  - by intros [|].
  - intros _. split; [done|]. by intros [|].
  - intros p pc Hp Hw. apply Hidle in Hp as ->. done.
  - intros p pc s Hp Hs. apply Hidle in Hp as ->. apply lookup_replicate in Hs as [-> _]. done.
Qed.

Lemma ts_reachable threads st :
  rtc tstep (ts_start_state threads) st → Z.of_nat (length (tst_hist st)) < 2 ^ 31 - 1 → ts_inv st.
Proof.
  intros Hr. pattern st. eapply rtc_ind_r; [intros _; apply ts_inv_start| |exact Hr].
  clear st Hr. intros st st' _ (e & He & Hex) IH Hb.
  assert (Hpre : tst_hist st `prefix_of` tst_hist st').
  { destruct st as [c pcs hist start], e as [p k now|p]; simpl in He; repeat case_match; ok_inv; simplify_eq/=;
      try done; by apply prefix_app_r. }
  apply prefix_length in Hpre. assert (Hi : ts_inv st) by (apply IH; lia).
  destruct (ts_event_ok _ e Hi) as (st1 & He1 & _ & Hk); [lia|]. rewrite He in He1. simplify_eq. auto.
Qed.

(** *** A call without interference *)

(** A quiet cache whose strings are those of the cached second, or that was
    never written. *)
Definition ts_fresh (c : TimestampCache) : Prop :=
  Z.land (tsc_seq c) 1 = 0 ∧ 0 ≤ tsc_seq c < 2 ^ 32 ∧ (∀ k, length (ts_array k c) = ts_len k) ∧
  (tsc_cached_second c ≠ 0 → ∀ k, ts_array k c = ts_fmt k (tsc_cached_second c)).

Lemma alone_S fuel c pc :
  (∀ r, pc ≠ TsIdle (Some r)) →
  ts_alone (S fuel) c pc = ('(c, pc) ← ts_step c pc; ts_alone fuel c pc).
Proof. intros Hp. destruct pc as [[[k out]|]| | | | | | | | |]; try done. by destruct (Hp (k, out)). Qed.

Lemma alone_dt k now sec seq date n : ∀ fuel i a,
  (i + n = 24)%nat → (0 < n)%nat → length a = 24%nat → take i a = take i (dt now) →
  ts_alone (n + fuel) (mkTimestampCache sec seq a date) (TsDt k now i) =
  ts_alone fuel (mkTimestampCache sec seq (dt now) date) (TsD k now 0).
Proof.
  induction n as [|n IH]; intros fuel i a Hi Hn Ha Ht; [lia|].
  destruct (lookup_lt_is_Some_2 (dt now) i) as [b Hb]; [rewrite Hdt; lia|].
  cbn [Nat.add ts_alone ts_step maybe_update_step tsc_datetime_str].
  rewrite (arr_get_nat _ _ _ Hb). step. rewrite arr_set_ok by (simpl; lia). step. rewrite Nat2Z.id.
  cbn [tsc_cached_second tsc_seq tsc_date_str].
  assert (Ht' : take (S i) (<[i := b]> a) = take (S i) (dt now)).
  { rewrite (take_S_r (dt now) i b Hb), (take_S_r _ i b) by (apply list_lookup_insert_eq; lia).
    by rewrite take_insert_ge, Ht by lia. }
  case_decide; [apply IH; [lia..|by rewrite length_insert|done]|].
  assert (n = 0%nat) as -> by lia. simpl. do 2 f_equal.
  rewrite !take_ge in Ht' by (rewrite ?length_insert, ?Hdt; lia). done.
Qed.

Lemma alone_d k now sec seq dtm n : ∀ fuel i a,
  (i + n = 12)%nat → (0 < n)%nat → length a = 12%nat → take i a = take i (d now) →
  ts_alone (n + fuel) (mkTimestampCache sec seq dtm a) (TsD k now i) =
  ts_alone fuel (mkTimestampCache sec seq dtm (d now)) (TsEnd k).
Proof.
  induction n as [|n IH]; intros fuel i a Hi Hn Ha Ht; [lia|].
  destruct (lookup_lt_is_Some_2 (d now) i) as [b Hb]; [rewrite Hd; lia|].
  cbn [Nat.add ts_alone ts_step maybe_update_step tsc_date_str].
  rewrite (arr_get_nat _ _ _ Hb). step. rewrite arr_set_ok by (simpl; lia). step. rewrite Nat2Z.id.
  cbn [tsc_cached_second tsc_seq tsc_datetime_str].
  assert (Ht' : take (S i) (<[i := b]> a) = take (S i) (d now)).
  { rewrite (take_S_r (d now) i b Hb), (take_S_r _ i b) by (apply list_lookup_insert_eq; lia).
    by rewrite take_insert_ge, Ht by lia. }
  case_decide; [apply IH; [lia..|by rewrite length_insert|done]|].
  assert (n = 0%nat) as -> by lia. simpl. do 2 f_equal.
  rewrite !take_ge in Ht' by (rewrite ?length_insert, ?Hd; lia). done.
Qed.

Lemma alone_read k c n : ∀ fuel out,
  (length out + n = ts_len k)%nat → (0 < n)%nat → length (ts_array k c) = ts_len k →
  out = take (length out) (ts_array k c) →
  ts_alone (n + fuel) c (TsRead k (tsc_seq c) out) = ts_alone fuel c (TsSeq2 k (tsc_seq c) (ts_array k c)).
Proof.
  induction n as [|n IH]; intros fuel out Ho Hn Hl Ht; [lia|].
  destruct (lookup_lt_is_Some_2 (ts_array k c) (length out)) as [b Hb]; [lia|].
  cbn [Nat.add ts_alone ts_step copy_step]. rewrite (arr_get_nat _ _ _ Hb). step.
  assert (Ht' : out ++ [b] = take (length (out ++ [b])) (ts_array k c)).
  { rewrite length_app, Nat.add_1_r, (take_S_r _ _ _ Hb). by rewrite <- Ht. }
  case_decide; [apply IH; rewrite ?length_app; simpl; [lia..|done|by rewrite length_app in Ht']|].
  assert (n = 0%nat) as -> by lia. simpl. do 2 f_equal. rewrite Ht'. apply take_ge. rewrite length_app. simpl. lia.
Qed.

(** From the copying loop on, the current string is returned. *)
Lemma alone_copy k c fuel :
  Z.land (tsc_seq c) 1 = 0 → length (ts_array k c) = ts_len k → (26 ≤ fuel)%nat →
  ts_alone fuel c (TsSeq1 k) = Ok (ts_array k c, c).
Proof.
  intros He Hl Hf. replace fuel with (S (ts_len k + S (fuel - ts_len k - 2)))%nat by (destruct k; simpl; lia).
  cbn [ts_alone ts_step copy_step]. rewrite He. step. rewrite Z.eqb_refl.
  rewrite alone_read; [|done|destruct k; simpl; lia|done|done].
  cbn [ts_alone ts_step copy_step]. rewrite Z.eqb_refl. step. by destruct (fuel - ts_len k - 2)%nat.
Qed.

Lemma get_alone k now c :
  ts_fresh c → now ≠ 0 →
  ∃ c', TimestampCache_get k now c = Ok (ts_fmt k now, c') ∧ ts_fresh c' ∧ tsc_cached_second c' = now.
Proof.
  intros (He & Hs & Hl & Hv) Hnow. unfold TimestampCache_get.
  change 66%nat with (S (S (S (24 + (12 + S 26))))). rewrite alone_S by done. cbn [ts_step maybe_update_step]. step.
  destruct (now =? tsc_cached_second c) eqn:E; bools.
  { subst now. rewrite alone_copy by (done || lia). rewrite Hv by done. exists c. by split_and!. }
  pose proof (Hl GetDatetime) as Hl1. pose proof (Hl GetDate) as Hl2.
  rewrite alone_S by done. cbn [ts_step maybe_update_step]. rewrite Z.eqb_refl. step.
  rewrite alone_S by done. cbn [ts_step maybe_update_step tsc_cached_second tsc_seq tsc_datetime_str tsc_date_str]. step.
  rewrite alone_dt by (done || lia). rewrite alone_d by (done || lia).
  rewrite alone_S by done. cbn [ts_step maybe_update_step tsc_cached_second tsc_seq tsc_datetime_str tsc_date_str]. step.
  assert (Hev : Z.land (u32 (u32 (tsc_seq c + 1) + 1)) 1 = 0).
  { change 1 with (2 ^ 1 - 1) at 3. change 1 with (2 ^ 1 - 1) in He at 1. rewrite land_mask in * by lia.
    unfold u32. rewrite mod_mod_pow2, <- Zplus_mod_idemp_l, mod_mod_pow2, Zplus_mod_idemp_l by lia.
    rewrite <- Z.add_assoc, <- Zplus_mod_idemp_l, He. done. }
  rewrite alone_copy; [|done|destruct k; simpl; [apply Hdt|apply Hd]|lia].
  eexists. split; [by destruct k|]. split; [|done]. split_and!; [done|apply u32_range..| |].
  - intros [|]; simpl; [apply Hdt|apply Hd].
  - by intros _ [|].
Qed.
End inv.
End timestamp.

(** ** Theorems *)

(** What a call that began after [s] complete updates may return: the complete
    string of an update that is not older than the last of them, or, when there
    was none, the empty string the arrays are initialised with. *)
Definition ts_good (dt d : Z → list byte) (k : ts_call) (hist : list Z) (s : nat) (out : list byte) : Prop :=
  (∃ m t, (s ≤ S m)%nat ∧ hist !! m = Some t ∧ out = ts_fmt dt d k t) ∨
  (s = 0%nat ∧ out = replicate (ts_len k) x00).

Lemma ts_value_good dt d k hist s m :
  (s ≤ m ≤ length hist)%nat → ts_good dt d k hist s (ts_value dt d k hist m).
Proof.
  intros [Hs Hm]. destruct m as [|m]; [right; split; [lia|done]|left].
  destruct (lookup_lt_is_Some_2 hist m) as [t Ht]; [lia|]. exists m, t. split_and!; [done..|]. cbn. by rewrite Ht.
Qed.

(** C21. A returned time string is never torn or stale.  As long as no two
    threads are between the two increments of [seq_] at once (and for fewer than
    2^31 updates), every call that returns, whatever the other threads did
    meanwhile byte by byte, returns the complete string of one update, not
    older than the last update that was complete when the call began.  Only a
    call that began before the first update was complete may instead return the
    empty string the cache starts with.  No step of any thread faults. *)
Theorem timestamp_never_torn (dt d : Z → list byte) threads st p k out :
  (∀ t, length (dt t) = 24%nat) → (∀ t, length (d t) = 12%nat) →
  rtc (tstep dt d) (ts_start_state threads) st → Z.of_nat (length (tst_hist st)) < 2 ^ 31 - 1 →
  tst_pcs st !! p = Some (TsIdle (Some (k, out))) →
  (∃ s, tst_start st !! p = Some s ∧ ts_good dt d k (tst_hist st) s out) ∧
  ∀ e, ∃ st', ts_event_step dt d st e = Ok st'.
Proof.
  intros Hdt Hd Hr Hb Hp. pose proof (ts_reachable dt d Hdt Hd threads st Hr Hb) as H. split.
  - destruct (lookup_lt_is_Some_2 (tst_start st) p) as [s Hs].
    { rewrite (ti_start _ _ _ H). by eapply lookup_lt_Some. }
    pose proof (ts_seq_bound dt d st H). destruct (ti_reader _ _ _ H _ _ _ Hp Hs) as [_ (m & ? & ? & ->)].
    exists s. split; [done|]. apply ts_value_good. lia.
  - intros e. destruct (ts_event_ok dt d Hdt Hd st e H Hb) as (st' & ? & _). by exists st'.
Qed.

(** Strings that show the second they belong to. *)
Definition demo_byte (t : Z) : byte := if t =? 1 then x61 else x62.
Definition demo_dt (t : Z) : list byte := replicate 24 (demo_byte t).
Definition demo_d (t : Z) : list byte := replicate 12 (demo_byte t).

Lemma rtc_ts_run dt d es : ∀ st st',
  ts_run dt d st es = Ok st' → (∀ i st1, ts_run dt d st (take i es) = Ok st1 → one_writer st1) →
  rtc (tstep dt d) st st'.
Proof.
  induction es as [|e es IH]; intros st st' Hr Hex; simpl in Hr; [simplify_eq; constructor|].
  ok_inv. eapply rtc_l; [exists e; split; [done|]|].
  - apply (Hex 1%nat). simpl. rewrite H. done.
  - apply IH; [done|]. intros i st1 Hi. apply (Hex (S i)). simpl. by rewrite H.
Qed.

(** With one thread there is one writer. *)
Lemma one_thread_one_writer dt d es st st' :
  length (tst_pcs st) = 1%nat → ts_run dt d st es = Ok st' → one_writer st'.
Proof.
  intros Hl Hr. assert (length (tst_pcs st') = 1%nat) as Hl'.
  { revert st Hl Hr. induction es as [|e es IH]; intros st Hl Hr; simpl in Hr; [by simplify_eq|].
    ok_inv. eapply IH, Hr. destruct st as [c pcs h s], e; simpl in *; repeat case_match; ok_inv; simplify_eq/=;
      by rewrite ?length_insert. }
  intros p q pc pc' Hp Hq _ _. apply lookup_lt_Some in Hp, Hq. lia.
Qed.

Lemma timestamp_never_torn_witness :
  ∃ st, ts_run demo_dt demo_d (ts_start_state 1) (TsCall 0 GetDate 1 :: replicate 54 (TsRun 0)) = Ok st ∧
    ∃ s, tst_start st !! 0%nat = Some s ∧ ts_good demo_dt demo_d GetDate (tst_hist st) s (replicate 12 x61).
Proof.
  eexists. split; [vm_compute; reflexivity|].
  eapply (timestamp_never_torn demo_dt demo_d 1 _ 0 GetDate); [done|done| |done|reflexivity].
  eapply (rtc_ts_run demo_dt demo_d (TsCall 0 GetDate 1 :: replicate 54 (TsRun 0))); [vm_compute; reflexivity|].
  intros i st1 H1. by eapply one_thread_one_writer, H1.
Defined.

(** C38. Without interference the cache is a function of the time: over any
    sequence of calls on a new cache, each call returns the string of the
    second it reads, within 66 shared accesses. *)
Theorem timestamp_current_second (dt d : Z → list byte) calls :
  (∀ t, length (dt t) = 24%nat) → (∀ t, length (d t) = 12%nat) → Forall (fun c => c.2 ≠ 0) calls →
  ts_calls dt d TimestampCache_new calls = Ok ((fun c => ts_fmt dt d c.1 c.2) <$> calls).
Proof.
  intros Hdt Hd. assert (Hf : ts_fresh dt d TimestampCache_new) by (split_and!; try done; by intros [|]).
  revert Hf. generalize TimestampCache_new. induction calls as [|[k now] calls IH]; intros c Hf Hn; [done|].
  inversion_clear Hn as [|?? Hnow Hns]. destruct (get_alone dt d Hdt Hd k now c Hf Hnow) as (c' & Hg & Hf' & _).
  cbn [ts_calls]. rewrite Hg. step. rewrite (IH c' Hf' Hns). done.
Qed.

Lemma timestamp_current_second_witness :
  ts_calls demo_dt demo_d TimestampCache_new [(GetDate, 1); (GetDate, 1); (GetDate, 2)] =
  Ok [replicate 12 x61; replicate 12 x61; replicate 12 x62].
Proof.
  apply (timestamp_current_second demo_dt demo_d [(GetDate, 1); (GetDate, 1); (GetDate, 2)]); [done..|].
  repeat constructor; done.
Defined.

(** Two writers break the lock: a thread that was stopped while it copied
    the strings of second 1 and another that starts on second 2 leave [seq_]
    even between them, and a reader returns a string that belongs to no update:
    half of the one of second 1, half of what was there before. *)
Theorem timestamp_torn_by_two_writers :
  ∃ st, ts_run demo_dt demo_d (ts_start_state 3)
      ((TsCall 0 GetDatetime 1 :: replicate 15 (TsRun 0)) ++ (TsCall 1 GetDatetime 2 :: replicate 3 (TsRun 1)) ++
       (TsCall 2 GetDatetime 2 :: replicate 27 (TsRun 2))) = Ok st ∧
    tst_pcs st !! 2%nat = Some (TsIdle (Some (GetDatetime, replicate 12 x61 ++ replicate 12 x00))).
Proof. eexists. split; vm_compute; reflexivity. Qed.

(** The first update is not waited for: while the thread that won the exchange
    has not yet made [seq_] odd, another one that reads the same second finds
    the cache current and returns the empty string. *)
Theorem timestamp_empty_before_first_update :
  ∃ st, ts_run demo_dt demo_d (ts_start_state 2)
      ((TsCall 0 GetDatetime 1 :: replicate 2 (TsRun 0)) ++ (TsCall 1 GetDatetime 1 :: replicate 27 (TsRun 1))) = Ok st ∧
    tst_pcs st !! 1%nat = Some (TsIdle (Some (GetDatetime, replicate 24 x00))).
Proof. eexists. split; vm_compute; reflexivity. Qed.
