(* ===== verification/Logger.v ===== *)
(** * Logger: per-thread buffers flushed by a backend thread

    Models include/util/log.hpp and src/util/log.cpp.  Every thread formats its
    lines into one of two buffers; a full or old buffer is handed to the backend
    through the queue of MpscQueue.v and the other one is used meanwhile; the
    backend writes the buffers to the file of the day through an io_uring and
    gives them back.

    Threads, backend and kernel interleave between any two accesses to shared
    memory ([in_flight_], the queue, the semaphore, the stop request); a call of
    the queue is one access here, so that a [dequeue] that comes back empty
    because an earlier [enqueue] has not finished is not represented (the
    accesses inside a call interleave in MpscQueue.v).  The kernel reads a buffer when it executes
    the write, in any order.  Clock readings, dates, the strings of the
    timestamp cache and the outcome of [open] are part of the events; thread 0
    is the one that destroys the logger. *)
From S2P Require Import Prelude MpscQueue.

(** ** Formatting *)
Inductive LogLevel := LvDebug | LvInfo | LvWarning | LvError.

Definition level_num (l : LogLevel) : Z :=
  match l with LvDebug => 0 | LvInfo => 1 | LvWarning => 2 | LvError => 3 end.

(** "[DEBUG]", "[INFO]", "[WARNING]", "[ERROR]". *)
Definition level_str (l : LogLevel) : list byte :=
  match l with
  | LvDebug => [x5b; x44; x45; x42; x55; x47; x5d]
  | LvInfo => [x5b; x49; x4e; x46; x4f; x5d]
  | LvWarning => [x5b; x57; x41; x52; x4e; x49; x4e; x47; x5d]
  | LvError => [x5b; x45; x52; x52; x4f; x52; x5d]
  end.

(** What [%s] prints of a char array: the bytes before the first zero. *)
Fixpoint c_str (l : list byte) : list byte :=
  match l with
  | [] => []
  | x00 :: _ => []
  | b :: l => b :: c_str l
  end.

(** [char line[320]]. *)
Definition line_size : Z := 320.

(** The text of "%s %s %.*s\n". *)
Definition log_text (ts_buf : list byte) (level : LogLevel) (message : list byte) : list byte :=
  c_str ts_buf ++ [x20] ++ level_str level ++ [x20] ++ c_str message ++ [x0a].

(** The bytes [log] appends; [snprintf] fails when the length is no [int]. *)
Definition Logger_log (threshold level : LogLevel) (ts_buf message : list byte) : option (list byte) :=
  if level_num level <? level_num threshold then None else
  let text := log_text ts_buf level message in
  let n := Z.of_nat (length text) in
  if 2 ^ 31 <=? n then None
  else Some (take (Z.to_nat (if n <? line_size then n else line_size - 1)) text).

(** ** Buffers *)
Record LoggerBuffer := mkLoggerBuffer { lb_buffer : list byte; lb_current_size : Z; lb_in_flight : bool }.

Definition LoggerBuffer_empty (b : LoggerBuffer) : bool := lb_current_size b =? 0.
Definition LoggerBuffer_append (b : LoggerBuffer) (data : list byte) : result LoggerBuffer :=
  m ← mem_write (lb_buffer b) (lb_current_size b) data;
  Ok (mkLoggerBuffer m (u64 (lb_current_size b + Z.of_nat (length data))) (lb_in_flight b)).
Definition LoggerBuffer_clear (b : LoggerBuffer) : LoggerBuffer := mkLoggerBuffer (lb_buffer b) 0 (lb_in_flight b).
Definition set_in_flight (v : bool) (b : LoggerBuffer) : LoggerBuffer :=
  mkLoggerBuffer (lb_buffer b) (lb_current_size b) v.

Record ThreadState := mkThreadState {
  th_bufs : list LoggerBuffer;
  th_write_idx : Z;
  th_last_flush_time : Z
}.

Definition th_buf (ts : ThreadState) (i : Z) : result LoggerBuffer := arr_get (th_bufs ts) i.
Definition th_upd (ts : ThreadState) (i : Z) (f : LoggerBuffer → LoggerBuffer) : result ThreadState :=
  b ← arr_get (th_bufs ts) i;
  bufs ← arr_set (th_bufs ts) i (f b);
  Ok (mkThreadState bufs (th_write_idx ts) (th_last_flush_time ts)).

(** Where a thread is: in [append] ([Lp]), in the destructor of its
    ThreadFlushGuard ([Gd]), in [~Logger] ([Ds]), or past its end. *)
Inductive log_pc :=
  | LpIdle
  | LpCheck (data : list byte) (is_full : bool) (now : Z)    (* before loading the other buffer's in_flight_ *)
  | LpFlag (data : list byte) (is_full : bool) (now : Z)     (* before front.in_flight_.store(true) *)
  | LpEnqueue (data : list byte) (is_full : bool) (now : Z)
  | LpUnflag (data : list byte) (is_full : bool)             (* before front.in_flight_.store(false) *)
  | LpRelease (data : list byte) (now : Z)                   (* before semaphore_.release() *)
  | LpCopy (data : list byte)                                (* before the copy into the buffer *)
  | GdCheck | GdFlag | GdEnqueue | GdUnflag | GdRelease
  | GdWait (i : Z)                                           (* before loading in_flight_ of buffer [i] *)
  | DsWaitBack | DsFlag | DsEnqueue | DsRelease
  | DsStop | DsWake | DsJoin
  | LpExited.

(** A thread; [lt_accepted] is history: the bytes of all calls that were not
    dropped, in order. *)
Record lthread := mkLthread { lt_ts : option ThreadState; lt_pc : log_pc; lt_accepted : list byte }.

(** ** The backend *)

(** A prepared or submitted write: buffer, descriptor, length, offset. *)
Record log_write := mkLogWrite { lw_buf : Z; lw_fd : Z; lw_len : Z; lw_off : Z }.

(** Where the backend is; the boolean tells whether the rest belongs to the
    end of the loop after a stop request. *)
Inductive back_pc :=
  | BkStart
  | BkTop                          (* head of the loop *)
  | BkSwitchWait                   (* submit_and_wait before a new file *)
  | BkSwitchReap
  | BkOpen (first : bool)          (* switch_log_file_date *)
  | BkAcquire
  | BkDequeue (last : bool)
  | BkSubmitBuf (buf : Z) (last : bool)
  | BkSubmit (last : bool)         (* ring_.submit() *)
  | BkReap                         (* the loop over peek_cqe *)
  | BkStopCheck
  | BkLastWait                     (* submit_and_wait at the end *)
  | BkLastReap
  | BkDone.

(** [bk_files] are the contents of the files opened so far; a descriptor is an
    index in it.  History: [bk_olds], their contents when opened; [bk_done],
    the buffers the backend has dealt with: the file a write was prepared for,
    or none; [bk_lost], the parts of writes that the kernel left out. *)
Record backend := mkBackend {
  bk_pc : back_pc;
  bk_today : list byte;
  bk_fd : Z;
  bk_offset : Z;
  bk_in_flight : Z;                (* unsigned *)
  bk_sq : list log_write;
  bk_kernel : list log_write;
  bk_cq : list Z;
  bk_files : list (list byte);
  bk_olds : list (list byte);
  bk_done : list (Z * (Z * list byte));
  bk_lost : list log_write
}.

(** [lg_flushed] is history: the buffers put in the queue, with their bytes.
    [lg_semaphore] counts permits without bound, as the counter of
    [std::counting_semaphore] does; that a [release] beyond the 128 of its type
    is a broken precondition is in LoggerProps.v. *)
Record Logger := mkLogger {
  lg_log_level : LogLevel;
  lg_threads : list lthread;
  lg_flush_queue : MPSCQueue Z;
  lg_semaphore : Z;
  lg_stop : bool;
  lg_backend : backend;
  lg_flushed : list (Z * list byte)
}.

Definition FLUSH_QUEUE_CAPACITY : Z := 128.
Definition ring_depth : Z := 64.

Definition lg_with_threads (g : Logger) ths : Logger :=
  mkLogger (lg_log_level g) ths (lg_flush_queue g) (lg_semaphore g) (lg_stop g) (lg_backend g) (lg_flushed g).
Definition lg_with_queue (g : Logger) q fl : Logger :=
  mkLogger (lg_log_level g) (lg_threads g) q (lg_semaphore g) (lg_stop g) (lg_backend g) fl.
Definition lg_with_sem (g : Logger) n : Logger :=
  mkLogger (lg_log_level g) (lg_threads g) (lg_flush_queue g) n (lg_stop g) (lg_backend g) (lg_flushed g).
Definition lg_with_stop (g : Logger) b : Logger :=
  mkLogger (lg_log_level g) (lg_threads g) (lg_flush_queue g) (lg_semaphore g) b (lg_backend g) (lg_flushed g).
Definition lg_with_backend (g : Logger) b : Logger :=
  mkLogger (lg_log_level g) (lg_threads g) (lg_flush_queue g) (lg_semaphore g) (lg_stop g) b (lg_flushed g).

Definition bk_with_pc (b : backend) pc : backend :=
  mkBackend pc (bk_today b) (bk_fd b) (bk_offset b) (bk_in_flight b) (bk_sq b) (bk_kernel b) (bk_cq b) (bk_files b)
    (bk_olds b) (bk_done b) (bk_lost b).

Section logger.
Context (BUFFER_SIZE : Z) (junk : nat → byte).

Definition LoggerBuffer_new : LoggerBuffer := mkLoggerBuffer (new_array BUFFER_SIZE junk) 0 false.
Definition ThreadState_new (now : Z) : ThreadState := mkThreadState [LoggerBuffer_new; LoggerBuffer_new] 0 now.

(** *** Threads *)

(** The buffer [i] of thread [t] as a pointer, and back. *)
Definition buf_ptr (t : nat) (i : Z) : Z := 2 * Z.of_nat t + i.
Definition ptr_thread (p : Z) : nat := Z.to_nat (p / 2).
Definition ptr_idx (p : Z) : Z := p mod 2.

Definition set_thread (g : Logger) (t : nat) (th : lthread) : Logger :=
  lg_with_threads g (<[t := th]> (lg_threads g)).

(** The thread moves on, with its state and history. *)
Definition goto (g : Logger) (t : nat) (th : lthread) (ts : ThreadState) (pc : log_pc) : Logger :=
  set_thread g t (mkLthread (Some ts) pc (lt_accepted th)).

Definition one_second : Z := 1000000000.

(** [append] up to its first access to shared memory: [new ThreadState] at
    [born] if need be, then the decision at [now]. *)
Definition append_start (g : Logger) (t : nat) (th : lthread) (data : list byte) (born now : Z) : result Logger :=
  let ts := default (ThreadState_new born) (lt_ts th) in
  front ← th_buf ts (th_write_idx ts);
  let is_full := BUFFER_SIZE <? u64 (lb_current_size front + Z.of_nat (length data)) in
  let timed_out := negb is_full && negb (LoggerBuffer_empty front) && (one_second <=? now - th_last_flush_time ts) in
  Ok (goto g t th ts (if is_full || timed_out then LpCheck data is_full now else LpCopy data)).

(** [flush_queue_.enqueue(&front)]. *)
Definition enqueue_front (g : Logger) (t : nat) (ts : ThreadState) : result (Logger * bool) :=
  front ← th_buf ts (th_write_idx ts);
  '(q, ok) ← MPSCQueue_enqueue FLUSH_QUEUE_CAPACITY (lg_flush_queue g) (buf_ptr t (th_write_idx ts));
  let bytes := mem_read (lb_buffer front) 0 (lb_current_size front) in
  Ok (lg_with_queue g q (if ok : bool then lg_flushed g ++ [(buf_ptr t (th_write_idx ts), bytes)] else lg_flushed g), ok).

(** The rest of [append], one access at a time. *)
Definition append_step (g : Logger) (t : nat) (th : lthread) (ts : ThreadState) : result Logger :=
  let back_idx := 1 - th_write_idx ts in
  match lt_pc th with
  | LpCheck data is_full now =>
      back ← th_buf ts back_idx;
      Ok (goto g t th ts (if negb (lb_in_flight back) then LpFlag data is_full now
                          else if is_full then LpIdle else LpCopy data))
  | LpFlag data is_full now =>
      ts ← th_upd ts (th_write_idx ts) (set_in_flight true);
      Ok (goto g t th ts (LpEnqueue data is_full now))
  | LpEnqueue data is_full now =>
      '(g, ok) ← enqueue_front g t ts;
      Ok (goto g t th ts (if ok : bool then LpRelease data now else LpUnflag data is_full))
  | LpUnflag data is_full =>
      ts ← th_upd ts (th_write_idx ts) (set_in_flight false);
      Ok (goto g t th ts (if is_full then LpIdle else LpCopy data))
  | LpRelease data now =>
      Ok (goto (lg_with_sem g (lg_semaphore g + 1)) t th (mkThreadState (th_bufs ts) back_idx now) (LpCopy data))
  | LpCopy data =>
      b ← th_buf ts (th_write_idx ts);
      b ← LoggerBuffer_append b data;
      ts ← th_upd ts (th_write_idx ts) (fun _ => b);
      Ok (set_thread g t (mkLthread (Some ts) LpIdle (lt_accepted th ++ data)))
  | _ => Ok g
  end.

(** [~ThreadFlushGuard]: up to its first access to shared memory, *)
Definition guard_start (g : Logger) (t : nat) (th : lthread) : result Logger :=
  match lt_ts th with
  | None => Ok (set_thread g t (mkLthread None LpExited (lt_accepted th)))
  | Some ts =>
      front ← th_buf ts (th_write_idx ts);
      Ok (goto g t th ts (if LoggerBuffer_empty front then GdWait 0 else GdCheck))
  end.

(** and the rest. *)
Definition guard_step (g : Logger) (t : nat) (th : lthread) (ts : ThreadState) : result Logger :=
  match lt_pc th with
  | GdCheck =>
      back ← th_buf ts (1 - th_write_idx ts);
      Ok (goto g t th ts (if negb (lb_in_flight back) then GdFlag else GdWait 0))
  | GdFlag => ts ← th_upd ts (th_write_idx ts) (set_in_flight true); Ok (goto g t th ts GdEnqueue)
  | GdEnqueue =>
      '(g, ok) ← enqueue_front g t ts; Ok (goto g t th ts (if ok : bool then GdRelease else GdUnflag))
  | GdUnflag => ts ← th_upd ts (th_write_idx ts) (set_in_flight false); Ok (goto g t th ts (GdWait 0))
  | GdRelease => Ok (goto (lg_with_sem g (lg_semaphore g + 1)) t th ts (GdWait 0))
  | GdWait i =>
      b ← th_buf ts i;
      if lb_in_flight b then Ok g
      else if i =? 0 then Ok (goto g t th ts (GdWait 1))
      else Ok (set_thread g t (mkLthread None LpExited (lt_accepted th)))
  | _ => Ok g
  end.

(** [~Logger] on thread 0. *)
Definition destroy_start (g : Logger) (t : nat) (th : lthread) : result Logger :=
  match lt_ts th with
  | None => Ok (set_thread g t (mkLthread None DsStop (lt_accepted th)))
  | Some ts =>
      front ← th_buf ts (th_write_idx ts);
      Ok (goto g t th ts (if LoggerBuffer_empty front then DsStop else DsWaitBack))
  end.

Definition destroy_step (g : Logger) (t : nat) (th : lthread) : result Logger :=
  let to pc := set_thread g t (mkLthread (lt_ts th) pc (lt_accepted th)) in
  match lt_pc th, lt_ts th with
  | DsWaitBack, Some ts =>
      back ← th_buf ts (1 - th_write_idx ts); Ok (if lb_in_flight back then g else to DsFlag)
  | DsFlag, Some ts => ts ← th_upd ts (th_write_idx ts) (set_in_flight true); Ok (goto g t th ts DsEnqueue)
  | DsEnqueue, Some ts =>
      '(g', ok) ← enqueue_front g t ts; Ok (if ok : bool then goto g' t th ts DsRelease else g)
  | DsRelease, _ => Ok (lg_with_sem (to DsStop) (lg_semaphore g + 1))
  | DsStop, _ => Ok (lg_with_stop (to DsWake) true)
  | DsWake, _ => Ok (lg_with_sem (to DsJoin) (lg_semaphore g + 1))
  | DsJoin, _ =>
      Ok (if bk_pc (lg_backend g) is BkDone then set_thread g t (mkLthread None LpExited (lt_accepted th)) else g)
  | _, _ => Ok g
  end.

Definition thread_step (g : Logger) (t : nat) (th : lthread) : result Logger :=
  match lt_pc th, lt_ts th with
  | (LpCheck _ _ _ | LpFlag _ _ _ | LpEnqueue _ _ _ | LpUnflag _ _ | LpRelease _ _ | LpCopy _), Some ts => append_step g t th ts
  | (GdCheck | GdFlag | GdEnqueue | GdUnflag | GdRelease | GdWait _), Some ts => guard_step g t th ts
  | (DsWaitBack | DsFlag | DsEnqueue | DsRelease | DsStop | DsWake | DsJoin), _ => destroy_step g t th
  | (LpIdle | LpExited), _ => Ok g
  | _, None => Fault NullDereference
  end.

(** *** Backend *)

(** Access through a pointer to a buffer; deleted states are gone. *)
Definition ptr_buf (g : Logger) (p : Z) : result LoggerBuffer :=
  match lg_threads g !! ptr_thread p with
  | Some (mkLthread (Some ts) _ _) => th_buf ts (ptr_idx p)
  | _ => Fault NullDereference
  end.
Definition ptr_upd (g : Logger) (p : Z) (f : LoggerBuffer → LoggerBuffer) : result Logger :=
  match lg_threads g !! ptr_thread p with
  | Some (mkLthread (Some ts) pc acc) =>
      ts ← th_upd ts (ptr_idx p) f; Ok (set_thread g (ptr_thread p) (mkLthread (Some ts) pc acc))
  | _ => Fault NullDereference
  end.

Definition release_buf (b : LoggerBuffer) : LoggerBuffer := set_in_flight false (LoggerBuffer_clear b).

(** [submit_buf]; [get_sqe] throws when the submission queue is full. *)
Definition submit_buf (g : Logger) (p : Z) (pc : back_pc) : result Logger :=
  let k := lg_backend g in
  b ← ptr_buf g p;
  let bytes := mem_read (lb_buffer b) 0 (lb_current_size b) in
  let done := bk_done k ++ [(bk_fd k, (p, bytes))] in
  if bk_fd k <? 0 then
    g ← ptr_upd g p release_buf;
    Ok (lg_with_backend g (mkBackend pc (bk_today k) (bk_fd k) (bk_offset k) (bk_in_flight k) (bk_sq k) (bk_kernel k)
          (bk_cq k) (bk_files k) (bk_olds k) done (bk_lost k)))
  else if ring_depth <=? Z.of_nat (length (bk_sq k)) then Fault Exception
  else
    let w := mkLogWrite p (bk_fd k) (u32 (lb_current_size b)) (bk_offset k) in
    Ok (lg_with_backend g (mkBackend pc (bk_today k) (bk_fd k) (u64 (bk_offset k + lb_current_size b))
          (u32 (bk_in_flight k + 1)) (bk_sq k ++ [w]) (bk_kernel k) (bk_cq k) (bk_files k) (bk_olds k) done
          (bk_lost k))).

(** [handle_cqe] on [peek_cqe]; an empty one fails the assert of [get_data]. *)
Definition handle_cqe (g : Logger) : result Logger :=
  let k := lg_backend g in
  match bk_cq k with
  | [] => Fault AssertionFailed
  | p :: cq =>
      g ← ptr_upd g p release_buf;
      Ok (lg_with_backend g (mkBackend (bk_pc k) (bk_today k) (bk_fd k) (bk_offset k) (u32 (bk_in_flight k - 1))
            (bk_sq k) (bk_kernel k) cq (bk_files k) (bk_olds k) (bk_done k) (bk_lost k)))
  end.

(** [ring_.submit()]. *)
Definition ring_submit (k : backend) : backend :=
  mkBackend (bk_pc k) (bk_today k) (bk_fd k) (bk_offset k) (bk_in_flight k) [] (bk_kernel k ++ bk_sq k) (bk_cq k)
    (bk_files k) (bk_olds k) (bk_done k) (bk_lost k).

(** [switch_log_file_date] with the outcome of [open]: the contents of the
    file, if it could be opened. *)
Definition switch_log_file_date (k : backend) (opened : option (list byte)) (pc : back_pc) : backend :=
  match opened with
  | Some old =>
      mkBackend pc (bk_today k) (Z.of_nat (length (bk_files k))) (Z.of_nat (length old)) (bk_in_flight k) (bk_sq k)
        (bk_kernel k) (bk_cq k) (bk_files k ++ [old]) (bk_olds k ++ [old]) (bk_done k)
        (bk_lost k)
  | None =>
      mkBackend pc (bk_today k) (-1) (bk_offset k) (bk_in_flight k) (bk_sq k) (bk_kernel k) (bk_cq k) (bk_files k)
        (bk_olds k) (bk_done k) (bk_lost k)
  end.

Definition bk_with_today (k : backend) date : backend :=
  mkBackend (bk_pc k) date (bk_fd k) (bk_offset k) (bk_in_flight k) (bk_sq k) (bk_kernel k) (bk_cq k) (bk_files k)
    (bk_olds k) (bk_done k) (bk_lost k).

(** [backend_loop], one access at a time; [date] is what [get_date] returns
    and [opened] what [open] finds, where the step calls them. *)
Definition backend_step (g : Logger) (date : list byte) (opened : option (list byte)) : result Logger :=
  let k := lg_backend g in
  let next pc := Ok (lg_with_backend g (bk_with_pc k pc)) in
  match bk_pc k with
  | BkStart => Ok (lg_with_backend g (bk_with_pc (bk_with_today k date) (BkOpen true)))
  | BkOpen first => Ok (lg_with_backend g (switch_log_file_date k opened (if first : bool then BkTop else BkAcquire)))
  | BkTop =>
      if lg_stop g then next (BkDequeue false)
      else if decide (bk_today k = date) then next BkAcquire
      else Ok (lg_with_backend g (bk_with_pc (bk_with_today k date)
                 (if 0 <? bk_in_flight k then BkSwitchWait else BkOpen false)))
  | BkSwitchWait =>
      let k := ring_submit k in
      Ok (lg_with_backend g (bk_with_pc k
            (if Z.of_nat (length (bk_cq k)) <? bk_in_flight k then BkSwitchWait else BkSwitchReap)))
  | BkSwitchReap => if 0 <? bk_in_flight k then handle_cqe g else next (BkOpen false)
  | BkAcquire =>
      if 0 <? lg_semaphore g
      then Ok (lg_with_backend (lg_with_sem g (lg_semaphore g - 1)) (bk_with_pc k (BkDequeue false)))
      else Ok g
  | BkDequeue last =>
      '(q, r) ← MPSCQueue_dequeue FLUSH_QUEUE_CAPACITY (lg_flush_queue g);
      let g := lg_with_queue g q (lg_flushed g) in
      Ok (lg_with_backend g (bk_with_pc k (match r with Some p => BkSubmitBuf p last | None => BkSubmit last end)))
  | BkSubmitBuf p last => submit_buf g p (BkDequeue last)
  | BkSubmit last => Ok (lg_with_backend g (bk_with_pc (ring_submit k) (if last : bool then BkLastWait else BkReap)))
  | BkReap => match bk_cq k with [] => next BkStopCheck | _ => handle_cqe g end
  | BkStopCheck => next (if lg_stop g then BkDequeue true else BkTop)
  | BkLastWait =>
      if 0 <? bk_in_flight k then
        let k := ring_submit k in
        Ok (lg_with_backend g (bk_with_pc k
              (if Z.of_nat (length (bk_cq k)) <? bk_in_flight k then BkLastWait else BkLastReap)))
      else next BkDone
  | BkLastReap => if 0 <? bk_in_flight k then handle_cqe g else next BkLastWait
  | BkDone => Ok g
  end.

(** *** Kernel *)

(** [pwrite]: a gap behind the end of the file is filled with zeros. *)
Definition file_write (file : list byte) (off : nat) (data : list byte) : list byte :=
  take off file ++ replicate (off - length file) x00 ++ data ++ drop (off + length data) file.

(** The part of a write that the kernel leaves out when it writes [res] bytes. *)
Definition left_out (w : log_write) (res : Z) : list log_write :=
  if res <? lw_len w then [mkLogWrite (lw_buf w) (lw_fd w) (lw_len w - res) (lw_off w + res)] else [].

(** The kernel executes the [i]-th submitted write: all of it, or at
    most the given number of bytes (none when the write fails). *)
Definition kernel_step (g : Logger) (i : nat) (short : option Z) : result Logger :=
  let k := lg_backend g in
  match bk_kernel k !! i with
  | None => Ok g
  | Some w =>
      let res := Z.max 0 (Z.min (default (lw_len w) short) (lw_len w)) in
      b ← ptr_buf g (lw_buf w);
      file ← arr_get (bk_files k) (lw_fd w);
      files ← arr_set (bk_files k) (lw_fd w) (file_write file (Z.to_nat (lw_off w)) (mem_read (lb_buffer b) 0 res));
      Ok (lg_with_backend g (mkBackend (bk_pc k) (bk_today k) (bk_fd k) (bk_offset k) (bk_in_flight k) (bk_sq k)
            (delete i (bk_kernel k)) (bk_cq k ++ [lw_buf w]) files (bk_olds k) (bk_done k) (bk_lost k ++ left_out w res)))
  end.

(** *** Events *)
Inductive lg_event :=
  | EvLog (t : nat) (level : LogLevel) (ts_buf message : list byte) (born now : Z)
  | EvSetLevel (level : LogLevel)
  | EvThread (t : nat)
  | EvExit (t : nat)
  | EvDestroy
  | EvBackend (date : list byte) (opened : option (list byte))
  | EvKernel (i : nat) (short : option Z).

(** An event that is not possible changes nothing: only an idle thread calls
    [log] or ends.  Thread 0 is the main thread, which destroys the logger once,
    after its own [ThreadFlushGuard] if that has run. *)
Definition lg_step (g : Logger) (e : lg_event) : result Logger :=
  match e with
  | EvLog t level ts_buf message born now =>
      match lg_threads g !! t, Logger_log (lg_log_level g) level ts_buf message with
      | Some (mkLthread ts LpIdle acc as th), Some line => append_start g t th line born now
      | _, _ => Ok g
      end
  | EvSetLevel level =>
      Ok (mkLogger level (lg_threads g) (lg_flush_queue g) (lg_semaphore g) (lg_stop g) (lg_backend g) (lg_flushed g))
  | EvThread t => match lg_threads g !! t with Some th => thread_step g t th | None => Ok g end
  | EvExit t =>
      match lg_threads g !! t with Some (mkLthread _ LpIdle _ as th) => guard_start g t th | _ => Ok g end
  | EvDestroy =>
      match lg_threads g !! 0%nat with
      | Some (mkLthread _ LpIdle _ as th) => destroy_start g 0 th
      | Some (mkLthread _ LpExited _ as th) => if lg_stop g then Ok g else destroy_start g 0 th
      | _ => Ok g
      end
  | EvBackend date opened => backend_step g date opened
  | EvKernel i short => kernel_step g i short
  end.

Fixpoint lg_run (g : Logger) (es : list lg_event) : result Logger :=
  match es with [] => Ok g | e :: es => g ← lg_step g e; lg_run g es end.

Definition Logger_new (threads : nat) : Logger :=
  mkLogger LvDebug (replicate threads (mkLthread None LpIdle [])) (MPSCQueue_new FLUSH_QUEUE_CAPACITY (fun _ => 0)) 0
    false (mkBackend BkStart [] (-1) 0 0 [] [] [] [] [] [] []) [].
End logger.
