(* ===== verification/LogFront.v ===== *)
(** * LogFront: the logging macros of one thread

    Models the front end of include/util/log.hpp: [log_error] to [log_debug],
    the macros [LOG_ERROR] to [LOG_DEBUG] with their thread-local formatting
    buffer ([get_fmt_buf]), and [Logger::log] up to the line it hands to
    [append] (Logger.v).  Another thread may store a new level at any time, so
    the value of each load of [log_level_] is given by the environment; so are
    the strings of the timestamp cache and the texts [std::format_to]
    produces. *)
From S2P Require Import Prelude Logger.

(** One use of a macro: its level, the uses that run while its arguments are
    evaluated, in the order they run, and the text its arguments format to. *)
#[local] Unset Elimination Schemes.
Inductive log_use := LogUse (level : LogLevel) (nested : list log_use) (text : list byte).
#[local] Set Elimination Schemes.

Section induction.
Context (P : log_use → Prop) (HP : ∀ level nested text, Forall P nested → P (LogUse level nested text)).
Fixpoint log_use_ind (u : log_use) : P u :=
  match u with
  | LogUse level nested text =>
      HP level nested text ((fix go l := match l return Forall P l with [] => Forall_nil_2 _ | u :: l => Forall_cons_2 _ _ _ (log_use_ind u) (go l) end) nested)
  end.
End induction.

(** ** The code *)
Section front.
Context (levels : nat → LogLevel) (clock : nat → list byte).

(** The thread: how often it has read the level and the time, its formatting
    buffer, and the data of its calls of [append]. *)
Record front := mkFront {
  fr_loads : nat;
  fr_stamps : nat;
  fr_fmt_buf : list byte;
  fr_appended : list (list byte)
}.

Definition get_log_level (s : front) : LogLevel * front :=
  (levels (fr_loads s), mkFront (S (fr_loads s)) (fr_stamps s) (fr_fmt_buf s) (fr_appended s)).

Definition log (level : LogLevel) (message : list byte) (s : front) : front :=
  let '(threshold, s) := get_log_level s in
  if level_num level <? level_num threshold then s else
  let '(mkFront loads stamps buf appended) := s in
  match Logger_log threshold level (clock stamps) message with
  | None => mkFront loads (S stamps) buf appended
  | Some line => mkFront loads (S stamps) buf (appended ++ [line])
  end.

Definition log_error (message : list byte) : front → front := log LvError message.
Definition log_warning (message : list byte) : front → front := log LvWarning message.
Definition log_info (message : list byte) : front → front := log LvInfo message.
Definition log_debug (message : list byte) : front → front := log LvDebug message.

Definition fmt_clear (s : front) : front := mkFront (fr_loads s) (fr_stamps s) [] (fr_appended s).
Definition fmt_append (text : list byte) (s : front) : front :=
  mkFront (fr_loads s) (fr_stamps s) (fr_fmt_buf s ++ text) (fr_appended s).

(** The common shape of the macros. *)
Fixpoint log_macro (u : log_use) (s : front) : front :=
  match u with
  | LogUse level nested text =>
      let '(threshold, s) := get_log_level s in
      if level_num threshold <=? level_num level then
        let s := fmt_clear s in
        let s := (fix go us s := match us with [] => s | u :: us => go us (log_macro u s) end) nested s in
        let s := fmt_append text s in
        log level (fr_fmt_buf s) s
      else s
  end.

Definition LOG_ERROR nested text : front → front := log_macro (LogUse LvError nested text).
Definition LOG_WARNING nested text : front → front := log_macro (LogUse LvWarning nested text).
Definition LOG_INFO nested text : front → front := log_macro (LogUse LvInfo nested text).
Definition LOG_DEBUG nested text : front → front := log_macro (LogUse LvDebug nested text).

Definition log_macros (us : list log_use) (s : front) : front := fold_left (fun s u => log_macro u s) us s.

(** ** The specification: which messages are logged at a level *)
Context (threshold : LogLevel).

Definition enabled (level : LogLevel) : bool := level_num threshold <=? level_num level.

(** The message of a use: what the last enabled use among its arguments left
    in the buffer, then its own text. *)
Fixpoint message (u : log_use) : list byte :=
  match u with
  | LogUse _ nested text =>
      (fix go us acc := match us with
       | [] => acc
       | u :: us => go us (match u with LogUse l _ _ => if enabled l then message u else acc end)
       end) nested [] ++ text
  end.

Fixpoint messages (u : log_use) : list (LogLevel * list byte) :=
  match u with
  | LogUse level nested text =>
      if enabled level then
        (fix go us := match us with [] => [] | u :: us => messages u ++ go us end) nested ++ [(level, message u)]
      else []
  end.

(** The lines of messages, the first of them at the [k]-th reading of the
    time. *)
Fixpoint lines (k : nat) (ms : list (LogLevel * list byte)) : list (list byte) :=
  match ms with
  | [] => []
  | (l, m) :: ms => option_list (Logger_log threshold l (clock k) m) ++ lines (S k) ms
  end.

(** A use whose arguments log nothing. *)
Definition quiet_args (u : log_use) : Prop :=
  match u with LogUse _ nested _ => Forall (fun v => match v with LogUse l _ _ => enabled l = false end) nested end.

(** ** The macros implement it *)
Lemma lines_app k ms1 ms2 : lines k (ms1 ++ ms2) = lines k ms1 ++ lines (k + length ms1) ms2.
Proof.
  revert k. induction ms1 as [|[l m] ms1 IH]; intros k; simpl; [by rewrite Nat.add_0_r|].
  by rewrite IH, (assoc_L (++)), Nat.add_succ_comm.
Qed.

(** What the buffer holds after a use. *)
Definition left_over (acc : list byte) (u : log_use) : list byte :=
  match u with LogUse l _ _ => if enabled l then message u else acc end.

Lemma message_unfold level nested text : message (LogUse level nested text) = fold_left left_over nested [] ++ text.
Proof. done. Qed.

Lemma messages_unfold level nested text :
  messages (LogUse level nested text) =
  if enabled level then concat (messages <$> nested) ++ [(level, message (LogUse level nested text))] else [].
Proof. cbn [messages]. case_match; [|done]. f_equal. by induction nested as [|u us IH]; simpl; rewrite ?IH. Qed.

Lemma log_macro_unfold level nested text s :
  log_macro (LogUse level nested text) s =
  let '(threshold, s) := get_log_level s in
  if level_num threshold <=? level_num level then
    let s := fmt_append text (log_macros nested (fmt_clear s)) in log level (fr_fmt_buf s) s
  else s.
Proof.
  cbn [log_macro]. destruct (get_log_level s) as [thr s']. case_match; [|done].
  assert (E : ∀ us s, (fix go us s := match us with [] => s | u :: us => go us (log_macro u s) end) us s = log_macros us s).
  { induction us as [|u us IH]; intros s2; [done|]. apply IH. }
  by rewrite E.
Qed.

Context (Hlevels : ∀ k, levels k = threshold).

(** A run that logged [ms] and left [buf] in the buffer. *)
Record ran (s : front) (ms : list (LogLevel * list byte)) (buf : list byte) (s' : front) : Prop := {
  ra_stamps : fr_stamps s' = (fr_stamps s + length ms)%nat;
  ra_buf : fr_fmt_buf s' = buf;
  ra_appended : fr_appended s' = fr_appended s ++ lines (fr_stamps s) ms
}.

Lemma ran_trans s1 s2 s3 ms1 ms2 buf1 buf2 : ran s1 ms1 buf1 s2 → ran s2 ms2 buf2 s3 → ran s1 (ms1 ++ ms2) buf2 s3.
Proof.
  intros [] []. split; [|done|].
  - rewrite length_app. lia.
  - rewrite ra_appended1, ra_appended0, ra_stamps0, lines_app. by rewrite <- (assoc_L (++)).
Qed.

Lemma log_ran level m s : enabled level = true → ran s [(level, m)] (fr_fmt_buf s) (log level m s).
Proof.
  unfold enabled. intros H. unfold log, get_log_level. rewrite Hlevels. bools. rewrite (proj2 (Z.ltb_ge _ _)) by lia.
  destruct s as [a b c d]. simpl. destruct (Logger_log threshold level (clock b) m) eqn:E; split; simpl; rewrite ?E; try done; try lia.
  by rewrite app_nil_r.
Qed.

Lemma log_macro_ran u s : ran s (messages u) (left_over (fr_fmt_buf s) u) (log_macro u s).
Proof.
  revert s. induction u as [level nested text IH] using log_use_ind; intros s.
  rewrite log_macro_unfold, messages_unfold. unfold get_log_level, left_over, enabled at 1 2. rewrite Hlevels.
  destruct (level_num threshold <=? level_num level) eqn:E; [|split; simpl; rewrite ?Nat.add_0_r, ?app_nil_r; done].
  assert (H : ∀ s, ran s (concat (messages <$> nested)) (fold_left left_over nested (fr_fmt_buf s)) (log_macros nested s)).
  { clear -IH. induction IH as [|u us Hu _ IH]; intros s; [split; simpl; rewrite ?Nat.add_0_r, ?app_nil_r; done|].
    simpl. eapply ran_trans; [apply Hu|]. rewrite <- (ra_buf _ _ _ _ (Hu s)). apply IH. }
  set (s0 := mkFront _ _ _ _). destruct (H (fmt_clear s0)) as [H1 H2 H3]. set (s1 := log_macros nested _) in *.
  cbn zeta. eapply (ran_trans s (fmt_append text s1)); [by split|]. rewrite message_unfold. simpl in H2. rewrite <- H2.
  apply (log_ran level (fr_fmt_buf (fmt_append text s1)) (fmt_append text s1) E).
Qed.

Lemma log_macros_ran us : ∀ s, ran s (concat (messages <$> us)) (fold_left left_over us (fr_fmt_buf s)) (log_macros us s).
Proof.
  induction us as [|u us IH]; intros s; [split; simpl; rewrite ?Nat.add_0_r, ?app_nil_r; done|].
  simpl. eapply ran_trans; [apply log_macro_ran|]. rewrite <- (ra_buf _ _ _ _ (log_macro_ran u s)). apply IH.
Qed.

Lemma quiet_message u : quiet_args u → messages u = match u with LogUse l _ text => if enabled l then [(l, text)] else [] end.
Proof.
  destruct u as [level nested text]. simpl quiet_args. intros H. rewrite messages_unfold, message_unfold. case_match; [|done].
  assert (concat (messages <$> nested) = [] ∧ ∀ acc, fold_left left_over nested acc = acc) as [-> ->]; [|done].
  induction H as [|[l ns t] us Hu _ [IH1 IH2]]; [done|]. split.
  - rewrite fmap_cons, messages_unfold, Hu. exact IH1.
  - intros acc. cbn [fold_left left_over]. rewrite Hu. apply IH2.
Qed.

End front.

(** C36. The logging macros at a fixed level: whatever the uses, and whatever
    uses are nested in their arguments, exactly the enabled ones reach
    [append], inner ones before outer ones, each as the line of its message,
    and the arguments of a use below the level are not evaluated.  A use whose
    arguments log nothing has its own text as the message, so the shared
    formatting buffer is invisible; otherwise the text of the last use nested
    in the arguments precedes it. *)
Theorem log_macros_lines levels clock threshold us s :
  (∀ k, levels k = threshold) →
  fr_appended (log_macros levels clock us s) =
    fr_appended s ++ lines clock threshold (fr_stamps s) (concat (messages threshold <$> us)) ∧
  (Forall (quiet_args threshold) us →
     concat (messages threshold <$> us) =
     concat ((fun u => match u with LogUse l _ text => if enabled threshold l then [(l, text)] else [] end) <$> us)).
Proof.
  intros Hl. split; [apply (log_macros_ran levels clock threshold Hl us s)|].
  intros H. f_equal. induction H as [|u us Hu _ IH]; [done|]. rewrite !fmap_cons, IH. f_equal. by apply quiet_message.
Qed.

(** A warning, an information message below the level, and an error whose
    argument logs a warning: its line repeats the text of the warning. *)
Lemma log_macros_lines_witness :
  fr_appended (log_macros (fun _ => LvWarning) (fun _ => [x74; x00])
    [LogUse LvWarning [] [x61]; LogUse LvInfo [LogUse LvError [] [x7a]] [x62]; LogUse LvError [LogUse LvWarning [] [x63]] [x64]]
    (mkFront 0 0 [] [])) =
  [log_text [x74; x00] LvWarning [x61]; log_text [x74; x00] LvWarning [x63]; log_text [x74; x00] LvError [x63; x64]].
Proof. rewrite (proj1 (log_macros_lines _ _ LvWarning _ _ (fun _ => eq_refl))). vm_compute. reflexivity. Defined.
