(* ===== verification/LoggerInv.v ===== *)
(** * LoggerInv: what the logger guarantees

    The invariant of the system of Logger.v, in three parts: the threads and
    their two buffers, the backend with its ring, and the files.  A buffer is
    either its thread's or on its way through queue, ring and kernel; the
    threads' part only depends on which buffers are on the way, the backend's
    only on the contents of these, so each step is checked on its own side. *)
From Stdlib Require Import Permutation.
From S2P Require Import Prelude MpscQueue Logger.

(** ** Pointers *)
Lemma ptr_thread_ptr t i : 0 ≤ i < 2 → ptr_thread (buf_ptr t i) = t.
Proof.
  intros. unfold ptr_thread, buf_ptr. rewrite Z.mul_comm, Z.div_add_l, Z.div_small by lia. lia.
Qed.
Lemma ptr_idx_ptr t i : 0 ≤ i < 2 → ptr_idx (buf_ptr t i) = i.
Proof. intros. unfold ptr_idx, buf_ptr. rewrite Z.add_comm, Z.mul_comm, Z.mod_add, Z.mod_small; lia. Qed.
Lemma buf_ptr_inj t i t' i' : 0 ≤ i < 2 → 0 ≤ i' < 2 → buf_ptr t i = buf_ptr t' i' → t = t' ∧ i = i'.
Proof.
  intros Hi Hi' E. split; [rewrite <- (ptr_thread_ptr t i), <- (ptr_thread_ptr t' i'), E by done; done|].
  rewrite <- (ptr_idx_ptr t i), <- (ptr_idx_ptr t' i'), E by done. done.
Qed.

(** ** The two buffers of a thread *)

(** The bytes a buffer holds. *)
Definition content (b : LoggerBuffer) : list byte := mem_read (lb_buffer b) 0 (lb_current_size b).

(** [w] is the index in use, [f] the buffer there, [k] the other one. *)
Definition ts_rep (ts : ThreadState) (w : Z) (f k : LoggerBuffer) : Prop :=
  th_write_idx ts = w ∧ ((w = 0 ∧ th_bufs ts = [f; k]) ∨ (w = 1 ∧ th_bufs ts = [k; f])).

Lemma ts_rep_idx ts w f k : ts_rep ts w f k → 0 ≤ w < 2 ∧ 0 ≤ 1 - w < 2 ∧ w ≠ 1 - w.
Proof. intros [_ [[-> _]|[-> _]]]; lia. Qed.
Lemma ts_rep_front ts w f k : ts_rep ts w f k → th_buf ts (th_write_idx ts) = Ok f.
Proof. intros [-> [[-> H]|[-> H]]]; unfold th_buf; by rewrite H. Qed.
Lemma ts_rep_back ts w f k : ts_rep ts w f k → th_buf ts (1 - th_write_idx ts) = Ok k.
Proof. intros [-> [[-> H]|[-> H]]]; unfold th_buf; by rewrite H. Qed.
Lemma ts_rep_upd_front ts w f k h :
  ts_rep ts w f k → ∃ ts', th_upd ts (th_write_idx ts) h = Ok ts' ∧ ts_rep ts' w (h f) k ∧
    th_last_flush_time ts' = th_last_flush_time ts.
Proof.
  intros [E [[-> H]|[-> H]]]; unfold th_upd; rewrite H, E; eexists; (split; [reflexivity|]);
    (split; [split; [done|]|done]); [by left|by right].
Qed.
Lemma ts_rep_upd_back ts w f k h :
  ts_rep ts w f k → ∃ ts', th_upd ts (1 - w) h = Ok ts' ∧ ts_rep ts' w f (h k).
Proof.
  intros [E [[-> H]|[-> H]]]; unfold th_upd; rewrite H; eexists; (split; [reflexivity|]); (split; [done|]);
    [by left|by right].
Qed.
Lemma ts_rep_swap ts w f k now : ts_rep ts w f k → ts_rep (mkThreadState (th_bufs ts) (1 - th_write_idx ts) now) (1 - w) k f.
Proof. intros [-> [[-> H]|[-> H]]]; (split; [done|]); [by right|by left]. Qed.
Lemma ts_rep_lookup ts w f k i b :
  ts_rep ts w f k → 0 ≤ i < 2 → th_buf ts i = Ok b → (i = w ∧ b = f) ∨ (i = 1 - w ∧ b = k).
Proof.
  intros [_ H] Hi Hb. assert (i = 0 ∨ i = 1) as [-> | ->] by lia; destruct H as [[-> H]|[-> H]];
    unfold th_buf in Hb; rewrite H in Hb; vm_compute in Hb; injection Hb as <-; auto.
Qed.

Section inv.
Context (BS : Z) (junk : nat → byte) (HBS : line_size ≤ BS < 2 ^ 32).

Definition wf_buf (b : LoggerBuffer) : Prop :=
  Z.of_nat (length (lb_buffer b)) = BS ∧ 0 ≤ lb_current_size b ≤ BS.

Lemma content_length b : wf_buf b → Z.of_nat (length (content b)) = lb_current_size b.
Proof. intros [? ?]. apply mem_read_length; lia. Qed.
Lemma content_empty b : wf_buf b → lb_current_size b = 0 → content b = [].
Proof. intros _ E. unfold content. by rewrite E. Qed.

(** The bytes thread [t] has handed over. *)
Definition thread_bytes (t : nat) (fl : list (Z * list byte)) : list byte :=
  concat (filter (fun e => ptr_thread e.1 = t) fl).*2.

Lemma thread_bytes_snoc t fl p c :
  thread_bytes t (fl ++ [(p, c)]) = thread_bytes t fl ++ if decide (ptr_thread p = t) then c else [].
Proof.
  unfold thread_bytes. rewrite filter_app, fmap_app, concat_app. f_equal.
  case_decide as E; [rewrite filter_cons_True by done; simpl; by rewrite app_nil_r|by rewrite filter_cons_False].
Qed.

(** *** Threads

    [W] lists the buffers on their way through queue, ring and kernel. *)

(** The buffer in use is the thread's, and what it holds is what is missing of
    the accepted bytes. *)
Definition in_use (pc : log_pc) : bool :=
  match pc with
  | LpIdle | LpCheck _ _ _ | LpFlag _ _ _ | LpEnqueue _ _ _ | LpCopy _
  | GdCheck | GdFlag | GdEnqueue | DsWaitBack | DsFlag | DsEnqueue => true
  | _ => false
  end.
(** The other buffer was seen to be back. *)
Definition other_back (pc : log_pc) : bool :=
  match pc with
  | LpFlag _ _ _ | LpEnqueue _ _ _ | LpRelease _ _ | GdFlag | GdEnqueue | DsFlag | DsEnqueue => true
  | _ => false
  end.
(** The next step puts the buffer in use in the queue. *)
Definition enqueuing (pc : log_pc) : bool :=
  match pc with LpEnqueue _ _ _ | GdEnqueue | DsEnqueue => true | _ => false end.
(** It was put there. *)
Definition enqueued (pc : log_pc) : bool :=
  match pc with LpRelease _ _ | GdRelease | DsRelease => true | _ => false end.
Definition destroying (pc : log_pc) : bool :=
  match pc with
  | DsWaitBack | DsFlag | DsEnqueue | DsRelease | DsStop | DsWake | DsJoin => true
  | _ => false
  end.
Definition no_state_pc (pc : log_pc) : bool :=
  match pc with LpIdle | DsStop | DsWake | DsJoin | LpExited => true | _ => false end.

(** The room the pending copy of a call has. *)
Definition data_fits (f : LoggerBuffer) (pc : log_pc) : Prop :=
  match pc with
  | LpCheck data is_full _ | LpFlag data is_full _ | LpEnqueue data is_full _ =>
      Z.of_nat (length data) ≤ BS ∧ (is_full = false → lb_current_size f + Z.of_nat (length data) ≤ BS)
  | LpRelease data _ => Z.of_nat (length data) ≤ BS
  | LpCopy data => lb_current_size f + Z.of_nat (length data) ≤ BS
  | LpUnflag _ _ | GdUnflag | LpExited => False
  | GdWait i => i = 0 ∨ i = 1
  | _ => True
  end.

#[local] Set Implicit Arguments.
Record state_ok (W : list Z) (fl : list (Z * list byte)) (t : nat) (ts : ThreadState) (pc : log_pc) (acc : list byte)
    (w : Z) (f k : LoggerBuffer) : Prop := {
  so_rep : ts_rep ts w f k;
  so_front : wf_buf f;
  so_back : wf_buf k;
  so_front_flag : buf_ptr t w ∈ W → lb_in_flight f = true;
  so_back_flag : buf_ptr t (1 - w) ∈ W → lb_in_flight k = true;
  so_one : buf_ptr t w ∈ W → buf_ptr t (1 - w) ∉ W;
  so_back_empty : buf_ptr t (1 - w) ∉ W → lb_current_size k = 0;
  so_other_back : other_back pc = true → buf_ptr t (1 - w) ∉ W;
  so_in_use : in_use pc = true → (buf_ptr t w ∉ W) ∧ acc = thread_bytes t fl ++ content f;
  so_release data now : pc = LpRelease data now →
    acc = thread_bytes t fl ∧ (buf_ptr t w ∉ W → lb_current_size f = 0);
  so_flagged : enqueuing pc = true → lb_in_flight f = true;
  so_wait_1 : pc = GdWait 1 → buf_ptr t 0 ∉ W;
  so_data : data_fits f pc
}.
#[local] Unset Implicit Arguments.
Arguments so_release {_ _ _ _ _ _ _ _ _} _ _ _.

Definition thread_ok (W : list Z) (fl : list (Z * list byte)) (t : nat) (th : lthread) : Prop :=
  thread_bytes t fl `prefix_of` lt_accepted th ∧
  match lt_ts th with
  | None => no_state_pc (lt_pc th) = true ∧ (lt_pc th = LpIdle → lt_accepted th = thread_bytes t fl) ∧
      (buf_ptr t 0 ∉ W) ∧ buf_ptr t 1 ∉ W
  | Some ts => ∃ w f k, state_ok W fl t ts (lt_pc th) (lt_accepted th) w f k
  end ∧
  (destroying (lt_pc th) = true → t = 0%nat).

Lemma thread_ok_frame W W' fl fl' t th :
  (∀ i, 0 ≤ i < 2 → buf_ptr t i ∈ W' ↔ buf_ptr t i ∈ W) → thread_bytes t fl' = thread_bytes t fl →
  thread_ok W fl t th → thread_ok W' fl' t th.
Proof.
  intros HW Hfl (Hp & Hs & Hd). unfold thread_ok. rewrite Hfl. split_and!; [done| |done].
  destruct (lt_ts th) as [ts|].
  - destruct Hs as (w & f & k & []). pose proof (ts_rep_idx _ _ _ _ so_rep0) as (? & ? & ?).
    exists w, f, k. split; rewrite ?Hfl, ?HW by lia; try done.
    intros. rewrite HW by lia. eauto.
  - by rewrite !HW by lia.
Qed.

(** *** Backend *)

(** The buffer the backend has in hand. *)
Definition held_ptr (pc : back_pc) : list Z := match pc with BkSubmitBuf p _ => [p] | _ => [] end.
(** Writes that are not executed yet. *)
Definition pending (k : backend) : list log_write := bk_sq k ++ bk_kernel k.
(** The buffers on their way. *)
Definition on_way (k : backend) (l : list Z) : list Z :=
  l ++ held_ptr (bk_pc k) ++ (lw_buf <$> pending k) ++ bk_cq k.

(** What a position of the backend implies. *)
Definition back_pc_ok (k : backend) : Prop :=
  match bk_pc k with
  | BkStart | BkOpen _ | BkDone => bk_in_flight k = 0
  | BkSwitchReap | BkLastReap => pending k = []
  | _ => True
  end.
(** Reached only after a stop request; past the last dequeue. *)
Definition late_pc (pc : back_pc) : bool :=
  match pc with
  | BkDequeue true | BkSubmitBuf _ true | BkSubmit true | BkLastWait | BkLastReap | BkDone => true
  | _ => false
  end.
Definition past_pc (pc : back_pc) : bool :=
  match pc with BkSubmit true | BkLastWait | BkLastReap | BkDone => true | _ => false end.
Definition stop_pc (stop : bool) (pc : log_pc) : bool :=
  match pc with DsWake | DsJoin => stop | LpExited => true | _ => negb stop end.

(** [held] and [queued]: the buffers dequeued but not dealt with, and those in
    the queue. *)
#[local] Set Implicit Arguments.
Record back_ok (g : Logger) (h : nat) (held queued : list (Z * list byte)) : Prop := {
  bo_queue : mq_rep FLUSH_QUEUE_CAPACITY h (lg_flush_queue g) queued.*1;
  bo_flushed : lg_flushed g = (bk_done (lg_backend g)).*2 ++ held ++ queued;
  bo_held : held.*1 = held_ptr (bk_pc (lg_backend g));
  bo_content p c : (p, c) ∈ held ++ queued → ∃ b, ptr_buf g p = Ok b ∧ content b = c;
  bo_count : bk_in_flight (lg_backend g) =
    Z.of_nat (length (pending (lg_backend g)) + length (bk_cq (lg_backend g)));
  bo_writes w : w ∈ pending (lg_backend g) →
    lw_fd w = bk_fd (lg_backend g) ∧ 0 ≤ lw_fd w ∧
    ∃ b, ptr_buf g (lw_buf w) = Ok b ∧ lw_len w = lb_current_size b ∧ 0 ≤ lw_len w;
  bo_pc : back_pc_ok (lg_backend g);
  bo_files : length (bk_files (lg_backend g)) = length (bk_olds (lg_backend g));
  bo_fd : bk_fd (lg_backend g) < Z.of_nat (length (bk_files (lg_backend g)));
  bo_done e : e ∈ bk_done (lg_backend g) → e.1 < Z.of_nat (length (bk_files (lg_backend g)));
  bo_late : late_pc (bk_pc (lg_backend g)) = true → lg_stop g = true;
  bo_past : past_pc (bk_pc (lg_backend g)) = true → ∀ p, p ∈ queued.*1 → ptr_thread p ≠ 0%nat
}.
#[local] Unset Implicit Arguments.
Arguments bo_content {_ _ _ _} _ _ _.
Arguments bo_writes {_ _ _ _} _ _.
Arguments bo_done {_ _ _ _} _ _.

(** *** Files *)

(** What file [f] will hold when all writes are executed. *)
Definition file_entries (k : backend) (f : nat) : list (list byte) :=
  (filter (fun e => e.1 = Z.of_nat f) (bk_done k)).*2.*2.
Definition expected (k : backend) (f : nat) (old : list byte) : list byte := old ++ concat (file_entries k f).
Definition bounded (k : backend) : Prop :=
  ∀ f old, bk_olds k !! f = Some old → Z.of_nat (length (expected k f old)) < 2 ^ 64.

Definition covers (w : log_write) (f i : nat) : Prop :=
  lw_fd w = Z.of_nat f ∧ lw_off w ≤ Z.of_nat i < lw_off w + lw_len w.

(** The writes not executed yet, and what the executed ones left out. *)
Definition unwritten (k : backend) : list log_write := pending k ++ bk_lost k.

Record files_ok (g : Logger) : Prop := {
  fo_offset old : 0 ≤ bk_fd (lg_backend g) → bk_olds (lg_backend g) !! Z.to_nat (bk_fd (lg_backend g)) = Some old →
    bk_offset (lg_backend g) = Z.of_nat (length (expected (lg_backend g) (Z.to_nat (bk_fd (lg_backend g))) old));
  fo_slice w old b : w ∈ pending (lg_backend g) → bk_olds (lg_backend g) !! Z.to_nat (lw_fd w) = Some old →
    ptr_buf g (lw_buf w) = Ok b →
    0 ≤ lw_off w ∧ mem_read (expected (lg_backend g) (Z.to_nat (lw_fd w)) old) (lw_off w) (lw_len w) = content b ∧
    lw_off w + lw_len w ≤ Z.of_nat (length (expected (lg_backend g) (Z.to_nat (lw_fd w)) old));
  fo_cells f old file : bk_olds (lg_backend g) !! f = Some old → bk_files (lg_backend g) !! f = Some file →
    (length file ≤ length (expected (lg_backend g) f old))%nat ∧
    ∀ i, (i < length (expected (lg_backend g) f old))%nat →
      (∃ w, w ∈ unwritten (lg_backend g) ∧ covers w f i) ∨ file !! i = expected (lg_backend g) f old !! i
}.

#[local] Set Implicit Arguments.
Record lg_inv (m : nat) (g : Logger) (h : nat) (held queued : list (Z * list byte)) : Prop := {
  li_threads t th : lg_threads g !! t = Some th → thread_ok (on_way (lg_backend g) queued.*1) (lg_flushed g) t th;
  li_few : (length (lg_threads g) ≤ 64)%nat;
  li_valid p : p ∈ on_way (lg_backend g) queued.*1 →
    ∃ t i, p = buf_ptr t i ∧ 0 ≤ i < 2 ∧ (t < length (lg_threads g))%nat;
  li_nodup : NoDup (on_way (lg_backend g) queued.*1);
  li_back : back_ok g h held queued;
  li_steps : (h ≤ m)%nat;
  li_stop th : lg_threads g !! 0%nat = Some th → stop_pc (lg_stop g) (lt_pc th) = true;
  li_stop_0 : lg_stop g = true → is_Some (lg_threads g !! 0%nat);
  li_files : bounded (lg_backend g) → files_ok g
}.
#[local] Unset Implicit Arguments.
Arguments li_threads {_ _ _ _ _} _ _ _.
Arguments li_valid {_ _ _ _ _} _ _.
Arguments li_stop {_ _ _ _ _} _ _.

(** At most one buffer of a thread is on its way, so there are at most as many
    as threads. *)
Lemma on_way_one m g h held queued t :
  lg_inv m g h held queued → buf_ptr t 0 ∈ on_way (lg_backend g) queued.*1 →
  buf_ptr t 1 ∉ on_way (lg_backend g) queued.*1.
Proof.
  intros H H0 H1. destruct (li_valid H _ H0) as (t' & i & E & Hi & Ht).
  apply buf_ptr_inj in E as [<- _]; [|lia..].
  destruct (lookup_lt_is_Some_2 _ _ Ht) as [th Hth]. destruct (li_threads H _ _ Hth) as (_ & Hs & _).
  destruct (lt_ts th); [|by destruct Hs as (_ & _ & ? & _)]. destruct Hs as (w & f & k & Hok).
  pose proof (so_one Hok) as Ho. destruct (so_rep Hok) as [_ [[-> _]|[-> _]]];
    [exact (Ho H0 H1)|exact (Ho H1 H0)].
Qed.

Lemma on_way_few m g h held queued :
  lg_inv m g h held queued → (length (on_way (lg_backend g) queued.*1) ≤ length (lg_threads g))%nat.
Proof.
  intros H. set (W := on_way _ _) in *.
  assert (Hnd : NoDup (ptr_thread <$> W)).
  { apply NoDup_fmap_2_strong; [|apply (li_nodup H)]. intros p q Hp Hq E.
    pose proof (fun t => on_way_one _ _ _ _ _ t H) as Hone.
    destruct (li_valid H _ Hp) as (t & i & -> & Hi & _). destruct (li_valid H _ Hq) as (t' & j & -> & Hj & _).
    rewrite !ptr_thread_ptr in E by done. subst t'. destruct (decide (i = j)) as [->|]; [done|].
    assert ((i = 0 ∧ j = 1) ∨ (i = 1 ∧ j = 0)) as [[-> ->]|[-> ->]] by lia; exfalso; eapply Hone; eauto. }
  rewrite <- (length_fmap ptr_thread W).
  trans (length (seq 0 (length (lg_threads g)))); [|by rewrite length_seq].
  apply submseteq_length, NoDup_submseteq; [done|]. intros t (p & -> & Hp)%list_elem_of_fmap.
  destruct (li_valid H _ Hp) as (t & i & -> & Hi & Ht). rewrite ptr_thread_ptr by done.
  apply elem_of_seq. lia.
Qed.

(** *** Steps of a thread *)
Definition thread_buf (th : lthread) (i : Z) : result LoggerBuffer :=
  match lt_ts th with Some ts => th_buf ts i | None => Fault NullDereference end.

Lemma ptr_buf_thread g t i th :
  0 ≤ i < 2 → lg_threads g !! t = Some th → ptr_buf g (buf_ptr t i) = thread_buf th i.
Proof.
  intros Hi Hth. unfold ptr_buf. rewrite ptr_thread_ptr, ptr_idx_ptr, Hth by done. by destruct th as [[]].
Qed.

Lemma pending_on_way k l w : w ∈ pending k → lw_buf w ∈ on_way k l.
Proof.
  intros Hw. unfold on_way. rewrite !elem_of_app. right. right. left. apply list_elem_of_fmap. by exists w.
Qed.

(** The backend's part only reads the buffers on their way. *)
Lemma back_ok_frame g g' h held queued :
  back_ok g h held queued → (∀ p, p ∈ on_way (lg_backend g) queued.*1 → ptr_buf g' p = ptr_buf g p) →
  lg_flush_queue g' = lg_flush_queue g → lg_backend g' = lg_backend g → lg_flushed g' = lg_flushed g →
  (lg_stop g = true → lg_stop g' = true) →
  back_ok g' h held queued ∧ (files_ok g → files_ok g').
Proof.
  intros [] Hb Eq Ek Ef Hs.
  assert (Hw : ∀ w, w ∈ pending (lg_backend g) → ptr_buf g' (lw_buf w) = ptr_buf g (lw_buf w)).
  { intros w Hw. by apply Hb, pending_on_way. }
  split.
  - split; rewrite ?Eq, ?Ek, ?Ef; try done.
    + intros p c Hpc. destruct (bo_content0 _ _ Hpc) as (b & Hpb & Hc). exists b. split; [|done].
      rewrite Hb; [done|]. unfold on_way. rewrite <- bo_held0, app_assoc, (Permutation_app_comm queued.*1), elem_of_app.
      left. rewrite <- fmap_app. apply list_elem_of_fmap. by exists (p, c).
    + intros w Hw'. rewrite (Hw w Hw'). auto.
    + auto.
  - intros [Ho Hsl Hc]. split; rewrite ?Ek; [done| |done].
    intros w old b Hw' Hold Hpb. rewrite (Hw w Hw') in Hpb. eauto.
Qed.

Lemma thread_step_frame m g g' h held queued t th th' :
  lg_inv m g h held queued → lg_threads g !! t = Some th →
  lg_threads g' = <[t := th']> (lg_threads g) → lg_flush_queue g' = lg_flush_queue g →
  lg_backend g' = lg_backend g → lg_flushed g' = lg_flushed g →
  (lg_stop g = true → lg_stop g' = true) → (t ≠ 0%nat → lg_stop g' = lg_stop g) →
  (t = 0%nat → stop_pc (lg_stop g') (lt_pc th') = true) →
  thread_ok (on_way (lg_backend g) queued.*1) (lg_flushed g) t th' →
  (∀ i, 0 ≤ i < 2 → buf_ptr t i ∈ on_way (lg_backend g) queued.*1 → thread_buf th' i = thread_buf th i) →
  lg_inv (S m) g' h held queued.
Proof.
  intros H Hth Et Eq Ek Ef Hs1 Hs2 Hs3 Hok Hbuf. pose proof (lookup_lt_Some _ _ _ Hth) as Hlt.
  destruct (back_ok_frame g g' h held queued) as [Hbo Hfo]; [apply (li_back H)| |done..|].
  { intros p Hp. destruct (li_valid H _ Hp) as (t' & i & -> & Hi & Ht').
    destruct (decide (t = t')) as [<-|Hne].
    - rewrite (ptr_buf_thread g t i th Hi Hth), (ptr_buf_thread g' t i th'); [auto|done|].
      rewrite Et. by apply list_lookup_insert_eq.
    - destruct (lookup_lt_is_Some_2 _ _ Ht') as [th2 Hth2].
      rewrite (ptr_buf_thread g t' i th2), (ptr_buf_thread g' t' i th2); [done|done| |done|done].
      rewrite Et. by rewrite list_lookup_insert_ne. }
  split; rewrite ?Ek, ?Ef.
  - intros t' th2. rewrite Et. intros [[-> [<- _]]|[_ Hth2]]%list_lookup_insert_Some; [done|].
    exact (li_threads H _ _ Hth2).
  - rewrite Et, length_insert. apply (li_few H).
  - rewrite Et, length_insert. apply (li_valid H).
  - apply (li_nodup H).
  - done.
  - pose proof (li_steps H). lia.
  - intros th0. rewrite Et. intros [[-> [<- _]]|[Hne Hth0]]%list_lookup_insert_Some; [auto|].
    rewrite Hs2 by done. exact (li_stop H _ Hth0).
  - intros Hs. rewrite Et. apply lookup_lt_is_Some_2. rewrite length_insert.
    destruct (decide (t = 0%nat)) as [->|Hne]; [done|]. rewrite Hs2 in Hs by done.
    apply lookup_lt_is_Some. exact (li_stop_0 H Hs).
  - intros Hb. apply Hfo. exact (li_files H Hb).
Qed.

(** Putting the buffer in use in the queue. *)
Lemma on_way_snoc_perm k l p : on_way k (l ++ [p]) ≡ₚ on_way k l ++ [p].
Proof. unfold on_way. rewrite <- app_assoc, (Permutation_app_comm [p]). by rewrite app_assoc. Qed.
Lemma on_way_snoc k l p q : q ∈ on_way k (l ++ [p]) ↔ q ∈ on_way k l ∨ q = p.
Proof. unfold on_way. rewrite !elem_of_app, list_elem_of_singleton. tauto. Qed.

Lemma thread_ok_enqueued W W' fl t th ts pc' w f k :
  state_ok W fl t ts (lt_pc th) (lt_accepted th) w f k → enqueuing (lt_pc th) = true → enqueued pc' = true →
  (destroying pc' = true → t = 0%nat) → data_fits f pc' →
  (∀ q, q ∈ W' ↔ q ∈ W ∨ q = buf_ptr t w) →
  thread_ok W' (fl ++ [(buf_ptr t w, content f)]) t (mkLthread (Some ts) pc' (lt_accepted th)).
Proof.
  intros [] He He' Hd Hfits HW. pose proof (ts_rep_idx _ _ _ _ so_rep0) as (Hw & Hw' & Hne).
  assert (Hu : in_use (lt_pc th) = true ∧ other_back (lt_pc th) = true) by (destruct (lt_pc th); done).
  destruct Hu as [Hu Hob]. destruct (so_in_use0 Hu) as [Hfw Hacc].
  assert (Hkp : buf_ptr t (1 - w) ∉ W').
  { rewrite HW. intros [Hin|E]; [by apply so_other_back0|]. by apply buf_ptr_inj in E as [_ ?]. }
  assert (Hbytes : lt_accepted th = thread_bytes t (fl ++ [(buf_ptr t w, content f)])).
  { rewrite thread_bytes_snoc, decide_True by (by rewrite ptr_thread_ptr). done. }
  unfold thread_ok. cbn [lt_pc lt_ts lt_accepted]. rewrite <- Hbytes. split_and!; [done| |done].
  exists w, f, k. split; try done.
  - auto.
  - intros _. apply so_back_empty0. rewrite HW in Hkp. tauto.
  - by destruct pc'.
  - intros data now _. split; [done|]. rewrite HW. tauto.
  - by destruct pc'.
  - intros ->. done.
Qed.

(** The backend's view of a buffer put in the queue. *)
Lemma back_ok_enqueue g g' h held queued p b q' :
  back_ok g h held queued → mq_rep FLUSH_QUEUE_CAPACITY h q' (queued.*1 ++ [p]) → ptr_buf g p = Ok b →
  (∀ q, ptr_buf g' q = ptr_buf g q) → lg_flush_queue g' = q' → lg_flushed g' = lg_flushed g ++ [(p, content b)] →
  lg_backend g' = lg_backend g → lg_stop g' = lg_stop g → (lg_stop g = true → ptr_thread p ≠ 0%nat) →
  back_ok g' h held (queued ++ [(p, content b)]).
Proof.
  intros [] Hq Hb Hpb Eq Ef Ek Es Hst. split; rewrite ?Eq, ?Ef, ?Ek, ?Es; try done.
  - by rewrite fmap_app.
  - by rewrite bo_flushed0, !app_assoc.
  - intros q c. rewrite app_assoc, elem_of_app, Hpb. intros [Hpc|Hpc%list_elem_of_singleton]; [auto|].
    injection Hpc as -> ->. by exists b.
  - intros w0 Hw0. rewrite Hpb. auto.
  - intros Hpast q. rewrite fmap_app, elem_of_app. intros [Hp|Hp%list_elem_of_singleton]; [auto|]. simpl in Hp. subst q.
    apply Hst, bo_late0. by destruct (bk_pc (lg_backend g)) as [| | | | | |[]|? []|[]| | | | |].
Qed.

(** The queue has room for a buffer of every thread. *)
Lemma enqueue_room m g h held queued p :
  lg_inv m g h held queued → Z.of_nat m + 256 < 2 ^ 63 →
  ∃ q', MPSCQueue_enqueue FLUSH_QUEUE_CAPACITY (lg_flush_queue g) p = Ok (q', true) ∧
    mq_rep FLUSH_QUEUE_CAPACITY h q' (queued.*1 ++ [p]).
Proof.
  intros H Hm. pose proof (on_way_few _ _ _ _ _ H) as Hfew. pose proof (li_few H) as H64.
  assert (Hl : (length queued.*1 < 128)%nat) by (unfold on_way in Hfew; rewrite length_app in Hfew; lia).
  destruct (enqueue_alone_spec 7 ltac:(lia) FLUSH_QUEUE_CAPACITY eq_refl h (lg_flush_queue g) queued.*1 p) as (q' & Hq & Hrep).
  { apply (bo_queue (li_back H)). }
  { pose proof (li_steps H). unfold FLUSH_QUEUE_CAPACITY. lia. }
  rewrite bool_decide_eq_true_2 in Hq, Hrep by (unfold FLUSH_QUEUE_CAPACITY; lia). by exists q'.
Qed.

Lemma enqueue_front_ok m g h held queued t th ts w f k :
  lg_inv m g h held queued → lg_threads g !! t = Some th → lt_ts th = Some ts → Z.of_nat m + 256 < 2 ^ 63 →
  state_ok (on_way (lg_backend g) queued.*1) (lg_flushed g) t ts (lt_pc th) (lt_accepted th) w f k →
  enqueuing (lt_pc th) = true →
  ∃ g', enqueue_front g t ts = Ok (g', true) ∧ lg_semaphore g' = lg_semaphore g ∧
    ∀ pc', enqueued pc' = true → (destroying pc' = true → t = 0%nat) → data_fits f pc' →
      ∃ queued', lg_inv (S m) (set_thread g' t (mkLthread (Some ts) pc' (lt_accepted th))) h held queued'.
Proof.
  intros H Hth Ets Hm Hok He. pose proof (li_few H) as H64. pose proof (li_back H) as Hbk. pose proof (lookup_lt_Some _ _ _ Hth) as Hlt.
  pose proof (so_rep Hok) as Hrep. pose proof (ts_rep_idx _ _ _ _ Hrep) as (Hw & _ & _).
  destruct (so_in_use Hok) as [Hfw Hacc]; [by destruct (lt_pc th)|].
  destruct (enqueue_room m g h held queued (buf_ptr t w) H Hm) as (q' & Hq & Hrep').
  unfold enqueue_front. rewrite (ts_rep_front _ _ _ _ Hrep). step. destruct Hrep as [Ew Hrep]. rewrite Ew, Hq. step.
  eexists. split; [done|]. split; [done|]. intros pc' He' Hd Hfits. exists (queued ++ [(buf_ptr t w, content f)]).
  set (th' := mkLthread (Some ts) pc' (lt_accepted th)).
  set (g' := set_thread _ _ _).
  assert (HW : ∀ q, q ∈ on_way (lg_backend g) (queued ++ [(buf_ptr t w, content f)]).*1 ↔
    q ∈ on_way (lg_backend g) queued.*1 ∨ q = buf_ptr t w).
  { intros q. rewrite fmap_app. apply on_way_snoc. }
  assert (Hpb : ∀ p, ptr_buf g' p = ptr_buf g p).
  { intros p. unfold ptr_buf, g', set_thread. cbn [lg_threads lg_with_threads lg_with_queue].
    destruct (decide (ptr_thread p = t)) as [->|Hne]; [|by rewrite list_lookup_insert_ne by done].
    rewrite list_lookup_insert_eq by done. rewrite Hth. destruct th as [ts0 pc0 acc0]. simpl in Ets. by subst ts0. }
  assert (Hst : lg_stop g = true → t ≠ 0%nat).
  { intros Hs ->. pose proof (li_stop H _ Hth) as Hp. rewrite Hs in Hp. by destruct (lt_pc th). }
  split.
  - intros t' th2 [[-> [<- _]]|[Hne Hth2]]%list_lookup_insert_Some.
    { eapply thread_ok_enqueued; [exact Hok|done..]. }
    eapply thread_ok_frame, (li_threads H _ _ Hth2).
    + intros i Hi. change (lg_backend g') with (lg_backend g). rewrite HW. split; [|by left]. intros [?|E]; [done|]. by apply buf_ptr_inj in E as [? _].
    + change (lg_flushed g') with (lg_flushed g ++ [(buf_ptr t w, content f)]).
      rewrite thread_bytes_snoc, decide_False, app_nil_r; [done|]. by rewrite ptr_thread_ptr.
  - cbn. by rewrite length_insert.
  - intros p [Hp| ->]%HW; cbn; rewrite length_insert; [apply (li_valid H _ Hp)|by exists t, w].
  - change (lg_backend g') with (lg_backend g). rewrite fmap_app.
    change ([(buf_ptr t w, content f)].*1) with [buf_ptr t w]. rewrite on_way_snoc_perm.
    apply NoDup_app. split_and!; [apply (li_nodup H)| |].
    + intros p Hp ->%list_elem_of_singleton. by apply Hfw.
    + apply NoDup_singleton.
  - eapply (back_ok_enqueue g g' h held queued _ f q'); try done; [|by rewrite ptr_thread_ptr].
    rewrite (ptr_buf_thread g t w th) by done. unfold thread_buf. rewrite Ets, <- Ew. apply (ts_rep_front ts w f k). by split.
  - pose proof (li_steps H). lia.
  - intros th0 [[Et [<- _]]|[Hne Hth0]]%list_lookup_insert_Some; [|exact (li_stop H _ Hth0)].
    cbn. pose proof (li_stop H) as Hp. rewrite <- Et in Hp. specialize (Hp _ Hth).
    destruct (lg_stop g); [by destruct (lt_pc th)|by destruct pc'].
  - intros Hs. apply lookup_lt_is_Some_2. cbn. rewrite length_insert. apply lookup_lt_is_Some.
    exact (li_stop_0 H Hs).
  - intros Hb. destruct (li_files H Hb) as [Ho Hsl Hc]. split; [done| |done].
    intros w0 old b Hw0 Hold. rewrite Hpb. apply Hsl; done.
Qed.

Lemma lg_inv_S m g h held queued : lg_inv m g h held queued → lg_inv (S m) g h held queued.
Proof. intros []. split; try done. lia. Qed.

(** The thread moves on with the same state. *)
Lemma state_ok_pc W fl t ts pc pc' acc w f k :
  state_ok W fl t ts pc acc w f k →
  (other_back pc' = true → buf_ptr t (1 - w) ∉ W) → (in_use pc' = true → in_use pc = true) →
  enqueued pc' = false → (enqueuing pc' = true → lb_in_flight f = true) → (pc' = GdWait 1 → buf_ptr t 0 ∉ W) →
  data_fits f pc' → state_ok W fl t ts pc' acc w f k.
Proof. intros [] ? ? Hr ? ? ?. split; try done; [auto|]. intros data now ->. done. Qed.

(** It changes the buffer in use. *)
Lemma state_ok_front W fl t ts ts' pc pc' acc acc' w f f' k :
  state_ok W fl t ts pc acc w f k → in_use pc = true → in_use pc' = true →
  (other_back pc' = true → buf_ptr t (1 - w) ∉ W) → (enqueuing pc' = true → lb_in_flight f' = true) →
  ts_rep ts' w f' k → wf_buf f' → acc' = thread_bytes t fl ++ content f' → data_fits f' pc' →
  state_ok W fl t ts' pc' acc' w f' k.
Proof.
  intros [] Hu Hu' ? ? ? ? ? ?. destruct (so_in_use0 Hu) as [? _]. split; try done.
  - intros data now ->. done.
  - intros ->. done.
Qed.

Lemma state_ok_buf W fl t ts pc acc w f k i :
  state_ok W fl t ts pc acc w f k → 0 ≤ i < 2 →
  ∃ b, th_buf ts i = Ok b ∧ (buf_ptr t i ∈ W → lb_in_flight b = true).
Proof.
  intros [] Hi. pose proof (ts_rep_front _ _ _ _ so_rep0) as Hf. pose proof (ts_rep_back _ _ _ _ so_rep0) as Hk.
  destruct so_rep0 as [E Hw]. rewrite E in Hf, Hk.
  destruct (decide (i = w)) as [->|Hne]; [by exists f|]. assert (i = 1 - w) as -> by (destruct Hw as [[-> _]|[-> _]]; lia).
  by exists k.
Qed.

(** Positions at which the destructor is not involved, and its early ones. *)
Lemma stop_pc_plain s pc pc' :
  stop_pc s pc = true → stop_pc true pc = false → (stop_pc false pc' = true ∨ pc' = LpExited) → stop_pc s pc' = true.
Proof. destruct s; [congruence|]. intros _ _ [?| ->]; done. Qed.

(** A step that neither hands over a buffer nor touches one on its way. *)
Lemma goto_ok m g h held queued t th ts ts' pc' acc' w f k w' f' k' n :
  lg_inv m g h held queued → lg_threads g !! t = Some th → lt_ts th = Some ts →
  state_ok (on_way (lg_backend g) queued.*1) (lg_flushed g) t ts (lt_pc th) (lt_accepted th) w f k →
  state_ok (on_way (lg_backend g) queued.*1) (lg_flushed g) t ts' pc' acc' w' f' k' →
  lt_accepted th `prefix_of` acc' →
  (destroying pc' = true → destroying (lt_pc th) = true) → stop_pc true (lt_pc th) = false → stop_pc false pc' = true →
  (∀ i, 0 ≤ i < 2 → buf_ptr t i ∈ on_way (lg_backend g) queued.*1 → th_buf ts' i = th_buf ts i) →
  lg_inv (S m) (set_thread (lg_with_sem g n) t (mkLthread (Some ts') pc' acc')) h held queued.
Proof.
  intros H Hth Ets Hok Hok' Hacc Hd Hp Hp' Hbuf. destruct (li_threads H _ _ Hth) as (Hpre & _ & Hd0).
  eapply (thread_step_frame m g _ h held queued t th); try done.
  - intros ->. cbn. eapply stop_pc_plain; [exact (li_stop H _ Hth)|done|by left].
  - split_and!; cbn; [by etrans|by exists w', f', k'|auto].
  - intros i Hi Hin. unfold thread_buf. cbn. rewrite Ets. auto.
Qed.

Lemma append_content b data :
  wf_buf b → lb_current_size b + Z.of_nat (length data) ≤ BS →
  ∃ b', LoggerBuffer_append b data = Ok b' ∧ wf_buf b' ∧ content b' = content b ++ data ∧
    lb_in_flight b' = lb_in_flight b.
Proof.
  intros [Hl Hs] Hd. unfold LoggerBuffer_append.
  destruct (mem_write_spec (lb_buffer b) (lb_current_size b) data) as (m & -> & Hm & Hext & _); [lia..|]. step.
  eexists. split; [done|]. rewrite u64_small by lia. split_and!; [split; simpl; lia| |done].
  unfold content. simpl. apply Hext; lia.
Qed.

(** The buffer that is not on its way may change. *)
Lemma front_only ts ts' w f f' k t (W : list Z) i :
  ts_rep ts w f k → ts_rep ts' w f' k → buf_ptr t w ∉ W → 0 ≤ i < 2 → buf_ptr t i ∈ W → th_buf ts' i = th_buf ts i.
Proof.
  intros H H' Hw Hi Hin. assert (i ≠ w) by (intros ->; done). pose proof (ts_rep_idx _ _ _ _ H).
  pose proof (ts_rep_back _ _ _ _ H) as E. pose proof (ts_rep_back _ _ _ _ H') as E'. destruct H as [Ew _], H' as [Ew' _].
  rewrite Ew in E. rewrite Ew' in E'. replace i with (1 - w) by lia. congruence.
Qed.

(** The end of a call: the buffers are switched, and the line is copied. *)
Lemma append_finish_ok m g h held queued t th ts w f k data :
  lg_inv m g h held queued → lg_threads g !! t = Some th → lt_ts th = Some ts →
  state_ok (on_way (lg_backend g) queued.*1) (lg_flushed g) t ts (lt_pc th) (lt_accepted th) w f k →
  (∃ now, lt_pc th = LpRelease data now) ∨ lt_pc th = LpCopy data →
  ∃ g' queued', append_step g t th ts = Ok g' ∧ lg_inv (S m) g' h held queued'.
Proof.
  intros H Hth Ets Hok Hpc.
  pose proof (fun ts' pc' acc' w' f' k' n => goto_ok m g h held queued t th ts ts' pc' acc' w f k w' f' k' n H Hth Ets Hok) as Hgo.
  pose proof (so_rep Hok) as Hrep. pose proof (ts_rep_idx _ _ _ _ Hrep) as (Hw & Hw' & Hne).
  unfold append_step. destruct Hpc as [[now Epc]|Epc]; rewrite Epc in Hok, Hgo |- *.
  - (* LpRelease *)
    eexists _, queued. split; [done|]. destruct (so_release Hok data now eq_refl) as [Hacc Hempty].
    pose proof (so_other_back Hok eq_refl) as Hkw.
    pose proof (so_back_empty Hok Hkw) as Hk0. pose proof (so_data Hok) as Hd.
    apply (Hgo _ _ (lt_accepted th) (1 - w) k f); try done.
    destruct Hok. split; replace (1 - (1 - w)) with w by lia; try done.
    + by apply ts_rep_swap.
    + intros _. split; [done|]. rewrite (content_empty k) by done. by rewrite app_nil_r.
    + simpl in *. lia.
  - (* LpCopy *)
    rewrite (ts_rep_front _ _ _ _ Hrep). step. destruct (so_in_use Hok eq_refl) as [Hfw Hacc].
    destruct (append_content f data (so_front Hok)) as (f' & -> & Hwf & Hc & _);
      [apply (so_data Hok)|]. step.
    destruct (ts_rep_upd_front _ _ _ _ (fun _ => f') Hrep) as (ts' & -> & Hrep' & _). step.
    eexists _, queued. split; [done|].
    apply (Hgo ts' _ (lt_accepted th ++ data) w f' k (lg_semaphore g)); try done.
    + eapply (state_ok_front _ _ _ _ _ _ _ _ _ _ _ _ _ Hok); try done. by rewrite Hacc, Hc, app_assoc.
    + by apply prefix_app_r.
    + intros i Hi. by eapply front_only.
Qed.

Lemma append_step_ok m g h held queued t th ts w f k :
  lg_inv m g h held queued → lg_threads g !! t = Some th → lt_ts th = Some ts → Z.of_nat m + 256 < 2 ^ 63 →
  state_ok (on_way (lg_backend g) queued.*1) (lg_flushed g) t ts (lt_pc th) (lt_accepted th) w f k →
  ∃ g' queued', append_step g t th ts = Ok g' ∧ lg_inv (S m) g' h held queued'.
Proof.
  intros H Hth Ets Hm Hok.
  pose proof (fun ts' pc' acc' w' f' k' n => goto_ok m g h held queued t th ts ts' pc' acc' w f k w' f' k' n H Hth Ets Hok) as Hgo.
  pose proof (so_rep Hok) as Hrep. pose proof (ts_rep_idx _ _ _ _ Hrep) as (Hw & Hw' & Hne).
  unfold append_step. destruct (lt_pc th) as [|data full now|data full now|data full now|data full|data now|data| | | | | | | | | | | | | |] eqn:Epc;
    try (eexists _, queued; split; [done|]; by apply lg_inv_S).
  - (* LpCheck *)
    rewrite (ts_rep_back _ _ _ _ Hrep). step. eexists _, queued. split; [done|].
    apply (Hgo ts _ (lt_accepted th) w f k (lg_semaphore g)); [|done|by repeat case_match|done|by repeat case_match|done].
    destruct (so_data Hok) as [Hd Hfull].
    destruct (lb_in_flight k) eqn:Ef; simpl; [destruct full|];
      apply (state_ok_pc _ _ _ _ _ _ _ _ _ _ Hok); try done; [simpl; auto|].
    intros _ Hin. by rewrite (so_back_flag Hok Hin) in Ef.
  - (* LpFlag *)
    destruct (ts_rep_upd_front _ _ _ _ (set_in_flight true) Hrep) as (ts' & -> & Hrep' & _). step.
    eexists _, queued. split; [done|].
    destruct (so_in_use Hok eq_refl) as [Hfw Hacc].
    apply (Hgo ts' _ (lt_accepted th) w (set_in_flight true f) k (lg_semaphore g)); try done.
    + eapply (state_ok_front _ _ _ _ _ _ _ _ _ _ _ _ _ Hok); try done;
        [intros _; by apply (so_other_back Hok)|apply (so_front Hok)|].
      exact (so_data Hok).
    + intros i Hi. by eapply front_only.
  - (* LpEnqueue *)
    destruct (enqueue_front_ok m g h held queued t th ts w f k H Hth Ets Hm) as (g' & -> & _ & Hk); [by rewrite Epc|by rewrite Epc|].
    step. destruct (Hk (LpRelease data now)) as (queued' & Hinv); [done|done|apply (so_data Hok)|].
    eexists _, queued'. split; [done|exact Hinv].
  - (* LpUnflag *) destruct (so_data Hok).
  - (* LpRelease *)
    pose proof (append_finish_ok m g h held queued t th ts w f k data H Hth Ets) as Hfin.
    unfold append_step in Hfin. rewrite Epc in Hfin. apply Hfin; eauto.
  - (* LpCopy *)
    pose proof (append_finish_ok m g h held queued t th ts w f k data H Hth Ets) as Hfin.
    unfold append_step in Hfin. rewrite Epc in Hfin. apply Hfin; eauto.
Qed.

(** The thread's buffers are deleted when none of them is on its way. *)
Lemma exit_ok m g h held queued t th :
  lg_inv m g h held queued → lg_threads g !! t = Some th →
  (buf_ptr t 0 ∉ on_way (lg_backend g) queued.*1) → (buf_ptr t 1 ∉ on_way (lg_backend g) queued.*1) →
  lg_inv (S m) (set_thread g t (mkLthread None LpExited (lt_accepted th))) h held queued.
Proof.
  intros H Hth H0 H1. destruct (li_threads H _ _ Hth) as (Hpre & _ & _).
  eapply (thread_step_frame m g _ h held queued t th); try done.
  intros i Hi Hin. assert (i = 0 ∨ i = 1) as [-> | ->] by lia; done.
Qed.

Lemma guard_step_ok m g h held queued t th ts w f k :
  lg_inv m g h held queued → lg_threads g !! t = Some th → lt_ts th = Some ts → Z.of_nat m + 256 < 2 ^ 63 →
  state_ok (on_way (lg_backend g) queued.*1) (lg_flushed g) t ts (lt_pc th) (lt_accepted th) w f k →
  ∃ g' queued', guard_step g t th ts = Ok g' ∧ lg_inv (S m) g' h held queued'.
Proof.
  intros H Hth Ets Hm Hok.
  pose proof (fun ts' pc' acc' w' f' k' n => goto_ok m g h held queued t th ts ts' pc' acc' w f k w' f' k' n H Hth Ets Hok) as Hgo.
  pose proof (so_rep Hok) as Hrep.
  unfold guard_step. destruct (lt_pc th) as [| | | | | | | | | | | |i| | | | | | | |] eqn:Epc;
    try (eexists _, queued; split; [done|]; by apply lg_inv_S).
  - (* GdCheck *)
    rewrite (ts_rep_back _ _ _ _ Hrep). step. eexists _, queued. split; [done|].
    apply (Hgo ts _ (lt_accepted th) w f k (lg_semaphore g)); [|done|by repeat case_match|done|by repeat case_match|done].
    destruct (lb_in_flight k) eqn:Ef; simpl; apply (state_ok_pc _ _ _ _ _ _ _ _ _ _ Hok); try done; [by left|].
    intros _ Hin. by rewrite (so_back_flag Hok Hin) in Ef.
  - (* GdFlag *)
    destruct (ts_rep_upd_front _ _ _ _ (set_in_flight true) Hrep) as (ts' & -> & Hrep' & _). step.
    eexists _, queued. split; [done|]. destruct (so_in_use Hok eq_refl) as [Hfw Hacc].
    apply (Hgo ts' _ (lt_accepted th) w (set_in_flight true f) k (lg_semaphore g)); try done.
    + eapply (state_ok_front _ _ _ _ _ _ _ _ _ _ _ _ _ Hok); try done;
        [intros _; by apply (so_other_back Hok)|apply (so_front Hok)].
    + intros i Hi. by eapply front_only.
  - (* GdEnqueue *)
    destruct (enqueue_front_ok m g h held queued t th ts w f k H Hth Ets Hm) as (g' & -> & _ & Hk); [by rewrite Epc|by rewrite Epc|].
    step. destruct (Hk GdRelease) as (queued' & Hinv); [done..|]. eexists _, queued'. split; [done|exact Hinv].
  - (* GdUnflag *) destruct (so_data Hok).
  - (* GdRelease *)
    eexists _, queued. split; [done|]. apply (Hgo ts _ (lt_accepted th) w f k); try done.
    apply (state_ok_pc _ _ _ _ _ _ _ _ _ _ Hok); try done. by left.
  - (* GdWait *)
    pose proof (so_data Hok) as Hi. simpl in Hi.
    destruct (state_ok_buf _ _ _ _ _ _ _ _ _ i Hok) as (b & -> & Hb); [lia|]. step.
    destruct (lb_in_flight b) eqn:Eb; [eexists _, queued; split; [done|]; by apply lg_inv_S|].
    assert (Hni : buf_ptr t i ∉ on_way (lg_backend g) queued.*1) by (intros Hin; by apply Hb in Hin).
    destruct Hi as [-> | ->]; simpl; (eexists _, queued; split; [done|]).
    + apply (Hgo ts _ (lt_accepted th) w f k (lg_semaphore g)); try done.
      apply (state_ok_pc _ _ _ _ _ _ _ _ _ _ Hok); try done. by right.
    + apply (exit_ok m); try done. exact (so_wait_1 Hok eq_refl).
Qed.

(** The destructor's last steps, with or without buffers. *)
Lemma destroy_move m g g' h held queued t th pc' :
  lg_inv m g h held queued → lg_threads g !! t = Some th → destroying (lt_pc th) = true →
  (no_state_pc (lt_pc th) = true ∨ is_Some (lt_ts th)) →
  (pc' = DsStop ∨ pc' = DsWake ∨ pc' = DsJoin) → stop_pc (lg_stop g') pc' = true → (lg_stop g = true → lg_stop g' = true) →
  lg_threads g' = <[t := mkLthread (lt_ts th) pc' (lt_accepted th)]> (lg_threads g) →
  lg_flush_queue g' = lg_flush_queue g → lg_backend g' = lg_backend g → lg_flushed g' = lg_flushed g →
  lg_inv (S m) g' h held queued.
Proof.
  intros H Hth Hd Hst Hpc Hs Hs' Et Eq Ek Ef. destruct (li_threads H _ _ Hth) as (Hpre & Hok & Hd0).
  specialize (Hd0 Hd) as ->.
  eapply (thread_step_frame m g g' h held queued 0 th); try done.
  split_and!; cbn; [done| |done]. destruct (lt_ts th) as [ts|].
  - destruct Hok as (w & f & k & Hok). exists w, f, k.
    apply (state_ok_pc _ _ _ _ _ _ _ _ _ _ Hok); destruct Hpc as [-> |[-> | ->]]; done.
  - destruct Hok as (_ & _ & ? & ?). destruct Hpc as [-> |[-> | ->]]; done.
Qed.

(** [~Logger] hands over the last buffer of the main thread. *)
Lemma destroy_flush_ok m g h held queued t th ts w f k :
  lg_inv m g h held queued → lg_threads g !! t = Some th → lt_ts th = Some ts → Z.of_nat m + 256 < 2 ^ 63 →
  state_ok (on_way (lg_backend g) queued.*1) (lg_flushed g) t ts (lt_pc th) (lt_accepted th) w f k →
  (destroying (lt_pc th) = true → t = 0%nat) →
  lt_pc th = DsWaitBack ∨ lt_pc th = DsFlag ∨ lt_pc th = DsEnqueue →
  ∃ g' queued', destroy_step g t th = Ok g' ∧ lg_inv (S m) g' h held queued'.
Proof.
  intros H Hth Ets Hm Hok Hd0 Hpc. unfold destroy_step. rewrite Ets.
  destruct Hpc as [Epc|[Epc|Epc]]; rewrite Epc in Hok, Hd0 |- *.
  - (* DsWaitBack *)
    pose proof (so_rep Hok) as Hrep. rewrite (ts_rep_back _ _ _ _ Hrep). step.
    destruct (lb_in_flight k) eqn:Ef; [eexists g, queued; split; [done|]; by apply lg_inv_S|]. eexists _, queued. split; [done|].
    apply (goto_ok m g h held queued t th ts ts DsFlag (lt_accepted th) w f k w f k (lg_semaphore g)); try (by rewrite ?Epc).
    apply (state_ok_pc _ _ _ _ _ _ _ _ _ _ Hok); try done.
    intros _ Hin. by rewrite (so_back_flag Hok Hin) in Ef.
  - (* DsFlag *)
    pose proof (so_rep Hok) as Hrep.
    destruct (ts_rep_upd_front _ _ _ _ (set_in_flight true) Hrep) as (ts' & -> & Hrep' & _). step.
    eexists _, queued. split; [done|]. destruct (so_in_use Hok eq_refl) as [Hfw Hacc].
    apply (goto_ok m g h held queued t th ts ts' DsEnqueue (lt_accepted th) w f k w (set_in_flight true f) k (lg_semaphore g));
      try (by rewrite ?Epc).
    + eapply (state_ok_front _ _ _ _ _ _ _ _ _ _ _ _ _ Hok); try done;
        [intros _; by apply (so_other_back Hok)|apply (so_front Hok)].
    + intros i Hi. by eapply front_only.
  - (* DsEnqueue *)
    destruct (enqueue_front_ok m g h held queued t th ts w f k H Hth Ets Hm) as (g' & -> & _ & Hk); [by rewrite Epc|by rewrite Epc|].
    step. destruct (Hk DsRelease) as (queued' & Hinv); [done|by intros _; apply Hd0|done|].
    eexists _, queued'. split; [done|exact Hinv].
Qed.

(** The backend has ended: [join] returns and the state is deleted. *)
Lemma destroy_join_ok m g h held queued t th :
  lg_inv m g h held queued → lg_threads g !! t = Some th → lt_pc th = DsJoin → bk_pc (lg_backend g) = BkDone →
  lg_inv (S m) (set_thread g t (mkLthread None LpExited (lt_accepted th))) h held queued.
Proof.
  intros H Hth Epc Ebk. destruct (li_threads H _ _ Hth) as (_ & _ & Hd0). rewrite Epc in Hd0.
  pose proof (li_back H) as Hbk. pose proof (bo_pc Hbk) as Hpc. unfold back_pc_ok in Hpc. rewrite Ebk in Hpc.
  pose proof (bo_count Hbk) as Hc. rewrite Hpc in Hc.
  assert (Hp : pending (lg_backend g) = []) by (apply length_zero_iff_nil; lia).
  assert (Hq : bk_cq (lg_backend g) = []) by (apply length_zero_iff_nil; lia).
  specialize (Hd0 eq_refl) as ->.
  assert (Hno : ∀ i, 0 ≤ i < 2 → buf_ptr 0 i ∉ on_way (lg_backend g) queued.*1).
  { intros i Hi. unfold on_way. rewrite Ebk, Hp, Hq. simpl. rewrite app_nil_r. intros Hin.
    apply (bo_past Hbk) in Hin; [|by rewrite Ebk]. by rewrite ptr_thread_ptr in Hin. }
  apply (exit_ok m); [done|done|apply Hno; lia..].
Qed.

Lemma destroy_step_ok m g h held queued t th :
  lg_inv m g h held queued → lg_threads g !! t = Some th → Z.of_nat m + 256 < 2 ^ 63 →
  ∃ g' queued', destroy_step g t th = Ok g' ∧ lg_inv (S m) g' h held queued'.
Proof.
  intros H Hth Hm. destruct (li_threads H _ _ Hth) as (Hpre & Hst & Hd0).
  assert (Hstay : ∃ g' queued', Ok g = Ok g' ∧ lg_inv (S m) g' h held queued').
  { exists g, queued. split; [done|]. by apply lg_inv_S. }
  assert (Hmove : ∀ g' pc', destroying (lt_pc th) = true →
    (no_state_pc (lt_pc th) = true ∨ is_Some (lt_ts th)) → (pc' = DsStop ∨ pc' = DsWake ∨ pc' = DsJoin) →
    stop_pc (lg_stop g') pc' = true → (lg_stop g = true → lg_stop g' = true) →
    lg_threads g' = <[t := mkLthread (lt_ts th) pc' (lt_accepted th)]> (lg_threads g) →
    lg_flush_queue g' = lg_flush_queue g → lg_backend g' = lg_backend g → lg_flushed g' = lg_flushed g →
    ∃ g'' queued', Ok g' = Ok g'' ∧ lg_inv (S m) g'' h held queued').
  { intros g' pc' ? ? ? ? ? ? ? ? ?. exists g', queued. split; [done|]. by eapply (destroy_move m g g'). }
  assert (Hsp : destroying (lt_pc th) = true → stop_pc (lg_stop g) (lt_pc th) = true).
  { intros E. apply Hd0 in E as ->. exact (li_stop H _ Hth). }
  unfold destroy_step. destruct (lt_pc th) eqn:Epc; try done; simpl in Hsp; specialize (Hsp eq_refl).
  1-3: destruct (lt_ts th) as [ts|] eqn:Ets; [|by destruct Hst as [? _]]; destruct Hst as (w & f & k & Hok);
    pose proof (destroy_flush_ok m g h held queued t th ts w f k H Hth Ets Hm) as Hfl; unfold destroy_step in Hfl;
    rewrite Epc, Ets in Hfl; apply Hfl; auto.
  - (* DsRelease *)
    apply (Hmove _ DsStop); try done; [|by left]. right.
    destruct (lt_ts th) as [ts|]; [by eexists|by destruct Hst as [? _]].
  - (* DsStop *) apply (Hmove _ DsWake); try done; [by left|by right; left].
  - (* DsWake *) apply (Hmove _ DsJoin); try done; [by left|by right; right].
  - (* DsJoin *)
    destruct (bk_pc (lg_backend g)) eqn:Ebk; try done. eexists _, queued. split; [done|]. by apply destroy_join_ok.
Qed.

Lemma thread_step_ok m g h held queued t th :
  lg_inv m g h held queued → lg_threads g !! t = Some th → Z.of_nat m + 256 < 2 ^ 63 →
  ∃ g' queued', thread_step g t th = Ok g' ∧ lg_inv (S m) g' h held queued'.
Proof.
  intros H Hth Hm. destruct (li_threads H _ _ Hth) as (_ & Hst & _).
  assert (Hstay : ∃ g' queued', Ok g = Ok g' ∧ lg_inv (S m) g' h held queued').
  { exists g, queued. split; [done|]. by apply lg_inv_S. }
  pose proof (destroy_step_ok m g h held queued t th H Hth Hm) as Hds.
  unfold thread_step. destruct (lt_ts th) as [ts|] eqn:Ets.
  - destruct Hst as (w & f & k & Hok).
    pose proof (append_step_ok m g h held queued t th ts w f k H Hth Ets Hm Hok).
    pose proof (guard_step_ok m g h held queued t th ts w f k H Hth Ets Hm Hok). by destruct (lt_pc th).
  - destruct Hst as [Hp _]. by destruct (lt_pc th).
Qed.

(** *** Calls *)
Lemma log_line_length lv level ts_buf message line :
  Logger_log lv level ts_buf message = Some line → Z.of_nat (length line) < line_size.
Proof.
  unfold Logger_log, line_size. destruct (_ <? level_num _); [done|]. destruct (2 ^ 31 <=? _); [done|].
  intros [= <-]. rewrite length_take. case_test; lia.
Qed.

(** An idle thread has buffers, or could have. *)
Lemma idle_state_ok W fl t th born :
  thread_ok W fl t th → lt_pc th = LpIdle →
  ∃ w f k, state_ok W fl t (default (ThreadState_new BS junk born) (lt_ts th)) LpIdle (lt_accepted th) w f k.
Proof.
  intros (_ & Hst & _) Epc. destruct (lt_ts th) as [ts|]; simpl; [by rewrite Epc in Hst|].
  destruct Hst as (_ & Hacc & H0 & H1).
  assert (wf_buf (LoggerBuffer_new BS junk)) by (split; simpl; rewrite ?length_new_array; unfold line_size in *; lia).
  exists 0, (LoggerBuffer_new BS junk), (LoggerBuffer_new BS junk). split; try done; [split; [done|by left]|].
  intros _. split; [done|]. rewrite Hacc by done. by rewrite (content_empty (LoggerBuffer_new BS junk)), app_nil_r.
Qed.

Lemma idle_goto m g h held queued t th born pc' w f k :
  lg_inv m g h held queued → lg_threads g !! t = Some th → lt_pc th = LpIdle →
  let ts := default (ThreadState_new BS junk born) (lt_ts th) in
  state_ok (on_way (lg_backend g) queued.*1) (lg_flushed g) t ts LpIdle (lt_accepted th) w f k →
  other_back pc' = false → enqueued pc' = false → enqueuing pc' = false → pc' ≠ GdWait 1 → data_fits f pc' →
  (destroying pc' = true → t = 0%nat) → stop_pc false pc' = true →
  lg_inv (S m) (goto g t th ts pc') h held queued.
Proof.
  intros H Hth Epc ts Hok Ho He He' Hw Hfits Hd Hs. destruct (li_threads H _ _ Hth) as (Hpre & Hst & _).
  eapply (thread_step_frame m g _ h held queued t th); try done.
  - intros ->. cbn. eapply stop_pc_plain; [exact (li_stop H _ Hth)|by rewrite Epc|by left].
  - split_and!; cbn; [done| |done]. exists w, f, k.
    apply (state_ok_pc _ _ _ _ _ _ _ _ _ _ Hok); try done; by rewrite ?Ho, ?He'.
  - intros i Hi Hin. unfold thread_buf. cbn. unfold ts in *. destruct (lt_ts th) as [ts0|]; [done|].
    destruct Hst as (_ & _ & H0 & H1). assert (i = 0 ∨ i = 1) as [-> | ->] by lia; done.
Qed.

Lemma append_start_ok m g h held queued t th data born now :
  lg_inv m g h held queued → lg_threads g !! t = Some th → lt_pc th = LpIdle → Z.of_nat (length data) < line_size →
  ∃ g', append_start BS junk g t th data born now = Ok g' ∧ lg_inv (S m) g' h held queued.
Proof.
  intros H Hth Epc Hd.
  destruct (idle_state_ok _ _ t th born (li_threads H _ _ Hth) Epc) as (w & f & k & Hok).
  unfold append_start. rewrite (ts_rep_front _ _ _ _ (so_rep Hok)). step.
  destruct (so_front Hok) as [_ Hsz]. rewrite u64_small by (unfold line_size in *; lia).
  eexists. split; [done|]. eapply (idle_goto m); try done; destruct (BS <? _) eqn:Ef; bools; cbn [negb andb orb];
    try done; try (by case_match); [simpl; split; [lia|done]|].
  case_match; simpl; [split; [lia|by intros _]|done].
Qed.

Lemma guard_start_ok m g h held queued t th :
  lg_inv m g h held queued → lg_threads g !! t = Some th → lt_pc th = LpIdle →
  ∃ g', guard_start g t th = Ok g' ∧ lg_inv (S m) g' h held queued.
Proof.
  intros H Hth Epc. pose proof (li_threads H _ _ Hth) as Hok0. unfold guard_start.
  destruct (lt_ts th) as [ts|] eqn:Ets.
  - destruct (idle_state_ok _ _ t th 0 Hok0 Epc) as (w & f & k & Hok). rewrite Ets in Hok. simpl in Hok.
    rewrite (ts_rep_front _ _ _ _ (so_rep Hok)). step. eexists. split; [done|].
    pose proof (idle_goto m g h held queued t th 0) as Hgo. rewrite Ets in Hgo. simpl in Hgo.
    eapply Hgo; try done; case_match; try done. by left.
  - eexists. split; [done|]. destruct Hok0 as (_ & Hst & _). rewrite Ets in Hst. destruct Hst as (_ & _ & ? & ?).
    by apply (exit_ok m).
Qed.

Lemma destroy_start_ok m g h held queued th :
  lg_inv m g h held queued → lg_threads g !! 0%nat = Some th →
  lt_pc th = LpIdle ∨ lt_pc th = LpExited ∧ lg_stop g = false →
  ∃ g', destroy_start g 0 th = Ok g' ∧ lg_inv (S m) g' h held queued.
Proof.
  intros H Hth Epc. pose proof (li_threads H _ _ Hth) as Hok0. unfold destroy_start.
  destruct (lt_ts th) as [ts|] eqn:Ets.
  - destruct Epc as [Epc|[Epc _]].
    2:{ destruct Hok0 as (_ & Hst & _). rewrite Ets, Epc in Hst. destruct Hst as (w & f & k & Hok).
        by destruct (so_data Hok). }
    destruct (idle_state_ok _ _ 0 th 0 Hok0 Epc) as (w & f & k & Hok). rewrite Ets in Hok. simpl in Hok.
    rewrite (ts_rep_front _ _ _ _ (so_rep Hok)). step. eexists. split; [done|].
    pose proof (idle_goto m g h held queued 0 th 0) as Hgo. rewrite Ets in Hgo. simpl in Hgo.
    eapply Hgo; try done; by case_match.
  - eexists. split; [done|]. destruct Hok0 as (Hpre & Hst & _). rewrite Ets in Hst. destruct Hst as (_ & _ & ? & ?).
    eapply (thread_step_frame m g _ h held queued 0 th); try done.
    + intros _. destruct Epc as [Epc|[_ Es]]; [|cbn; by rewrite Es]. apply (stop_pc_plain (lg_stop g) (lt_pc th) DsStop);
        [exact (li_stop H _ Hth)|by rewrite Epc|by left].
    + intros i Hi Hin. assert (i = 0 ∨ i = 1) as [-> | ->] by lia; done.
Qed.

(** *** Steps of the backend *)

(** Giving a buffer back to its thread. *)
Lemma release_wf b : wf_buf b → wf_buf (release_buf b).
Proof. intros [? ?]. split; simpl; unfold line_size in *; lia. Qed.

Lemma release_front_ok W W' fl t ts ts' pc acc w f k :
  state_ok W fl t ts pc acc w f k → buf_ptr t w ∈ W → buf_ptr t w ∉ W' → (∀ q, q ∈ W → q ≠ buf_ptr t w → q ∈ W') →
  (∀ q, q ∈ W' → q ∈ W) → ts_rep ts' w (release_buf f) k → state_ok W' fl t ts' pc acc w (release_buf f) k.
Proof.
  intros [] Hin Hp Hkeep Hsub Hrep'. pose proof (ts_rep_idx _ _ _ _ so_rep0) as (Hw & Hw' & Hne).
  assert (Hnu : in_use pc = false) by (destruct (in_use pc); [by destruct so_in_use0|done]).
  assert (Hk : buf_ptr t (1 - w) ∉ W') by (intros ?; by apply so_one0, Hsub).
  split; try done; [by apply release_wf|..].
  - auto.
  - by rewrite Hnu.
  - intros data now E. destruct (so_release0 data now E) as [? _]. done.
  - intros E. by destruct pc.
  - intros E Hin'. by apply (so_wait_2 E), Hsub.
  - by destruct pc.
Qed.

Lemma release_back_ok W W' fl t ts ts' pc acc w f k :
  state_ok W fl t ts pc acc w f k → buf_ptr t (1 - w) ∉ W' → (∀ q, q ∈ W → q ≠ buf_ptr t (1 - w) → q ∈ W') →
  (∀ q, q ∈ W' → q ∈ W) → ts_rep ts' w f (release_buf k) → state_ok W' fl t ts' pc acc w f (release_buf k).
Proof.
  intros [] Hp Hkeep Hsub Hrep'. pose proof (ts_rep_idx _ _ _ _ so_rep0) as (Hw & Hw' & Hne).
  split; try done; [by apply release_wf|..].
  - auto.
  - intros E. destruct (so_in_use0 E). split; [auto|done].
  - intros data now E. destruct (so_release0 data now E) as [? Hz]. split; [done|]. intros Hn. apply Hz. intros Hin.
    apply Hn, Hkeep; [done|]. intros E'. by apply buf_ptr_inj in E' as [_ ?].
  - intros E Hin'. by apply (so_wait_2 E), Hsub.
Qed.

(** Releasing buffer [i] of a thread, which is on its way. *)
Lemma th_upd_release W W' fl t ts pc acc w f k i :
  state_ok W fl t ts pc acc w f k → 0 ≤ i < 2 → buf_ptr t i ∈ W → buf_ptr t i ∉ W' →
  (∀ q, q ∈ W → q ≠ buf_ptr t i → q ∈ W') → (∀ q, q ∈ W' → q ∈ W) →
  ∃ ts' f' k', th_upd ts i release_buf = Ok ts' ∧ state_ok W' fl t ts' pc acc w f' k' ∧
    (∀ j, 0 ≤ j < 2 → j ≠ i → th_buf ts' j = th_buf ts j).
Proof.
  intros Hok Hi Hin Hout Hkeep Hsub. pose proof (so_rep Hok) as Hrep.
  destruct (decide (i = w)) as [->|Hne].
  - destruct (ts_rep_upd_front _ _ _ _ release_buf Hrep) as (ts' & Hu & Hrep' & _).
    destruct Hrep as [Ew Hrep]. rewrite Ew in Hu. exists ts', (release_buf f), k.
    split_and!; [done|by eapply release_front_ok|].
    intros j Hj Hjw. pose proof (ts_rep_idx _ _ _ _ Hrep').
    pose proof (ts_rep_back ts w f k (conj Ew Hrep)) as E1. pose proof (ts_rep_back _ _ _ _ Hrep') as E2.
    destruct Hrep' as [Ew' _]. rewrite Ew in E1. rewrite Ew' in E2. replace j with (1 - w) by lia. congruence.
  - pose proof (ts_rep_idx _ _ _ _ Hrep). assert (i = 1 - w) as -> by lia.
    destruct (ts_rep_upd_back _ _ _ _ release_buf Hrep) as (ts' & Hu & Hrep').
    exists ts', f, (release_buf k). split_and!; [done|by eapply release_back_ok|].
    intros j Hj Hjw. pose proof (ts_rep_front _ _ _ _ Hrep) as E1. pose proof (ts_rep_front _ _ _ _ Hrep') as E2.
    destruct Hrep as [Ew _], Hrep' as [Ew' _]. rewrite Ew in E1. rewrite Ew' in E2.
    replace j with w by lia. congruence.
Qed.

Lemma ptr_upd_release m g h held queued p W' :
  lg_inv m g h held queued → on_way (lg_backend g) queued.*1 ≡ₚ p :: W' →
  ∃ ths, ptr_upd g p release_buf = Ok (lg_with_threads g ths) ∧ length ths = length (lg_threads g) ∧
    (∀ t th, ths !! t = Some th → thread_ok W' (lg_flushed g) t th) ∧
    (∀ q, q ∈ W' → ptr_buf (lg_with_threads g ths) q = ptr_buf g q) ∧
    (∀ th, ths !! 0%nat = Some th → stop_pc (lg_stop g) (lt_pc th) = true).
Proof.
  intros H Hperm. set (W := on_way _ _) in *. pose proof (li_nodup H) as Hnd. fold W in Hnd.
  rewrite Hperm in Hnd. apply NoDup_cons in Hnd as [HpW' HndW'].
  assert (Hin : p ∈ W) by (rewrite Hperm; by left).
  assert (Hsub : ∀ q, q ∈ W' → q ∈ W) by (intros q Hq; rewrite Hperm; by right).
  assert (Hkeep : ∀ q, q ∈ W → q ≠ p → q ∈ W') by (intros q; rewrite Hperm; by intros [?|?]%elem_of_cons).
  destruct (li_valid H _ Hin) as (t & i & Ep & Hi & Ht). destruct (lookup_lt_is_Some_2 _ _ Ht) as [th Hth].
  destruct (li_threads H _ _ Hth) as (Hpre & Hst & Hd). fold W in Hst.
  destruct th as [[ts|] pc acc]; simpl in *.
  2:{ destruct Hst as (_ & _ & H0 & H1). assert (i = 0 ∨ i = 1) as [-> | ->] by lia; congruence. }
  destruct Hst as (w & f & k & Hok). rewrite Ep in Hin, HpW', Hkeep.
  destruct (th_upd_release W W' _ t ts pc acc w f k i Hok Hi Hin HpW' Hkeep Hsub) as (ts' & f' & k' & Hupd & Hok' & Hbuf).
  exists (<[t := mkLthread (Some ts') pc acc]> (lg_threads g)). subst p.
  split_and!.
  - unfold ptr_upd. rewrite ptr_thread_ptr, ptr_idx_ptr, Hth, Hupd by done. done.
  - by rewrite length_insert.
  - intros t2 th2 [[<- [<- _]]|[Hne Hth2]]%list_lookup_insert_Some.
    { split_and!; cbn; [done|by exists w, f', k'|done]. }
    eapply thread_ok_frame, (li_threads H _ _ Hth2); [|done]. fold W. intros j Hj. split; [auto|].
    intros Hjn. apply Hkeep; [done|]. intros E. by apply buf_ptr_inj in E as [? _].
  - intros q Hq. destruct (li_valid H _ (Hsub _ Hq)) as (t2 & j & -> & Hj & Ht2).
    destruct (decide (t2 = t)) as [->|Hne].
    + rewrite (ptr_buf_thread _ t j (mkLthread (Some ts') pc acc)), (ptr_buf_thread g t j _ Hj Hth);
        [|done|cbn; by apply list_lookup_insert_eq]. apply Hbuf; [done|]. intros ->. done.
    + destruct (lookup_lt_is_Some_2 _ _ Ht2) as [th2 Hth2].
      rewrite (ptr_buf_thread _ t2 j th2), (ptr_buf_thread g t2 j th2); try done. cbn. by rewrite list_lookup_insert_ne.
  - intros th0 [[-> [<- _]]|[Hne Hth0]]%list_lookup_insert_Some; exact (li_stop H _ ltac:(done)).
Qed.

(** A step of backend or kernel that leaves the threads alone. *)
Lemma back_move m g g' h h' held held' queued queued' :
  lg_inv m g h held queued → lg_threads g' = lg_threads g → lg_flushed g' = lg_flushed g → lg_stop g' = lg_stop g →
  on_way (lg_backend g') queued'.*1 ≡ₚ on_way (lg_backend g) queued.*1 →
  back_ok g' h' held' queued' → (h' ≤ S m)%nat → (bounded (lg_backend g') → files_ok g') →
  lg_inv (S m) g' h' held' queued'.
Proof.
  intros [] Et Ef Es Hperm Hbk Hh Hfi. split; rewrite ?Et, ?Ef, ?Es, ?Hperm; try done.
  - intros t th Hth. eapply thread_ok_frame, (li_threads0 _ _ Hth); [|done]. intros i _. by rewrite Hperm.
  - intros p. rewrite Hperm. auto.
Qed.

(** One that also moves no write and no buffer. *)
Lemma back_shuffle m g k' n h held queued :
  let k := lg_backend g in
  lg_inv m g h held queued → held_ptr (bk_pc k) = [] → held_ptr (bk_pc k') = [] →
  bk_fd k' = bk_fd k → bk_offset k' = bk_offset k → bk_in_flight k' = bk_in_flight k → bk_cq k' = bk_cq k →
  bk_files k' = bk_files k → bk_olds k' = bk_olds k → bk_done k' = bk_done k → bk_lost k' = bk_lost k → pending k' ≡ₚ pending k →
  back_pc_ok k' → (late_pc (bk_pc k') = true → lg_stop g = true) →
  (past_pc (bk_pc k') = true → ∀ p, p ∈ queued.*1 → ptr_thread p ≠ 0%nat) →
  lg_inv (S m) (lg_with_backend (lg_with_sem g n) k') h held queued.
Proof.
  intros k H Hh Hh' Efd Eoff Einf Ecq Efi Eol Edo Els Hp Hpc Hl Hpa.
  assert (Hin : ∀ w, w ∈ pending k' ↔ w ∈ pending k) by (intros w; by rewrite Hp).
  assert (Hun : ∀ w, w ∈ unwritten k' ↔ w ∈ unwritten k) by (intros w; unfold unwritten; by rewrite Hp, Els).
  assert (Hexp : ∀ f old, expected k' f old = expected k f old) by (intros; unfold expected, file_entries; by rewrite Edo).
  eapply (back_move m g _ h h held held queued queued); try done.
  - cbn. unfold on_way. fold k. by rewrite Hh, Hh', Hp, Ecq.
  - destruct (li_back H). fold k in bo_held0. split; cbn; rewrite ?Efd, ?Einf, ?Ecq, ?Efi, ?Eol, ?Edo, ?Hp; try done.
    + by rewrite Hh'; rewrite Hh in bo_held0.
    + intros w Hw%Hin. auto.
  - pose proof (li_steps H). lia.
  - cbn. intros Hb. destruct (li_files H) as [Ho Hsl Hc].
    { intros f old Hold. fold k. rewrite <- Hexp. apply Hb. by rewrite Eol. }
    fold k in Ho, Hsl, Hc. split; cbn; setoid_rewrite Hexp; rewrite ?Efd, ?Eoff, ?Eol, ?Efi.
    + done.
    + intros w old b Hw%Hin. apply Hsl. done.
    + intros f old file Hold Hfile. destruct (Hc f old file Hold Hfile) as [? Hcell]. split; [done|].
      intros i Hi. destruct (Hcell i Hi) as [(w & Hw & ?)|?]; [left|by right]. exists w. by rewrite Hun.
Qed.

(** *** The backend's loop *)
Lemma no_flight m g h held queued :
  lg_inv m g h held queued → bk_in_flight (lg_backend g) = 0 → pending (lg_backend g) = [] ∧ bk_cq (lg_backend g) = [].
Proof.
  intros H E. pose proof (bo_count (li_back H)) as Hc. rewrite E in Hc.
  split; apply length_zero_iff_nil; lia.
Qed.

Lemma dequeue_ok m g h held queued last :
  lg_inv m g h held queued → Z.of_nat m + 256 < 2 ^ 63 → bk_pc (lg_backend g) = BkDequeue last →
  ∃ g' h' held' queued',
    ('(q, r) ← MPSCQueue_dequeue FLUSH_QUEUE_CAPACITY (lg_flush_queue g);
     let g := lg_with_queue g q (lg_flushed g) in
     Ok (lg_with_backend g (bk_with_pc (lg_backend g)
           (match r with Some p => BkSubmitBuf p last | None => BkSubmit last end)))) = Ok g' ∧
    lg_inv (S m) g' h' held' queued'.
Proof.
  intros H Hm Epc. pose proof (li_back H) as Hbk. pose proof (li_steps H) as Hs.
  assert (held = []) as ->.
  { pose proof (bo_held Hbk) as E. rewrite Epc in E. by apply fmap_nil_inv in E. }
  destruct (dequeue_alone_spec 7 ltac:(lia) FLUSH_QUEUE_CAPACITY eq_refl h (lg_flush_queue g) queued.*1)
    as (q' & h' & -> & Hrep & Hh'); [apply (bo_queue Hbk)|unfold FLUSH_QUEUE_CAPACITY; lia|]. step.
  assert (Hfi : ∀ pc', files_ok g → files_ok (lg_with_backend (lg_with_queue g q' (lg_flushed g)) (bk_with_pc (lg_backend g) pc'))).
  { by intros pc' []. }
  pose proof (li_files H) as Hfo. pose proof (bo_late Hbk) as Hlate. rewrite Epc in Hlate.
  destruct queued as [|[p c] queued]; simpl in *.
  - eexists _, h', [], []. split; [done|]. eapply (back_move m g _ h h' [] [] [] []); try done; [| |lia|auto].
    + unfold on_way. cbn. by rewrite Epc.
    + destruct Hbk. split; try done; try (by destruct last). intros _ p Hp. by apply elem_of_nil in Hp.
  - eexists _, h', [(p, c)], queued. split; [done|]. eapply (back_move m g _ h h' [] _ _ _); try done; [| |lia|auto].
    + unfold on_way. cbn. rewrite Epc. cbn. symmetry. apply Permutation_middle.
    + destruct Hbk. split; try done; by destruct last.
Qed.

(** *** Memory and files *)
Lemma mem_read_app_l a b off n :
  0 ≤ off → 0 ≤ n → off + n ≤ Z.of_nat (length a) → mem_read (a ++ b) off n = mem_read a off n.
Proof.
  intros. apply list_eq. intros i. rewrite !mem_read_lookup. case_decide; [|done]. by rewrite lookup_app_l by lia.
Qed.
Lemma mem_read_app_r a b : mem_read (a ++ b) (Z.of_nat (length a)) (Z.of_nat (length b)) = b.
Proof. unfold mem_read. rewrite !Nat2Z.id, drop_app_length. apply firstn_all. Qed.

Lemma file_write_lookup file off data i :
  file_write file off data !! i =
    if decide (off ≤ i < off + length data)%nat then data !! (i - off)%nat
    else if decide (i < length file)%nat then file !! i
    else if decide (i < off)%nat then Some x00 else None.
Proof.
  unfold file_write. destruct (decide (i < off)%nat) as [Hlt|Hge].
  - rewrite decide_False by lia. destruct (decide (i < length file)%nat).
    + rewrite lookup_app_l by (rewrite length_take; lia). by rewrite lookup_take_lt.
    + rewrite lookup_app_r by (rewrite length_take; lia). rewrite lookup_app_l by (rewrite length_take, length_replicate; lia).
      rewrite lookup_replicate_2; [done|]. rewrite length_take. lia.
  - rewrite lookup_app_r by (rewrite length_take; lia). rewrite lookup_app_r by (rewrite length_take, length_replicate; lia).
    rewrite length_take, length_replicate. replace (i - off `min` length file - (off - length file))%nat with (i - off)%nat by lia.
    case_decide.
    + by rewrite lookup_app_l by lia.
    + rewrite lookup_app_r, lookup_drop by lia. replace (off + length data + (i - off - length data))%nat with i by lia.
      case_decide; [done|]. by apply lookup_ge_None_2; lia.
Qed.
Lemma file_write_length file off data : (length (file_write file off data) ≤ (length file `max` (off + length data)))%nat.
Proof. unfold file_write. rewrite !length_app, length_take, length_replicate, length_drop. lia. Qed.

Lemma file_entries_snoc k k' fd p c f :
  bk_done k' = bk_done k ++ [(fd, (p, c))] →
  file_entries k' f = file_entries k f ++ if decide (fd = Z.of_nat f) then [c] else [].
Proof.
  intros E. unfold file_entries. rewrite E, filter_app, !fmap_app. f_equal.
  case_decide as Ef; [by rewrite filter_cons_True|by rewrite filter_cons_False].
Qed.
Lemma expected_snoc k k' fd p c f old :
  bk_done k' = bk_done k ++ [(fd, (p, c))] →
  expected k' f old = expected k f old ++ if decide (fd = Z.of_nat f) then c else [].
Proof.
  intros E. unfold expected. rewrite (file_entries_snoc _ _ _ _ _ _ E), concat_app, app_assoc. f_equal.
  case_decide; simpl; [by rewrite app_nil_r|done].
Qed.

(** *** Steps that give a buffer back *)
Lemma back_release m g k' h held held' queued p :
  lg_inv m g h held queued → on_way (lg_backend g) queued.*1 ≡ₚ p :: on_way k' queued.*1 →
  (∀ g1, (∀ q, q ∈ on_way k' queued.*1 → ptr_buf g1 q = ptr_buf g q) → lg_flush_queue g1 = lg_flush_queue g →
     lg_flushed g1 = lg_flushed g → lg_stop g1 = lg_stop g → lg_backend g1 = k' →
     back_ok g1 h held' queued ∧ (bounded k' → files_ok g1)) →
  ∃ g1, ptr_upd g p release_buf = Ok g1 ∧ lg_inv (S m) (lg_with_backend g1 k') h held' queued.
Proof.
  intros H Hperm Hbk. destruct (ptr_upd_release _ _ _ _ _ _ _ H Hperm) as (ths & Hu & Hl & Hths & Hbuf & Hst).
  eexists. split; [exact Hu|]. destruct (Hbk (lg_with_backend (lg_with_threads g ths) k')) as [Hbo Hfo]; [done..|].
  pose proof (li_nodup H) as Hnd. rewrite Hperm in Hnd. apply NoDup_cons in Hnd as [_ Hnd].
  split; cbn; try done.
  - rewrite Hl. apply (li_few H).
  - intros q Hq. rewrite Hl. apply (li_valid H). rewrite Hperm. by right.
  - pose proof (li_steps H). lia.
  - intros Hs. apply lookup_lt_is_Some_2. rewrite Hl. apply lookup_lt_is_Some. exact (li_stop_0 H Hs).
Qed.

Lemma ptr_buf_wf m g h held queued p b :
  lg_inv m g h held queued → p ∈ on_way (lg_backend g) queued.*1 → ptr_buf g p = Ok b → wf_buf b.
Proof.
  intros H Hin Hb. destruct (li_valid H _ Hin) as (t & i & -> & Hi & Ht).
  destruct (lookup_lt_is_Some_2 _ _ Ht) as [th Hth]. rewrite (ptr_buf_thread g t i th Hi Hth) in Hb.
  destruct (li_threads H _ _ Hth) as (_ & Hst & _). unfold thread_buf in Hb. destruct (lt_ts th) as [ts|]; [|done].
  destruct Hst as (w & f & k & []). by destruct (ts_rep_lookup _ _ _ _ _ _ so_rep0 Hi Hb) as [[_ ->]|[_ ->]].
Qed.

Lemma handle_cqe_ok m g h held queued :
  lg_inv m g h held queued → bk_cq (lg_backend g) ≠ [] →
  (∀ k', bk_pc k' = bk_pc (lg_backend g) → pending k' = pending (lg_backend g) → back_pc_ok k') →
  ∃ g', handle_cqe g = Ok g' ∧ lg_inv (S m) g' h held queued.
Proof.
  intros H Hcq Hpc. unfold handle_cqe. pose proof (li_back H) as Hbk.
  destruct (bk_cq (lg_backend g)) as [|p cq] eqn:Ecq; [done|]. pose proof (on_way_few _ _ _ _ _ H) as Hfew.
  pose proof (li_few H). pose proof (bo_count Hbk) as Hc.
  set (k' := mkBackend _ _ _ _ (u32 _) _ _ _ _ _ _ _).
  assert (Hperm : on_way (lg_backend g) queued.*1 ≡ₚ p :: on_way k' queued.*1).
  { unfold on_way. rewrite Ecq. cbn. rewrite !app_assoc. symmetry. apply Permutation_middle. }
  assert (Hsmall : u32 (bk_in_flight (lg_backend g) - 1) = bk_in_flight (lg_backend g) - 1).
  { apply u32_small. unfold on_way in Hfew. rewrite !length_app, !length_fmap in Hfew. rewrite Ecq in Hc, Hfew. simpl in Hc, Hfew. lia. }
  destruct (back_release m g k' h held held queued p H Hperm) as (g1 & -> & Hinv); [|by step; eexists].
  intros g1 Hbuf Eq Ef Es Ek. assert (Hw : ∀ w, w ∈ pending k' → ptr_buf g1 (lw_buf w) = ptr_buf g (lw_buf w)).
  { intros w Hw. by apply Hbuf, pending_on_way. }
  split.
  - destruct Hbk. split; rewrite ?Eq, ?Ef, ?Es, ?Ek; try done.
    + intros q c Hqc. rewrite Hbuf; [auto|]. unfold on_way. cbn. rewrite <- bo_held0, app_assoc, elem_of_app. left.
      rewrite (Permutation_app_comm queued.*1), <- fmap_app. apply list_elem_of_fmap. by exists (q, c).
    + cbn. rewrite Hsmall, Hc, Ecq. cbn. fold (pending (lg_backend g)). unfold pending. cbn. lia.
    + intros w Hw'. rewrite Hw by done. auto.
    + by apply Hpc.
  - intros Hb. destruct (li_files H Hb) as [Ho Hsl Hce]. split; rewrite ?Ek; [done| |done].
    intros w old b Hw' Hold. rewrite Hw by done. by apply Hsl.
Qed.

(** A prepared write adds its bytes to what its file is expected to hold. *)
Lemma submit_files g k' p b :
  let k := lg_backend g in
  let w := mkLogWrite p (bk_fd k) (lb_current_size b) (bk_offset k) in
  files_ok g → ptr_buf g p = Ok b → wf_buf b → 0 ≤ bk_fd k < Z.of_nat (length (bk_olds k)) →
  (∀ w', w' ∈ pending k → lw_fd w' = bk_fd k ∧ 0 ≤ lw_len w') →
  (∀ w', w' ∈ pending k' ↔ w' = w ∨ w' ∈ pending k) → bk_fd k' = bk_fd k → bk_olds k' = bk_olds k → bk_files k' = bk_files k →
  bk_lost k' = bk_lost k → bk_offset k' = u64 (bk_offset k + lb_current_size b) → bk_done k' = bk_done k ++ [(bk_fd k, (p, content b))] →
  bounded k' → files_ok (lg_with_backend g k').
Proof.
  intros k w [Ho Hsl Hce] Hb Hwf Hfd Hpf Hin Ef El Efs Els Eo Ed Hbd. fold k in Ho, Hsl, Hce.
  assert (Hun : ∀ w', w' = w ∨ w' ∈ unwritten k → w' ∈ unwritten k').
  { intros w'. unfold unwritten. rewrite !elem_of_app, Hin, Els. tauto. }
  pose proof (content_length b Hwf) as Hlen. assert (Hexp := fun f old => expected_snoc k k' (bk_fd k) p (content b) f old Ed).
  destruct (lookup_lt_is_Some_2 (bk_olds k) (Z.to_nat (bk_fd k))) as [old0 Hold0]; [lia|].
  specialize (Ho old0 ltac:(lia) Hold0). rewrite <- El in Hold0. specialize (Hbd _ _ Hold0). rewrite El in Hold0.
  assert (Hexp0 : expected k' (Z.to_nat (bk_fd k)) old0 = expected k (Z.to_nat (bk_fd k)) old0 ++ content b).
  { rewrite Hexp. by rewrite decide_True by lia. }
  rewrite Hexp0, length_app in Hbd. split; cbn; rewrite ?Ef, ?El, ?Efs, ?Eo.
  - intros old _ Hold. rewrite Hold0 in Hold. injection Hold as <-. rewrite Hexp0, length_app, u64_small by lia. lia.
  - intros w' old b' [-> |Hw']%Hin Hold Hb'; cbn in *.
    + rewrite Hold0 in Hold. injection Hold as <-. change (ptr_buf g p = Ok b') in Hb'. rewrite Hb in Hb'. injection Hb' as <-.
      rewrite Hexp0, length_app, Ho, <- Hlen. split_and!; [lia|by rewrite mem_read_app_r|lia].
    + destruct (Hpf w' Hw') as [Ew Hl0]. destruct (Hsl w' old b' Hw' Hold Hb') as (? & Hmr & ?). rewrite Ew in *.
      rewrite Hold0 in Hold. injection Hold as <-. rewrite Hexp0, length_app. split_and!; [done|by rewrite mem_read_app_l|lia].
  - intros f old file Hold Hfile. destruct (Hce f old file Hold Hfile) as [Hlf Hcell]. rewrite Hexp. case_decide as E.
    + assert (f = Z.to_nat (bk_fd k)) as -> by lia. rewrite Hold0 in Hold. injection Hold as <-. rewrite length_app.
      split; [lia|]. intros i Hi. destruct (decide (i < length (expected k (Z.to_nat (bk_fd k)) old0))%nat) as [Hi'|Hi'].
      * rewrite lookup_app_l by done. destruct (Hcell i Hi') as [(w' & Hw' & Hcov)|?]; [left|by right].
        exists w'. split; [apply Hun; by right|done].
      * left. exists w. split; [apply Hun; by left|]. unfold covers. cbn. split; [lia|]. rewrite Ho, <- Hlen. lia.
    + rewrite app_nil_r. split; [done|]. intros i Hi. destruct (Hcell i Hi) as [(w' & Hw' & Hcov)|?]; [left|by right].
      exists w'. split; [apply Hun; by right|done].
Qed.

(** Without a file the buffer is given back at once. *)
Lemma submit_dropped_ok m g h queued p c last :
  let k := lg_backend g in
  let k' := mkBackend (BkDequeue last) (bk_today k) (bk_fd k) (bk_offset k) (bk_in_flight k) (bk_sq k) (bk_kernel k)
              (bk_cq k) (bk_files k) (bk_olds k) (bk_done k ++ [(bk_fd k, (p, c))]) (bk_lost k) in
  lg_inv m g h [(p, c)] queued → bk_pc k = BkSubmitBuf p last → bk_fd k < 0 →
  ∃ g', (g1 ← ptr_upd g p release_buf; Ok (lg_with_backend g1 k')) = Ok g' ∧ lg_inv (S m) g' h [] queued.
Proof.
  intros k k' H Epc Efd. pose proof (li_back H) as Hbk.
  assert (Hperm : on_way (lg_backend g) queued.*1 ≡ₚ p :: on_way k' queued.*1).
  { unfold on_way. fold k. rewrite Epc. cbn. symmetry. apply Permutation_middle. }
  destruct (back_release m g k' h [(p, c)] [] queued p H Hperm) as (g1 & -> & Hinv); [|by step; eexists].
  intros g1 Hbuf Eq Ef Es Ek. assert (Hw : ∀ w, w ∈ pending k' → ptr_buf g1 (lw_buf w) = ptr_buf g (lw_buf w)).
  { intros w Hw. by apply Hbuf, pending_on_way. }
  assert (Hexp : ∀ f old, expected k' f old = expected (lg_backend g) f old).
  { intros f old. rewrite (expected_snoc (lg_backend g) k' (bk_fd (lg_backend g)) p c) by done. fold k.
    rewrite decide_False, app_nil_r by lia. done. }
  split.
  - destruct Hbk. split; rewrite ?Eq, ?Ef, ?Es, ?Ek; try done.
    + cbn. by rewrite fmap_app, bo_flushed0, <- app_assoc.
    + intros q c' Hqc. rewrite Hbuf; [apply bo_content0; by right|]. unfold on_way. rewrite elem_of_app. left.
      apply list_elem_of_fmap. by exists (q, c').
    + intros w Hw'. rewrite Hw by done. auto.
    + cbn. intros e [He|He%list_elem_of_singleton]%elem_of_app; [auto|]. subst e. cbn. fold k in bo_fd0. lia.
    + intros Hl. apply bo_late0. fold k. rewrite Epc. by destruct last.
  - intros Hbd. destruct (li_files H) as [Ho Hsl Hce].
    { intros f old Hold. rewrite <- Hexp. by apply Hbd. }
    split; rewrite ?Ek; setoid_rewrite Hexp; [done| |done]. intros w old b' Hw' Hold. rewrite Hw by done. by apply Hsl.
Qed.

(** *** Dealing with a dequeued buffer *)
Lemma submit_buf_ok m g h held queued p last :
  lg_inv m g h held queued → bk_pc (lg_backend g) = BkSubmitBuf p last →
  ∃ g', submit_buf g p (BkDequeue last) = Ok g' ∧ lg_inv (S m) g' h [] queued.
Proof.
  intros H Epc. pose proof (li_back H) as Hbk. pose proof (bo_held Hbk) as Hheld. rewrite Epc in Hheld.
  destruct held as [|[p' c] [|]]; simplify_eq/=. destruct (bo_content Hbk p c) as (b & Hb & Hc); [by left|].
  pose proof (on_way_few _ _ _ _ _ H) as Hfew. pose proof (li_few H) as H64.
  pose proof (bo_count Hbk) as Hcnt.
  assert (Hin : p ∈ on_way (lg_backend g) queued.*1).
  { unfold on_way. rewrite Epc. cbn. rewrite elem_of_app. right. by left. }
  pose proof (ptr_buf_wf _ _ _ _ _ _ _ H Hin Hb) as Hwf.
  assert (Hcnt' : (length (pending (lg_backend g)) + length (bk_cq (lg_backend g)) < 64)%nat).
  { unfold on_way in Hfew. rewrite Epc, !length_app, !length_fmap in Hfew. simpl in Hfew. lia. }
  unfold submit_buf. rewrite Hb. step. fold (content b). rewrite Hc. destruct (bk_fd (lg_backend g) <? 0) eqn:Efd; bools.
  { by apply submit_dropped_ok. }
  rewrite (proj2 (Z.leb_gt _ _)) by (unfold ring_depth, pending in *; rewrite length_app in Hcnt'; lia).
  eexists. split; [done|]. set (k := lg_backend g) in *.
  pose proof Hwf as [Hbl Hbs]. rewrite (u32_small (lb_current_size b)) by lia. rewrite u32_small by lia.
  set (w := mkLogWrite p _ _ _). set (k' := mkBackend _ _ _ _ _ _ _ _ _ _ _ _).
  assert (Hpend : pending k' ≡ₚ w :: pending k).
  { unfold pending. cbn. rewrite <- app_assoc. symmetry. apply Permutation_middle. }
  assert (Hin' : ∀ w', w' ∈ pending k' ↔ w' = w ∨ w' ∈ pending k) by (intros w'; by rewrite Hpend, elem_of_cons).
  pose proof (li_steps H) as Hs.
  eapply (back_move m g _ h h [(p, c)] [] queued queued); try done; [| |lia|].
  - cbn. fold k. unfold on_way. rewrite Hpend, Epc. reflexivity.
  - destruct Hbk. split; cbn; try done.
    + fold k. by rewrite fmap_app, bo_flushed0, <- app_assoc.
    + intros q c' Hqc. apply (bo_content0 q c'). by right.
    + change ((bk_sq k ++ [w]) ++ bk_kernel k) with (pending k'). pose proof (Permutation_length Hpend) as Hpl. simpl in Hpl. lia.
    + intros w' [-> |Hw']%Hin'; [|by apply bo_writes0]. split; [done|]. split; [exact Efd|].
      exists b. split; [exact Hb|]. split; [done|]. cbn. lia.
    + fold k. intros e [He|He%list_elem_of_singleton]%elem_of_app; [auto|]. subst e. done.
    + intros Hl. apply bo_late0. fold k. rewrite Epc. by destruct last.
  - cbn. fold k'. intros Hbd. assert (Hexp := fun f old => expected_snoc k k' (bk_fd k) p c f old eq_refl).
    apply (submit_files g k' p b); try done; [..|by rewrite Hc].
    + apply (li_files H). intros f old Hold. specialize (Hbd f old Hold). rewrite Hexp, length_app in Hbd. fold k. lia.
    + pose proof (bo_files Hbk) as E1. pose proof (bo_fd Hbk) as E2. fold k in E1, E2 |- *. lia.
    + intros w' Hw'. by destruct (bo_writes Hbk w' Hw') as (? & _ & ? & _ & _ & ?).
Qed.

(** *** A new file *)
Lemma filter_none {A} (P : A → Prop) `{!∀ x, Decision (P x)} l : (∀ x, x ∈ l → ¬ P x) → filter P l = [].
Proof.
  induction l as [|x l IH]; intros Hl; [done|]. rewrite filter_cons_False by (apply Hl; by left).
  apply IH. intros y Hy. apply Hl. by right.
Qed.

(** A newly opened file holds what it held. *)
Lemma opened_files m g h held queued k' old :
  let k := lg_backend g in
  lg_inv m g h held queued → pending k = [] → pending k' = [] → bk_done k' = bk_done k → bk_lost k' = bk_lost k →
  bk_fd k' = Z.of_nat (length (bk_files k)) → bk_offset k' = Z.of_nat (length old) →
  bk_files k' = bk_files k ++ [old] → bk_olds k' = bk_olds k ++ [old] → bounded k' → files_ok (lg_with_backend g k').
Proof.
  intros k H Hp Hp' Ed Els Ef Eo Efs El Hb. pose proof (li_back H) as Hbk.
  assert (Hlen := bo_files Hbk). fold k in Hlen.
  assert (He : ∀ f l, expected k' f l = expected k f l) by (intros f l; unfold expected, file_entries; by rewrite Ed).
  assert (Hnone : ∀ l, expected k (length (bk_olds k)) l = l).
  { intros l. unfold expected, file_entries. rewrite filter_none; [by rewrite app_nil_r|].
    intros e Hin E. pose proof (bo_done Hbk e Hin) as Hd. fold k in Hd. lia. }
  assert (Hold : ∀ f l, (bk_olds k ++ [old]) !! f = Some l → bk_olds k !! f = Some l ∨ f = length (bk_olds k) ∧ l = old).
  { intros f l [Hl|[Hl Hl']]%lookup_app_Some; [by left|]. apply list_lookup_singleton_Some in Hl' as [? <-]. right. split; [lia|done]. }
  destruct (li_files H) as [_ _ Hc].
  { intros f l Hl. fold k in Hl |- *. rewrite <- He. apply Hb. rewrite El. by apply lookup_app_l_Some. }
  fold k in Hc. assert (Hun : unwritten k' = unwritten k) by (unfold unwritten; by rewrite Hp, Hp', Els).
  split; cbn; rewrite ?Hun, ?Ef, ?Efs, ?El, ?Eo, ?Hp'; setoid_rewrite He.
  - intros l _. rewrite Nat2Z.id, Hlen, lookup_app_r, Nat.sub_diag by lia. intros [= <-]. by rewrite Hnone.
  - intros w l b Hw. by apply elem_of_nil in Hw.
  - intros f l file Hl Hfile. apply Hold in Hl as [Hl|[-> ->]].
    + pose proof (lookup_lt_Some _ _ _ Hl). rewrite lookup_app_l in Hfile by lia.
      by apply (Hc f l file).
    + rewrite <- Hlen, lookup_app_r, Nat.sub_diag in Hfile by lia. injection Hfile as <-. rewrite Hnone. split; [done|].
      intros i Hi. by right.
Qed.

Lemma switch_ok m g h held queued opened pc first :
  lg_inv m g h held queued → bk_pc (lg_backend g) = BkOpen first → held_ptr pc = [] → late_pc pc = false →
  (∀ k, bk_pc k = pc → back_pc_ok k) →
  lg_inv (S m) (lg_with_backend g (switch_log_file_date (lg_backend g) opened pc)) h held queued.
Proof.
  intros H Epc Hh Hlate Hpc. pose proof (li_back H) as Hbk. pose proof (bo_pc Hbk) as H0.
  unfold back_pc_ok in H0. rewrite Epc in H0. destruct (no_flight _ _ _ _ _ H H0) as [Hp Hq].
  assert (Hpast : past_pc pc = false) by (by destruct pc as [| | | | | |[]|? []|[]| | | | |]).
  pose proof (bo_held Hbk) as Hheld. rewrite Epc in Hheld. simpl in Hheld.
  pose proof (li_steps H) as Hs. unfold pending in Hp.
  destruct opened as [old|]; cbn [switch_log_file_date];
    (eapply (back_move m g _ h h held held queued queued); try done; [|  |lia|]); cbn.
  - unfold on_way, pending. cbn. by rewrite Epc, Hh.
  - destruct Hbk. split; cbn; rewrite ?Hlate, ?Hpast, ?Hh; try done.
    + unfold pending. cbn. rewrite Hp. intros w Hw. by apply elem_of_nil in Hw.
    + by apply Hpc.
    + rewrite !length_app. cbn. lia.
    + rewrite length_app. cbn. lia.
    + intros e He. rewrite length_app. specialize (bo_done0 _ He). lia.
  - by eapply (opened_files m g h held queued _ old).
  - unfold on_way, pending. cbn. by rewrite Epc, Hh.
  - destruct Hbk. split; cbn; rewrite ?Hlate, ?Hpast, ?Hh; try done.
    + unfold pending. cbn. rewrite Hp. intros w Hw. by apply elem_of_nil in Hw.
    + by apply Hpc.
    + lia.
  - intros Hb. destruct (li_files H Hb) as [_ _ Hc]. split; cbn; [done| |done].
    unfold pending. cbn. rewrite Hp. intros w l b Hw. by apply elem_of_nil in Hw.
Qed.

(** Executing a write makes its cells those expected, but for those it leaves
    out. *)
Lemma kernel_files g k' w b file res :
  let k := lg_backend g in
  files_ok g → w ∈ pending k → ptr_buf g (lw_buf w) = Ok b → wf_buf b → bk_files k !! Z.to_nat (lw_fd w) = Some file →
  0 ≤ lw_fd w → lw_len w = lb_current_size b → 0 ≤ res ≤ lw_len w →
  (∀ w', w' ∈ pending k ↔ w' = w ∨ w' ∈ pending k') → bk_fd k' = bk_fd k → bk_offset k' = bk_offset k → bk_olds k' = bk_olds k →
  bk_done k' = bk_done k → bk_lost k' = bk_lost k ++ left_out w res →
  bk_files k' = <[Z.to_nat (lw_fd w) := file_write file (Z.to_nat (lw_off w)) (mem_read (lb_buffer b) 0 res)]> (bk_files k) →
  files_ok (lg_with_backend g k').
Proof.
  intros k [Ho Hsl Hc] Hw Hb Hwf Hfile Hfd Hlen Hres Hin Ef Eo El Ed Els Efs. fold k in Ho, Hsl, Hc.
  assert (He : ∀ f old, expected k' f old = expected k f old) by (intros f old; unfold expected, file_entries; by rewrite Ed).
  pose proof (content_length b Hwf) as Hcl. pose proof Hwf as [Hbl Hbs].
  assert (Hml : length (mem_read (lb_buffer b) 0 res) = Z.to_nat res) by (apply Nat2Z.inj; rewrite mem_read_length; lia).
  assert (Hun : ∀ w' f i, w' ∈ unwritten k → covers w' f i → (w' = w → ¬ (lw_off w ≤ Z.of_nat i < lw_off w + res)) →
    ∃ w2, w2 ∈ unwritten k' ∧ covers w2 f i).
  { intros w' f i Hw' Hcov Hi. unfold unwritten in *. rewrite elem_of_app, Hin in Hw'. rewrite Els.
    destruct Hw' as [[-> |Hw']|Hw']; [|exists w'; rewrite !elem_of_app; tauto..]. specialize (Hi eq_refl).
    destruct Hcov as [E ?]. exists (mkLogWrite (lw_buf w) (lw_fd w) (lw_len w - res) (lw_off w + res)). split.
    - unfold left_out. rewrite (proj2 (Z.ltb_lt _ _)), !elem_of_app, list_elem_of_singleton by lia. auto.
    - split; cbn; [done|lia]. }
  split; cbn; rewrite ?Ef, ?Eo, ?El, ?Efs; setoid_rewrite He; [done| |].
  - intros w' old b' Hw'. apply Hsl, Hin. by right.
  - intros f old file' Hold Hfile'. apply list_lookup_insert_Some in Hfile' as [[<- [<- _]]|[Hne Hfile']].
    + destruct (Hsl w old b Hw Hold Hb) as (Hoff & Hmr & Hend). destruct (Hc _ old file Hold Hfile) as [Hlf Hcell]. split.
      { etrans; [apply file_write_length|]. rewrite Hml. lia. }
      intros j Hj. rewrite file_write_lookup, Hml. case_decide as Hr.
      { right. rewrite mem_read_lookup, decide_True by lia. transitivity (content b !! (j - Z.to_nat (lw_off w))%nat).
        - unfold content. rewrite mem_read_lookup, decide_True by lia. done.
        - rewrite <- Hmr, mem_read_lookup, decide_True by lia. f_equal. lia. }
      destruct (Hcell j Hj) as [(w' & Hw' & Hcov)|Hsame]; [left; apply (Hun w'); try done; lia|].
      right. rewrite decide_True; [done|]. apply lookup_lt_is_Some. rewrite Hsame. by apply lookup_lt_is_Some_2.
    + destruct (Hc f old file' Hold Hfile') as [Hlf Hcell]. split; [done|]. intros j Hj.
      destruct (Hcell j Hj) as [(w' & Hw' & Hcov)|Hsame]; [|by right]. left. apply (Hun w'); try done. intros -> _.
      destruct Hcov as [E _]. lia.
Qed.

(** *** The kernel executes a write *)
Lemma kernel_step_ok m g h held queued i short :
  lg_inv m g h held queued → ∃ g', kernel_step g i short = Ok g' ∧ lg_inv (S m) g' h held queued.
Proof.
  intros H. unfold kernel_step. set (k := lg_backend g) in *. destruct (bk_kernel k !! i) as [w|] eqn:Ew.
  2:{ eexists. split; [done|]. by apply lg_inv_S. }
  pose proof (li_back H) as Hbk. fold k in Hbk.
  assert (Hw : w ∈ pending k) by (unfold pending; rewrite elem_of_app; right; by eapply list_elem_of_lookup_2).
  destruct (bo_writes Hbk w Hw) as (Efd & Hfd & b & Hb & Hlen & Hl0). fold k in Efd.
  set (res := Z.max 0 _). assert (Hres : 0 ≤ res ≤ lw_len w) by lia. rewrite Hb. step.
  pose proof (bo_fd Hbk) as Hfl. fold k in Hfl. pose proof (bo_files Hbk) as Hfo. fold k in Hfo.
  destruct (lookup_lt_is_Some_2 (bk_files k) (Z.to_nat (lw_fd w))) as [file Hfile]; [lia|].
  rewrite (arr_get_ok _ _ file) by done. step. rewrite arr_set_ok by lia. step. eexists. split; [done|].
  set (k' := mkBackend _ _ _ _ _ _ _ _ _ _ _ _).
  assert (Hker : bk_kernel k ≡ₚ w :: delete i (bk_kernel k)) by (by apply delete_Permutation).
  assert (Hpend : pending k ≡ₚ w :: pending k').
  { unfold pending. cbn. rewrite Hker at 1. symmetry. apply Permutation_middle. }
  assert (Hin : ∀ w', w' ∈ pending k ↔ w' = w ∨ w' ∈ pending k') by (intros w'; by rewrite Hpend, elem_of_cons).
  pose proof (li_steps H) as Hs.
  eapply (back_move m g _ h h held held queued queued); try done; [| |lia|]; cbn; fold k.
  - unfold on_way. rewrite Hpend. cbn. rewrite (app_assoc _ (bk_cq k)), (Permutation_app_comm _ [_]). cbn.
    by rewrite <- Permutation_middle.
  - destruct Hbk. split; cbn; rewrite ?length_insert; try done.
    + fold k'. change (bk_sq k ++ delete i (bk_kernel k)) with (pending k'). rewrite length_app. cbn.
      pose proof (Permutation_length Hpend) as Hpl. cbn in Hpl. fold k in bo_count0. lia.
    + intros w' Hw'. apply bo_writes0, Hin. by right.
    + unfold back_pc_ok in *. cbn. fold k in bo_pc0. destruct (bk_pc k); try done;
        rewrite bo_pc0 in Hw; by apply elem_of_nil in Hw.
  - intros Hbd. eapply (kernel_files g k' w b file res); try done; [by apply (li_files H)|].
    eapply ptr_buf_wf; [exact H|by apply pending_on_way|done].
Qed.

(** *** The backend's loop *)
Lemma reap_cqe m g h held queued :
  lg_inv m g h held queued → 0 < bk_in_flight (lg_backend g) → pending (lg_backend g) = [] → bk_cq (lg_backend g) ≠ [].
Proof.
  intros H Hi Hp E. pose proof (bo_count (li_back H)) as Hc. rewrite Hp, E in Hc. simpl in Hc. lia.
Qed.

Lemma reap_ok m g h held queued :
  lg_inv m g h held queued → bk_cq (lg_backend g) ≠ [] →
  bk_pc (lg_backend g) = BkReap ∨ bk_pc (lg_backend g) = BkSwitchReap ∨ bk_pc (lg_backend g) = BkLastReap →
  ∃ g' h' held' queued', handle_cqe g = Ok g' ∧ lg_inv (S m) g' h' held' queued'.
Proof.
  intros H Hcq Epc. pose proof (bo_pc (li_back H)) as Hpc. unfold back_pc_ok in Hpc.
  destruct (handle_cqe_ok m g h held queued H Hcq) as (g' & E & Hi); [|by exists g', h, held, queued].
  intros k' E1 E2. unfold back_pc_ok. rewrite E1, E2. destruct Epc as [Epc|[Epc|Epc]]; by rewrite Epc in Hpc |- *.
Qed.

Lemma backend_step_ok m g h held queued date opened :
  lg_inv m g h held queued → Z.of_nat m + 256 < 2 ^ 63 →
  ∃ g' h' held' queued', backend_step g date opened = Ok g' ∧ lg_inv (S m) g' h' held' queued'.
Proof.
  intros H Hm. pose proof (li_back H) as Hbk. unfold backend_step. set (k := lg_backend g) in *.
  pose proof (fun k' n => back_shuffle m g k' n h held queued H) as Hmv. cbn zeta in Hmv. fold k in Hmv.
  pose proof (bo_pc Hbk) as Hpc. fold k in Hpc. unfold back_pc_ok in Hpc.
  pose proof (bo_late Hbk) as Hlate. fold k in Hlate. pose proof (bo_past Hbk) as Hpast. fold k in Hpast.
  pose proof (bo_count Hbk) as Hcnt. fold k in Hcnt.
  assert (Hsub : ∀ pc, pending (bk_with_pc (ring_submit k) pc) ≡ₚ pending k).
  { intros pc. unfold pending. cbn. apply Permutation_app_comm. }
  assert (Hwait : (Z.of_nat (length (bk_cq k)) <? bk_in_flight k) = false → bk_kernel k ++ bk_sq k = []).
  { intros E. bools. apply length_zero_iff_nil. unfold pending in Hcnt. rewrite length_app in *. lia. }
  destruct (bk_pc k) as [| | | |first| |last|p last|last| | | | |] eqn:Epc.
  - eexists _, h, held, queued. split; [done|]. apply (Hmv _ (lg_semaphore g)); try done.
  - destruct (lg_stop g) eqn:Es; [|destruct (decide _)]; (eexists _, h, held, queued; split; [done|]);
      apply (Hmv _ (lg_semaphore g)); try done; destruct (0 <? _) eqn:E; try done; bools.
    unfold back_pc_ok. cbn. rewrite Hcnt in *. lia.
  - eexists _, h, held, queued. split; [done|]. apply (Hmv _ (lg_semaphore g)); try done; try apply Hsub;
      cbn [ring_submit bk_cq bk_in_flight]; destruct (_ <? _) eqn:E; try done. by apply Hwait.
  - destruct (0 <? _) eqn:E; bools.
    + eapply reap_ok; [exact H|by eapply reap_cqe|fold k; rewrite Epc; auto].
    + eexists _, h, held, queued. split; [done|]. apply (Hmv _ (lg_semaphore g)); try done.
      unfold back_pc_ok. cbn. rewrite Hcnt in *. lia.
  - eexists _, h, held, queued. split; [done|]. apply (switch_ok m g h held queued opened _ first); try done; [by destruct first..|].
    intros k' E. unfold back_pc_ok. rewrite E. by destruct first.
  - destruct (0 <? lg_semaphore g); (eexists _, h, held, queued; split; [done|]); [|by apply lg_inv_S].
    apply (Hmv _ (lg_semaphore g - 1)); done.
  - destruct (dequeue_ok m g h held queued last H Hm Epc) as (g' & h' & held' & queued' & E & Hi).
    by exists g', h', held', queued'.
  - destruct (submit_buf_ok m g h held queued p last H Epc) as (g' & E & Hi). by exists g', h, [], queued.
  - eexists _, h, held, queued. split; [done|]. apply (Hmv _ (lg_semaphore g)); try done; try apply Hsub; by destruct last.
  - destruct (bk_cq k) eqn:Ecq.
    + eexists _, h, held, queued. split; [done|]. by apply (Hmv _ (lg_semaphore g)).
    + eapply reap_ok; [exact H|fold k; by rewrite Ecq|fold k; rewrite Epc; auto].
  - eexists _, h, held, queued. split; [done|]. apply (Hmv _ (lg_semaphore g)); try done; by destruct (lg_stop g).
  - destruct (0 <? _) eqn:E; bools; (eexists _, h, held, queued; split; [done|]); apply (Hmv _ (lg_semaphore g)); try done;
      try apply Hsub; cbn [ring_submit bk_cq bk_in_flight].
    + destruct (_ <? _) eqn:E'; try done.
    + destruct (_ <? _) eqn:E'; try done. by apply Hwait.
    + intros _. by apply Hlate.
    + intros _. by apply Hpast.
    + unfold back_pc_ok. cbn. rewrite Hcnt in *. lia.
  - destruct (0 <? _) eqn:E; bools.
    + eapply reap_ok; [exact H|by eapply reap_cqe|fold k; rewrite Epc; auto].
    + eexists _, h, held, queued. split; [done|]. by apply (Hmv _ (lg_semaphore g)).
  - eexists _, h, held, queued. split; [done|]. by apply lg_inv_S.
Qed.

(** *** Every event *)
Lemma lg_step_ok m g h held queued e :
  lg_inv m g h held queued → Z.of_nat m + 256 < 2 ^ 63 →
  ∃ g' h' held' queued', lg_step BS junk g e = Ok g' ∧ lg_inv (S m) g' h' held' queued'.
Proof.
  intros H Hm.
  assert (Hstay : ∃ g' h' held' queued', Ok g = Ok g' ∧ lg_inv (S m) g' h' held' queued').
  { exists g, h, held, queued. split; [done|]. by apply lg_inv_S. }
  destruct e as [t level ts_buf message born now|level|t|t| |date opened|i short]; cbn [lg_step]; try done.
  - destruct (lg_threads g !! t) as [[ts [] acc]|] eqn:Hth; try done.
    destruct (Logger_log _ _ _ _) as [line|] eqn:El; [|done].
    edestruct (append_start_ok m g h held queued t) as (g' & -> & Hi); [done..|by eapply log_line_length|].
    by exists g', h, held, queued.
  - eexists _, h, held, queued. split; [done|]. apply lg_inv_S. destruct H. split; try done.
    by destruct li_back0. by intros []%li_files0.
  - destruct (lg_threads g !! t) as [th|] eqn:Hth; [|done].
    destruct (thread_step_ok m g h held queued t th H Hth Hm) as (g' & queued' & -> & Hi). by exists g', h, held, queued'.
  - destruct (lg_threads g !! t) as [[ts [] acc]|] eqn:Hth; try done.
    edestruct (guard_start_ok m g h held queued t) as (g' & -> & Hi); [done..|]. by exists g', h, held, queued.
  - destruct (lg_threads g !! 0%nat) as [[ts [] acc]|] eqn:Hth; try done.
    + edestruct (destroy_start_ok m g h held queued) as (g' & -> & Hi); [done..|by left|]. by exists g', h, held, queued.
    + destruct (lg_stop g) eqn:Es; [done|].
      edestruct (destroy_start_ok m g h held queued) as (g' & -> & Hi); [done..|by right|]. by exists g', h, held, queued.
  - by eapply backend_step_ok.
  - destruct (kernel_step_ok m g h held queued i short H) as (g' & -> & Hi). by exists g', h, held, queued.
Qed.

Lemma lg_run_ok es : ∀ m g h held queued,
  lg_inv m g h held queued → Z.of_nat (m + length es) + 256 < 2 ^ 63 →
  ∃ g' h' held' queued', lg_run BS junk g es = Ok g' ∧ lg_inv (m + length es) g' h' held' queued'.
Proof.
  induction es as [|e es IH]; intros m g h held queued H Hm; cbn [lg_run length] in *.
  - exists g, h, held, queued. by rewrite Nat.add_0_r.
  - destruct (lg_step_ok m g h held queued e H) as (g1 & h1 & d1 & q1 & -> & Hg1); [lia|]. step.
    destruct (IH (S m) g1 h1 d1 q1 Hg1) as (g2 & h2 & d2 & q2 & -> & Hg2); [lia|].
    exists g2, h2, d2, q2. by rewrite <- Nat.add_succ_comm.
Qed.

Lemma Logger_new_inv n : (n ≤ 64)%nat → lg_inv 0 (Logger_new n) 0 [] [].
Proof.
  intros Hn. split; cbn; try done.
  - intros t th [-> _]%lookup_replicate. split_and!; try done; cbn.
    split_and!; try done; apply not_elem_of_nil.
  - by rewrite length_replicate.
  - intros p Hp. by apply elem_of_nil in Hp.
  - constructor.
  - split; cbn; try done.
    + apply (MPSCQueue_new_rep 7 ltac:(lia) FLUSH_QUEUE_CAPACITY eq_refl (fun _ => 0)).
    + intros p c Hp. by apply elem_of_nil in Hp.
    + intros w Hw. by apply elem_of_nil in Hw.
    + intros e He. by apply elem_of_nil in He.
  - by intros th [-> _]%lookup_replicate.
Qed.
End inv.
