(* ===== verification/LoggerProps.v ===== *)
(** The guarantees of [Logger] on top of the invariant of LoggerInv.v: what the
    log files hold, how the destructor of the logger ends, and what the backend
    does not guarantee. *)
From stdpp Require Import base list numbers.
From Stdlib Require Import Strings.Byte Strings.String.
From S2P Require Import Prelude.
From S2P Require Import MpscQueue.
From S2P Require Import Logger.
From S2P Require Import LoggerInv.
Local Open Scope Z_scope.

(** The bytes of the front buffer of a thread. *)
Definition front_bytes (th : lthread) : list byte :=
  match lt_ts th with
  | Some ts => match th_buf ts (th_write_idx ts) with Ok b => content b | Fault _ => [] end
  | None => []
  end.

Section files.
Context (BS : Z) (junk : nat → byte) (HBS : line_size ≤ BS < 2 ^ 32).

(** The bytes of a file that a short or failed write left out. *)
Definition lost_at (k : backend) (f i : nat) : Prop := ∃ w, w ∈ bk_lost k ∧ covers w f i.

(** [file] holds what is expected of file [f], but for the bytes left out. *)
Definition file_written (k : backend) (f : nat) (old file : list byte) : Prop :=
  (length file ≤ length (expected k f old))%nat ∧
  (∀ i, (i < length (expected k f old))%nat → file !! i = expected k f old !! i ∨ lost_at k f i) ∧
  (bk_lost k = [] → file = expected k f old).

Lemma files_written m g h held queued f old :
  lg_inv BS m g h held queued → pending (lg_backend g) = [] → bounded (lg_backend g) →
  bk_olds (lg_backend g) !! f = Some old →
  ∃ file, bk_files (lg_backend g) !! f = Some file ∧ file_written (lg_backend g) f old file.
Proof.
  intros H Hp Hb Ho. pose proof (li_back H) as Hbk. pose proof (li_files H Hb) as Hf.
  destruct (lookup_lt_is_Some_2 (bk_files (lg_backend g)) f) as [file Hfile].
  { rewrite (bo_files Hbk). by eapply lookup_lt_Some. }
  exists file. split; [done|]. destruct (fo_cells _ Hf _ _ _ Ho Hfile) as [Hl Hc]. unfold unwritten in Hc. rewrite Hp in Hc.
  split_and!; [done| |].
  - intros i Hi. destruct (Hc i Hi) as [Hw|E]; [by right|by left].
  - intros E. apply list_eq. intros i. destruct (decide (i < length (expected (lg_backend g) f old))%nat) as [Hi|Hi].
    + destruct (Hc i Hi) as [(w & Hw & _)|?]; [|done]. rewrite E in Hw. by apply elem_of_nil in Hw.
    + rewrite !lookup_ge_None_2 by lia. done.
Qed.

Lemma idle_accepted m g h held queued t th :
  lg_inv BS m g h held queued → lg_threads g !! t = Some th → lt_pc th = LpIdle →
  lt_accepted th = thread_bytes t (lg_flushed g) ++ front_bytes th.
Proof.
  intros H Hth Epc. destruct (li_threads H _ Hth) as (_ & Hst & _). unfold front_bytes. rewrite Epc in Hst.
  destruct (lt_ts th) as [ts|]; [|destruct Hst as (_ & Ha & _); by rewrite app_nil_r; apply Ha].
  destruct Hst as (w & f & k & Hok). rewrite (ts_rep_front _ _ _ _ (so_rep Hok)).
  by destruct (so_in_use Hok eq_refl).
Qed.

Lemma done_no_pending m g h held queued :
  lg_inv BS m g h held queued → bk_pc (lg_backend g) = BkDone → pending (lg_backend g) = [] ∧ bk_cq (lg_backend g) = [].
Proof.
  intros H Epc. pose proof (li_back H) as Hbk. pose proof (bo_pc Hbk) as Hpc. unfold back_pc_ok in Hpc.
  rewrite Epc in Hpc. pose proof (bo_count Hbk) as Hc. split; apply length_zero_iff_nil; lia.
Qed.
End files.

(** C5. The logger as append-only files.  At most 64 threads (the depth of the
    backend's ring) log, end, and the main thread destroys the logger, in any
    interleaving with the backend and with the kernel, which executes the
    submitted writes in any order, each one completely, in part or not at all.
    Then nothing fails: no buffer overflows, no deleted buffer is accessed,
    [get_sqe] never throws and no empty completion is handled.  The backend
    deals with the buffers in the order in which the threads put them in the
    queue.  The buffers a thread handed over hold, concatenated, a prefix of
    the lines its calls of [log] accepted.  The rest is in the front buffer of
    a thread that is between two calls; nothing is said of the rest of a thread
    that is inside a call or has ended (a thread that ends drops its front
    buffer when it finds its other buffer in flight or the queue full).
    Whenever no write is outstanding, so in particular when the backend has
    ended, every file holds what it held when opened followed by the buffers
    prepared for it, in that order and without gap, but for the bytes that
    short or failed writes left out, whose results the backend does not look
    at; it is the whole of it when no write was short.  (Unless it is more than
    offsets can express.) *)
Theorem logger_appends_lines_in_order BS junk threads es :
  line_size ≤ BS < 2 ^ 32 → (threads ≤ 64)%nat → Z.of_nat (length es) < 2 ^ 62 →
  ∃ g rest, lg_run BS junk (Logger_new threads) es = Ok g ∧
    lg_flushed g = (bk_done (lg_backend g)).*2 ++ rest ∧
    (∀ t th, lg_threads g !! t = Some th →
       thread_bytes t (lg_flushed g) `prefix_of` lt_accepted th ∧
       (lt_pc th = LpIdle → lt_accepted th = thread_bytes t (lg_flushed g) ++ front_bytes th)) ∧
    (bk_pc (lg_backend g) = BkDone → pending (lg_backend g) = []) ∧
    (pending (lg_backend g) = [] → bounded (lg_backend g) → ∀ f old, bk_olds (lg_backend g) !! f = Some old →
       ∃ file, bk_files (lg_backend g) !! f = Some file ∧ file_written (lg_backend g) f old file).
Proof.
  intros HBS Hn Hl.
  destruct (lg_run_ok BS junk HBS es 0 _ 0 [] [] (Logger_new_inv BS threads Hn)) as (g & h & held & queued & Hr & H); [lia|].
  exists g, (held ++ queued). split; [done|]. split; [apply (bo_flushed (li_back H))|]. split_and!.
  - intros t th Hth. split; [apply (li_threads H _ Hth)|]. by eapply idle_accepted.
  - intros E. by eapply done_no_pending.
  - intros Hp Hb f old Ho. by eapply files_written.
Qed.

(** Two threads log; the second one ends and the main thread destroys the
    logger. *)
Definition demo_join : list lg_event :=
  let date := list_byte_of_string "2026-01-05"%string in
  let b := EvBackend date (Some (list_byte_of_string "old. "%string)) in
  let ts := list_byte_of_string "12:00:00"%string in
  [b; b; b; EvLog 0 LvInfo ts (list_byte_of_string "one"%string) 0 0; EvThread 0;
   EvLog 1 LvError ts (list_byte_of_string "two"%string) 0 0; EvThread 1; EvSetLevel LvWarning;
   EvLog 0 LvInfo ts (list_byte_of_string "dropped"%string) 0 0;
   EvExit 1; EvThread 1; EvThread 1; EvThread 1; EvThread 1; EvDestroy; EvThread 0; EvThread 0; EvThread 0; EvThread 0;
   b; b; b; b; b; b; EvKernel 1 None; b; EvThread 0; EvThread 0; EvThread 0].
Definition demo_run : list lg_event :=
  demo_join ++ concat (replicate 12 [EvKernel 0 None; EvBackend [] None]) ++ [EvThread 1; EvThread 1; EvThread 0].

Lemma logger_appends_lines_in_order_witness :
  ∃ g, lg_run 512 (fun _ => x00) (Logger_new 2) demo_run = Ok g ∧ lt_pc <$> lg_threads g = [LpExited; LpExited] ∧
    bk_pc (lg_backend g) = BkDone ∧ bk_fd (lg_backend g) = 0 ∧
    bk_files (lg_backend g) !! 0%nat = Some (expected (lg_backend g) 0 (list_byte_of_string "old. "%string)) ∧
    expected (lg_backend g) 0 (list_byte_of_string "old. "%string) = list_byte_of_string "old. "%string ++
      list_byte_of_string "12:00:00 [ERROR] two"%string ++ [x0a] ++ list_byte_of_string "12:00:00 [INFO] one"%string ++ [x0a].
Proof.
  destruct (logger_appends_lines_in_order 512 (fun _ => x00) 2 demo_run) as (g & rest & Hr & _ & _ & _ & Hf);
    [unfold line_size; lia|lia|vm_compute; done|].
  exists g. split; [exact Hr|]. vm_compute in Hr. injection Hr as Hg. subst g.
  split; [done|]. split; [done|]. split; [done|]. split; [|done].
  destruct (Hf eq_refl) with (f := 0%nat) (old := list_byte_of_string "old. "%string) as (file & Hfile & _ & _ & Hw); [|done|].
  - intros [|[|f]] old E; [|done|done]. injection E as <-. vm_compute. done.
  - by rewrite Hfile, Hw.
Defined.

(** ** A thread that ends while the backend sleeps *)

(** The only thread waits for a buffer to come back, and the backend waits for
    a buffer. *)
Definition stalled (i : Z) (g : Logger) : Prop :=
  ∃ ts b acc, lg_threads g = [mkLthread (Some ts) (GdWait i) acc] ∧ th_buf ts i = Ok b ∧ lb_in_flight b = true ∧
    lg_semaphore g = 0 ∧ bk_pc (lg_backend g) = BkAcquire ∧
    ∀ w, w ∈ bk_kernel (lg_backend g) → (∃ b', ptr_buf g (lw_buf w) = Ok b') ∧
      0 ≤ lw_fd w < Z.of_nat (length (bk_files (lg_backend g))).

Lemma stalled_kernel j g i short : stalled j g → ∃ g', kernel_step g i short = Ok g' ∧ stalled j g'.
Proof.
  intros (ts & b & acc & Et & Hb & Hf & Hs & Hpc & Hk). unfold kernel_step.
  assert (Hst : stalled j g) by (by exists ts, b, acc). destruct (bk_kernel (lg_backend g) !! i) as [w|] eqn:Ew; [|by eexists].
  destruct (Hk w) as ((b' & Hb') & Hfd); [by eapply list_elem_of_lookup_2|]. rewrite Hb'. step.
  destruct (lookup_lt_is_Some_2 (bk_files (lg_backend g)) (Z.to_nat (lw_fd w))) as [file Hfile]; [lia|].
  rewrite (arr_get_ok _ _ _ (proj1 Hfd) Hfile). step. rewrite arr_set_ok by lia. step. eexists. split; [done|]. exists ts, b, acc. split_and!; try done. cbn.
  intros w' Hw'. rewrite length_insert. apply Hk. by eapply list_elem_of_delete_inv.
Qed.

Lemma stalled_step BS junk j g e : stalled j g → ∃ g', lg_step BS junk g e = Ok g' ∧ stalled j g'.
Proof.
  intros Hst. pose proof Hst as (ts & b & acc & Et & Hb & Hf & Hs & Hpc & Hk).
  destruct e as [t level ts_buf message born now|level|t|t| |date opened|i short]; cbn [lg_step].
  - rewrite Et. by destruct t; cbn; eexists.
  - eexists. split; [done|]. exists ts, b, acc. done.
  - rewrite Et. destruct t; cbn; [|by eexists]. rewrite Hb. cbn. rewrite Hf. by eexists.
  - rewrite Et. by destruct t; cbn; eexists.
  - rewrite Et. by eexists.
  - unfold backend_step. rewrite Hpc, Hs. by eexists.
  - by apply stalled_kernel.
Qed.

Lemma stalled_run BS junk j es : ∀ g, stalled j g → ∃ g', lg_run BS junk g es = Ok g' ∧ stalled j g'.
Proof.
  induction es as [|e es IH]; intros g Hg; cbn; [by eexists|].
  destruct (stalled_step BS junk j g e Hg) as (g1 & -> & H1). step. by apply IH.
Qed.

(** The main thread logs one line and ends; the backend takes the buffer and
    looks for completions before the kernel has executed the write. *)
Definition hang_log : list lg_event :=
  let b := EvBackend (list_byte_of_string "2026-01-05"%string) (Some []) in
  [b; b; b; EvLog 0 LvError (list_byte_of_string "12:00:00"%string) (list_byte_of_string "bye"%string) 0 0].
Definition hang_exit : list lg_event :=
  let b := EvBackend (list_byte_of_string "2026-01-05"%string) (Some []) in
  [EvExit 0; EvThread 0; EvThread 0; EvThread 0; EvThread 0; b; b; b; b; b; b; b; b].

Lemma lg_run_app BS junk es1 es2 : ∀ g, lg_run BS junk g (es1 ++ es2) = (g ← lg_run BS junk g es1; lg_run BS junk g es2).
Proof.
  induction es1 as [|e es1 IH]; intros g; cbn; [done|]. destruct (lg_step BS junk g e); cbn; [apply IH|done].
Qed.

Lemma hang_stalls BS junk : line_size ≤ BS < 2 ^ 32 →
  ∃ g, lg_run BS junk (Logger_new 1) (hang_log ++ [EvThread 0] ++ hang_exit) = Ok g ∧ stalled 0 g.
Proof.
  intros HBS. unfold line_size in HBS. rewrite !lg_run_app.
  set (g1 := mkLogger LvDebug [mkLthread None LpIdle []] (MPSCQueue_new FLUSH_QUEUE_CAPACITY (fun _ => 0)) 0 false
    (mkBackend BkAcquire (list_byte_of_string "2026-01-05"%string) 0 0 0 [] [] [] [[]] [[]] [] []) []).
  set (line := list_byte_of_string "12:00:00 [ERROR] bye"%string ++ [x0a]).
  assert (E1 : lg_run BS junk (Logger_new 1) hang_log = append_start BS junk g1 0 (mkLthread None LpIdle []) line 0 0).
  { by vm_compute. }
  rewrite E1. clear E1. unfold append_start. cbn [lt_ts default]. change (th_buf _ _) with (Ok (LoggerBuffer_new BS junk)).
  step. replace (BS <? _) with false by (symmetry; apply Z.ltb_ge; transitivity 320; [by vm_compute|lia]). 
  cbn [orb negb andb LoggerBuffer_empty LoggerBuffer_new lb_current_size Z.eqb].
  destruct (mem_write_ok (new_array BS junk) 0 line) as (m & Hm & _); [lia|rewrite length_new_array; cbn; lia|].
  assert (Ha : LoggerBuffer_append (LoggerBuffer_new BS junk) line = Ok (mkLoggerBuffer m 21 false)).
  { unfold LoggerBuffer_append, LoggerBuffer_new. cbn [lb_buffer lb_current_size]. by rewrite Hm. }
  rewrite lg_run_app. cbn [lg_run lg_step goto set_thread lg_with_threads lg_threads g1 insert list_insert lookup list_lookup].
  unfold thread_step, append_step. cbn [lt_pc lt_ts].
  change (th_buf _ _) with (Ok (LoggerBuffer_new BS junk)). step. rewrite Ha. step.
  clear Ha Hm. generalize (LoggerBuffer_new BS junk). intros back. vm_compute. eexists. split; [done|].
  eexists _, _, _. split_and!; try done.
  intros w Hw. apply list_elem_of_singleton in Hw as ->. split; [by eexists|done].
Qed.

(** The end of a program that logs can hang.  The backend does not wait for
    completions: it looks for them once after submitting and then blocks in
    [semaphore_.acquire()].  The main thread logs one line and returns from
    [main]: its [ThreadFlushGuard] hands the buffer over and waits for it.  If
    the kernel has not executed the write when the backend looks, then no
    continuation whatsoever makes the guard return: the completion is never
    taken, the buffer stays in flight, and [~Logger], which runs after the
    guard and would wake the backend, is never reached. *)
Theorem exit_hangs_when_write_is_slow BS junk es : line_size ≤ BS < 2 ^ 32 →
  ∃ g ts acc, lg_run BS junk (Logger_new 1) ((hang_log ++ [EvThread 0] ++ hang_exit) ++ es) = Ok g ∧
    lg_threads g = [mkLthread (Some ts) (GdWait 0) acc].
Proof.
  intros HBS. destruct (hang_stalls BS junk HBS) as (g1 & H1 & Hst). rewrite lg_run_app, H1. step.
  destruct (stalled_run BS junk 0 es g1 Hst) as (g & -> & ts & b & acc & Et & _). by exists g, ts, acc.
Qed.

Lemma exit_hangs_when_write_is_slow_witness :
  ∃ g ts acc, lg_run (32 * 1024 * 1024) (fun _ => x00) (Logger_new 1)
      ((hang_log ++ [EvThread 0] ++ hang_exit) ++ [EvKernel 0 None; EvThread 0; EvBackend [] None; EvDestroy; EvThread 0]) = Ok g ∧
    lg_threads g = [mkLthread (Some ts) (GdWait 0) acc].
Proof. apply exit_hangs_when_write_is_slow. unfold line_size. lia. Defined.

(** ** More threads than entries of the ring *)

(** [n] threads log one line each and end before the backend looks at the
    queue, which holds 128 buffers. *)
Definition crowd_run (n : nat) : list lg_event :=
  let b := EvBackend (list_byte_of_string "2026-01-05"%string) (Some []) in
  [b; b; b] ++
  concat ((fun t => [EvLog t LvInfo [] (list_byte_of_string "x"%string) 0 0; EvThread t; EvExit t; EvThread t; EvThread t;
                     EvThread t; EvThread t]) <$> seq 0 n) ++
  [b] ++ concat (replicate n [b; b]).

(** The bound on the number of threads is needed: the backend takes every
    buffer out of the queue before it submits, but its ring has 64 entries.
    When 65 threads flush at once, [get_sqe] throws in the backend thread,
    which ends the program; 64 are fine.  (The buffers of this run have 512
    bytes; each holds one line.) *)
Theorem flush_of_65_threads_throws :
  lg_run 512 (fun _ => x00) (Logger_new 65) (crowd_run 65) = Fault Exception ∧
  ∃ g, lg_run 512 (fun _ => x00) (Logger_new 64) (crowd_run 64) = Ok g ∧ length (bk_sq (lg_backend g)) = 64%nat.
Proof. vm_compute. split; [done|]. by eexists. Qed.

(** ** More permits than the semaphore may hold *)

(** Two threads flush in each round, more than a second after the last one,
    and the backend goes once around its loop: it takes one permit and both
    buffers. *)
Definition busy_round (n : nat) : list lg_event :=
  let b := EvBackend (list_byte_of_string "2026-01-05"%string) (Some []) in
  let log t := EvLog t LvInfo [] (list_byte_of_string "x"%string) 0 (2 * one_second * Z.of_nat n) :: replicate 6 (EvThread t) in
  log 0%nat ++ log 1%nat ++ replicate 7 b ++ [EvKernel 0 None; EvKernel 0 None] ++ replicate 5 b.
Definition busy_run (n : nat) : list lg_event :=
  let b := EvBackend (list_byte_of_string "2026-01-05"%string) (Some []) in [b; b; b] ++ concat (busy_round <$> seq 1 n).

(** Nothing bounds the permits of [semaphore_] by the 128 that its type
    [std::counting_semaphore<128>] allows: every flush releases one and a turn
    of the backend's loop takes one, however many buffers it finds. *)
Theorem permits_exceed_semaphore_bound :
  ∃ g, lg_run 512 (fun _ => x00) (Logger_new 2) (busy_run 131) = Ok g ∧ lg_semaphore g = 130.
Proof. vm_compute. by eexists. Qed.
