(* ===== verification/LoggerShutdown.v ===== *)
(** The destructor of [Logger]: once it has asked the backend to stop and woken
    it up, the backend writes what is outstanding and ends within a bounded
    number of steps, and the destructor returns. *)
From stdpp Require Import base list numbers.
From Stdlib Require Import Strings.Byte.
From S2P Require Import Prelude.
From S2P Require Import MpscQueue.
From S2P Require Import Logger.
From S2P Require Import LoggerInv.
From S2P Require Import LoggerProps.
Local Open Scope Z_scope.

(** ** The permit of the destructor *)

(** The backend will acquire the semaphore before it looks at the stop request
    again. *)
Definition before_acquire (pc : back_pc) : bool :=
  match pc with BkStart | BkTop | BkSwitchWait | BkSwitchReap | BkOpen _ | BkAcquire => true | _ => false end.

Definition joining (g : Logger) : Prop := ∃ th, lg_threads g !! 0%nat = Some th ∧ lt_pc th = DsJoin.

Record wake_ok (g : Logger) : Prop := {
  wo_sem : 0 ≤ lg_semaphore g;
  wo_join : joining g → before_acquire (bk_pc (lg_backend g)) = true → 1 ≤ lg_semaphore g
}.

(** What a step of a thread does to the semaphore. *)
Record thread_moves (g g' : Logger) : Prop := {
  tm_backend : lg_backend g' = lg_backend g;
  tm_sem : lg_semaphore g ≤ lg_semaphore g';
  tm_join : joining g' → joining g ∨ lg_semaphore g' = lg_semaphore g + 1
}.

Lemma thread_moves_refl g : thread_moves g g.
Proof. split; [done|lia|auto]. Qed.

Lemma thread_moves_set g g' t th :
  lg_backend g' = lg_backend g → lg_semaphore g ≤ lg_semaphore g' → lg_threads g' = <[t := th]> (lg_threads g) →
  (lt_pc th = DsJoin → lg_semaphore g' = lg_semaphore g + 1) → thread_moves g g'.
Proof.
  intros Ek Es Et Hj. split; [done..|]. intros (th' & Hth' & Epc). rewrite Et in Hth'.
  apply list_lookup_insert_Some in Hth' as [(-> & <- & _)|[_ Hth']]; [right; auto|left; by exists th'].
Qed.

Lemma enqueue_front_frame g t ts g' ok :
  enqueue_front g t ts = Ok (g', ok) →
  lg_backend g' = lg_backend g ∧ lg_semaphore g' = lg_semaphore g ∧ lg_threads g' = lg_threads g.
Proof. unfold enqueue_front. intros H. by ok_inv. Qed.

Ltac thread_move :=
  lazymatch goal with
  | |- thread_moves ?g ?g => apply thread_moves_refl
  | |- thread_moves _ _ =>
      eapply thread_moves_set; cbn; [try done|try done; try lia|try done|try done; repeat case_match; done]
  end.

Lemma thread_step_moves g t th g' : thread_step g t th = Ok g' → thread_moves g g'.
Proof.
  intros H. unfold thread_step, append_step, guard_step, destroy_step in H.
  repeat case_match; simplify_eq; ok_inv; repeat case_match; ok_inv; simplify_eq;
    repeat match goal with E : enqueue_front _ _ _ = Ok _ |- _ => apply enqueue_front_frame in E as (? & ? & ?) end;
    try thread_move.
  all: eapply thread_moves_set; cbn; [done|lia|by f_equal|done].
Qed.

Lemma wake_thread g g' : wake_ok g → thread_moves g g' → wake_ok g'.
Proof.
  intros [Hs Hj] [Ek Es Hm]. split; [lia|]. rewrite Ek. intros Hjoin Hb.
  destruct (Hm Hjoin) as [Hg|E]; [specialize (Hj Hg Hb)|]; lia.
Qed.

(** What a step of the backend or of the kernel does to the threads, to the
    stop request and to the semaphore. *)
Record back_moves (g g' : Logger) : Prop := {
  bm_pcs : lt_pc <$> lg_threads g' = lt_pc <$> lg_threads g;
  bm_stop : lg_stop g' = lg_stop g;
  bm_sem : 0 ≤ lg_semaphore g → 0 ≤ lg_semaphore g';
  bm_acquire : before_acquire (bk_pc (lg_backend g')) = true → lg_stop g = true →
    before_acquire (bk_pc (lg_backend g)) = true ∧ lg_semaphore g' = lg_semaphore g
}.

Lemma joining_pcs g g' : lt_pc <$> lg_threads g' = lt_pc <$> lg_threads g → joining g' → joining g.
Proof.
  intros E (th & Hth & Epc). apply (f_equal (lookup 0%nat)) in E. rewrite !list_lookup_fmap, Hth in E.
  destruct (lg_threads g !! 0%nat) as [th'|] eqn:Hth'; [|done]. injection E as E. exists th'. by rewrite <- E.
Qed.

Lemma ptr_upd_frame g p f g' : ptr_upd g p f = Ok g' →
  lg_backend g' = lg_backend g ∧ lt_pc <$> lg_threads g' = lt_pc <$> lg_threads g ∧ lg_stop g' = lg_stop g ∧
  lg_semaphore g' = lg_semaphore g ∧ lg_flush_queue g' = lg_flush_queue g.
Proof.
  unfold ptr_upd. intros H. repeat case_match; ok_inv. split_and!; try done. cbn.
  rewrite list_fmap_insert. apply list_insert_id. by rewrite list_lookup_fmap, H0.
Qed.

Lemma backend_step_moves g date opened g' : backend_step g date opened = Ok g' → back_moves g g'.
Proof.
  intros H. unfold backend_step, submit_buf, handle_cqe in H.
  repeat case_match; ok_inv; simplify_eq;
    repeat match goal with E : ptr_upd _ _ _ = Ok _ |- _ => apply ptr_upd_frame in E as (? & ? & ? & ? & ?) end.
  all: split; cbn; try done; try lia; try congruence; intros Hb Hs; try (by case_match);
    (split; [|congruence]); by rewrite H0.
Qed.

Lemma kernel_step_moves g i short g' : kernel_step g i short = Ok g' → back_moves g g' ∧ bk_pc (lg_backend g') = bk_pc (lg_backend g).
Proof. intros H. unfold kernel_step in H. repeat case_match; ok_inv; done. Qed.

Lemma wake_back g g' : wake_ok g → (joining g → lg_stop g = true) → back_moves g g' → wake_ok g'.
Proof.
  intros [Hs Hj] Hst [Ep _ Hsem Ha]. split; [auto|]. intros Hjoin Hb. apply (joining_pcs g) in Hjoin; [|done].
  destruct (Ha Hb (Hst Hjoin)) as [Hb' ->]. auto.
Qed.

Section shutdown.
Context (BS : Z) (junk : nat → byte) (HBS : line_size ≤ BS < 2 ^ 32).

Lemma joining_stops m g h held queued : lg_inv BS m g h held queued → joining g → lg_stop g = true.
Proof. intros H (th & Hth & Epc). pose proof (li_stop H Hth) as E. by rewrite Epc in E. Qed.

Lemma start_moves g e g' :
  lg_step BS junk g e = Ok g' → match e with EvLog _ _ _ _ _ _ | EvExit _ | EvDestroy => True | _ => False end →
  thread_moves g g'.
Proof.
  intros H He. destruct e; try done; cbn in H; unfold append_start, guard_start, destroy_start in H;
    repeat case_match; ok_inv; simplify_eq; thread_move.
Qed.

Lemma lg_step_wake m g h held queued e g' :
  lg_inv BS m g h held queued → wake_ok g → lg_step BS junk g e = Ok g' → wake_ok g'.
Proof.
  intros H Hw Hs. pose proof (joining_stops _ _ _ _ _ H) as Hj. destruct e.
  - by eapply wake_thread, start_moves.
  - cbn in Hs. ok_inv. by destruct Hw.
  - cbn in Hs. case_match; [|by ok_inv]. by eapply wake_thread, thread_step_moves.
  - by eapply wake_thread, start_moves.
  - by eapply wake_thread, start_moves.
  - by eapply wake_back, backend_step_moves.
  - by eapply wake_back, kernel_step_moves.
Qed.

Lemma lg_run_wake es : ∀ m g h held queued,
  lg_inv BS m g h held queued → wake_ok g → Z.of_nat (m + length es) + 256 < 2 ^ 63 →
  ∃ g' h' held' queued', lg_run BS junk g es = Ok g' ∧ lg_inv BS (m + length es) g' h' held' queued' ∧ wake_ok g'.
Proof.
  induction es as [|e es IH]; intros m g h held queued H Hw Hm; cbn [lg_run length] in *.
  - exists g, h, held, queued. by rewrite Nat.add_0_r.
  - destruct (lg_step_ok BS junk HBS m g h held queued e H) as (g1 & h1 & d1 & q1 & E & Hg1); [lia|].
    rewrite E. step. pose proof (lg_step_wake _ _ _ _ _ _ _ H Hw E) as Hw1.
    destruct (IH (S m) g1 h1 d1 q1 Hg1 Hw1) as (g2 & h2 & d2 & q2 & -> & Hg2 & Hw2); [lia|].
    exists g2, h2, d2, q2. by rewrite <- Nat.add_succ_comm.
Qed.

(** ** The work left to the backend *)

(** Every buffer on its way goes through the queue, the hands of the backend,
    the submission queue, the kernel and the completion queue. *)
Definition work (g : Logger) : nat :=
  let k := lg_backend g in
  5 * Z.to_nat (mq_tail (lg_flush_queue g) - mq_head (lg_flush_queue g)) + 4 * length (held_ptr (bk_pc k)) +
  3 * length (bk_sq k) + 2 * length (bk_kernel k) + length (bk_cq k).

Definition rank (k : backend) : nat :=
  match bk_pc k with
  | BkStart => 19 | BkOpen true => 18 | BkTop => 17 | BkSwitchWait => 16 | BkSwitchReap => 15 | BkOpen false => 14
  | BkAcquire => 13 | BkDequeue false => 12 | BkSubmitBuf _ _ => 12 | BkSubmit false => 11 | BkReap => 10
  | BkStopCheck => 9 | BkDequeue true => 8 | BkSubmit true => 7
  | BkLastWait => if 0 <? bk_in_flight k then 6 else 4
  | BkLastReap => 5
  | BkDone => 0
  end.
Definition measure (g : Logger) : nat := 20 * work g + rank (lg_backend g).

Lemma work_bound m g h held queued : lg_inv BS m g h held queued → (work g ≤ 320)%nat.
Proof.
  intros H. pose proof (on_way_few _ _ _ _ _ _ H) as Hw. pose proof (li_few H) as Hf.
  pose proof (bo_queue (li_back H)) as [_ Eh Et _ _ _]. unfold on_way, pending in Hw.
  rewrite !length_app, !length_fmap, length_app in Hw. unfold work. rewrite Eh, Et.
  rewrite length_fmap. lia.
Qed.

Lemma kernel_shrinks g short g' :
  kernel_step g 0 short = Ok g' →
  (bk_kernel (lg_backend g) = [] ∧ g' = g) ∨ (measure g' < measure g)%nat.
Proof.
  intros E. unfold kernel_step in E. destruct (bk_kernel (lg_backend g)) as [|w ker] eqn:Ek; cbn in E; ok_inv; [by left|].
  right. unfold measure, work, rank. cbn. rewrite Ek, length_app. cbn. lia.
Qed.

Lemma handle_cqe_shrinks g g' :
  handle_cqe g = Ok g' → (measure g' < measure g)%nat.
Proof.
  unfold handle_cqe. intros H. case_match eqn:Ecq; [done|]. ok_inv.
  match goal with E : ptr_upd _ _ _ = Ok _ |- _ => apply ptr_upd_frame in E as (_ & _ & _ & _ & Eq) end.
  unfold measure, work, rank. cbn. rewrite Eq, Ecq. cbn. repeat case_match; lia.
Qed.

Lemma submit_buf_shrinks g p last g' :
  bk_pc (lg_backend g) = BkSubmitBuf p last → submit_buf g p (BkDequeue last) = Ok g' → (measure g' < measure g)%nat.
Proof.
  intros Epc H. unfold submit_buf in H. ok_inv. case_match; [|case_match; [done|]]; ok_inv.
  - match goal with E : ptr_upd _ _ _ = Ok _ |- _ => apply ptr_upd_frame in E as (_ & _ & _ & _ & Eq) end.
    unfold measure, work, rank. cbn. rewrite Eq, Epc. cbn. destruct last; lia.
  - unfold measure, work, rank. cbn. rewrite Epc, length_app. cbn. destruct last; lia.
Qed.

Lemma dequeue_shrinks m g h held queued last q r :
  lg_inv BS m g h held queued → Z.of_nat m + 256 < 2 ^ 63 → bk_pc (lg_backend g) = BkDequeue last →
  MPSCQueue_dequeue FLUSH_QUEUE_CAPACITY (lg_flush_queue g) = Ok (q, r) →
  (measure (lg_with_backend (lg_with_queue g q (lg_flushed g))
     (bk_with_pc (lg_backend g) (match r with Some p => BkSubmitBuf p last | None => BkSubmit last end))) < measure g)%nat.
Proof.
  intros H Hm Epc Hd. pose proof (bo_queue (li_back H)) as Hq.
  pose proof (li_steps H) as Hs.
  destruct (dequeue_alone_spec 7 ltac:(lia) FLUSH_QUEUE_CAPACITY eq_refl h (lg_flush_queue g) queued.*1 Hq)
    as (q' & h' & E & Hrep & _); [unfold FLUSH_QUEUE_CAPACITY; lia|].
  rewrite E in Hd. injection Hd as <- <-. destruct Hq as [_ Eh Et _ _ _], Hrep as [_ Eh' Et' _ _ _].
  unfold measure, work, rank. cbn. rewrite Eh, Et, Eh', Et', Epc. destruct queued as [|[p c] queued]; cbn; destruct last; lia.
Qed.

Lemma submit_work g pc :
  (work (lg_with_backend g (bk_with_pc (ring_submit (lg_backend g)) pc)) + length (bk_sq (lg_backend g)) +
     4 * length (held_ptr (bk_pc (lg_backend g))) = work g + 4 * length (held_ptr pc))%nat.
Proof. unfold work. cbn. rewrite length_app. lia. Qed.

Lemma wait_shrinks g stay go :
  let to pc := lg_with_backend g (bk_with_pc (ring_submit (lg_backend g)) pc) in
  bk_in_flight (lg_backend g) =
    Z.of_nat (length (bk_sq (lg_backend g)) + length (bk_kernel (lg_backend g)) + length (bk_cq (lg_backend g))) →
  bk_pc (lg_backend g) = stay → held_ptr stay = [] → held_ptr go = [] →
  (rank (lg_backend (to go)) < rank (lg_backend g))%nat → rank (lg_backend (to stay)) = rank (lg_backend g) →
  let g' := to (if Z.of_nat (length (bk_cq (lg_backend g))) <? bk_in_flight (lg_backend g) then stay else go) in
  (measure g' < measure g)%nat ∨ bk_kernel (lg_backend g) ≠ [] ∧ (measure g' ≤ measure g)%nat.
Proof.
  intros to Hc Epc Hh1 Hh2 Hr1 Hr2. pose proof (submit_work g stay) as H1. pose proof (submit_work g go) as H2.
  rewrite Epc, Hh1 in *. rewrite Hh2 in H2. unfold measure. cbn [length] in *. fold (to stay) in H1. fold (to go) in H2.
  destruct (_ <? _) eqn:E; bools; [|left; lia].
  destruct (bk_sq (lg_backend g)) eqn:Es; cbn [length] in *; [right; split; [|lia]|left; lia].
  intros Ek. rewrite Ek in Hc. cbn in Hc. lia.
Qed.

(** With a stop request and a permit, every step of the backend makes progress,
    unless it waits for the kernel. *)
Lemma backend_shrinks m g h held queued date opened g' :
  lg_inv BS m g h held queued → Z.of_nat m + 256 < 2 ^ 63 → wake_ok g → joining g →
  backend_step g date opened = Ok g' → bk_pc (lg_backend g) ≠ BkDone →
  (measure g' < measure g)%nat ∨ bk_kernel (lg_backend g) ≠ [] ∧ (measure g' ≤ measure g)%nat.
Proof.
  intros H Hm Hw Hj Hb Hnd. pose proof (joining_stops _ _ _ _ _ H Hj) as Hst. pose proof (wo_join _ Hw Hj) as Hsem.
  pose proof (bo_count (li_back H)) as Hc. unfold pending in Hc. rewrite length_app in Hc.
  unfold backend_step in Hb. destruct (bk_pc (lg_backend g)) as [| | | |first| |last|p last|last| | | | |] eqn:Epc; try done;
    rewrite ?Hst in Hb.
  - left. ok_inv. unfold measure, work, rank. cbn. rewrite Epc. cbn. lia.
  - left. ok_inv. unfold measure, work, rank. cbn. rewrite Epc. cbn. lia.
  - ok_inv. apply (wait_shrinks _ BkSwitchWait BkSwitchReap); try done; unfold rank; rewrite ?Epc; cbn; lia.
  - destruct (0 <? _) eqn:E; [left; by apply handle_cqe_shrinks|]. left. ok_inv.
    unfold measure, work, rank. cbn. rewrite Epc. cbn. lia.
  - left. ok_inv. unfold measure, work, rank, switch_log_file_date. destruct opened, first; cbn; rewrite Epc; cbn; lia.
  - left. rewrite (proj2 (Z.ltb_lt 0 _)) in Hb by (specialize (Hsem eq_refl); lia). ok_inv.
    unfold measure, work, rank. cbn. rewrite Epc. cbn. lia.
  - left. ok_inv. by eapply dequeue_shrinks.
  - left. by eapply submit_buf_shrinks.
  - left. ok_inv. pose proof (submit_work g (if last then BkLastWait else BkReap)) as Hsub. rewrite Epc in Hsub.
    unfold measure, rank. rewrite Epc. destruct last; cbn -[work Nat.mul] in *; [case_match|]; lia.
  - left. destruct (bk_cq (lg_backend g)) eqn:Ecq; [|by apply handle_cqe_shrinks]. ok_inv.
    unfold measure, work, rank. cbn. rewrite Epc. cbn. lia.
  - left. ok_inv. unfold measure, work, rank. cbn. rewrite Epc. cbn. lia.
  - destruct (0 <? bk_in_flight (lg_backend g)) eqn:Ei; ok_inv.
    + apply (wait_shrinks _ BkLastWait BkLastReap); try done; unfold rank; rewrite ?Epc, ?Ei; cbn; rewrite ?Ei; lia.
    + left. unfold measure, work, rank. cbn. rewrite Epc, Ei. cbn. lia.
  - left. destruct (0 <? _) eqn:Ei; [by apply handle_cqe_shrinks|]. ok_inv.
    unfold measure, work, rank. cbn. rewrite Epc, Ei. cbn. lia.
Qed.

(** ** Rounds *)

(** One write executed by the kernel, if one is outstanding, completely or in
    part, and one step of the backend. *)
Definition round (env : option Z * (list byte * option (list byte))) : list lg_event :=
  [EvKernel 0 env.1; EvBackend env.2.1 env.2.2].

Lemma pc_done k : {bk_pc k = BkDone} + {bk_pc k ≠ BkDone}.
Proof. destruct (bk_pc k); (by left) || by right. Qed.

Lemma back_joining g g' : back_moves g g' → joining g → joining g'.
Proof. intros [Ep _ _ _]. apply joining_pcs. by symmetry. Qed.

Lemma round_ok m g h held queued env :
  lg_inv BS m g h held queued → wake_ok g → joining g → Z.of_nat m + 257 < 2 ^ 63 →
  ∃ g' h' held' queued', lg_run BS junk g (round env) = Ok g' ∧ lg_inv BS (S (S m)) g' h' held' queued' ∧
    wake_ok g' ∧ joining g' ∧
    (bk_pc (lg_backend g) = BkDone → bk_pc (lg_backend g') = BkDone) ∧
    (bk_pc (lg_backend g) ≠ BkDone → (measure g' < measure g)%nat).
Proof.
  intros H Hw Hj Hm. unfold round. cbn [lg_run].
  destruct (lg_step_ok BS junk HBS m g h held queued (EvKernel 0 env.1) H) as (g1 & h1 & d1 & q1 & E1 & H1); [lia|].
  pose proof (lg_step_wake _ _ _ _ _ _ _ H Hw E1) as Hw1. rewrite E1. step. cbn in E1.
  destruct (kernel_step_moves _ _ _ _ E1) as [Hb1 Ep1]. pose proof (back_joining _ _ Hb1 Hj) as Hj1.
  destruct (backend_step_ok BS HBS (S m) g1 h1 d1 q1 env.2.1 env.2.2 H1) as (g2 & h2 & d2 & q2 & E2 & H2); [lia|].
  pose proof (lg_step_wake _ _ _ _ _ (EvBackend env.2.1 env.2.2) _ H1 Hw1 E2) as Hw2. cbn [lg_step]. rewrite E2. step.
  exists g2, h2, d2, q2. split_and!; try done; [by eapply back_joining, Hj1; eapply backend_step_moves|..].
  - intros Ed. unfold backend_step in E2. rewrite Ep1, Ed in E2. ok_inv. by rewrite Ep1.
  - intros Hnd. destruct (backend_shrinks _ _ _ _ _ _ _ _ H1 ltac:(lia) Hw1 Hj1 E2) as [Hlt|[Hk Hle]]; [by rewrite Ep1|..];
      destruct (kernel_shrinks _ _ _ E1) as [[Hk0 ->]|Hlt']; [lia..|done|lia].
Qed.

Lemma rounds_ok envs : ∀ m g h held queued,
  lg_inv BS m g h held queued → wake_ok g → joining g → Z.of_nat (m + 2 * length envs) + 257 < 2 ^ 63 →
  ∃ m' g' h' held' queued', lg_run BS junk g (concat (round <$> envs)) = Ok g' ∧ lg_inv BS m' g' h' held' queued' ∧
    Z.of_nat m' + 257 < 2 ^ 63 ∧ joining g' ∧ (bk_pc (lg_backend g) = BkDone → bk_pc (lg_backend g') = BkDone) ∧
    (bk_pc (lg_backend g') = BkDone ∨ (measure g' + length envs ≤ measure g)%nat).
Proof.
  induction envs as [|env envs IH]; intros m g h held queued H Hw Hj Hm; cbn [fmap list_fmap concat length] in *.
  - exists m, g, h, held, queued. split_and!; try done; [lia|right; lia].
  - destruct (round_ok m g h held queued env H Hw Hj) as (g1 & h1 & d1 & q1 & E1 & H1 & Hw1 & Hj1 & Hd & Hlt); [lia|].
    destruct (IH (S (S m)) g1 h1 d1 q1 H1 Hw1 Hj1) as (m2 & g2 & h2 & d2 & q2 & E2 & H2 & Hm2 & Hj2 & Hd2 & Hor); [lia|].
    exists m2, g2, h2, d2, q2. rewrite lg_run_app, E1. split_and!; try done; [auto|].
    destruct (pc_done (lg_backend g)) as [E|Hn]; [left; auto|]. destruct Hor as [|Hle]; [by left|right].
    specialize (Hlt Hn). lia.
Qed.

Lemma rounds_finish envs m g h held queued :
  lg_inv BS m g h held queued → wake_ok g → joining g → 6420 ≤ Z.of_nat (length envs) →
  Z.of_nat (m + 2 * length envs) + 257 < 2 ^ 63 →
  ∃ m' g' h' held' queued', lg_run BS junk g (concat (round <$> envs) ++ [EvThread 0]) = Ok g' ∧
    lg_inv BS m' g' h' held' queued' ∧ bk_pc (lg_backend g') = BkDone ∧ lt_pc <$> lg_threads g' !! 0%nat = Some LpExited.
Proof.
  intros H Hw Hj Hl Hm. pose proof (work_bound _ _ _ _ _ H) as Hb.
  destruct (rounds_ok envs m g h held queued H Hw Hj Hm) as (m1 & g1 & h1 & d1 & q1 & E1 & H1 & Hm1 & (th & Hth & Epc) & _ & Hd).
  assert (Ed : bk_pc (lg_backend g1) = BkDone).
  { destruct Hd as [|Hle]; [done|]. unfold measure in Hle. exfalso.
    assert (rank (lg_backend g) ≤ 19)%nat by (unfold rank; repeat case_match; lia). lia. }
  rewrite lg_run_app, E1. step. cbn [lg_run].
  destruct (lg_step_ok BS junk HBS m1 g1 h1 d1 q1 (EvThread 0) H1) as (g2 & h2 & d2 & q2 & E2 & H2); [lia|].
  exists (S m1), g2, h2, d2, q2. rewrite E2. split; [done|]. split; [done|].
  cbn [lg_step] in E2. rewrite Hth in E2. unfold thread_step, destroy_step in E2. rewrite Epc, Ed in E2. ok_inv.
  split; [done|]. cbn. by rewrite list_lookup_insert_eq by (by eapply lookup_lt_Some).
Qed.
End shutdown.

(** C19. The destructor of the logger ends.  At most 64 threads have used the
    logger in any interleaving with backend and kernel, and the main thread is
    in [~Logger], which has requested the stop, released the semaphore and
    joins the backend.  From then on let kernel and backend alternate, for at
    least 6420 rounds, whatever date [get_date] returns, whatever [open] finds
    and however much of its write the kernel executes in a round: then the
    backend has left its loop, [join] returns and the destructor ends, with no
    write outstanding.  Every file then holds what it held when opened followed
    by the buffers prepared for it, but for the bytes that short or failed
    writes left out (and unless that is more than offsets can express); it is
    complete when no write was short. *)
Theorem destructor_ends BS junk threads es g th envs :
  line_size ≤ BS < 2 ^ 32 → (threads ≤ 64)%nat → Z.of_nat (length es + 2 * length envs) < 2 ^ 62 →
  lg_run BS junk (Logger_new threads) es = Ok g → lg_threads g !! 0%nat = Some th → lt_pc th = DsJoin →
  6420 ≤ Z.of_nat (length envs) →
  ∃ g', lg_run BS junk g (concat (round <$> envs) ++ [EvThread 0]) = Ok g' ∧
    lt_pc <$> lg_threads g' !! 0%nat = Some LpExited ∧ bk_pc (lg_backend g') = BkDone ∧
    pending (lg_backend g') = [] ∧
    (bounded (lg_backend g') → ∀ f old, bk_olds (lg_backend g') !! f = Some old →
       ∃ file, bk_files (lg_backend g') !! f = Some file ∧ file_written (lg_backend g') f old file).
Proof.
  intros HBS Hn Hl Hr Hth Epc Hlen.
  destruct (lg_run_wake BS junk HBS es 0 _ 0 [] [] (Logger_new_inv BS threads Hn)) as (g1 & h & held & queued & Hr1 & H & Hw);
    [by split; [|intros (? & [-> _]%lookup_replicate & ?)]|lia|].
  rewrite Hr1 in Hr. injection Hr as ->.
  destruct (rounds_finish BS junk HBS envs _ g h held queued H Hw ltac:(by exists th) Hlen) as
    (m' & g' & h' & held' & queued' & Hrun & H' & Ed & Ex); [lia|].
  exists g'. split_and!; try done; [by eapply done_no_pending|].
  intros Hb f old Ho. eapply files_written; try done. by eapply done_no_pending.
Qed.

Lemma destructor_ends_witness :
  ∃ g g', lg_run 512 (fun _ => x00) (Logger_new 2) demo_join = Ok g ∧
    lg_run 512 (fun _ => x00) g (concat (round <$> replicate (Z.to_nat 6420) (None, ([], None))) ++ [EvThread 0]) = Ok g' ∧
    lt_pc <$> lg_threads g' !! 0%nat = Some LpExited.
Proof.
  set (envs := replicate _ _). assert (Hl : Z.of_nat (length envs) = 6420) by (unfold envs; rewrite length_replicate; lia).
  clearbody envs.
  destruct (lg_run 512 (fun _ => x00) (Logger_new 2) demo_join) as [g|] eqn:E; [|vm_compute in E; discriminate E].
  pose proof E as E'. vm_compute in E'. injection E' as Eg.
  destruct (destructor_ends 512 (fun _ => x00) 2 demo_join g (default (mkLthread None LpIdle []) (lg_threads g !! 0%nat))
    envs) as (g' & Hr & Hx & _).
  - unfold line_size. lia.
  - lia.
  - assert (length demo_join = 30%nat) as -> by done. lia.
  - exact E.
  - by rewrite <- Eg.
  - by rewrite <- Eg.
  - lia.
  - exists g, g'. split; [reflexivity|]. split; [exact Hr|exact Hx].
Defined.
