(* ===== verification/IpAddress.v ===== *)
(** * IpAddress: IPv4 socket addresses

    Models include/net/ip_address.hpp and src/net/ip_address.cpp on a
    little-endian host.  A [sockaddr_in] has its integer fields as the program
    reads them, so port and address are in network byte order; its bytes in
    memory are what [addr()] exposes.  Of the C library [htons], [ntohs],
    [inet_pton], [inet_ntop] and [std::to_string] are modelled as far as the
    class uses them; texts are lists of characters without the final zero. *)
From Stdlib Require Import Strings.Byte.
From S2P Require Import Prelude.

(** ** Bytes and byte order *)
Definition byte_of (z : Z) : byte := default x00 (Byte.of_N (Z.to_N (z mod 256))).
Definition byte_val (b : byte) : Z := Z.of_N (Byte.to_N b).

(** The [n] bytes of an integer, lowest first, and back. *)
Fixpoint le_bytes (n : nat) (v : Z) : list byte :=
  match n with O => [] | S n => byte_of v :: le_bytes n (v / 256) end.
Fixpoint le_value (l : list byte) : Z :=
  match l with [] => 0 | b :: l => byte_val b + 256 * le_value l end.

Definition htons (v : Z) : Z := (v mod 256) * 256 + v / 256.
Definition ntohs (v : Z) : Z := htons v.

(** ** Decimal text *)
Definition digit (d : Z) : byte := byte_of (48 + d).
Definition digit_value (c : byte) : option Z :=
  let d := byte_val c - 48 in if (0 <=? d) && (d <=? 9) then Some d else None.

(** [std::to_string] of a number of at most [n] digits. *)
Fixpoint decimal (n : nat) (v : Z) : list byte :=
  match n with
  | O => []
  | S n => if v <? 10 then [digit v] else decimal n (v / 10) ++ [digit (v mod 10)]
  end.

Definition dot : byte := x2e.

(** [inet_ntop] of four octets. *)
Definition inet_ntop (o : list Z) : list byte :=
  match o with
  | [a; b; c; d] => decimal 3 a ++ [dot] ++ decimal 3 b ++ [dot] ++ decimal 3 c ++ [dot] ++ decimal 3 d
  | _ => []
  end.

(** [inet_pton]: four numbers up to 255 without leading zeros, separated by
    dots; [cur] is the number being read. *)
Fixpoint pton_go (s : list byte) (cur : option Z) (octets : list Z) : option (list Z) :=
  match s with
  | [] => match cur with Some v => if (length octets =? 3)%nat then Some (octets ++ [v]) else None | None => None end
  | c :: s =>
      match digit_value c, cur with
      | Some d, None => pton_go s (Some d) octets
      | Some d, Some v => if (v =? 0) || (255 <? 10 * v + d) then None else pton_go s (Some (10 * v + d)) octets
      | None, Some v =>
          if bool_decide (c = dot) && (length octets <? 3)%nat then pton_go s None (octets ++ [v]) else None
      | None, None => None
      end
  end.
Definition inet_pton (s : list byte) : option (list Z) := pton_go s None [].

(** ** The class *)
Definition AF_INET : Z := 2.

Record sockaddr_in := mkSockaddr { sin_family : Z; sin_port : Z; s_addr : Z; sin_zero : list byte }.

(** The bytes of the structure. *)
Definition sockaddr_bytes (a : sockaddr_in) : list byte :=
  le_bytes 2 (sin_family a) ++ le_bytes 2 (sin_port a) ++ le_bytes 4 (s_addr a) ++ sin_zero a.
Definition sockaddr_of_bytes (l : list byte) : sockaddr_in :=
  mkSockaddr (le_value (take 2 l)) (le_value (take 2 (drop 2 l))) (le_value (take 4 (drop 4 l))) (take 8 (drop 8 l)).

Definition zeroed : sockaddr_in := mkSockaddr 0 0 0 (replicate 8 x00).

Definition IpAddress_new : sockaddr_in := zeroed.
(** [inet_pton] leaves the address alone when it fails; its result is not
    looked at. *)
Definition IpAddress_of_text (ip : list byte) (port : Z) : sockaddr_in :=
  let a := match inet_pton ip with Some o => le_value (byte_of <$> o) | None => 0 end in
  mkSockaddr AF_INET (htons port) a (replicate 8 x00).
Definition IpAddress_of_port (port : Z) : sockaddr_in := mkSockaddr AF_INET (htons port) 0 (replicate 8 x00).
Definition IpAddress_of_sockaddr (addr : list byte) (len : Z) : result sockaddr_in :=
  assert_ (16 <=? len);; bytes ← (if (length addr <? 16)%nat then Fault OutOfBounds else Ok (take 16 addr));
  Ok (sockaddr_of_bytes bytes).

Definition IpAddress_addr (a : sockaddr_in) : list byte := sockaddr_bytes a.
Definition IpAddress_len : Z := 16.
Definition IpAddress_is_valid (a : sockaddr_in) : bool := sin_family a =? AF_INET.
Definition IpAddress_port (a : sockaddr_in) : Z := ntohs (sin_port a).
Definition IpAddress_ip (a : sockaddr_in) : list byte := inet_ntop (byte_val <$> le_bytes 4 (s_addr a)).
Definition IpAddress_to_string (a : sockaddr_in) : list byte :=
  IpAddress_ip a ++ [x3a] ++ decimal 5 (IpAddress_port a).
Definition IpAddress_eq (a b : sockaddr_in) : bool :=
  (sin_family a =? sin_family b) && (sin_port a =? sin_port b) && (s_addr a =? s_addr b).
Definition IpAddress_ne (a b : sockaddr_in) : bool := negb (IpAddress_eq a b).

(** Fields within their types. *)
Definition sockaddr_ok (a : sockaddr_in) : Prop :=
  0 ≤ sin_family a < 2 ^ 16 ∧ 0 ≤ sin_port a < 2 ^ 16 ∧ 0 ≤ s_addr a < 2 ^ 32 ∧ length (sin_zero a) = 8%nat.

(** ** Lemmas *)
Lemma byte_val_of z : byte_val (byte_of z) = z mod 256.
Proof.
  unfold byte_val, byte_of. pose proof (Z.mod_pos_bound z 256 ltac:(lia)) as Hb.
  destruct (Byte.of_N (Z.to_N (z mod 256))) as [b|] eqn:E; cbn.
  - apply Byte.to_of_N in E. lia.
  - apply Byte.of_N_None_iff in E. lia.
Qed.
Lemma byte_of_val b : byte_of (byte_val b) = b.
Proof. by destruct b. Qed.
Lemma byte_val_range b : 0 ≤ byte_val b < 256.
Proof. unfold byte_val. pose proof (Byte.to_N_bounded b). lia. Qed.

Lemma length_le_bytes n v : length (le_bytes n v) = n.
Proof. revert v. induction n; intros v; cbn; [done|]. by rewrite IHn. Qed.
Lemma le_value_bytes n v : 0 ≤ v < 256 ^ Z.of_nat n → le_value (le_bytes n v) = v.
Proof.
  revert v. induction n as [|n IH]; intros v Hv; cbn [le_bytes le_value]; [lia|].
  rewrite Nat2Z.inj_succ, Z.pow_succ_r in Hv by lia.
  rewrite byte_val_of, IH; [pose proof (Z.div_mod v 256); lia|]. split; [apply Z.div_pos; lia|apply Z.div_lt_upper_bound; lia].
Qed.
Lemma le_bytes_value l : le_bytes (length l) (le_value l) = l.
Proof.
  induction l as [|b l IH]; cbn; [done|]. pose proof (byte_val_range b).
  replace ((byte_val b + 256 * le_value l) / 256) with (le_value l) by (apply Z.div_unique with (byte_val b); lia).
  rewrite IH. f_equal. transitivity (byte_of (byte_val b)); [|apply byte_of_val]. unfold byte_of. do 3 f_equal.
  rewrite (Z.mod_small (byte_val b)) by lia. symmetry. apply Z.mod_unique with (le_value l); lia.
Qed.

Lemma htons_range v : 0 ≤ v < 2 ^ 16 → 0 ≤ htons v < 2 ^ 16.
Proof.
  intros. unfold htons. pose proof (Z.mod_pos_bound v 256). pose proof (Z.div_pos v 256).
  pose proof (Z.div_lt_upper_bound v 256 256). lia.
Qed.
Lemma ntohs_htons v : 0 ≤ v < 2 ^ 16 → ntohs (htons v) = v.
Proof.
  intros H. unfold ntohs, htons. pose proof (Z.mod_pos_bound v 256). pose proof (Z.div_pos v 256).
  pose proof (Z.div_lt_upper_bound v 256 256). pose proof (Z.div_mod v 256).
  rewrite <- (Z.mod_unique (v mod 256 * 256 + v / 256) 256 (v mod 256) (v / 256)) by lia.
  rewrite <- (Z.div_unique (v mod 256 * 256 + v / 256) 256 (v mod 256) (v / 256)) by lia. lia.
Qed.

Lemma digit_value_digit d : 0 ≤ d ≤ 9 → digit_value (digit d) = Some d.
Proof.
  intros Hd. unfold digit_value, digit. rewrite byte_val_of, Z.mod_small by lia.
  replace (48 + d - 48) with d by lia. by rewrite !(proj2 (Z.leb_le _ _)) by lia.
Qed.
Lemma digit_of_value c d : digit_value c = Some d → 0 ≤ d ≤ 9 ∧ digit d = c.
Proof.
  unfold digit_value, digit. case_test; [|done]. intros [= <-]. bools. split; [lia|].
  replace (48 + (byte_val c - 48)) with (byte_val c) by lia. apply byte_of_val.
Qed.
Lemma digit_value_dot : digit_value dot = None.
Proof. done. Qed.

(** An octet is printed with one to three digits. *)
Lemma decimal_octet_snoc v d : 1 ≤ v → 0 ≤ d ≤ 9 → 10 * v + d ≤ 255 → decimal 3 (10 * v + d) = decimal 3 v ++ [digit d].
Proof.
  intros Hv Hd Hle. cbn [decimal]. rewrite (proj2 (Z.ltb_ge (10 * v + d) 10)) by lia.
  rewrite <- (Z.div_unique (10 * v + d) 10 v d) by lia. rewrite <- (Z.mod_unique (10 * v + d) 10 v d) by lia.
  destruct (v <? 10) eqn:E; [done|]. bools. do 2 f_equal. pose proof (Z.div_lt_upper_bound v 10 10).
  by rewrite (proj2 (Z.ltb_lt (v / 10) 10)) by lia.
Qed.
Lemma decimal_digit d : 0 ≤ d ≤ 9 → decimal 3 d = [digit d].
Proof. intros. cbn. by rewrite (proj2 (Z.ltb_lt d 10)) by lia. Qed.

(** Reading back a printed octet. *)
Lemma pton_octet v s octets : 0 ≤ v ≤ 255 → pton_go (decimal 3 v ++ s) None octets = pton_go s (Some v) octets.
Proof.
  intros Hv. destruct (decide (v < 10)).
  { rewrite decimal_digit by lia. cbn [app pton_go]. by rewrite digit_value_digit by lia. }
  assert (E : ∃ u d, 1 ≤ u ∧ u ≤ 25 ∧ 0 ≤ d ≤ 9 ∧ v = 10 * u + d).
  { exists (v / 10), (v mod 10). pose proof (Z.div_mod v 10). pose proof (Z.mod_pos_bound v 10). lia. }
  destruct E as (u & d & Hu & Hu' & Hd & ->). rewrite decimal_octet_snoc by lia.
  destruct (decide (u < 10)).
  - rewrite decimal_digit by lia. cbn [app pton_go]. rewrite !digit_value_digit by lia.
    rewrite (proj2 (Z.eqb_neq u 0)), (proj2 (Z.ltb_ge 255 _)) by lia. done.
  - assert (E : ∃ t e, 1 ≤ t ∧ t ≤ 2 ∧ 0 ≤ e ≤ 9 ∧ u = 10 * t + e).
    { exists (u / 10), (u mod 10). pose proof (Z.div_mod u 10). pose proof (Z.mod_pos_bound u 10). lia. }
    destruct E as (t & e & Ht & Ht' & He & ->). rewrite decimal_octet_snoc, decimal_digit by lia.
    cbn [app pton_go]. rewrite !digit_value_digit by lia.
    rewrite (proj2 (Z.eqb_neq t 0)), (proj2 (Z.ltb_ge 255 (10 * t + e))) by lia. cbn [orb].
    by rewrite (proj2 (Z.eqb_neq (10 * t + e) 0)), (proj2 (Z.ltb_ge 255 _)) by lia.
Qed.
Lemma pton_dot v s octets :
  (length octets < 3)%nat → pton_go (dot :: s) (Some v) octets = pton_go s None (octets ++ [v]).
Proof.
  intros. cbn [pton_go]. rewrite digit_value_dot, bool_decide_true by done. by rewrite (proj2 (Nat.ltb_lt _ _)).
Qed.

Definition octet (v : Z) : Prop := 0 ≤ v ≤ 255.

Lemma inet_pton_ntop o : Forall octet o → length o = 4%nat → inet_pton (inet_ntop o) = Some o.
Proof.
  intros Ho Hl. destruct o as [|a [|b [|c [|d [|]]]]]; try done. unfold inet_pton, inet_ntop.
  repeat match goal with H : Forall octet (_ :: _) |- _ => inversion_clear H end. unfold octet in *.
  rewrite pton_octet by lia. cbn [app]. rewrite pton_dot by (cbn; lia).
  rewrite pton_octet by lia. cbn [app]. rewrite pton_dot by (cbn; lia).
  rewrite pton_octet by lia. cbn [app]. rewrite pton_dot by (cbn; lia).
  rewrite <- (app_nil_r (decimal 3 d)), pton_octet by lia. done.
Qed.

(** The text read so far. *)
Definition read_text (cur : option Z) (octets : list Z) : list byte :=
  concat ((fun v => decimal 3 v ++ [dot]) <$> octets) ++ match cur with Some v => decimal 3 v | None => [] end.

Lemma pton_go_text s : ∀ cur octets o,
  pton_go s cur octets = Some o → Forall octet octets → (length octets ≤ 3)%nat →
  (∀ v, cur = Some v → octet v) →
  inet_ntop o = read_text cur octets ++ s ∧ length o = 4%nat ∧ Forall octet o.
Proof.
  induction s as [|c s IH]; intros cur octets o H Ho Hl Hc; cbn [pton_go] in H.
  - destruct cur as [v|]; [|done]. case_match eqn:E; [|done]. injection H as <-. apply Nat.eqb_eq in E.
    specialize (Hc v eq_refl). split_and!; [|by rewrite length_app, E|by apply Forall_app; split; [|constructor]].
    destruct octets as [|a [|b [|d [|]]]]; try done. unfold read_text. cbn [fmap list_fmap concat app inet_ntop].
    by rewrite !app_nil_r, <- !app_assoc.
  - destruct (digit_value c) as [d|] eqn:Ed.
    + apply digit_of_value in Ed as [Hd <-]. destruct cur as [v|].
      * destruct (_ || _) eqn:E; [done|]. apply orb_false_iff in E as [E1 E2]. bools. specialize (Hc v eq_refl). unfold octet in Hc.
        destruct (IH _ _ _ H Ho Hl) as (E & ?); [intros ? [= <-]; unfold octet; lia|]. split; [|done]. rewrite E.
        unfold read_text. by rewrite decimal_octet_snoc, <- !app_assoc by lia.
      * destruct (IH _ _ _ H Ho Hl) as (E & ?); [intros ? [= <-]; unfold octet; lia|]. split; [|done]. rewrite E.
        unfold read_text. by rewrite decimal_digit, <- !app_assoc by lia.
    + destruct cur as [v|]; [|done]. destruct (_ && _) eqn:E; [|done]. apply andb_true_iff in E as [E1 E2].
      apply bool_decide_eq_true in E1 as ->. apply Nat.ltb_lt in E2.
      destruct (IH _ _ _ H) as (E & ?); [apply Forall_app; split; [done|by constructor; auto]|rewrite length_app; cbn; lia|done|].
      split; [|done]. rewrite E. unfold read_text. rewrite fmap_app, concat_app. cbn. by rewrite !app_nil_r, <- !app_assoc.
Qed.

Lemma inet_ntop_pton s o : inet_pton s = Some o → inet_ntop o = s ∧ length o = 4%nat ∧ Forall octet o.
Proof. intros H. by apply (pton_go_text s None [] o) in H; [|constructor|cbn; lia|]. Qed.

(** *** The four octets of an address *)
Lemma octets_ok v : Forall octet (byte_val <$> le_bytes 4 v) ∧ length (byte_val <$> le_bytes 4 v) = 4%nat.
Proof.
  split; [|by rewrite length_fmap]. apply Forall_fmap, Forall_true. intros b. unfold octet. cbn. pose proof (byte_val_range b). lia.
Qed.
Lemma byte_vals (l : list byte) : byte_of <$> (byte_val <$> l) = l.
Proof. rewrite <- list_fmap_compose. induction l as [|b l IH]; cbn; [done|]. by rewrite byte_of_val, IH. Qed.
Lemma octet_bytes o : Forall octet o → byte_val <$> (byte_of <$> o) = o.
Proof.
  induction 1 as [|v o Hv _ IH]; cbn; [done|]. rewrite IH, byte_val_of, Z.mod_small by (unfold octet in Hv; lia). done.
Qed.

Lemma ip_inj a b : 0 ≤ s_addr a < 2 ^ 32 → 0 ≤ s_addr b < 2 ^ 32 → IpAddress_ip a = IpAddress_ip b → s_addr a = s_addr b.
Proof.
  intros Ha Hb E. unfold IpAddress_ip in E. destruct (octets_ok (s_addr a)) as [Hf Hl], (octets_ok (s_addr b)) as [Hf' Hl'].
  apply (f_equal inet_pton) in E. rewrite !inet_pton_ntop in E by done. apply (inj Some) in E.
  apply (f_equal (fmap (M := list) byte_of)) in E. rewrite !byte_vals in E. apply (f_equal le_value) in E. by rewrite !le_value_bytes in E.
Qed.

(** *** The printed port *)
Definition decimal_value (s : list byte) : Z := foldl (fun v c => 10 * v + (byte_val c - 48)) 0 s.
Lemma decimal_value_decimal n v : 0 ≤ v < 10 ^ Z.of_nat n → decimal_value (decimal n v) = v.
Proof.
  assert (Hd : ∀ d, 0 ≤ d ≤ 9 → byte_val (digit d) - 48 = d).
  { intros d Hd. unfold digit. rewrite byte_val_of, Z.mod_small; lia. }
  revert v. induction n as [|n IH]; intros v Hv; [cbn in *; lia|].
  rewrite Nat2Z.inj_succ, Z.pow_succ_r in Hv by lia. cbn [decimal]. case_test.
  - unfold decimal_value. cbn. rewrite Hd by lia. lia.
  - pose proof (Z.div_mod v 10). pose proof (Z.mod_pos_bound v 10).
    unfold decimal_value. rewrite foldl_app. fold (decimal_value (decimal n (v / 10))).
    rewrite IH by (split; [apply Z.div_pos; lia|apply Z.div_lt_upper_bound; lia]). cbn. rewrite Hd; lia.
Qed.

Lemma decimal_no_colon n v : 0 ≤ v → x3a ∉ decimal n v.
Proof.
  assert (Hd : ∀ d, 0 ≤ d ≤ 9 → x3a ≠ digit d).
  { intros d Hd E. apply (f_equal digit_value) in E. by rewrite digit_value_digit in E. }
  revert v. induction n as [|n IH]; intros v Hv; cbn [decimal]; [apply not_elem_of_nil|]. case_test.
  - rewrite list_elem_of_singleton. apply Hd. lia.
  - rewrite not_elem_of_app, list_elem_of_singleton. split; [apply IH, Z.div_pos; lia|apply Hd].
    pose proof (Z.mod_pos_bound v 10). lia.
Qed.
Lemma ip_no_colon a : x3a ∉ IpAddress_ip a.
Proof.
  unfold IpAddress_ip. destruct (octets_ok (s_addr a)) as [Hf Hl].
  destruct (byte_val <$> le_bytes 4 (s_addr a)) as [|o1 [|o2 [|o3 [|o4 [|]]]]]; try done.
  repeat match goal with H : Forall octet (_ :: _) |- _ => inversion_clear H end. unfold octet in *.
  unfold inet_ntop. rewrite !not_elem_of_app, !list_elem_of_singleton. split_and!; try done; apply decimal_no_colon; lia.
Qed.

Lemma split_at {A} (c : A) l1 l2 l1' l2' :
  c ∉ l1 → c ∉ l1' → l1 ++ [c] ++ l2 = l1' ++ [c] ++ l2' → l1 = l1' ∧ l2 = l2'.
Proof.
  revert l1'. induction l1 as [|x l1 IH]; intros [|x' l1'] H H' E; cbn in E; [by injection E as ->|..].
  - injection E as -> _. exfalso. apply H'. by left.
  - injection E as <- _. exfalso. apply H. by left.
  - injection E as -> E. rewrite not_elem_of_cons in H, H'. destruct (IH l1') as [-> ->]; try done; [apply H|apply H'].
Qed.

Lemma port_range a : sockaddr_ok a → 0 ≤ IpAddress_port a < 2 ^ 16.
Proof. intros (_ & H & _). by apply htons_range. Qed.
Lemma port_inj a b : sockaddr_ok a → sockaddr_ok b → IpAddress_port a = IpAddress_port b → sin_port a = sin_port b.
Proof.
  intros (_ & Ha & _) (_ & Hb & _) E. unfold IpAddress_port in E. apply (f_equal htons) in E.
  unfold ntohs in E. rewrite <- (ntohs_htons (sin_port a)), <- (ntohs_htons (sin_port b)); done.
Qed.

Lemma of_sockaddr_addr a : sockaddr_ok a → IpAddress_of_sockaddr (IpAddress_addr a) IpAddress_len = Ok a.
Proof.
  intros (Hf & Hp & Hs & Hz). unfold IpAddress_of_sockaddr, IpAddress_addr, sockaddr_bytes.
  assert (Hl : length (le_bytes 2 (sin_family a) ++ le_bytes 2 (sin_port a) ++ le_bytes 4 (s_addr a) ++ sin_zero a) = 16%nat).
  { by rewrite !length_app, !length_le_bytes, Hz. }
  rewrite Hl, take_ge by (rewrite Hl; lia). cbn -[le_bytes le_value]. f_equal. destruct a as [f p s z]. cbn [sin_family sin_port s_addr sin_zero] in *.
  unfold sockaddr_of_bytes. f_equal.
  - rewrite take_app_length' by done. by apply le_value_bytes.
  - rewrite drop_app_length', take_app_length' by done. by apply le_value_bytes.
  - rewrite app_assoc, drop_app_length', take_app_length' by done. by apply le_value_bytes.
  - rewrite !app_assoc, drop_app_length' by done. apply take_ge. by rewrite Hz.
Qed.

Lemma of_text_ip a : sockaddr_ok a → IpAddress_is_valid a = true →
  IpAddress_eq (IpAddress_of_text (IpAddress_ip a) (IpAddress_port a)) a = true.
Proof.
  intros Ha Hv. pose proof Ha as (_ & Hp & Hs & _). unfold IpAddress_eq, IpAddress_of_text, IpAddress_ip. cbn [sin_family sin_port s_addr].
  destruct (octets_ok (s_addr a)) as [Hf Hl]. rewrite inet_pton_ntop, byte_vals, le_value_bytes by done.
  unfold IpAddress_is_valid in Hv. bools. rewrite Hv, !Z.eqb_refl.
  replace (htons (IpAddress_port a)) with (sin_port a) by (symmetry; by apply ntohs_htons). by rewrite Z.eqb_refl.
Qed.

Lemma eq_to_string a b : sockaddr_ok a → sockaddr_ok b → IpAddress_is_valid a = true → IpAddress_is_valid b = true →
  IpAddress_eq a b = true ↔ IpAddress_to_string a = IpAddress_to_string b.
Proof.
  intros Ha Hb Hva Hvb. pose proof (port_range _ Ha). pose proof (port_range _ Hb). unfold IpAddress_eq, IpAddress_is_valid in *.
  bools. split.
  - intros E. bools. unfold IpAddress_to_string, IpAddress_ip, IpAddress_port. congruence.
  - intros E. apply split_at in E as [Ei Ep]; [|apply ip_no_colon..].
    apply (f_equal decimal_value) in Ep. rewrite !decimal_value_decimal in Ep by lia.
    rewrite (port_inj a b), (ip_inj a b), Hva, Hvb, !Z.eqb_refl; try done; [apply Ha|apply Hb].
Qed.

(** ** Properties *)

(** C27. Socket addresses survive both of their external forms.  The bytes that
    [addr()] and [len()] hand to the system, read back by the constructor from a
    [sockaddr], give the same address; for an IPv4 address the text of [ip()]
    and the number of [port()], given to the constructor, give an equal address;
    and two IPv4 addresses are equal for [==] exactly if [to_string()] prints
    them alike. *)
Theorem ip_address_roundtrips a b : sockaddr_ok a → sockaddr_ok b →
  IpAddress_of_sockaddr (IpAddress_addr a) IpAddress_len = Ok a ∧
  (IpAddress_is_valid a = true → IpAddress_eq (IpAddress_of_text (IpAddress_ip a) (IpAddress_port a)) a = true) ∧
  (IpAddress_is_valid a = true → IpAddress_is_valid b = true →
     IpAddress_eq a b = true ↔ IpAddress_to_string a = IpAddress_to_string b).
Proof.
  intros Ha Hb. split_and!; [by apply of_sockaddr_addr|by apply of_text_ip|by apply eq_to_string].
Qed.

(** 10.1.2.255:8080 and the address of port 80. *)
Lemma ip_address_roundtrips_witness :
  let a := mkSockaddr 2 36895 4278321418 (replicate 8 x00) in
  let b := IpAddress_of_port 80 in
  IpAddress_eq (IpAddress_of_text (IpAddress_ip a) (IpAddress_port a)) a = true ∧
  (IpAddress_eq a b = true ↔ IpAddress_to_string a = IpAddress_to_string b) ∧
  IpAddress_to_string a = [x31; x30; x2e; x31; x2e; x32; x2e; x32; x35; x35; x3a; x38; x30; x38; x30].
Proof.
  intros a b. destruct (ip_address_roundtrips a b) as (_ & H1 & H2); [by vm_compute..|].
  split; [by apply H1|]. split; [by apply H2|]. by vm_compute.
Defined.

(** The constructors from a text and a port: the port can be read back, the
    address is valid, and its text is the given one if that is a dotted quad
    (four numbers up to 255 without leading zeros).  Any other text gives
    0.0.0.0 and the address still counts as valid: the result of [inet_pton]
    is ignored.  The constructor from a port alone gives 0.0.0.0. *)
Theorem ip_address_of_text ip port : 0 ≤ port < 2 ^ 16 →
  let any := [x30; x2e; x30; x2e; x30; x2e; x30] in
  let a := IpAddress_of_text ip port in
  IpAddress_port a = port ∧ IpAddress_is_valid a = true ∧
  IpAddress_ip a = match inet_pton ip with Some _ => ip | None => any end ∧
  IpAddress_port (IpAddress_of_port port) = port ∧ IpAddress_ip (IpAddress_of_port port) = any.
Proof.
  intros Hp any a. pose proof (ntohs_htons port Hp). split_and!; try done.
  unfold a, IpAddress_ip, IpAddress_of_text. cbn [s_addr]. destruct (inet_pton ip) as [o|] eqn:E; [|done].
  destruct (inet_ntop_pton _ _ E) as (<- & Hl & Ho). rewrite <- (octet_bytes o Ho) at 2.
  pose proof (le_bytes_value (byte_of <$> o)) as Hb. rewrite length_fmap, Hl in Hb. by rewrite Hb.
Qed.

Lemma ip_address_of_text_witness :
  IpAddress_port (IpAddress_of_text [x31; x2e; x32; x2e; x33] 8080) = 8080 ∧
  IpAddress_is_valid (IpAddress_of_text [x31; x2e; x32; x2e; x33] 8080) = true ∧
  IpAddress_ip (IpAddress_of_text [x31; x2e; x32; x2e; x33; x2e; x34] 8080) = [x31; x2e; x32; x2e; x33; x2e; x34].
Proof.
  destruct (ip_address_of_text [x31; x2e; x32; x2e; x33] 8080) as (H1 & H2 & _); [lia|].
  destruct (ip_address_of_text [x31; x2e; x32; x2e; x33; x2e; x34] 8080) as (_ & _ & H3 & _); [lia|]. done.
Defined.
