(* ===== verification/Socket.v ===== *)
(** * Socket: system calls in order

    Models class Socket (include/net/socket.hpp, src/net/socket.cpp) and the
    start of the accept loop (src/net/acceptor.cpp lines 24-26).  Code that
    only makes system calls is a program over them: a tree of calls, each with
    a continuation for its result; [std::exit] ends the program.  The kernel is
    any function that answers a call after the calls before it.  A log message
    is a call, too. *)
From stdpp Require Import strings.
From S2P Require Import Prelude Ring BufPool WriteBuf WriteBufStream BufRing ReadBuf TcpRecv Awaiter TcpChannel IpAddress.

(** ** Programs over system calls *)
Inductive syscall :=
  | SysSocket (domain type protocol : Z)
  | SysSetsockopt (fd level optname value : Z)
  | SysBind (fd : Z) (addr : list byte) (len : Z)
  | SysListen (fd backlog : Z)
  | SysClose (fd : Z)
  | LogError (message : string).
#[export] Instance syscall_eq_dec : EqDecision syscall.
Proof. solve_decision. Defined.

Inductive sys (A : Type) :=
  | SysRet (a : A)
  | SysCall (c : syscall) (k : Z → sys A)
  | SysExit (code : Z).
Arguments SysRet {A}. Arguments SysCall {A}. Arguments SysExit {A}.

#[export] Instance sys_ret : MRet sys := @SysRet.
#[export] Instance sys_bind : MBind sys := fun A B f =>
  fix bind m :=
    match m with
    | SysRet a => f a
    | SysCall c k => SysCall c (fun r => bind (k r))
    | SysExit code => SysExit code
    end.
Definition call (c : syscall) : sys Z := SysCall c SysRet.

Inductive outcome (A : Type) := Returned (a : A) | Exited (code : Z).
Arguments Returned {A}. Arguments Exited {A}.

(** A kernel answers a call, knowing the earlier ones. *)
Definition kernel : Type := list syscall → syscall → Z.

(** The calls made and the end of the program. *)
Fixpoint sys_run {A} (K : kernel) (past : list syscall) (p : sys A) : list syscall * outcome A :=
  match p with
  | SysRet a => (past, Returned a)
  | SysExit code => (past, Exited code)
  | SysCall c k => sys_run K (past ++ [c]) (k (K past c))
  end.

(** ** class Socket *)
Definition SOCK_STREAM : Z := 1.
Definition SOCK_DGRAM : Z := 2.
Definition SOCK_CLOEXEC : Z := 524288.
Definition SOL_SOCKET : Z := 1.
Definition SO_REUSEADDR : Z := 2.
Definition SO_SNDBUF : Z := 7.
Definition SO_RCVBUF : Z := 8.
Definition SO_REUSEPORT : Z := 15.
Definition EXIT_FAILURE : Z := 1.

Inductive SocketType := TCP | UDP.

(** [log_error] and [std::exit]. *)
Definition fail {A} (message : string) : sys A := _ ← call (LogError message); SysExit EXIT_FAILURE.

Definition socket_buffer_size : Z := 4 * 1024 * 1024.

(** The second option is set only if the first call did not fail. *)
Definition set_udp_buffers (fd : Z) : sys bool :=
  r ← call (SysSetsockopt fd SOL_SOCKET SO_RCVBUF socket_buffer_size);
  if r <? 0 then SysRet false else
  r ← call (SysSetsockopt fd SOL_SOCKET SO_SNDBUF socket_buffer_size);
  SysRet (negb (r <? 0)).

(** [Socket(port, type)]: the descriptor. *)
Definition Socket_new (port : Z) (type : SocketType) : sys Z :=
  let sock_type := match type with TCP => SOCK_STREAM | UDP => SOCK_DGRAM end in
  fd ← call (SysSocket AF_INET (Z.lor SOCK_CLOEXEC sock_type) 0);
  if fd <? 0 then fail "Failed to create socket" else
  r ← call (SysSetsockopt fd SOL_SOCKET SO_REUSEADDR 1);
  if r <? 0 then fail "Failed to set SO_REUSEADDR" else
  r ← call (SysSetsockopt fd SOL_SOCKET SO_REUSEPORT 1);
  if r <? 0 then fail "Failed to set SO_REUSEPORT" else
  ok ← match type with UDP => set_udp_buffers fd | TCP => SysRet true end;
  if negb ok then fail "Failed to set UDP socket buffer size" else
  let ip_addr := IpAddress_of_port port in
  r ← call (SysBind fd (IpAddress_addr ip_addr) IpAddress_len);
  if r <? 0 then fail "Failed to bind socket" else SysRet fd.

Definition Socket_destroy (fd : Z) : sys unit :=
  if 0 <=? fd then _ ← call (SysClose fd); SysRet tt else SysRet tt.

Definition Socket_listen (fd backlog : Z) : sys Z :=
  r ← call (SysListen fd backlog);
  if r <? 0 then _ ← call (LogError "Failed to listen on socket"); SysRet (-1) else SysRet 0.

(** The accept loop before its first operation; the port of the server is an
    [int].  The result of [listen] is not looked at. *)
Definition accept_setup (port : Z) : sys Z :=
  fd ← Socket_new (port mod 2 ^ 16) TCP;
  _ ← Socket_listen fd 4096;
  SysRet fd.

(** ** Calls that must succeed

    The reference: a list of calls, each with the message for its failure. *)
Fixpoint checked {A} (calls : list (syscall * string)) (a : A) : sys A :=
  match calls with
  | [] => SysRet a
  | (c, message) :: calls => r ← call c; if r <? 0 then fail message else checked calls a
  end.

(** The calls on the new socket. *)
Definition socket_calls (port : Z) (type : SocketType) (fd : Z) : list (syscall * string) :=
  [(SysSetsockopt fd SOL_SOCKET SO_REUSEADDR 1, "Failed to set SO_REUSEADDR"%string);
   (SysSetsockopt fd SOL_SOCKET SO_REUSEPORT 1, "Failed to set SO_REUSEPORT"%string)] ++
  match type with
  | TCP => []
  | UDP => [(SysSetsockopt fd SOL_SOCKET SO_RCVBUF socket_buffer_size, "Failed to set UDP socket buffer size"%string);
            (SysSetsockopt fd SOL_SOCKET SO_SNDBUF socket_buffer_size, "Failed to set UDP socket buffer size"%string)]
  end ++
  [(SysBind fd (IpAddress_addr (IpAddress_of_port port)) IpAddress_len, "Failed to bind socket"%string)].

(** The calls in order succeed up to the first that fails. *)
Definition succeeds (K : kernel) (past : list syscall) (cs : list syscall) : Prop :=
  ∀ i c, cs !! i = Some c → 0 ≤ K (past ++ take i cs) c.

Lemma checked_run {A} K (calls : list (syscall * string)) (a : A) : ∀ past,
  (succeeds K past calls.*1 ∧ sys_run K past (checked calls a) = (past ++ calls.*1, Returned a)) ∨
  (∃ n c message, calls !! n = Some (c, message) ∧ succeeds K past (take n calls).*1 ∧ K (past ++ (take n calls).*1) c < 0 ∧
    sys_run K past (checked calls a) = (past ++ (take n calls).*1 ++ [c; LogError message], Exited EXIT_FAILURE)).
Proof.
  induction calls as [|[c message] calls IH]; intros past; cbn [checked].
  - left. split; [intros i c H; by destruct i|]. cbn. by rewrite app_nil_r.
  - cbn. destruct (Z.ltb_spec (K past c) 0) as [Hc|Hc].
    + right. exists 0%nat, c, message. cbn. rewrite app_nil_r, <- app_assoc. by split_and!.
    + destruct (IH (past ++ [c])) as [[Hs Hr]|(n & d & m & Hn & Hs & Hd & Hr)].
      * left. rewrite Hr, <- app_assoc. split; [|done]. intros [|i] d H; cbn in *; [by simplify_eq; rewrite app_nil_r|].
        specialize (Hs i d H). by rewrite <- app_assoc in Hs.
      * right. exists (S n), d, m. cbn. rewrite Hr, <- !app_assoc. rewrite <- app_assoc in Hd. split_and!; try done.
        intros [|i] e H; cbn in *; [by simplify_eq; rewrite app_nil_r|]. specialize (Hs i e H). by rewrite <- app_assoc in Hs.
Qed.

(** Everything the constructor calls if [socket] returns [fd]. *)
Definition constructor_calls (port : Z) (type : SocketType) (fd : Z) : list (syscall * string) :=
  (SysSocket AF_INET (Z.lor SOCK_CLOEXEC (match type with TCP => SOCK_STREAM | UDP => SOCK_DGRAM end)) 0,
   "Failed to create socket"%string) :: socket_calls port type fd.

Lemma sys_run_if {A} K past (b : bool) (p q : sys A) :
  sys_run K past (if b then p else q) = if b then sys_run K past p else sys_run K past q.
Proof. by destruct b. Qed.

Lemma Socket_new_checked K past port type :
  let fd := K past (SysSocket AF_INET (Z.lor SOCK_CLOEXEC (match type with TCP => SOCK_STREAM | UDP => SOCK_DGRAM end)) 0) in
  sys_run K past (Socket_new port type) = sys_run K past (checked (constructor_calls port type fd) fd).
Proof.
  intros fd. unfold Socket_new, constructor_calls, socket_calls. cbn [checked].
  destruct type; cbn; fold fd; repeat (case_test; cbn; try done; try lia).
Qed.

(** C33. A socket is set up completely or the program ends.  For every kernel:
    either all calls of the constructor succeed, in the order socket,
    SO_REUSEADDR, SO_REUSEPORT, for UDP the two buffer sizes, bind to any
    address and the port, and the object holds the descriptor that [socket]
    returned; or the first call that fails is the last one, its message is
    logged and the program exits with a failure. *)
Theorem socket_set_up_or_exit K past port type :
  let fd := K past (SysSocket AF_INET (Z.lor SOCK_CLOEXEC (match type with TCP => SOCK_STREAM | UDP => SOCK_DGRAM end)) 0) in
  let calls := constructor_calls port type fd in
  (succeeds K past calls.*1 ∧ sys_run K past (Socket_new port type) = (past ++ calls.*1, Returned fd)) ∨
  (∃ n c message, calls !! n = Some (c, message) ∧ succeeds K past (take n calls).*1 ∧ K (past ++ (take n calls).*1) c < 0 ∧
    sys_run K past (Socket_new port type) = (past ++ (take n calls).*1 ++ [c; LogError message], Exited EXIT_FAILURE)).
Proof. intros fd calls. rewrite Socket_new_checked. apply checked_run. Qed.

(** ** A failed listen *)
Lemma sys_run_bind {A B} K (p : sys A) (f : A → sys B) : ∀ past,
  sys_run K past (p ≫= f) =
  match sys_run K past p with (past', Returned a) => sys_run K past' (f a) | (past', Exited code) => (past', Exited code) end.
Proof. induction p as [a|c k IH|code]; intros past; cbn; [done|apply IH|done]. Qed.

Definition EINVAL : Z := 22.

(** A failed [listen] goes unnoticed.  If the socket is set up but
    [listen] fails, the accept loop goes on as if it listened.  The kernel then
    refuses the accept: the loop logs the error and ends, and no later
    completion starts it again, so the worker runs without ever accepting a
    connection. *)
Theorem failed_listen_goes_unnoticed {R} {Hlib : BufRingLib R} K port past fd (h : TcpHandlers) (t : TcpThread R) flag :
  sys_run K [] (Socket_new (port mod 2 ^ 16) TCP) = (past, Returned fd) →
  K past (SysListen fd 4096) < 0 → tt_accept t = CoToken →
  sys_run K [] (accept_setup port) = (past ++ [SysListen fd 4096; LogError "Failed to listen on socket"], Returned fd) ∧
  complete h t TokAccept (- EINVAL) flag = Ok (tt_with_accept t CoDone) ∧
  (∀ t' res flag', tt_accept t' = CoDone → complete h t' TokAccept res flag' = Ok t').
Proof.
  intros Hs Hl Ht. split; [|split].
  - unfold accept_setup. rewrite sys_run_bind, Hs, sys_run_bind. cbn. rewrite (proj2 (Z.ltb_lt _ _)) by done. cbn.
    by rewrite <- app_assoc.
  - unfold complete. by rewrite decide_True.
  - intros t' res flag' E. unfold complete. by rewrite decide_False by (by rewrite E).
Qed.

(** Only [listen] fails. *)
Lemma failed_listen_goes_unnoticed_witness :
  let K : kernel := fun _ c => match c with SysSocket _ _ _ => 7 | SysListen _ _ => -1 | _ => 0 end in
  ∃ past (t : TcpThread list_ring), sys_run K [] (accept_setup 8080) =
    (past ++ [SysListen 7 4096; LogError "Failed to listen on socket"], Returned 7) ∧ length past = 4%nat ∧
    complete TcpEchoServer t TokAccept (- EINVAL) 0 = Ok (tt_with_accept t CoDone).
Proof.
  intros K.
  destruct (sys_run K [] (Socket_new (8080 mod 2 ^ 16) TCP)) as [past [fd|]] eqn:E; [|vm_compute in E; discriminate E].
  assert (fd = 7 ∧ length past = 4%nat) as [-> Hp] by (vm_compute in E; injection E as <- <-; done).
  destruct (TcpThread_init (R := list_ring) (mkJunk (fun _ => x00) (fun _ => 0) (fun _ => (0, 0))) (mkTcpConfig 4 4 4 1 8 4) 0)
    as [t|] eqn:Et; [|vm_compute in Et; discriminate Et].
  assert (tt_accept t = CoToken) as Ha by (vm_compute in Et; injection Et as <-; reflexivity).
  destruct (failed_listen_goes_unnoticed K 8080 past 7 TcpEchoServer t 0 E eq_refl Ha) as (H1 & H2 & _).
  exists past, t. split; [exact H1|]. split; [exact Hp|exact H2].
Defined.
