(* ===== verification/IoRing.v ===== *)
(** * IoRing: submission entries, completions and the ring

    Models include/core/io_ring.hpp and src/core/io_ring.cpp.  An entry of the
    submission queue belongs to liburing: how its functions fill one is the
    interface [SqeLib], and what the kernel then finds in it, [SqeLaws]; a list
    of fields shows that the laws can hold.  [io_uring_get_sqe] does not clear
    the entry it returns, so the methods of [Sqe] start from any contents.

    The ring is three queues: entries prepared, entries the kernel has taken,
    completions.  What the calls of liburing return is an argument. *)
From S2P Require Import Prelude.

(** ** What an entry asks for

    One constructor per function of liburing, with its arguments; pointers are
    addresses. *)
Inductive request :=
  | ReqRead (fd buf nbytes offset : Z)
  | ReqReadFixed (fd buf nbytes offset buf_index : Z)
  | ReqReadv (fd iov nr_vecs offset : Z)
  | ReqWrite (fd buf nbytes offset : Z)
  | ReqWritev (fd iov nr_vecs offset : Z)
  | ReqWriteFixed (fd buf nbytes offset buf_index : Z)
  | ReqAccept (fd addr addrlen flags : Z)
  | ReqAcceptMultishot (fd addr addrlen flags : Z)
  | ReqAcceptDirect (fd addr addrlen flags file_index : Z)
  | ReqAcceptMultishotDirect (fd addr addrlen flags : Z)
  | ReqRecv (fd buf nbytes flags : Z)
  | ReqRecvMultishot (fd buf nbytes flags : Z)
  | ReqRecvmsg (fd msg flags : Z)
  | ReqRecvmsgMultishot (fd msg flags : Z)
  | ReqSend (fd buf nbytes flags : Z)
  | ReqSendmsg (fd msg flags : Z)
  | ReqMsgRing (fd len data flags : Z)
  | ReqMsgRingFd (fd source_fd target_fd data flags : Z)
  | ReqMsgRingFdAlloc (fd len data flags : Z)
  | ReqCancel (user_data flags : Z).
#[export] Instance request_eq_dec : EqDecision request.
Proof. solve_decision. Defined.

(** The arguments are in the ranges of their types: [int], [unsigned], a
    pointer, and an offset that is not negative. *)
Definition is_int (x : Z) : bool := (- 2 ^ 31 <=? x) && (x <? 2 ^ 31).
Definition is_unsigned (x : Z) : bool := (0 <=? x) && (x <? 2 ^ 32).
Definition is_pointer (x : Z) : bool := (0 <=? x) && (x <? 2 ^ 64).
Definition is_offset (x : Z) : bool := (0 <=? x) && (x <? 2 ^ 63).

Definition request_fits (q : request) : bool :=
  match q with
  | ReqRead fd p n off | ReqReadv fd p n off | ReqWrite fd p n off | ReqWritev fd p n off =>
      is_int fd && is_pointer p && is_unsigned n && is_offset off
  | ReqReadFixed fd p n off i | ReqWriteFixed fd p n off i =>
      is_int fd && is_pointer p && is_unsigned n && is_offset off && ((0 <=? i) && (i <? 2 ^ 16))
  | ReqAccept fd addr addrlen flags | ReqAcceptMultishot fd addr addrlen flags
  | ReqAcceptMultishotDirect fd addr addrlen flags => is_int fd && is_pointer addr && is_pointer addrlen && is_int flags
  | ReqAcceptDirect fd addr addrlen flags file_index =>
      is_int fd && is_pointer addr && is_pointer addrlen && is_int flags && is_int file_index
  | ReqRecv fd p n flags | ReqRecvMultishot fd p n flags | ReqSend fd p n flags =>
      is_int fd && is_pointer p && is_unsigned n && is_int flags
  | ReqRecvmsg fd msg flags | ReqRecvmsgMultishot fd msg flags | ReqSendmsg fd msg flags =>
      is_int fd && is_pointer msg && is_int flags
  | ReqMsgRing fd len data flags | ReqMsgRingFdAlloc fd len data flags =>
      is_int fd && is_unsigned len && is_pointer data && is_int flags
  | ReqMsgRingFd fd source_fd target_fd data flags =>
      is_int fd && is_int source_fd && is_int target_fd && is_pointer data && is_int flags
  | ReqCancel data flags => is_pointer data && is_int flags
  end.

(** The buffer index of a request shares its bytes with the buffer group. *)
Definition uses_buf_index (q : request) : bool :=
  match q with ReqReadFixed _ _ _ _ _ | ReqWriteFixed _ _ _ _ _ => true | _ => false end.

(** ** Entries *)

(** [E] is struct io_uring_sqe, [D] its user data.  [sqe_request], [sqe_data]
    and [sqe_buf_group] are what the kernel reads. *)
Class SqeLib (E D : Type) := {
  io_uring_prep : request → E → E;
  io_uring_sqe_set_data : D → E → E;
  sqe_flags : E → Z;
  sqe_put_flags : Z → E → E;
  sqe_put_buf_group : Z → E → E;
  sqe_request : E → request;
  sqe_data : E → D;
  sqe_buf_group : E → Z
}.

(** A prep function describes the request, if its arguments are in the ranges of
    their types, and clears the flags; the setters change their field, an
    unsigned char for the flags and an unsigned short for the group.  The user data after a prep function is not specified. *)
Class SqeLaws (E D : Type) `{!SqeLib E D} := {
  prep_request q (e : E) : request_fits q = true → sqe_request (io_uring_prep q e) = q;
  prep_flags q (e : E) : sqe_flags (io_uring_prep q e) = 0;
  set_data_data d (e : E) : sqe_data (io_uring_sqe_set_data d e) = d;
  set_data_request d (e : E) : sqe_request (io_uring_sqe_set_data d e) = sqe_request e;
  set_data_flags d (e : E) : sqe_flags (io_uring_sqe_set_data d e) = sqe_flags e;
  set_data_group d (e : E) : sqe_buf_group (io_uring_sqe_set_data d e) = sqe_buf_group e;
  put_flags_flags f (e : E) : 0 ≤ f < 2 ^ 8 → sqe_flags (sqe_put_flags f e) = f;
  put_flags_request f (e : E) : sqe_request (sqe_put_flags f e) = sqe_request e;
  put_flags_data f (e : E) : sqe_data (sqe_put_flags f e) = sqe_data e;
  put_group_group g (e : E) : 0 ≤ g < 2 ^ 16 → sqe_buf_group (sqe_put_buf_group g e) = g;
  put_group_flags g (e : E) : sqe_flags (sqe_put_buf_group g e) = sqe_flags e;
  put_group_data g (e : E) : sqe_data (sqe_put_buf_group g e) = sqe_data e;
  put_group_request g (e : E) :
    uses_buf_index (sqe_request e) = false → sqe_request (sqe_put_buf_group g e) = sqe_request e
}.

(** ** class Sqe *)
Section Sqe.
Context {E D : Type} {Hlib : SqeLib E D}.
Implicit Types e : E.

Definition Sqe_prep_read (fd buf nbytes offset : Z) e : E := io_uring_prep (ReqRead fd buf nbytes offset) e.
Definition Sqe_prep_read_fixed (fd buf nbytes offset buf_index : Z) e : E :=
  io_uring_prep (ReqReadFixed fd buf nbytes offset buf_index) e.
Definition Sqe_prep_readv (fd iov nr_vecs offset : Z) e : E := io_uring_prep (ReqReadv fd iov nr_vecs offset) e.
Definition Sqe_prep_write (fd buf nbytes offset : Z) e : E := io_uring_prep (ReqWrite fd buf nbytes offset) e.
Definition Sqe_prep_writev (fd iov nr_vecs offset : Z) e : E := io_uring_prep (ReqWritev fd iov nr_vecs offset) e.
Definition Sqe_prep_write_fixed (fd buf nbytes offset buf_index : Z) e : E :=
  io_uring_prep (ReqWriteFixed fd buf nbytes offset buf_index) e.
Definition Sqe_prep_accept (fd addr addrlen flags : Z) e : E := io_uring_prep (ReqAccept fd addr addrlen flags) e.
Definition Sqe_prep_multishot_accept (fd addr addrlen flags : Z) e : E :=
  io_uring_prep (ReqAcceptMultishot fd addr addrlen flags) e.
Definition Sqe_prep_accept_direct (fd addr addrlen flags file_index : Z) e : E :=
  io_uring_prep (ReqAcceptDirect fd addr addrlen flags file_index) e.
Definition Sqe_prep_multishot_accept_direct (fd addr addrlen flags : Z) e : E :=
  io_uring_prep (ReqAcceptMultishotDirect fd addr addrlen flags) e.
Definition Sqe_prep_recv (fd buf nbytes flags : Z) e : E := io_uring_prep (ReqRecv fd buf nbytes flags) e.
Definition Sqe_prep_multishot_recv (fd buf nbytes flags : Z) e : E := io_uring_prep (ReqRecvMultishot fd buf nbytes flags) e.
Definition Sqe_prep_recvmsg (fd msg flags : Z) e : E := io_uring_prep (ReqRecvmsg fd msg flags) e.
Definition Sqe_prep_multishot_recvmsg (fd msg flags : Z) e : E := io_uring_prep (ReqRecvmsgMultishot fd msg flags) e.
Definition Sqe_prep_send (fd buf nbytes flags : Z) e : E := io_uring_prep (ReqSend fd buf nbytes flags) e.
Definition Sqe_prep_sendmsg (fd msg flags : Z) e : E := io_uring_prep (ReqSendmsg fd msg flags) e.
Definition Sqe_prep_msg_ring (fd len data flags : Z) e : E := io_uring_prep (ReqMsgRing fd len (u64 data) flags) e.
Definition Sqe_prep_msg_ring_fd (fd source_fd target_fd data flags : Z) e : E :=
  io_uring_prep (ReqMsgRingFd fd source_fd target_fd (u64 data) flags) e.
Definition Sqe_prep_msg_ring_fd_alloc (fd len data flags : Z) e : E :=
  io_uring_prep (ReqMsgRingFdAlloc fd len (u64 data) flags) e.

(** IORING_ASYNC_CANCEL_ALL and IORING_ASYNC_CANCEL_ANY. *)
Definition ASYNC_CANCEL_ALL : Z := 1.
Definition ASYNC_CANCEL_ANY : Z := 4.
Definition Sqe_prep_cancel_all e : E := io_uring_prep (ReqCancel 0 (Z.lor ASYNC_CANCEL_ALL ASYNC_CANCEL_ANY)) e.

Definition Sqe_set_data (data : D) e : E := io_uring_sqe_set_data data e.
(** [flags] and the field are unsigned chars. *)
Definition Sqe_set_flags (flags : Z) e : E := sqe_put_flags (u8 (Z.lor (sqe_flags e) (u8 flags))) e.
(** [bgid] is an unsigned short: the callers' [int] is converted. *)
Definition Sqe_set_buf_group (bgid : Z) e : E := sqe_put_buf_group (u16 bgid) e.
End Sqe.

(** ** Completions and queues *)
Section ring.
Context {T : Type}.

(** User data: null, the -1 of the wake-up read, or a token. *)
Inductive user_data := UdNull | UdWakeup | UdToken (t : T).
Record Cqe := mkCqe { cq_data : user_data; cq_res : Z; cq_flags : Z }.

(** class Cqe holds a pointer that may be null. *)
Definition Cqe_empty (c : option Cqe) : bool := match c with None => true | Some _ => false end.
Definition Cqe_get_res (c : option Cqe) : result Z :=
  match c with Some c => Ok (cq_res c) | None => Fault AssertionFailed end.
Definition Cqe_get_data (c : option Cqe) : result user_data :=
  match c with Some c => Ok (cq_data c) | None => Fault AssertionFailed end.
Definition Cqe_get_flag (c : option Cqe) : result Z :=
  match c with Some c => Ok (cq_flags c) | None => Fault AssertionFailed end.

(** The queues hold the user data of the entries; [ir_entries] is the size
    of the submission queue the kernel granted. *)
Record IoRing := mkIoRing {
  ir_queue_depth : Z;
  ir_entries : Z;
  ir_sq : list user_data;
  ir_kernel : list user_data;
  ir_cq : list Cqe
}.

(** [throw_uring_error]. *)
Definition throw_uring_error {A} (ret : Z) : result A := Fault (SystemError (- ret)).

(** The three constructors: [queue_init] and [queue_init_params] are the
    functions of liburing, from the depth and the flags or parameters to the
    return value and the size granted. *)
Section construct.
Context {P : Type} (queue_init : Z → Z → Z * Z) (queue_init_params : Z → P → Z * Z).

Definition IoRing_new_flags (queue_depth flags : Z) : result IoRing :=
  let '(ret, entries) := queue_init queue_depth flags in
  if ret <? 0 then throw_uring_error ret else Ok (mkIoRing queue_depth entries [] [] []).
Definition IoRing_new_params (queue_depth : Z) (params : P) : result IoRing :=
  let '(ret, entries) := queue_init_params queue_depth params in
  if ret <? 0 then throw_uring_error ret else Ok (mkIoRing queue_depth entries [] [] []).
Definition IoRing_new (queue_depth : Z) (params : option P) : result IoRing :=
  let '(ret, entries) :=
    match params with Some params => queue_init_params queue_depth params | None => queue_init queue_depth 0 end in
  if ret <? 0 then throw_uring_error ret else Ok (mkIoRing queue_depth entries [] [] []).
End construct.

(** [get_sqe] and the [set_data] that follows it. *)
Definition IoRing_get_sqe (r : IoRing) (data : user_data) : result IoRing :=
  if ir_entries r <=? Z.of_nat (length (ir_sq r)) then Fault Exception
  else Ok (mkIoRing (ir_queue_depth r) (ir_entries r) (ir_sq r ++ [data]) (ir_kernel r) (ir_cq r)).

(** The kernel takes the first [ret] entries. *)
Definition kernel_take (r : IoRing) (ret : Z) : IoRing :=
  mkIoRing (ir_queue_depth r) (ir_entries r) (drop (Z.to_nat ret) (ir_sq r))
    (ir_kernel r ++ take (Z.to_nat ret) (ir_sq r)) (ir_cq r).
(** [submit], and [submit_and_wait] before it waits. *)
Definition IoRing_submit (r : IoRing) (ret : Z) : result IoRing :=
  if ret <? 0 then throw_uring_error ret else Ok (kernel_take r ret).

(** EAGAIN *)
Definition EAGAIN : Z := 11.
Definition IoRing_wait_cqe (r : IoRing) (ret : Z) : result (option Cqe) :=
  if ret <? 0 then throw_uring_error ret else Ok (ir_cq r !! 0%nat).
Definition IoRing_peek_cqe (r : IoRing) (ret : Z) : result (option Cqe) :=
  if ret =? - EAGAIN then Ok None
  else if ret <? 0 then throw_uring_error ret else Ok (ir_cq r !! 0%nat).
(** The number of completions [peek_batch_cqe] finds. *)
Definition IoRing_peek_batch_cqe (r : IoRing) (count : Z) : nat := min (Z.to_nat count) (length (ir_cq r)).
Definition IoRing_cqe_advance (r : IoRing) (nr : nat) : IoRing :=
  mkIoRing (ir_queue_depth r) (ir_entries r) (ir_sq r) (ir_kernel r) (drop nr (ir_cq r)).
Definition IoRing_cqe_seen (r : IoRing) (cqe : option Cqe) : IoRing :=
  if Cqe_empty cqe then r else IoRing_cqe_advance r 1.
Definition IoRing_register_files (ret : Z) : result Z := if ret <? 0 then throw_uring_error ret else Ok ret.

(** The kernel completes an entry; with [IORING_CQE_F_MORE] it keeps it. *)
Definition kernel_complete (r : IoRing) (i : nat) (res flags : Z) : IoRing * list Cqe :=
  match ir_kernel r !! i with
  | None => (r, [])
  | Some data =>
      let c := mkCqe data res flags in
      (mkIoRing (ir_queue_depth r) (ir_entries r) (ir_sq r)
         (if Z.testbit flags 1 then ir_kernel r else delete i (ir_kernel r)) (ir_cq r ++ [c]), [c])
  end.
End ring.
Arguments user_data : clear implicits.
Arguments Cqe : clear implicits.
Arguments IoRing : clear implicits.
