(* ===== verification/IoThread.v ===== *)
(** * IoThread: the event loop of a worker and its end

    Models IoThread::run_loop, IoThread::on_stop (src/core/io_thread.cpp) and
    TcpThread::on_stop (src/core/tcp_thread.cpp) over the ring of IoRing.v.  The
    loop does not know its tokens: what [Token::complete] and the virtual hooks
    do is the interface [ThreadOps], of which the loop relies on [ThreadLaws]:
    coroutines prepare entries for their own tokens and never submit.  Thread, kernel and the caller of
    [request_stop] interleave at the accesses of the loop to the ring and to the
    stop token.  The kernel may complete any submitted entry at any time with
    any result; what [io_uring_submit] returns is part of the step.  The stop
    request may come at any time here; Shutdown.v adds the destructor that makes
    it, after which [TcpThread::on_stop] is out of reach. *)
From S2P Require Import Prelude IoRing.

(** ** What the loop calls *)
Class ThreadOps (T S : Type) := {
  on_loop_start : S → IoRing T → result (S * IoRing T);
  token_complete : T → Z → Z → S → IoRing T → result (S * IoRing T);
  on_batch_done : S → IoRing T → result (S * IoRing T)
}.

(** Entries are prepared for tokens; nothing else of the ring changes. *)
Definition prepares {T} (r r' : IoRing T) : Prop :=
  ∃ ts, r' = mkIoRing (ir_queue_depth r) (ir_entries r) (ir_sq r ++ (UdToken <$> ts)) (ir_kernel r) (ir_cq r).

Class ThreadLaws (T S : Type) `{!ThreadOps T S} := {
  on_loop_start_prepares s r s' r' : on_loop_start s r = Ok (s', r') → prepares r r';
  token_complete_prepares t res flags s r s' r' : token_complete t res flags s r = Ok (s', r') → prepares r r';
  on_batch_done_prepares s r s' r' : on_batch_done s r = Ok (s', r') → prepares r r'
}.

(** ** The thread *)

(** Where the thread is; a dispatch knows the size of the batch and the next
    completion. *)
Inductive io_pc :=
  | IoStart                                        (* entry of run_loop *)
  | IoTop                                          (* the check of the stop token *)
  | IoWait                                         (* inside submit_and_wait(1) *)
  | IoPeek
  | IoDispatch (n i : nat)
  | IoStop                                         (* entry of on_stop *)
  | IoStopTop
  | IoStopWait
  | IoStopPeek
  | IoStopDispatch (n i : nat) (done : bool)
  | IoEnd.                                         (* on_stop has returned *)

Section io_thread.
Context {T S : Type} {Hops : ThreadOps T S}.

(** History: [it_posted], every completion the kernel has posted, and
    [it_delivered], the calls of [Token::complete]. *)
Record IoThread := mkIoThread {
  it_cpu_id : Z;
  it_wakeup_fd : bool;                             (* wakeup_fd_ is set *)
  it_own_stop : bool;                              (* on_stop is that of TcpThread *)
  it_ring : IoRing T;
  it_state : S;
  it_pc : io_pc;
  it_stop : bool;
  it_posted : list (Cqe T);
  it_delivered : list (T * Z * Z)
}.

Definition it_to (g : IoThread) (r : IoRing T) (s : S) (pc : io_pc) : IoThread :=
  mkIoThread (it_cpu_id g) (it_wakeup_fd g) (it_own_stop g) r s pc (it_stop g) (it_posted g) (it_delivered g).
Definition it_deliver (g : IoThread) (call : T * Z * Z) : IoThread :=
  mkIoThread (it_cpu_id g) (it_wakeup_fd g) (it_own_stop g) (it_ring g) (it_state g) (it_pc g) (it_stop g) (it_posted g)
    (it_delivered g ++ [call]).

(** [token->complete(res, flags)]. *)
Definition call_complete (g : IoThread) (t : T) (c : Cqe T) (pc : io_pc) : result IoThread :=
  '(s, r) ← token_complete t (cq_res c) (cq_flags c) (it_state g) (it_ring g);
  Ok (it_to (it_deliver g (t, cq_res c, cq_flags c)) r s pc).

(** [run_loop] *)
Definition run_loop_step (g : IoThread) (ret : Z) : result IoThread :=
  let r := it_ring g in
  let s := it_state g in
  match it_pc g with
  | IoStart =>
      '(s, r) ← on_loop_start s r;
      r ← (if it_wakeup_fd g then IoRing_get_sqe r UdWakeup else Ok r);
      Ok (it_to g r s IoTop)
  | IoTop =>
      if it_stop g then Ok (it_to g r s IoStop)
      else r ← IoRing_submit r ret; Ok (it_to g r s (if it_cpu_id g =? -1 then IoWait else IoPeek))
  | IoWait => Ok (match ir_cq r with [] => g | _ => it_to g r s IoPeek end)
  | IoPeek => Ok (it_to g r s (IoDispatch (IoRing_peek_batch_cqe r (ir_queue_depth r)) 0))
  | IoDispatch n i =>
      if (i <? n)%nat then
        match ir_cq r !! i with
        | None => Fault OutOfBounds
        | Some c =>
            match cq_data c with
            | UdToken t => call_complete g t c (IoDispatch n (1 + i))
            | UdNull | UdWakeup => Ok (it_to g r s (IoDispatch n (1 + i)))
            end
        end
      else
        let r := IoRing_cqe_advance r n in
        '(s, r) ← on_batch_done s r; Ok (it_to g r s IoTop)
  | _ => Ok g
  end.

(** [IoThread::on_stop] *)
Definition IoThread_on_stop (g : IoThread) (ret : Z) : result IoThread :=
  r ← IoRing_get_sqe (it_ring g) UdNull; r ← IoRing_submit r ret; Ok (it_to g r (it_state g) IoEnd).

(** [TcpThread::on_stop]: every token but the null one is called, so the -1 of
    the wake-up read too. *)
Definition TcpThread_on_stop_step (g : IoThread) (ret : Z) : result IoThread :=
  let r := it_ring g in
  let s := it_state g in
  match it_pc g with
  | IoStop => r ← IoRing_get_sqe r UdNull; Ok (it_to g r s IoStopTop)
  | IoStopTop =>
      if it_cpu_id g =? -1 then r ← IoRing_submit r ret; Ok (it_to g r s IoStopWait)
      else Ok (it_to g r s IoStopPeek)
  | IoStopWait => Ok (match ir_cq r with [] => g | _ => it_to g r s IoStopPeek end)
  | IoStopPeek => Ok (it_to g r s (IoStopDispatch (IoRing_peek_batch_cqe r (ir_queue_depth r)) 0 false))
  | IoStopDispatch n i done =>
      if (i <? n)%nat then
        match ir_cq r !! i with
        | None => Fault OutOfBounds
        | Some c =>
            match cq_data c with
            | UdToken t => call_complete g t c (IoStopDispatch n (1 + i) done)
            | UdWakeup => Fault InvalidPointer
            | UdNull => Ok (it_to g r s (IoStopDispatch n (1 + i) true))
            end
        end
      else Ok (it_to g (IoRing_cqe_advance r n) s (if done : bool then IoEnd else IoStopTop))
  | _ => Ok g
  end.

Definition io_thread_step (g : IoThread) (ret : Z) : result IoThread :=
  match it_pc g with
  | IoStop => if it_own_stop g then TcpThread_on_stop_step g ret else IoThread_on_stop g ret
  | IoStopTop | IoStopWait | IoStopPeek | IoStopDispatch _ _ _ => TcpThread_on_stop_step g ret
  | IoEnd => Ok g
  | _ => run_loop_step g ret
  end.

(** ** Events *)
Inductive io_event := EvStep (ret : Z) | EvComplete (i : nat) (res flags : Z) | EvRequestStop.

Definition io_step (g : IoThread) (e : io_event) : result IoThread :=
  match e with
  | EvStep ret => io_thread_step g ret
  | EvComplete i res flags =>
      let '(r, cs) := kernel_complete (it_ring g) i res flags in
      Ok (mkIoThread (it_cpu_id g) (it_wakeup_fd g) (it_own_stop g) r (it_state g) (it_pc g) (it_stop g)
            (it_posted g ++ cs) (it_delivered g))
  | EvRequestStop =>
      Ok (mkIoThread (it_cpu_id g) (it_wakeup_fd g) (it_own_stop g) (it_ring g) (it_state g) (it_pc g) true
            (it_posted g) (it_delivered g))
  end.

Fixpoint io_run (g : IoThread) (es : list io_event) : result IoThread :=
  match es with [] => Ok g | e :: es => g ← io_step g e; io_run g es end.

(** A thread whose resources are initialised; [sq] are the tokens of entries
    prepared meanwhile. *)
Definition IoThread_new (cpu_id : Z) (wakeup own_stop : bool) (queue_depth entries : Z) (sq : list T) (s : S) : IoThread :=
  mkIoThread cpu_id wakeup own_stop (mkIoRing queue_depth entries (UdToken <$> sq) [] []) s IoStart false [] [].
End io_thread.
Arguments IoThread : clear implicits.

(** ** Completions reach their tokens *)
Section delivery.
Context {T S : Type} {Hops : ThreadOps T S} {Hlaws : ThreadLaws T S}.

(** The call a completion asks for. *)
Definition cqe_call (c : Cqe T) : option (T * Z * Z) :=
  match cq_data c with UdToken t => Some (t, cq_res c, cq_flags c) | _ => None end.

(** How many completions at the head of the queue are handled, and the size of
    the batch. *)
Definition handled (pc : io_pc) : nat := match pc with IoDispatch _ i | IoStopDispatch _ i _ => i | _ => 0%nat end.
Definition batch (pc : io_pc) : nat := match pc with IoDispatch n _ | IoStopDispatch n _ _ => n | _ => 0%nat end.

Record delivery_ok (g : IoThread T S) : Prop := {
  dl_calls : omap cqe_call (it_posted g) = it_delivered g ++ omap cqe_call (drop (handled (it_pc g)) (ir_cq (it_ring g)));
  dl_handled : (handled (it_pc g) ≤ batch (it_pc g))%nat;
  dl_batch : (batch (it_pc g) ≤ length (ir_cq (it_ring g)))%nat
}.

(** A step that leaves the completions alone. *)
Lemma delivery_move g r s pc :
  delivery_ok g → ir_cq r = ir_cq (it_ring g) → handled pc = handled (it_pc g) → (handled pc ≤ batch pc ≤ length (ir_cq r))%nat →
  delivery_ok (it_to g r s pc).
Proof. intros [Hc _ _] Er Eh Hb. split; cbn; [by rewrite Eh, Er|lia..]. Qed.

(** The next completion is handled. *)
Lemma delivery_next g r s pc c :
  delivery_ok g → ir_cq r = ir_cq (it_ring g) → ir_cq (it_ring g) !! handled (it_pc g) = Some c →
  (handled (it_pc g) < batch (it_pc g))%nat → handled pc = (1 + handled (it_pc g))%nat → batch pc = batch (it_pc g) →
  (cqe_call c = None → delivery_ok (it_to g r s pc)) ∧
  (∀ call, cqe_call c = Some call → delivery_ok (it_to (it_deliver g call) r s pc)).
Proof.
  intros [Hc Hh Hb] Er El Hlt Eh Eb. rewrite (drop_S _ _ _ El) in Hc. cbn [omap list_omap] in Hc.
  split; [intros En|intros call En]; rewrite En in Hc; split; cbn; rewrite ?Er, ?Eh, ?Eb; cbn [Nat.add]; try lia; [done|].
  by rewrite <- app_assoc.
Qed.

(** The batch is finished. *)
Lemma delivery_advance g r s pc n :
  delivery_ok g → handled (it_pc g) = n → ir_cq r = drop n (ir_cq (it_ring g)) → handled pc = 0%nat → batch pc = 0%nat →
  delivery_ok (it_to g r s pc).
Proof. intros [Hc _ _] En Er Eh Eb. split; cbn; rewrite ?Eh, ?Eb, ?Er, <- ?En; [by rewrite drop_0|lia..]. Qed.

Lemma call_complete_ok g t c pc g' :
  delivery_ok g → ir_cq (it_ring g) !! handled (it_pc g) = Some c → cq_data c = UdToken t →
  (handled (it_pc g) < batch (it_pc g))%nat → handled pc = (1 + handled (it_pc g))%nat → batch pc = batch (it_pc g) →
  call_complete g t c pc = Ok g' → delivery_ok g'.
Proof.
  intros H El Ed Hlt Eh Eb Hc. unfold call_complete in Hc. ok_inv.
  match goal with E : token_complete _ _ _ _ _ = Ok _ |- _ => apply token_complete_prepares in E as (ts & ->) end.
  eapply (delivery_next g _ _ pc c); try done. unfold cqe_call. by rewrite Ed.
Qed.

Lemma peek_bound (r : IoRing T) n : (IoRing_peek_batch_cqe r n ≤ length (ir_cq r))%nat.
Proof. unfold IoRing_peek_batch_cqe. lia. Qed.

Lemma get_sqe_cq (r r' : IoRing T) d : IoRing_get_sqe r d = Ok r' → ir_cq r' = ir_cq r.
Proof. unfold IoRing_get_sqe. intros H. by case_match; ok_inv. Qed.
Lemma submit_cq (r r' : IoRing T) n : IoRing_submit r n = Ok r' → ir_cq r' = ir_cq r.
Proof. unfold IoRing_submit. intros H. by case_match; ok_inv. Qed.

Ltac same_cq :=
  repeat match goal with
  | E : IoRing_get_sqe _ _ = Ok _ |- _ => apply get_sqe_cq in E
  | E : IoRing_submit _ _ = Ok _ |- _ => apply submit_cq in E
  | E : on_loop_start _ _ = Ok _ |- _ => apply on_loop_start_prepares in E as (? & ->)
  | E : on_batch_done _ _ = Ok _ |- _ => apply on_batch_done_prepares in E as (? & ->)
  end; cbn in *.

Lemma run_loop_delivery g ret g' : delivery_ok g → run_loop_step g ret = Ok g' → delivery_ok g'.
Proof.
  intros Hg H. unfold run_loop_step in H. pose proof (dl_handled _ Hg) as Hh. pose proof (dl_batch _ Hg) as Hb.
  destruct (it_pc g) as [| | | |n i| | | | |n i fin|] eqn:Epc; cbn in Hh, Hb; try (by ok_inv).
  - ok_inv. apply delivery_move; rewrite ?Epc; cbn; try done; [|lia]. case_match; ok_inv; by same_cq; congruence.
  - destruct (it_stop g); ok_inv; [|same_cq]; apply delivery_move; rewrite ?Epc; try done; try (by case_match);
      case_match; cbn; lia.
  - ok_inv. case_match; [done|]. apply delivery_move; rewrite ?Epc; cbn; try done; lia.
  - ok_inv. apply delivery_move; rewrite ?Epc; cbn; try done. pose proof (peek_bound (it_ring g) (ir_queue_depth (it_ring g))). lia.
  - destruct (Nat.ltb_spec i n).
    + destruct (ir_cq (it_ring g) !! i) as [c|] eqn:El; [|done]. destruct (cq_data c) eqn:Ed; ok_inv.
      1,2: eapply (delivery_next g _ _ (IoDispatch n (1 + i)) c); rewrite ?Epc; try done; unfold cqe_call; by rewrite Ed.
      eapply (call_complete_ok g _ c (IoDispatch n (1 + i))); rewrite ?Epc; done.
    + ok_inv. same_cq. apply (delivery_advance g _ _ _ n); rewrite ?Epc; cbn; try done. lia.
Qed.

Lemma on_stop_delivery g ret g' : delivery_ok g → io_thread_step g ret = Ok g' → delivery_ok g'.
Proof.
  intros Hg H. unfold io_thread_step in H. pose proof (dl_handled _ Hg) as Hh. pose proof (dl_batch _ Hg) as Hb.
  destruct (it_pc g) as [| | | |n i| | | | |n i fin|] eqn:Epc; cbn in Hh, Hb; try (by eapply run_loop_delivery); [..|by ok_inv];
    unfold TcpThread_on_stop_step in H; rewrite ?Epc in H.
  - destruct (it_own_stop g); unfold IoThread_on_stop in H; ok_inv; same_cq; apply delivery_move; rewrite ?Epc; cbn; try done; try lia; congruence.
  - destruct (it_cpu_id g =? -1); ok_inv; same_cq; apply delivery_move; rewrite ?Epc; cbn; try done; lia.
  - ok_inv. case_match; [done|]. apply delivery_move; rewrite ?Epc; cbn; try done; lia.
  - ok_inv. apply delivery_move; rewrite ?Epc; cbn; try done. pose proof (peek_bound (it_ring g) (ir_queue_depth (it_ring g))). lia.
  - destruct (Nat.ltb_spec i n).
    + destruct (ir_cq (it_ring g) !! i) as [c|] eqn:El; [|done]. destruct (cq_data c) eqn:Ed; ok_inv.
      * eapply (delivery_next g _ _ (IoStopDispatch n (1 + i) true) c); rewrite ?Epc; try done; unfold cqe_call; by rewrite Ed.
      * eapply (call_complete_ok g _ c (IoStopDispatch n (1 + i) fin)); rewrite ?Epc; done.
    + ok_inv. apply (delivery_advance g _ _ _ n); rewrite ?Epc; cbn; try (by destruct fin). lia.
Qed.

Lemma io_step_delivery g e g' : delivery_ok g → io_step g e = Ok g' → delivery_ok g'.
Proof.
  intros Hg H. destruct e; cbn in H; [by eapply on_stop_delivery| |].
  - unfold kernel_complete in H. destruct (ir_kernel (it_ring g) !! i) as [d|]; ok_inv; destruct Hg as [Hc Hh Hb].
    + split; cbn; [|done|rewrite length_app; lia]. rewrite omap_app, Hc, drop_app_le by lia.
      by rewrite omap_app, <- app_assoc.
    + split; cbn; by rewrite ?app_nil_r.
  - ok_inv. by destruct Hg.
Qed.

Lemma io_run_delivery es : ∀ g g', delivery_ok g → io_run g es = Ok g' → delivery_ok g'.
Proof.
  induction es as [|e es IH]; intros g g' Hg H; cbn in H; ok_inv; [done|]. eapply IH; [|done]. by eapply io_step_delivery.
Qed.
End delivery.

(** C20. Every completion reaches its token.  Whatever the coroutines do, and
    however thread, kernel and stop request interleave: the calls of
    [Token::complete] made so far, followed by the calls the completions still
    in the queue ask for, are exactly the completions with a token that the
    kernel has posted, in that order.  So none is lost, none is delivered twice
    and none overtakes another, also when completions arrive while a batch is
    handled and during the shutdown; and a batch never reads behind the
    completions there are. *)
Theorem completions_delivered_in_order {T S} `{ThreadLaws T S} cpu_id wakeup own_stop depth entries sq (s : S) es g :
  io_run (IoThread_new cpu_id wakeup own_stop depth entries sq s) es = Ok g →
  omap cqe_call (it_posted g) = it_delivered g ++ omap cqe_call (drop (handled (it_pc g)) (ir_cq (it_ring g))) ∧
  (handled (it_pc g) ≤ batch (it_pc g) ≤ length (ir_cq (it_ring g)))%nat.
Proof. intros Hr. eapply io_run_delivery in Hr as []; [by split|]. by split. Qed.

(** ** Shutdown of a pinned worker *)
Section pinned.
Context {T S : Type} {Hops : ThreadOps T S} {Hlaws : ThreadLaws T S}.

Definition in_loop (pc : io_pc) : bool :=
  match pc with IoStart | IoTop | IoWait | IoPeek | IoDispatch _ _ | IoStop => true | _ => false end.

(** The kernel never gets the entry with the null token. *)
Record no_null (g : IoThread T S) : Prop := {
  nn_cpu : it_cpu_id g ≠ -1;
  nn_own : it_own_stop g = true;
  nn_kernel : UdNull ∉ ir_kernel (it_ring g);
  nn_cq c : c ∈ ir_cq (it_ring g) → cq_data c ≠ UdNull;
  nn_sq : in_loop (it_pc g) = true → UdNull ∉ ir_sq (it_ring g);
  nn_pc : match it_pc g with IoStopDispatch _ _ done => done = false | IoEnd => False | _ => True end
}.

Lemma prepared_no_null (l : list (user_data T)) ts : UdNull ∉ l → UdNull ∉ l ++ (UdToken <$> ts).
Proof. rewrite elem_of_app, list_elem_of_fmap. by intros ? [?|(? & ? & _)]. Qed.

Lemma no_null_move g g' r s pc :
  no_null g → prepares (it_ring g) r → it_cpu_id g' = it_cpu_id g → it_own_stop g' = it_own_stop g →
  (in_loop pc = true → in_loop (it_pc g) = true) →
  match pc with IoStopDispatch _ _ done => done = false | IoEnd => False | _ => True end →
  no_null (it_to g' r s pc).
Proof.
  intros [Hc Ho Hk Hq Hs _] (ts & ->) Ec Eo Hl Hpc. split; cbn; try done; [by rewrite Ec|by rewrite Eo|].
  intros Hin. apply prepared_no_null. auto.
Qed.

Lemma prepares_refl (r : IoRing T) : prepares r r.
Proof. exists []. destruct r. cbn. by rewrite app_nil_r. Qed.

Lemma no_null_complete g t c pc g' :
  no_null g → (in_loop pc = true → in_loop (it_pc g) = true) →
  match pc with IoStopDispatch _ _ done => done = false | IoEnd => False | _ => True end →
  call_complete g t c pc = Ok g' → no_null g'.
Proof.
  intros Hg Hl Hpc H. unfold call_complete in H. ok_inv.
  eapply (no_null_move g); try done. by eapply token_complete_prepares.
Qed.

Lemma no_null_advance g r s pc n :
  no_null g → prepares (IoRing_cqe_advance (it_ring g) n) r → (in_loop pc = true → in_loop (it_pc g) = true) →
  pc = IoTop ∨ pc = IoStopTop → no_null (it_to g r s pc).
Proof.
  intros [Hc Ho Hk Hq Hs _] (ts & ->) Hl Hpc. split; cbn; try done; [|intros; by apply prepared_no_null; auto|by destruct Hpc as [-> | ->]].
  intros c Hin. apply Hq. rewrite <- (take_drop n). apply elem_of_app. by right.
Qed.

Lemma no_null_loop g ret g' : no_null g → in_loop (it_pc g) = true → run_loop_step g ret = Ok g' → no_null g'.
Proof.
  intros Hg Hl H. unfold run_loop_step in H. pose proof (prepares_refl (it_ring g)) as Hr.
  destruct (it_pc g) as [| | | |n i| | | | |n i fin|] eqn:Epc; try discriminate Hl.
  - ok_inv. match goal with E : on_loop_start _ _ = Ok _ |- _ => apply on_loop_start_prepares in E as (ts & ->) end.
    destruct Hg as [Hc Ho Hk Hq Hs _]. rewrite Epc in Hs. specialize (Hs eq_refl).
    destruct (it_wakeup_fd g); ok_inv; [unfold IoRing_get_sqe in *; case_match; ok_inv|]; split; cbn; try done; intros _.
    + rewrite elem_of_app, list_elem_of_singleton. intros [Hin|]; [|done]. by apply prepared_no_null in Hin.
    + by apply prepared_no_null.
  - destruct (it_stop g); ok_inv; [by apply (no_null_move g); rewrite ?Epc|].
    unfold IoRing_submit, throw_uring_error in *. case_match; ok_inv. destruct Hg as [Hc Ho Hk Hq Hs _]. rewrite Epc in Hs. specialize (Hs eq_refl).
    rewrite <- (take_drop (Z.to_nat ret) (ir_sq (it_ring g))) in Hs. apply not_elem_of_app in Hs as [Ht Hd].
    split; cbn; try done; [|by destruct (_ =? _)]. rewrite elem_of_app. by intros [|].
  - ok_inv. case_match; [done|]. by apply (no_null_move g); rewrite ?Epc.
  - ok_inv. by apply (no_null_move g); rewrite ?Epc.
  - destruct (Nat.ltb_spec i n).
    + destruct (ir_cq (it_ring g) !! i) as [c|] eqn:El; [|done]. destruct (cq_data c) eqn:Ed; ok_inv.
      1,2: by apply (no_null_move g); rewrite ?Epc.
      eapply (no_null_complete g _ c (IoDispatch n (1 + i))); rewrite ?Epc; done.
    + ok_inv. match goal with E : on_batch_done _ _ = Ok _ |- _ => apply on_batch_done_prepares in E end.
      eapply (no_null_advance g _ _ _ n); rewrite ?Epc; [done|done|done|by left].
  - ok_inv. done.
Qed.

Lemma no_null_step g ret g' : no_null g → io_thread_step g ret = Ok g' → no_null g'.
Proof.
  intros Hg H. unfold io_thread_step in H. pose proof (prepares_refl (it_ring g)) as Hr. pose proof (nn_pc _ Hg) as Hpc.
  destruct (it_pc g) as [| | | |n i| | | | |n i fin|] eqn:Epc; try (apply (no_null_loop g ret g'); rewrite ?Epc; done);
    unfold TcpThread_on_stop_step in H; rewrite ?Epc, ?(nn_own _ Hg) in H.
  - ok_inv. unfold IoRing_get_sqe in *. case_match; ok_inv. destruct Hg as [Hc Ho Hk Hq Hs _]. by split.
  - rewrite (proj2 (Z.eqb_neq _ _)) in H by apply Hg. ok_inv. by apply (no_null_move g); rewrite ?Epc.
  - ok_inv. case_match; [done|]. by apply (no_null_move g); rewrite ?Epc.
  - ok_inv. by apply (no_null_move g); rewrite ?Epc.
  - destruct (Nat.ltb_spec i n).
    + destruct (ir_cq (it_ring g) !! i) as [c|] eqn:El; [|done].
      pose proof (nn_cq _ Hg c ltac:(by eapply list_elem_of_lookup_2)) as Hn. destruct (cq_data c) eqn:Ed; ok_inv; [done|].
      eapply (no_null_complete g _ c (IoStopDispatch n (1 + i) fin)); rewrite ?Epc; done.
    + rewrite Hpc in H. ok_inv. eapply (no_null_advance g _ _ _ n); rewrite ?Epc; [done|apply prepares_refl|done|by right].
Qed.

Lemma no_null_run es : ∀ g g', no_null g → io_run g es = Ok g' → no_null g'.
Proof.
  induction es as [|e es IH]; intros g g' Hg H; cbn in H; ok_inv; [done|]. eapply IH; [|done].
  destruct e; cbn in *; [by eapply no_null_step| |ok_inv; by destruct Hg].
  unfold kernel_complete in *. destruct (ir_kernel (it_ring g) !! i) as [d|] eqn:Ed; ok_inv; destruct Hg as [Hc Ho Hk Hq Hs Hp].
  - split; cbn; try done.
    + case_match; [done|]. intros Hin. by apply list_elem_of_delete_inv in Hin.
    + intros c. rewrite elem_of_app, list_elem_of_singleton. intros [Hin| ->]; [auto|]. cbn. intros ->.
      by apply Hk; eapply list_elem_of_lookup_2.
  - by split.
Qed.
End pinned.

(** The loop of [TcpThread::on_stop] never ends in a worker pinned to a CPU.
    The ring is polled by a kernel thread, and [on_stop] submits only for
    workers that are not pinned; so the cancellation whose completion ends the
    loop stays in the submission queue, whatever the coroutines do and however
    thread, kernel and stop request interleave.  (Shutdown.v shows that the
    destructor of a worker does not get to this method.) *)
Theorem pinned_tcp_worker_never_ends {T S} `{ThreadLaws T S} cpu_id wakeup depth entries sq (s : S) es g :
  cpu_id ≠ -1 → io_run (IoThread_new cpu_id wakeup true depth entries sq s) es = Ok g → it_pc g ≠ IoEnd.
Proof.
  intros Hc Hr E. eapply no_null_run in Hr as [_ _ _ _ _ Hp]; [by rewrite E in Hp|].
  split; cbn; try done; [apply not_elem_of_nil|by intros c Hin%elem_of_nil|].
  intros _. apply (prepared_no_null []), not_elem_of_nil.
Qed.

(** *** A thread with one multishot token

    As the accept loop: the entry is prepared at the start and again when a
    completion comes without [IORING_CQE_F_MORE]; the state keeps the results. *)
#[export] Instance multishot_ops : ThreadOps unit (list Z) := {
  on_loop_start s r := r ← IoRing_get_sqe r (UdToken tt); Ok (s, r);
  token_complete _ res flags s r :=
    r ← (if Z.testbit flags 1 then Ok r else IoRing_get_sqe r (UdToken tt)); Ok (s ++ [res], r);
  on_batch_done s r := Ok (s, r)
}.

Lemma get_sqe_prepares (r r' : IoRing unit) : IoRing_get_sqe r (UdToken tt) = Ok r' → prepares r r'.
Proof. unfold IoRing_get_sqe. intros H. case_match; ok_inv. by exists [tt]. Qed.

#[export] Instance multishot_laws : ThreadLaws unit (list Z).
Proof.
  split; cbn; intros; ok_inv; [by apply get_sqe_prepares| |apply prepares_refl].
  case_match; ok_inv; [apply prepares_refl|by apply get_sqe_prepares].
Qed.

(** Two connections, the second one while the first is handled. *)
Definition two_accepts : list io_event :=
  [EvStep 8; EvStep 8; EvComplete 0 7 2; EvStep 8; EvStep 8; EvStep 8; EvComplete 0 8 2; EvStep 8; EvStep 8; EvStep 8].

Lemma completions_delivered_in_order_witness :
  ∃ g, io_run (IoThread_new (-1) true true 8 8 [] []) two_accepts = Ok g ∧
    omap cqe_call (it_posted g) = it_delivered g ++ omap cqe_call (drop (handled (it_pc g)) (ir_cq (it_ring g))) ∧
    it_delivered g = [(tt, 7, 2)] ∧ length (it_posted g) = 2%nat.
Proof.
  destruct (io_run (IoThread_new (-1) true true 8 8 [] []) two_accepts) as [g|] eqn:E; [|vm_compute in E; discriminate E].
  exists g. split; [done|]. split; [by eapply completions_delivered_in_order|].
  vm_compute in E. injection E as <-. done.
Defined.

(** A stop request, then a thousand steps. *)
Lemma pinned_tcp_worker_never_ends_witness :
  ∃ g, io_run (IoThread_new 2 true true 8 8 [] []) (replicate 7 (EvStep 8) ++ [EvRequestStop] ++ replicate 1000 (EvStep 8)) = Ok g ∧
    it_pc g ≠ IoEnd ∧ ir_sq (it_ring g) = [UdNull].
Proof.
  destruct (io_run _ _) as [g|] eqn:E; [|vm_compute in E; discriminate E].
  exists g. split; [done|]. split; [by eapply (pinned_tcp_worker_never_ends 2)|]. vm_compute in E. injection E as <-. done.
Defined.

(** [TcpThread::on_stop] can follow a wild pointer.  The read that wakes the
    worker up has -1 as its token.  [run_loop] skips it, but the loop of
    [on_stop] calls every token that is not null.  When the stop is requested
    while the worker handles a batch, [run_loop] ends without another look at
    the completions, and the wake-up read completes in [on_stop]. *)
Theorem stop_while_busy_follows_wild_pointer :
  io_run (IoThread_new (-1) true true 8 8 [] [])
    ([EvStep 8; EvStep 8; EvComplete 0 7 2; EvStep 8; EvStep 8; EvRequestStop] ++ replicate 5 (EvStep 8) ++
     [EvComplete 1 8 0; EvStep 8; EvStep 8; EvStep 8]) = Fault InvalidPointer.
Proof. done. Qed.
