(* ===== verification/TcpWorker.v ===== *)
(** * TcpWorker: the event loop with the TCP connections in it

    IoThread.v models the loop of a worker over an interface; here the
    interface is implemented by the TCP worker of TcpChannel.v, so that a run is
    the loop, its ring, the coroutines of all connections, the kernel and the
    network.  While a callback runs, the operations it prepares are collected
    in [tt_sq] and then go into the submission queue of the ring as entries
    with the tokens of their coroutines. *)
From stdpp Require Import relations.
From S2P Require Import Prelude Ring BufPool WriteBuf WriteBufStream BufRing ReadBuf TcpRecv Awaiter TcpChannel.
From S2P Require Import TcpLifecycle TcpWrites IoRing IoThread.

(** The token given to [set_data]. *)
Definition sqe_token (e : sqe) : token_id :=
  match e with SqeAccept => TokAccept | SqeRecv c _ => TokRead c | SqeWritev c _ _ => TokWrite c end.

Section worker.
Context {R : Type} {Hlib : BufRingLib R} (h : TcpHandlers).
Implicit Types (t : TcpThread R) (r : IoRing token_id).

(** What is left of the submission queue for a callback, *)
Definition lend r t : TcpThread R :=
  mkTcpThread (tt_buf_ring t) (tt_buf_pool t) (ir_entries r - Z.of_nat (length (ir_sq r))) [] (tt_channels t)
    (tt_free_queue t) (tt_head t) (tt_tail t) (tt_mask t) (tt_pending_reads t) (tt_accept t) (tt_closed_fds t).
(** and the queue after it. *)
Definition collect r t : TcpThread R * IoRing token_id :=
  (t, mkIoRing (ir_queue_depth r) (ir_entries r) (ir_sq r ++ (UdToken <$> (sqe_token <$> tt_sq t))) (ir_kernel r) (ir_cq r)).

(** [TcpThread::on_loop_start], [Token::complete] of its tokens and
    [TcpThread::on_batch_done]. *)
#[local] Instance tcp_ops : ThreadOps token_id (TcpThread R) := {
  on_loop_start t r := t ← accept_start (lend r t); Ok (collect r t);
  token_complete tok res flags t r := t ← complete h (lend r t) tok res flags; Ok (collect r t);
  on_batch_done t r := t ← TcpThread_on_batch_done h (lend r t); Ok (collect r t)
}.

#[local] Instance tcp_laws : ThreadLaws token_id (TcpThread R).
Proof. split; cbn; unfold collect; intros; ok_inv; eexists; reflexivity. Qed.

(** ** The worker and its kernel

    Bytes that arrive are put into a buffer of the ring by the kernel; a write
    is completed once. *)
Inductive wk_event := WkIo (e : io_event) | WkData (i : nat) (d : list byte) (more : bool).

Definition single_shot (u : option (user_data token_id)) (flags : Z) : Z :=
  match u with Some (UdToken (TokWrite _)) => Z.clearbit flags 1 | _ => flags end.

Definition wk_step (g : IoThread token_id (TcpThread R)) (e : wk_event) : result (IoThread token_id (TcpThread R)) :=
  match e with
  | WkIo (EvComplete i res flags) => io_step g (EvComplete i res (single_shot (ir_kernel (it_ring g) !! i) flags))
  | WkIo e => io_step g e
  | WkData i d more =>
      match ir_kernel (it_ring g) !! i with
      | Some (UdToken (TokRead _)) =>
          let t := it_state g in
          b ← kernel_receive (tt_buf_ring t) d;
          match b with
          | None => io_step g (EvComplete i (- ENOBUFS) 0)
          | Some (bid, b) =>
              io_step (it_to g (it_ring g) (tt_with_bufs t b (tt_buf_pool t)) (it_pc g))
                (EvComplete i (Z.of_nat (length d)) (i32 (cqe_flags bid more)))
          end
      | _ => Ok g
      end
  end.

Fixpoint wk_run (g : IoThread token_id (TcpThread R)) (es : list wk_event) : result (IoThread token_id (TcpThread R)) :=
  match es with [] => Ok g | e :: es => g ← wk_step g e; wk_run g es end.

(** ** Writes of a connection, wherever they are *)
Definition is_write_entry (c : nat) (u : user_data token_id) : bool :=
  match u with UdToken (TokWrite d) => bool_decide (c = d) | _ => false end.
Definition write_entries (c : nat) (l : list (user_data token_id)) : nat := length (filter (is_write_entry c) l).

(** Prepared, in the kernel, or completed and not yet delivered. *)
Definition outstanding (c : nat) (g : IoThread token_id (TcpThread R)) : nat :=
  (write_entries c (ir_sq (it_ring g)) + write_entries c (ir_kernel (it_ring g)) +
   write_entries c (cq_data <$> drop (handled (it_pc g)) (ir_cq (it_ring g))))%nat.

Definition one_write (g : IoThread token_id (TcpThread R)) : Prop :=
  ∀ c ch, tt_channels (it_state g) !! c = Some ch → chan_w (outstanding c g) ch.

#[local] Arguments write_entries : simpl never.

Lemma write_entries_app c l l' : write_entries c (l ++ l') = (write_entries c l + write_entries c l')%nat.
Proof. unfold write_entries. by rewrite filter_app, length_app. Qed.
Lemma write_entries_cons c u l :
  write_entries c (u :: l) = ((if is_write_entry c u then 1 else 0) + write_entries c l)%nat.
Proof. unfold write_entries. rewrite filter_cons. destruct (is_write_entry c u); case_decide; done. Qed.

Lemma write_entries_other c u : is_write_entry c u = false → write_entries c [u] = 0%nat.
Proof. intros E. by rewrite write_entries_cons, E. Qed.

Lemma write_entries_tokens c l : write_entries c (UdToken <$> (sqe_token <$> l)) = writes c l.
Proof.
  induction l as [|e l IH]; [done|]. rewrite !fmap_cons, write_entries_cons, IH. unfold writes. rewrite filter_cons.
  destruct e as [| |d fd vecs]; cbn; [done..|]. case_bool_decide; case_decide; done.
Qed.

Lemma write_entries_delete c l i u :
  l !! i = Some u → write_entries c l = ((if is_write_entry c u then 1 else 0) + write_entries c (delete i l))%nat.
Proof.
  intros Hi. rewrite <- (take_drop_middle _ _ _ Hi) at 1. rewrite delete_take_drop.
  rewrite !write_entries_app, write_entries_cons. lia.
Qed.

(** A step that calls no coroutine. *)
Lemma one_write_move g g' :
  one_write g → tt_channels (it_state g') = tt_channels (it_state g) → (∀ c, outstanding c g' = outstanding c g) → one_write g'.
Proof. intros H Es Eo c ch Hc. rewrite Eo. apply H. by rewrite <- Es. Qed.

(** A step that ends a callback; [k] are the writes outside the ones it has
    prepared. *)
Lemma one_write_collect k g' :
  winv k (it_state g') → (∀ c, outstanding c g' = (writes c (tt_sq (it_state g')) + k c)%nat) → one_write g'.
Proof. intros H Eo c ch Hc. rewrite Eo. by apply H. Qed.

Lemma lend_winv g r : one_write g → winv (fun c => outstanding c g) (lend r (it_state g)).
Proof. intros H c ch Hc. exact (H c ch Hc). Qed.

Lemma complete_one_write g tok c pc g' :
  one_write g → ir_cq (it_ring g) !! handled (it_pc g) = Some c → cq_data c = UdToken tok →
  handled pc = S (handled (it_pc g)) → call_complete g tok c pc = Ok g' → one_write g'.
Proof.
  intros Hg El Ed Eh H. unfold call_complete in H. cbn [token_complete tcp_ops] in H. ok_inv.
  match goal with E : complete _ _ _ _ _ = Ok ?t' |- _ => rename E into Ec; rename t' into t1 end.
  pose proof (lend_winv g (it_ring g) Hg) as Hl.
  assert (Hout : ∀ d, outstanding d g =
    (write_entries d (ir_sq (it_ring g)) + write_entries d (ir_kernel (it_ring g)) +
     ((if is_write_entry d (UdToken tok) then 1 else 0) +
      write_entries d (cq_data <$> drop (S (handled (it_pc g))) (ir_cq (it_ring g)))))%nat).
  { intros d. unfold outstanding. rewrite (drop_S _ _ _ El), fmap_cons, write_entries_cons, Ed. done. }
  destruct tok as [|d|d]; [eapply (k_accept h) in Ec|eapply (k_read h) in Ec|eapply (k_write h) in Ec];
    try (apply kstep_winv in Ec; [|exact Hl]; cbn [fst snd] in Ec; eapply one_write_collect; [exact Ec|]).
  1,2: intros e; cbn beta; rewrite Hout; unfold outstanding; cbn; rewrite write_entries_app, write_entries_tokens, Eh; cbn; lia.
  - intros e. cbn beta. rewrite Hout. unfold outstanding. cbn. rewrite write_entries_app, write_entries_tokens, Eh. cbn.
    case_bool_decide; case_decide; try done; lia.
  - cbn. rewrite Hout. cbn. rewrite bool_decide_eq_true_2 by done. lia.
Qed.

Lemma outstanding_prepared d g r s pc l :
  ir_sq r = ir_sq (it_ring g) ++ l → ir_kernel r = ir_kernel (it_ring g) →
  drop (handled pc) (ir_cq r) = drop (handled (it_pc g)) (ir_cq (it_ring g)) →
  outstanding d (it_to g r s pc) = (write_entries d l + outstanding d g)%nat.
Proof. intros Es Ek Ec. unfold outstanding. cbn. rewrite Es, Ek, Ec, write_entries_app. lia. Qed.

(** The queues of the ring after its operations. *)
Lemma get_sqe_inv (r r' : IoRing token_id) u :
  IoRing_get_sqe r u = Ok r' → ir_sq r' = ir_sq r ++ [u] ∧ ir_kernel r' = ir_kernel r ∧ ir_cq r' = ir_cq r.
Proof. unfold IoRing_get_sqe. intros H. by case_match; ok_inv. Qed.
Lemma submit_inv (r r' : IoRing token_id) ret : IoRing_submit r ret = Ok r' → r' = kernel_take r ret.
Proof. unfold IoRing_submit, throw_uring_error. intros H. by case_match; ok_inv. Qed.

Ltac ring_inv :=
  repeat match goal with
  | E : IoRing_get_sqe _ _ = Ok _ |- _ => let Es := fresh "Es" in let Ek := fresh "Ek" in let Ec := fresh "Ec" in
      apply get_sqe_inv in E as (Es & Ek & Ec)
  | E : IoRing_submit _ _ = Ok _ |- _ => apply submit_inv in E as ->
  end.

Lemma outstanding_submit d g s pc ret r :
  ir_sq r = ir_sq (it_ring g) ∨ ir_sq r = ir_sq (it_ring g) ++ [UdNull] → ir_kernel r = ir_kernel (it_ring g) →
  ir_cq r = ir_cq (it_ring g) → handled pc = handled (it_pc g) → outstanding d (it_to g (kernel_take r ret) s pc) = outstanding d g.
Proof.
  intros Hs Ek Ec Eh. unfold outstanding. cbn. rewrite Eh, Ek, Ec, write_entries_app.
  pose proof (write_entries_app d (take (Z.to_nat ret) (ir_sq r)) (drop (Z.to_nat ret) (ir_sq r))) as E. rewrite take_drop in E.
  assert (write_entries d (ir_sq r) = write_entries d (ir_sq (it_ring g))) as E'.
  { destruct Hs as [->| ->]; [done|]. rewrite write_entries_app, (write_entries_other d UdNull) by done. lia. }
  lia.
Qed.

Lemma loop_one_write g ret g' : delivery_ok g → one_write g → run_loop_step g ret = Ok g' → one_write g'.
Proof.
  intros Hd Hg H. unfold run_loop_step in H. pose proof (dl_handled _ Hd) as Hh.
  destruct (it_pc g) as [| | | |n i| | | | |n i fin|] eqn:Epc; cbn in Hh; try (by ok_inv).
  - cbn [on_loop_start tcp_ops] in H. ok_inv.
    match goal with E : accept_start _ = Ok _ |- _ => eapply accept_start_winv in E; [|exact (lend_winv g (it_ring g) Hg)]; rename E into Ha end.
    destruct (it_wakeup_fd g); ok_inv; ring_inv; (eapply one_write_collect; [exact Ha|]); intros d.
    + rewrite (outstanding_prepared d g _ _ _ ((UdToken <$> (sqe_token <$> tt_sq t)) ++ [UdWakeup])).
      * rewrite write_entries_app, write_entries_tokens, (write_entries_other d UdWakeup) by done. cbn. lia.
      * rewrite Es. cbn. by rewrite <- app_assoc.
      * done.
      * by rewrite Ec, Epc.
    + rewrite (outstanding_prepared d g _ _ _ (UdToken <$> (sqe_token <$> tt_sq t))); [|done|done|by rewrite Epc].
      by rewrite write_entries_tokens.
  - destruct (it_stop g); ok_inv; ring_inv; apply (one_write_move g); try done; intros d;
      [unfold outstanding; cbn; by rewrite Epc|].
    apply outstanding_submit; auto. rewrite Epc. by destruct (_ =? _).
  - ok_inv. case_match; [done|]. apply (one_write_move g); [done..|]. intros d. unfold outstanding. cbn. by rewrite Epc.
  - ok_inv. apply (one_write_move g); [done..|]. intros d. unfold outstanding. cbn. by rewrite Epc.
  - destruct (Nat.ltb_spec i n).
    + destruct (ir_cq (it_ring g) !! i) as [c|] eqn:El; [|done]. destruct (cq_data c) eqn:Ed; ok_inv.
      1,2: apply (one_write_move g); [done..|]; intros d; unfold outstanding; cbn; rewrite Epc; cbn [handled];
        rewrite (drop_S _ _ _ El), fmap_cons, write_entries_cons, Ed; done.
      eapply (complete_one_write g _ c (IoDispatch n (1 + i))); rewrite ?Epc; done.
    + cbn [on_batch_done tcp_ops] in H. ok_inv. assert (i = n) as -> by lia.
      match goal with E : TcpThread_on_batch_done _ _ = Ok _ |- _ =>
        eapply batch_winv in E; [|exact (lend_winv g (IoRing_cqe_advance (it_ring g) n) Hg)]; rename E into Hb end.
      eapply one_write_collect; [exact Hb|]. intros d.
      rewrite (outstanding_prepared d g _ _ _ (UdToken <$> (sqe_token <$> tt_sq t))); [|done|done|by rewrite Epc].
      by rewrite write_entries_tokens.
Qed.

Lemma thread_one_write g ret g' : delivery_ok g → one_write g → io_thread_step g ret = Ok g' → one_write g'.
Proof.
  intros Hd Hg H. unfold io_thread_step in H. pose proof (dl_handled _ Hd) as Hh.
  destruct (it_pc g) as [| | | |n i| | | | |n i fin|] eqn:Epc; cbn in Hh; try (by eapply loop_one_write); [..|by ok_inv];
    unfold TcpThread_on_stop_step in H; rewrite ?Epc in H.
  - destruct (it_own_stop g); unfold IoThread_on_stop in H; ok_inv; ring_inv; apply (one_write_move g); try done; intros d.
    + rewrite (outstanding_prepared d g _ _ _ [UdNull]); [|done|done|by rewrite Ec, Epc]. by rewrite write_entries_other.
    + apply outstanding_submit; auto. by rewrite Epc.
  - destruct (it_cpu_id g =? -1); ok_inv; ring_inv; apply (one_write_move g); try done; intros d;
      [apply outstanding_submit; auto; by rewrite Epc|unfold outstanding; cbn; by rewrite Epc].
  - ok_inv. case_match; [done|]. apply (one_write_move g); [done..|]. intros d. unfold outstanding. cbn. by rewrite Epc.
  - ok_inv. apply (one_write_move g); [done..|]. intros d. unfold outstanding. cbn. by rewrite Epc.
  - destruct (Nat.ltb_spec i n).
    + destruct (ir_cq (it_ring g) !! i) as [c|] eqn:El; [|done]. destruct (cq_data c) eqn:Ed; ok_inv.
      * apply (one_write_move g); [done..|]. intros d. unfold outstanding. cbn. rewrite Epc. cbn [handled].
        by rewrite (drop_S _ _ _ El), fmap_cons, write_entries_cons, Ed.
      * eapply (complete_one_write g _ c (IoStopDispatch n (1 + i) fin)); rewrite ?Epc; done.
    + ok_inv. assert (i = n) as -> by lia. apply (one_write_move g); [done..|]. intros d. unfold outstanding. cbn. rewrite Epc.
      by destruct fin.
Qed.

Lemma kernel_one_write g i res flags g' :
  delivery_ok g → one_write g → (∀ c, ir_kernel (it_ring g) !! i = Some (UdToken (TokWrite c)) → Z.testbit flags 1 = false) →
  io_step g (EvComplete i res flags) = Ok g' → one_write g'.
Proof.
  intros Hd Hg Hf H. cbn [io_step] in H. unfold kernel_complete in H.
  destruct (ir_kernel (it_ring g) !! i) as [u|] eqn:Eu; [|ok_inv; by apply (one_write_move g)].
  set (more := Z.testbit flags 1) in *. clearbody more. ok_inv.
  apply (one_write_move g); [done..|]. intros d. unfold outstanding. cbn [it_ring it_pc ir_sq ir_kernel ir_cq].
  rewrite drop_app_le by (pose proof (dl_handled _ Hd); pose proof (dl_batch _ Hd); lia).
  rewrite fmap_app, write_entries_app. cbn [fmap list_fmap cq_data]. rewrite write_entries_cons.
  change (write_entries d []) with 0%nat. pose proof (write_entries_delete d _ _ _ Eu) as Edel.
  assert (more = true → is_write_entry d u = false) as Hm.
  { intros ->. destruct u as [| |[| |c]]; try done. by specialize (Hf c eq_refl). }
  destruct more; [rewrite Hm by done|]; lia.
Qed.

Definition worker_ok (g : IoThread token_id (TcpThread R)) : Prop := delivery_ok g ∧ one_write g.

Lemma clearbit_1 f : Z.testbit (Z.clearbit f 1) 1 = false.
Proof. by rewrite Z.clearbit_eq. Qed.

Lemma wk_step_ok g e g' : worker_ok g → wk_step g e = Ok g' → worker_ok g'.
Proof.
  intros [Hd Hg] H. destruct e as [[ret|i res flags|]|i d more]; cbn [wk_step] in H.
  - split; [by eapply io_step_delivery|by eapply thread_one_write].
  - split; [by eapply io_step_delivery|]. eapply kernel_one_write; [done..| |done].
    intros c ->. apply clearbit_1.
  - split; [by eapply io_step_delivery|]. cbn in H. ok_inv. by apply (one_write_move g).
  - destruct (ir_kernel (it_ring g) !! i) as [[| |[|c|c]]|] eqn:Eu; ok_inv; try by split.
    destruct (kernel_receive _ _) as [[[bid b]|]|]; ok_inv.
    + assert (delivery_ok (it_to g (it_ring g) (tt_with_bufs (it_state g) b (tt_buf_pool (it_state g))) (it_pc g))) as Hd'.
      { by destruct Hd. }
      split; [by eapply io_step_delivery|]. eapply kernel_one_write; [exact Hd'|by apply (one_write_move g)| |done].
      cbn. rewrite Eu. by intros.
    + split; [by eapply io_step_delivery|]. eapply kernel_one_write; [done..| |done]. rewrite Eu. by intros.
Qed.

Lemma wk_run_ok es : ∀ g g', worker_ok g → wk_run g es = Ok g' → worker_ok g'.
Proof.
  induction es as [|e es IH]; intros g g' Hg H; cbn in H; ok_inv; [done|]. eapply IH; [|done]. by eapply wk_step_ok.
Qed.
End worker.

(** C4. One write per connection in the whole worker.  Take a TCP worker from
    its initialisation through any run of its event loop that does not fault:
    any server, any order of thread steps, completions, arriving bytes and a stop
    request, with submissions the kernel takes in parts.  The writes of a connection that are
    prepared in the ring, held by the kernel, or completed and not yet handed
    to their token are one when its write coroutine waits for a completion and
    none otherwise; and what the loop has handed to the tokens is what the
    kernel has posted, in order. *)
Theorem tcp_worker_one_write {R} {Hlib : BufRingLib R} (h : TcpHandlers) j cfg next t0 cpu_id wakeup own_stop entries es
    (g : IoThread token_id (TcpThread R)) c ch :
  TcpThread_do_init_resources j cfg next = Ok t0 →
  wk_run h (IoThread_new cpu_id wakeup own_stop (cfg_queue_depth cfg) entries [] t0) es = Ok g →
  chan (it_state g) c = Ok ch →
  outstanding c g = (if decide (tch_write ch = CoToken) then 1%nat else 0%nat) ∧
  omap cqe_call (it_posted g) = it_delivered g ++ omap cqe_call (drop (handled (it_pc g)) (ir_cq (it_ring g))).
Proof.
  intros [Hi Hsq]%do_init_winv Hr Hc%chan_Some. apply wk_run_ok in Hr as [Hd Hw].
  - split; [exact (cw_count _ _ (Hw _ _ Hc))|by apply dl_calls].
  - split; [by split|]. intros d ch' Hd. destruct (Hi _ _ Hd) as [H1 H2]. split; [done|].
    rewrite Hsq in H2. exact H2.
Qed.

(** A connection whose first bytes are echoed: the write has been prepared. *)
Definition one_echo : list wk_event :=
  [WkIo (EvStep 8); WkIo (EvStep 8); WkIo (EvComplete 0 5 2)] ++ replicate 6 (WkIo (EvStep 8)) ++
  [WkData 2 [x61; x62] true] ++ replicate 4 (WkIo (EvStep 8)).

Lemma tcp_worker_one_write_witness :
  ∃ (t0 : TcpThread list_ring) g ch, TcpThread_do_init_resources run_junk (mkTcpConfig 4 4 4 1 8 4) 0 = Ok t0 ∧
    wk_run TcpEchoServer (IoThread_new (-1) true true 8 8 [] t0) one_echo = Ok g ∧ chan (it_state g) 0 = Ok ch ∧
    tch_write ch = CoToken ∧ outstanding 0 g = 1%nat.
Proof.
  destruct (TcpThread_do_init_resources (R := list_ring) run_junk (mkTcpConfig 4 4 4 1 8 4) 0) as [t0|] eqn:E0;
    [|vm_compute in E0; discriminate E0].
  destruct (wk_run TcpEchoServer (IoThread_new (-1) true true 8 8 [] t0) one_echo) as [g|] eqn:E1;
    [|vm_compute in E0; injection E0 as <-; vm_compute in E1; discriminate E1].
  assert (H : ∃ ch, chan (it_state g) 0 = Ok ch ∧ tch_write ch = CoToken).
  { vm_compute in E0. injection E0 as <-. vm_compute in E1. injection E1 as <-. eexists. split; reflexivity. }
  destruct H as (ch & Hc & Hw). exists t0, g, ch. do 4 (split; [done|]).
  destruct (tcp_worker_one_write TcpEchoServer _ (mkTcpConfig 4 4 4 1 8 4) 0 t0 (-1) true true 8 one_echo g 0 ch E0 E1 Hc) as [-> _].
  by rewrite Hw.
Defined.
