(* ===== verification/Server.v ===== *)
(** * Server: worker placement, the echo server's command line, start-up

    Models get_cpu_list, TcpServer::start and UdpServer::start
    (src/net/server.cpp), the constructor checks of Server
    (include/net/server.hpp), IoThread::make_sqpoll_params
    (src/core/io_thread.cpp lines 10-17) and the argument handling of
    benchmarks/echo_server.cpp (lines 28-48 and 114-194).  libnuma and
    sched_getaffinity are parameters: the masks they return. *)
From Stdlib Require Import Ascii.
From stdpp Require Import strings.
From S2P Require Import Prelude Ring BufPool WriteBuf WriteBufStream TcpSend BufRing ReadBuf TcpRecv Awaiter TcpChannel Logger.

(** ** CPUs *)

(** The indices of the set bits, from [cpu] on. *)
Fixpoint set_bits (cpu : Z) (mask : list bool) : list Z :=
  match mask with
  | [] => []
  | b :: mask => (if b : bool then [cpu] else []) ++ set_bits (cpu + 1) mask
  end.

(** [node_cpus node] is the mask of [numa_node_to_cpus], [affinity] the set of
    [sched_getaffinity] unless the call failed. *)
Definition get_cpu_list (num_nodes : Z) (node_cpus : Z → list bool) (affinity : option (list bool)) : list Z :=
  let cpus := if 0 <? num_nodes then seqZ 0 num_nodes ≫= (fun node => set_bits 0 (node_cpus node)) else [] in
  match cpus, affinity with
  | [], Some set => set_bits 0 set
  | _, _ => cpus
  end.

(** [start]: the CPU of each worker, -1 for none. *)
Definition Server_start (cpu_affinity : bool) (thread_nums : Z) (cpu_list : list Z) : result (list Z) :=
  (if cpu_affinity then
     twice ← int_of (thread_nums * 2);
     if Z.of_nat (length cpu_list) <? twice then Fault Exception else Ok tt
   else Ok tt);;
  for_up (Z.to_nat thread_nums) 0 (fun i cpus =>
    cpu_id ← (if cpu_affinity then arr_get cpu_list (i * 2) else Ok (-1));
    Ok (cpus ++ [cpu_id])) [].

(** [UdpServer::start] has the same body. *)
Definition UdpServer_start : bool → Z → list Z → result (list Z) := Server_start.

(** [params.sq_thread_cpu] of a worker's ring. *)
Definition make_sqpoll_params (cpu_id : Z) : Z := u32 (u32 cpu_id + 1).

(** The asserts of the constructor; [hw] is [hardware_concurrency()]. *)
Definition Server_check (hw thread_nums : Z) (cpu_affinity : bool) : result unit :=
  assert_ ((0 <? thread_nums) && (u32 thread_nums <=? hw));;
  assert_ (negb cpu_affinity || (u32 thread_nums <=? hw / 2)).

(** ** The command line of the echo server *)
Record ProtocolConfig := mkProtocolConfig {
  pc_buf_pool_size : Z;
  pc_channel_capacity : Z;
  pc_buf_ring_size : Z;
  pc_queue_depth : Z              (* unsigned *)
}.

Record ServerOptions := mkServerOptions {
  so_cpu_affinity : bool;
  so_run_tcp : bool;
  so_run_udp : bool;
  so_requested_threads : Z;
  so_tcp : ProtocolConfig;
  so_udp : ProtocolConfig;
  so_tcp_pool_size : Z;
  so_udp_msghdr_pool_size : Z;
  so_log_level : LogLevel
}.

Definition default_options : ServerOptions :=
  mkServerOptions false true true 0 (mkProtocolConfig 2048 16 1024 512) (mkProtocolConfig 1024 64 512 512)
    2048 256 LvWarning.

Definition so_with_proto (o : ServerOptions) (f : ProtocolConfig → ProtocolConfig) : ServerOptions :=
  mkServerOptions (so_cpu_affinity o) (so_run_tcp o) (so_run_udp o) (so_requested_threads o) (f (so_tcp o))
    (f (so_udp o)) (so_tcp_pool_size o) (so_udp_msghdr_pool_size o) (so_log_level o).

(** [std::atoi]: blanks, a sign, digits; a value that is no [int] is undefined
    behaviour. *)
Definition is_blank (c : ascii) : bool :=
  let n := Z.of_nat (nat_of_ascii c) in (n =? 32) || ((9 <=? n) && (n <=? 13)).
Fixpoint atoi_digits (s : string) (acc : Z) : Z :=
  match s with
  | String c s =>
      let d := Z.of_nat (nat_of_ascii c) - 48 in
      if (0 <=? d) && (d <=? 9) then atoi_digits s (acc * 10 + d) else acc
  | EmptyString => acc
  end.
Fixpoint atoi_value (s : string) : Z :=
  match s with
  | EmptyString => 0
  | String c s' =>
      if is_blank c then atoi_value s'
      else if bool_decide (c = "-"%char) then - atoi_digits s' 0
      else if bool_decide (c = "+"%char) then atoi_digits s' 0
      else atoi_digits s 0
  end.
Definition atoi (s : string) : result Z := int_of (atoi_value s).

Definition parse_level (s : string) (l : LogLevel) : LogLevel :=
  if bool_decide (s = "debug"%string) then LvDebug
  else if bool_decide (s = "info"%string) then LvInfo
  else if bool_decide (s = "warning"%string) then LvWarning
  else if bool_decide (s = "error"%string) then LvError
  else l.

(** An option with a value. *)
Definition parse_value (opt v : string) (o : ServerOptions) : option (result ServerOptions) :=
  let '(mkServerOptions aff tcp udp th t u ps ms lv) := o in
  if bool_decide (opt = "--threads"%string) then
    Some (n ← atoi v; Ok (mkServerOptions aff tcp udp (Z.max 1 n) t u ps ms lv))
  else if bool_decide (opt = "--pool-size"%string) then
    Some (n ← atoi v; Ok (mkServerOptions aff tcp udp th t u n ms lv))
  else if bool_decide (opt = "--msghdr-pool-size"%string) then
    Some (n ← atoi v; Ok (mkServerOptions aff tcp udp th t u ps n lv))
  else if bool_decide (opt = "--channel-capacity"%string) then
    Some (n ← atoi v; Ok (so_with_proto o (fun p =>
      mkProtocolConfig (pc_buf_pool_size p) n (pc_buf_ring_size p) (pc_queue_depth p))))
  else if bool_decide (opt = "--buf-pool-size"%string) then
    Some (n ← atoi v; Ok (so_with_proto o (fun p =>
      mkProtocolConfig n (pc_channel_capacity p) (pc_buf_ring_size p) (pc_queue_depth p))))
  else if bool_decide (opt = "--buf-ring-size"%string) then
    Some (n ← atoi v; Ok (so_with_proto o (fun p =>
      mkProtocolConfig (pc_buf_pool_size p) (pc_channel_capacity p) n (pc_queue_depth p))))
  else if bool_decide (opt = "--queue-depth"%string) then
    Some (n ← atoi v; Ok (so_with_proto o (fun p =>
      mkProtocolConfig (pc_buf_pool_size p) (pc_channel_capacity p) (pc_buf_ring_size p) (u32 n))))
  else if bool_decide (opt = "--log-level"%string) then
    Some (Ok (mkServerOptions aff tcp udp th t u ps ms (parse_level v lv)))
  else None.

(** The loop over [argv], without the program name. *)
Fixpoint parse_args (argv : list string) (o : ServerOptions) : result ServerOptions :=
  match argv with
  | [] => Ok o
  | opt :: rest =>
      let '(mkServerOptions aff tcp udp th t u ps ms lv) := o in
      if bool_decide (opt = "--sqpoll"%string) then parse_args rest (mkServerOptions true tcp udp th t u ps ms lv)
      else if bool_decide (opt = "--no-tcp"%string) then parse_args rest (mkServerOptions aff false udp th t u ps ms lv)
      else if bool_decide (opt = "--no-udp"%string) then parse_args rest (mkServerOptions aff tcp false th t u ps ms lv)
      else
        match rest with
        | [] => Ok o
        | v :: rest' =>
            match parse_value opt v o with
            | Some r => o ← r; parse_args rest' o
            | None => parse_args rest o
            end
        end
  end.

Definition is_power_of_two (v : Z) : bool := pow2_test v.

Definition proto_valid (p : ProtocolConfig) : bool :=
  is_power_of_two (pc_buf_pool_size p) && is_power_of_two (pc_channel_capacity p) &&
  is_power_of_two (pc_buf_ring_size p) && is_power_of_two (i32 (pc_queue_depth p)).
Definition config_valid (o : ServerOptions) : bool :=
  proto_valid (so_tcp o) && proto_valid (so_udp o) && is_power_of_two (so_tcp_pool_size o) &&
  is_power_of_two (so_udp_msghdr_pool_size o).

(** The number of workers; [hw] as an [int]. *)
Definition worker_count (o : ServerOptions) (hw : Z) : Z :=
  let threads :=
    if 0 <? so_requested_threads o then so_requested_threads o
    else if so_cpu_affinity o then Z.max 1 (hw / 2 - 1) else hw in
  if threads <? 1 then 1 else threads.

(** Either an exit code or the number of workers and the options. *)
Definition echo_main (hw : Z) (argv : list string) : result (Z + Z * ServerOptions) :=
  o ← parse_args argv default_options;
  if negb (config_valid o) then Ok (inl 2) else
  let threads := worker_count o hw in
  if negb (so_run_tcp o) && negb (so_run_udp o) then Ok (inl 2) else Ok (inr (threads, o)).

(** The worker configuration that main and TcpServer pass on; the buffer size
    is the default argument of BufPool and BufRing. *)
Definition tcp_config (o : ServerOptions) : TcpConfig :=
  mkTcpConfig (pc_buf_pool_size (so_tcp o)) (pc_channel_capacity (so_tcp o)) (pc_buf_ring_size (so_tcp o))
    (so_tcp_pool_size o) (pc_queue_depth (so_tcp o)) 4096.

(** ** Placement *)
Lemma elem_of_set_bits mask : ∀ cpu c,
  c ∈ set_bits cpu mask ↔ ∃ k : nat, mask !! k = Some true ∧ c = cpu + Z.of_nat k.
Proof.
  induction mask as [|b mask IH]; intros cpu c; simpl.
  - split; [by intros ?%not_elem_of_nil|by intros (k & ? & _)].
  - rewrite elem_of_app, IH. split.
    + intros [Hc|(k & Hk & ->)]; [|exists (S k); split; [done|lia]].
      destruct b; [|by apply not_elem_of_nil in Hc]. apply list_elem_of_singleton in Hc as ->.
      exists 0%nat. split; [done|lia].
    + intros ([|k] & Hk & ->); [left|right; exists k; split; [done|lia]].
      simplify_eq/=. apply list_elem_of_singleton. lia.
Qed.

Lemma NoDup_set_bits mask : ∀ cpu, NoDup (set_bits cpu mask).
Proof.
  induction mask as [|[] mask IH]; intros cpu; simpl; [constructor| |apply IH].
  constructor; [|apply IH]. intros (k & _ & E)%elem_of_set_bits. lia.
Qed.

(** No CPU belongs to two nodes. *)
Definition nodes_disjoint (num_nodes : Z) (node_cpus : Z → list bool) : Prop :=
  ∀ a b (k : nat), 0 ≤ a < num_nodes → 0 ≤ b < num_nodes →
    node_cpus a !! k = Some true → node_cpus b !! k = Some true → a = b.

Lemma NoDup_cpu_list num_nodes node_cpus affinity :
  nodes_disjoint num_nodes node_cpus → NoDup (get_cpu_list num_nodes node_cpus affinity).
Proof.
  intros Hd. unfold get_cpu_list.
  set (cpus := if 0 <? num_nodes then _ else _).
  assert (Hc : NoDup cpus).
  { unfold cpus. case_match; [|constructor].
    assert (Hgo : ∀ l, NoDup l → (∀ a, a ∈ l → 0 ≤ a < num_nodes) → NoDup (l ≫= fun node => set_bits 0 (node_cpus node))).
    { induction l as [|a l IH]; intros Hnd Hl; simpl; [constructor|]. apply NoDup_cons in Hnd as [Ha Hnd].
      apply NoDup_app. split_and!; [apply NoDup_set_bits| |apply IH; [done|intros; apply Hl; by right]].
      intros c (k & Hk & ->)%elem_of_set_bits (b & Hb & Hbl)%list_elem_of_bind.
      apply elem_of_set_bits in Hb as (k' & Hk' & E). assert (k' = k) as -> by lia.
      apply Ha. rewrite (Hd a b k); [done|apply Hl; by left|apply Hl; by right|done|done]. }
    apply Hgo; [apply NoDup_seqZ|]. intros a ?%elem_of_seqZ. lia. }
  destruct cpus; [|by destruct affinity]. destruct affinity; [apply NoDup_set_bits|constructor].
Qed.

(** Worker [i] gets the CPU at index [2 i]. *)
Lemma start_spec thread_nums cpu_list :
  0 ≤ thread_nums → thread_nums * 2 < 2 ^ 31 → thread_nums * 2 ≤ Z.of_nat (length cpu_list) →
  ∃ ids, Server_start true thread_nums cpu_list = Ok ids ∧ Z.of_nat (length ids) = thread_nums ∧
    ∀ i : nat, (i < length ids)%nat → ids !! i = cpu_list !! (i * 2)%nat.
Proof.
  intros H0 Hi Hl. unfold Server_start. rewrite int_of_ok by lia. step.
  rewrite (proj2 (Z.ltb_ge _ _)) by lia. step.
  set (body := fun i cpus => _).
  destruct (for_up_inv (fun i ids => i = Z.of_nat (length ids) ∧
      ∀ j : nat, (j < length ids)%nat → ids !! j = cpu_list !! (j * 2)%nat) body (Z.to_nat thread_nums) 0 [])
    as (ids & -> & Hlen & Hids).
  - split; [done|]. simpl. lia.
  - intros i ids Hr [-> Hids]. unfold body.
    destruct (lookup_lt_is_Some_2 cpu_list (length ids * 2)) as [c Hc]; [lia|].
    rewrite (arr_get_ok _ _ c) by (try lia; by replace (Z.to_nat (Z.of_nat (length ids) * 2)) with (length ids * 2)%nat by lia).
    step. eexists. split; [done|]. rewrite length_app. simpl. split; [lia|]. intros j Hj.
    destruct (decide (j = length ids)) as [->|]; [by rewrite lookup_app_r, Nat.sub_diag by lia|].
    rewrite lookup_app_l by lia. apply Hids. lia.
  - exists ids. split; [done|]. split; [lia|done].
Qed.

(** ** Start-up of a worker *)
Section start.
Context {R : Type} {Hlib : BufRingLib R} {Hlaws : BufRingLaws R}.

(** All channels closed and free, none used yet. *)
Record worker_ready (n : Z) (t : TcpThread R) : Prop := {
  wk_channels : Z.of_nat (length (tt_channels t)) = n;
  wk_fresh i ch : tt_channels t !! i = Some ch → tch_fd ch = -1 ∧ tch_read ch = CoNone ∧ tch_write ch = CoNone ∧
    tch_in_flight ch = 0;
  wk_free : tt_free_queue t = seqZ 0 n;
  wk_head : tt_head t = 0;
  wk_tail : tt_tail t = n;
  wk_sq : tt_sq t = [SqeAccept]
}.

(** A channel as TcpChannelPool's constructor leaves it. *)
Definition fresh_channel (r : ReadBufStream) (w : WriteBufStream) : TcpChannel :=
  mkTcpChannel (-1) NotifyToken_new r w 0 false CoNone CoNone 0.

(** A worker before its first completion. *)
Definition fresh_worker (n depth : Z) (b : BufRing R) (pl : BufPool) r w : TcpThread R :=
  mkTcpThread b pl depth [SqeAccept] (replicate (Z.to_nat n) (fresh_channel r w)) (seqZ 0 n) 0 n (n - 1) [] CoToken [].

Lemma fresh_worker_ready n depth b pl r w : 0 ≤ n → worker_ready n (fresh_worker n depth b pl r w).
Proof. intros Hn. split; try done; simpl; [rewrite length_replicate; lia|]. by intros i ch [-> _]%lookup_replicate_1. Qed.

(** The loop of the pool's constructor after [i] rounds. *)
Definition pool_upto (n depth i : Z) b pl r w (t : TcpThread R) : Prop :=
  ∃ queue, Z.of_nat (length queue) = n ∧ take (Z.to_nat i) queue = seqZ 0 i ∧
    t = mkTcpThread b pl depth [] (replicate (Z.to_nat i) (fresh_channel r w)) queue 0 i (n - 1) [] CoNone [].

Lemma pool_round n depth j cap b pl i t r w :
  ReadBufStream_new (junk_z j) (junk_z j) (junk_z j) (junk_z j 0) b = Ok r →
  WriteBufStream_new (junk_z j) (junk_z j) (junk_iov j) cap = Ok w →
  (∃ k, 0 ≤ k ∧ n = 2 ^ k) → n < 2 ^ 31 → 0 ≤ i < n → pool_upto n depth i b pl r w t →
  ∃ t', pool_init_slot j cap i t = Ok t' ∧ pool_upto n depth (i + 1) b pl r w t'.
Proof.
  intros Hr Hw (k & Hk & Hn) Hlt Hi (queue & Hlen & Hq & ->). unfold pool_init_slot, TcpChannel_new.
  cbn [tt_buf_ring tt_free_queue tt_tail tt_mask tt_head tt_channels]. rewrite Hr. step. rewrite Hw. step.
  rewrite Hn, land_mask, Z.mod_small by lia. rewrite arr_set_ok by lia. step. rewrite int_of_ok by lia. step.
  eexists. split; [done|]. exists (<[Z.to_nat i := i]> queue). rewrite length_insert. split; [lia|].
  replace (Z.to_nat (i + 1)) with (S (Z.to_nat i)) by lia. split.
  - rewrite (take_S_r _ _ i) by (apply list_lookup_insert_eq; lia). rewrite take_insert_ge by lia. rewrite Hq.
    by rewrite (seqZ_app 0 i 1) by lia.
  - unfold tt_with_free, tt_with_channels. simpl. by rewrite replicate_cons_app.
Qed.

Lemma worker_starts j cfg next a k p q :
  0 ≤ a → cfg_buf_ring_size cfg = 2 ^ a → 0 ≤ k → cfg_buf_pool_size cfg = 2 ^ k → 0 ≤ p → cfg_pool_size cfg = 2 ^ p →
  0 ≤ q < 31 → cfg_channel_capacity cfg = 2 ^ q → 0 < cfg_buf_size cfg → 2 ≤ cfg_queue_depth cfg →
  2 ^ a * cfg_buf_size cfg < 2 ^ 31 → 2 ^ k * cfg_buf_size cfg < 2 ^ 31 → 2 ^ p < 2 ^ 31 →
  is_Some (io_uring_setup_buf_ring (R := R) (2 ^ a) next) →
  ∃ b pl r w, TcpThread_init (R := R) j cfg next = Ok (fresh_worker (2 ^ p) (cfg_queue_depth cfg) b pl r w) ∧
    BufRing_new (junk_byte j) next (2 ^ a) (cfg_buf_size cfg) = Ok (b, i32 (next + 1)) ∧
    BufPool_new (junk_byte j) (junk_z j) (junk_z j) (2 ^ k) (cfg_buf_size cfg) = Ok pl ∧
    ReadBufStream_new (junk_z j) (junk_z j) (junk_z j) (junk_z j 0) b = Ok r ∧
    WriteBufStream_new (junk_z j) (junk_z j) (junk_iov j) (2 ^ q) = Ok w.
Proof.
  intros Ha Ea Hk Ek Hp Ep Hq Eq Hbs Hd Hra Hrk Hrp [rg Hset]. unfold TcpThread_init, TcpThread_do_init_resources. rewrite Ea, Ek.
  destruct (BufRing_new_rep (junk_byte j) next a (cfg_buf_size cfg) rg Ha Hbs Hra Hset) as (b & Eb & _ & Hb). rewrite Eb. step.
  destruct (BufPool_new_rep (junk_byte j) (junk_z j) (junk_z j) k (cfg_buf_size cfg) Hk Hbs Hrk) as (pl & Epl & _). rewrite Epl. step.
  destruct (ReadBufStream_new_rep _ _ (junk_z j) (junk_z j) (junk_z j) (junk_z j 0) _ _ _ _ _ Hb) as (r & Hr & _).
  destruct (WriteBufStream_new_rep (junk_z j) (junk_z j) (junk_iov j) q Hq) as (w & Hw & _).
  unfold TcpChannelPool_new. rewrite Ep, Eq. assert (0 < 2 ^ p) by lia. rewrite int_of_ok by lia. step.
  rewrite (proj2 (pow2_test_spec (2 ^ p))) by eauto. step. set (t0 := mkTcpThread _ _ _ _ _ _ _ _ _ _ _ _).
  destruct (for_up_inv (fun i t => pool_upto (2 ^ p) (cfg_queue_depth cfg) i b pl r w t)
    (pool_init_slot j (2 ^ q)) (Z.to_nat (2 ^ p)) 0 t0) as (t & -> & Ht).
  - eexists. split; [|by split]. rewrite length_new_array. lia.
  - intros i t Hi Ht. apply (pool_round _ _ j (2 ^ q)); try done; [eauto|lia].
  - rewrite Z2Nat.id, Z.add_0_l in Ht by lia. destruct Ht as (queue & Hlen & Hqu & ->). step.
    unfold accept_start, get_sqe. cbn [tt_depth tt_sq length]. rewrite (proj2 (Z.leb_gt _ _)) by (simpl; lia).
    step. unfold wakeup_start. cbn [tt_depth tt_sq tt_with_accept tt_with_sq length]. rewrite (proj2 (Z.leb_gt _ _)) by (simpl; lia).
    exists b, pl, r, w. split; [|done]. unfold fresh_worker. by rewrite <- Hqu, take_ge by lia.
Qed.
End start.

(** ** Options stay in the range of [int] *)
Definition proto_int (p : ProtocolConfig) : Prop :=
  pc_buf_pool_size p < 2 ^ 31 ∧ pc_channel_capacity p < 2 ^ 31 ∧ pc_buf_ring_size p < 2 ^ 31 ∧
  0 ≤ pc_queue_depth p.
Definition options_int (o : ServerOptions) : Prop :=
  proto_int (so_tcp o) ∧ proto_int (so_udp o) ∧ so_tcp_pool_size o < 2 ^ 31 ∧ so_udp_msghdr_pool_size o < 2 ^ 31.

Lemma atoi_int s n : atoi s = Ok n → n < 2 ^ 31.
Proof. unfold atoi, int_of. case_test; [|done]. intros [= <-]. lia. Qed.

Lemma parse_value_int opt v o r o' :
  parse_value opt v o = Some r → r = Ok o' → options_int o → options_int o'.
Proof.
  destruct o as [aff tcp udp th t u ps ms lv]. unfold parse_value, options_int, proto_int.
  repeat (case_bool_decide; [intros [= <-] E (? & ? & ? & ?); ok_inv;
    repeat match goal with H : atoi _ = Ok ?n |- _ => apply atoi_int in H; pose proof (u32_range n) end; simpl in *;
    decompose_ex; split_and!; lia|]).
  done.
Qed.

Lemma parse_args_int argv : ∀ o o', parse_args argv o = Ok o' → options_int o → options_int o'.
Proof.
  assert (Hgo : ∀ len argv o o', (length argv ≤ len)%nat → parse_args argv o = Ok o' → options_int o → options_int o').
  { induction len as [|len IH]; intros [|opt rest] o o' Hl E Ho; simpl in Hl; [by simplify_eq/=|lia|by simplify_eq/=|].
    cbn [parse_args] in E. destruct o as [aff tcp udp th t u ps ms lv].
    do 3 (case_bool_decide; [eapply IH; [|exact E|exact Ho]; lia|]).
    destruct rest as [|v rest']; [by simplify_eq|]. destruct (parse_value _ _ _) as [r|] eqn:Ep.
    - ok_inv. eapply IH; [|exact E|]; [simpl in Hl; lia|]. by eapply parse_value_int.
    - eapply IH; [|exact E|exact Ho]. lia. }
  intros o o'. by eapply Hgo.
Qed.

(** An accepted power of two in the range of [int]. *)
Lemma pow2_exp v : is_power_of_two v = true → v < 2 ^ 31 → ∃ k, 0 ≤ k < 31 ∧ v = 2 ^ k.
Proof.
  intros (k & Hk & ->)%pow2_test_spec Hlt. exists k. split; [|done]. split; [done|].
  apply Z.pow_lt_mono_r_iff in Hlt; lia.
Qed.

(** ** Claims *)

(** C37. With CPU affinity every worker runs on a CPU of its own: when no CPU
    belongs to two NUMA nodes and there are two CPUs per worker, [start] starts
    the given number of workers on pairwise different CPUs of the list; with
    fewer CPUs it throws before starting any. *)
Theorem start_pins_distinct_cpus num_nodes node_cpus affinity thread_nums :
  nodes_disjoint num_nodes node_cpus → 0 ≤ thread_nums → thread_nums * 2 < 2 ^ 31 →
  let cpus := get_cpu_list num_nodes node_cpus affinity in
  if bool_decide (thread_nums * 2 ≤ Z.of_nat (length cpus)) then
    ∃ ids, Server_start true thread_nums cpus = Ok ids ∧ Z.of_nat (length ids) = thread_nums ∧ NoDup ids ∧
      ∀ c, c ∈ ids → c ∈ cpus
  else Server_start true thread_nums cpus = Fault Exception.
Proof.
  intros Hd H0 Hi cpus. pose proof (NoDup_cpu_list _ _ affinity Hd) as Hnd. fold cpus in Hnd. clearbody cpus.
  case_bool_decide as Hl.
  - destruct (start_spec thread_nums cpus H0 Hi Hl) as (ids & Hs & Hlen & Hids).
    exists ids. split_and!; [done..| |].
    + apply NoDup_alt. intros i i' c E E'. pose proof (lookup_lt_Some _ _ _ E). pose proof (lookup_lt_Some _ _ _ E').
      rewrite Hids in E, E' by done. pose proof (proj1 (NoDup_alt cpus) Hnd _ _ _ E E'). lia.
    + intros c (i & Hc)%list_elem_of_lookup. pose proof (lookup_lt_Some _ _ _ Hc). rewrite Hids in Hc by done.
      by eapply list_elem_of_lookup_2.
  - unfold Server_start. rewrite int_of_ok by lia. step. by rewrite (proj2 (Z.ltb_lt _ _)) by lia.
Qed.

Lemma start_pins_distinct_cpus_witness :
  ∃ ids, Server_start true 2 (get_cpu_list 2 (fun node => if node =? 0 then [true; true] else [false; false; true; true]) None)
      = Ok ids ∧ Z.of_nat (length ids) = 2 ∧ NoDup ids.
Proof.
  destruct (start_pins_distinct_cpus 2 (fun node => if node =? 0 then [true; true] else [false; false; true; true]) None 2)
    as (ids & H1 & H2 & H3 & _).
  - intros a b k Ha Hb. assert (a = 0 ∨ a = 1) as [-> | ->] by lia; assert (b = 0 ∨ b = 1) as [-> | ->] by lia; simpl;
      try done; destruct k as [|[|[|[|k]]]]; simpl; done.
  - lia.
  - lia.
  - exists ids. split; [exact H1|]. split; [exact H2|exact H3].
Defined.

(** The submission-queue thread of a worker is pinned to the CPU numbered
    one above the worker's.  With NUMA nodes that interleave the CPU numbers
    this is another worker's CPU: six CPUs in two nodes, three workers on CPUs
    0, 4 and 3 with queue threads on 1, 5 and 4. *)
Theorem sqpoll_thread_shares_worker_cpu :
  let cpus := get_cpu_list 2 (fun node => if node =? 0 then [true; false; true; false; true; false]
                                          else [false; true; false; true; false; true]) None in
  cpus = [0; 2; 4; 1; 3; 5] ∧ Server_start true 3 cpus = Ok [0; 4; 3] ∧
  make_sqpoll_params <$> [0; 4; 3] = [1; 5; 4].
Proof. vm_compute. split_and!; reflexivity. Qed.

(** The number of workers main chooses by itself passes the asserts of the
    Server constructor: always without SQPOLL when the number of hardware
    threads is known, and with SQPOLL from two hardware threads on. *)
Theorem default_worker_count_accepted o hw :
  so_requested_threads o = 0 → (if so_cpu_affinity o then 2 else 1) ≤ hw < 2 ^ 31 →
  Server_check hw (worker_count o hw) (so_cpu_affinity o) = Ok ().
Proof.
  intros Hr Hhw. pose proof (Z.div_mod hw 2 ltac:(lia)). pose proof (Z.mod_pos_bound hw 2 ltac:(lia)).
  assert (1 ≤ worker_count o hw ≤ hw ∧ (so_cpu_affinity o = true → worker_count o hw ≤ hw / 2)) as [Hw Ha].
  { unfold worker_count. rewrite Hr. change (0 <? 0) with false. destruct (so_cpu_affinity o); cbv zeta iota in *; case_test; (split; [lia|intros ?; lia || done]). }
  unfold Server_check. rewrite u32_small by lia. rewrite (proj2 (Z.ltb_lt _ _)), (proj2 (Z.leb_le _ hw)) by lia. step.
  destruct (so_cpu_affinity o); [|done]. by rewrite (proj2 (Z.leb_le _ _)) by auto.
Qed.

Lemma default_worker_count_accepted_witness : Server_check 8 (worker_count default_options 8) false = Ok ().
Proof. apply (default_worker_count_accepted default_options 8); [reflexivity|simpl; lia]. Defined.

Lemma echo_main_accepts hw argv threads o :
  echo_main hw argv = Ok (inr (threads, o)) → config_valid o = true ∧ options_int o.
Proof.
  unfold echo_main. intros E. ok_inv. destruct (config_valid x) eqn:Hv; simpl in E; [|done].
  case_match; [done|]. simplify_eq. split; [done|]. eapply parse_args_int; [done|]. repeat split; simpl; lia.
Qed.

Lemma power_of_two_pos v : is_power_of_two v = true → 0 < v.
Proof. intros (k & Hk & ->)%pow2_test_spec. lia. Qed.

Lemma queue_depth_pos d : 0 ≤ d → is_power_of_two (i32 d) = true → 0 < d.
Proof. intros Hd H%power_of_two_pos. assert (d ≠ 0); [|lia]. by intros ->. Qed.

(** What main accepts, starts: if the command line is accepted, the two
    buffer areas of a worker are below 2 GiB, the submission queue has at least
    two entries and the kernel grants the buffer ring, then a TCP worker initialises without a fault, with every channel
    closed and in the pool in order and the accept prepared. *)
Theorem accepted_options_start {R} {Hlib : BufRingLib R} {Hlaws : BufRingLaws R} hw argv threads o j next :
  echo_main hw argv = Ok (inr (threads, o)) → 2 ≤ pc_queue_depth (so_tcp o) →
  pc_buf_pool_size (so_tcp o) * 4096 < 2 ^ 31 → pc_buf_ring_size (so_tcp o) * 4096 < 2 ^ 31 →
  is_Some (io_uring_setup_buf_ring (R := R) (pc_buf_ring_size (so_tcp o)) next) →
  ∃ t, TcpThread_init (R := R) j (tcp_config o) next = Ok t ∧ worker_ready (so_tcp_pool_size o) t.
Proof.
  intros E Hqd Hp Hr Hs. apply echo_main_accepts in E as (Hv & (H1 & H2 & H3 & Hqd0) & _ & H4 & _).
  unfold config_valid, proto_valid in Hv. bools.
  destruct (pow2_exp (pc_buf_pool_size (so_tcp o))) as (k & Hk & Ek); [done..|].
  destruct (pow2_exp (pc_channel_capacity (so_tcp o))) as (q & Hq & Eq); [done..|].
  destruct (pow2_exp (pc_buf_ring_size (so_tcp o))) as (a & Ha & Ea); [done..|].
  destruct (pow2_exp (so_tcp_pool_size o)) as (p & Hpp & Ep); [done..|].
  rewrite Ep. rewrite Ea in Hs, Hr. rewrite Ek in Hp.
  destruct (worker_starts j (tcp_config o) next a k p q) as (b & pl & r & w & Ht & _); simpl; try done; try lia.
  eexists. split; [exact Ht|]. apply fresh_worker_ready. lia.
Qed.

Lemma accepted_options_start_witness :
  ∃ o t, echo_main 8 ["--pool-size"; "4"; "--sqpoll"; "--buf-pool-size"; "16"]%string = Ok (inr (3, o)) ∧
    TcpThread_init (R := list_ring) (mkJunk (fun _ => x00) (fun _ => 0) (fun _ => (0, 0))) (tcp_config o) 0 = Ok t ∧
    worker_ready 4 t.
Proof.
  assert (H : ∃ o, echo_main 8 ["--pool-size"; "4"; "--sqpoll"; "--buf-pool-size"; "16"]%string = Ok (inr (3, o)) ∧
    so_tcp o = mkProtocolConfig 16 16 1024 512 ∧ so_tcp_pool_size o = 4).
  { eexists. split; [vm_compute; reflexivity|]. split; reflexivity. }
  destruct H as (o & E & Et & Ep). exists o.
  destruct (accepted_options_start (R := list_ring) 8 _ 3 o (mkJunk (fun _ => x00) (fun _ => 0) (fun _ => (0, 0))) 0 E)
    as (t & Hi & Hw); rewrite ?Et; [simpl; lia|simpl; lia|simpl; lia|by eexists|].
  exists t. rewrite Ep in Hw. split; [exact E|]. split; [exact Hi|exact Hw].
Defined.

(** Two entries are needed: main accepts a queue of one entry, which the accept
    takes, and the read of [wakeup_fd_] then finds the queue full: an exception
    leaves the thread and ends the program. *)
Theorem accepted_queue_depth_one_throws :
  ∃ o, echo_main 8 ["--queue-depth"; "1"; "--pool-size"; "2"; "--buf-pool-size"; "2"; "--buf-ring-size"; "2"]%string = Ok (inr (8, o)) ∧
    TcpThread_init (R := list_ring) (mkJunk (fun _ => x00) (fun _ => 0) (fun _ => (0, 0))) (tcp_config o) 0 = Fault Exception.
Proof. eexists. split; [vm_compute; reflexivity|]. vm_compute. reflexivity. Qed.

(** The check of main does not bound the sizes: a power of two whose
    buffer area needs 2 GiB is accepted, and the size computation in the
    constructor of BufPool overflows [int]. *)
Theorem accepted_pool_size_overflows :
  ∃ o, echo_main 8 ["--buf-pool-size"; "524288"]%string = Ok (inr (8, o)) ∧
    ∀ jb js jq, BufPool_new jb js jq (pc_buf_pool_size (so_tcp o)) 4096 = Fault SignedOverflow.
Proof. eexists. split; [vm_compute; reflexivity|]. reflexivity. Qed.
