(* ===== verification/Startup.v ===== *)
(** * Startup: starting the workers of a server

    Models IoThread::start_thread and bind_to_cpu (src/core/io_thread.cpp lines
    19-43), the constructors of TcpThread and UdpThread and the loop of
    TcpServer::start and UdpServer::start over the CPUs that Server.v computes.
    A pinned worker binds itself to its CPU and initialises its resources in
    its own thread, and the constructor waits for its semaphore; otherwise the
    constructor initialises the resources and then creates the thread.

    A step relation: the thread that calls [start] and the workers take turns
    in any order.  Initialisation may throw, which leaves [start] in the caller
    and terminates the program in a worker. *)
From stdpp Require Import relations strings.
From S2P Require Import Prelude Ring BufPool WriteBuf WriteBufStream TcpSend BufRing ReadBuf TcpRecv Awaiter TcpChannel Logger Server.

(** A worker: its thread, none or before a call, and its members. *)
Inductive worker_pc := WpNone | WpBind | WpInit | WpRelease | WpLoop.
#[export] Instance worker_pc_eq_dec : EqDecision worker_pc.
Proof. solve_decision. Defined.

Record worker := mkStartWorker {
  sw_cpu_id : Z;
  sw_pc : worker_pc;
  sw_initialised : bool;           (* do_init_resources has returned *)
  sw_ready : nat;                  (* ready_ *)
  sw_affinity : option Z           (* the CPU the thread is bound to *)
}.

(** The caller of [start]; in [McInit] to [McAcquire] it is in the
    constructor of the last worker. *)
Inductive main_pc := McNext | McInit | McSpawn | McAcquire | McReturned | McThrown | McTerminated.
#[export] Instance main_pc_eq_dec : EqDecision main_pc.
Proof. solve_decision. Defined.

Record start_state := mkStartState { ss_todo : list Z; ss_pc : main_pc; ss_workers : list worker }.

Definition start_init (cpus : list Z) : start_state := mkStartState cpus McNext [].

(** [TcpThread(server, cpu_id)] before [start_thread]. *)
Definition worker_new (cpu_id : Z) : worker := mkStartWorker cpu_id WpNone false 0 None.

Definition sw_init (w : worker) : worker := mkStartWorker (sw_cpu_id w) (sw_pc w) true (sw_ready w) (sw_affinity w).
Definition sw_to (pc : worker_pc) (w : worker) : worker :=
  mkStartWorker (sw_cpu_id w) pc (sw_initialised w) (sw_ready w) (sw_affinity w).
Definition sw_sem (n : nat) (w : worker) : worker :=
  mkStartWorker (sw_cpu_id w) (sw_pc w) (sw_initialised w) n (sw_affinity w).

Section startup.
(** The CPUs [sched_setaffinity] accepts; [bind_to_cpu] ignores its result. *)
Context (allowed : Z → bool).

(** [bind_to_cpu] *)
Definition bind_to_cpu (w : worker) : worker :=
  if sw_cpu_id w <? 0 then w
  else
    if allowed (sw_cpu_id w)
    then mkStartWorker (sw_cpu_id w) (sw_pc w) (sw_initialised w) (sw_ready w) (Some (sw_cpu_id w))
    else w.

(** [start_thread] for the last worker: its first action. *)
Definition pinned (cpu_id : Z) : bool := 0 <=? cpu_id.

Inductive start_step : start_state → start_state → Prop :=
  (* the loop of start *)
  | st_return ws : start_step (mkStartState [] McNext ws) (mkStartState [] McReturned ws)
  | st_construct cpu todo ws :
      start_step (mkStartState (cpu :: todo) McNext ws)
        (mkStartState todo (if pinned cpu then McSpawn else McInit) (ws ++ [worker_new cpu]))
  (* start_thread *)
  | st_init todo ws w :
      start_step (mkStartState todo McInit (ws ++ [w])) (mkStartState todo McSpawn (ws ++ [sw_init w]))
  | st_init_throws todo ws w :
      start_step (mkStartState todo McInit (ws ++ [w])) (mkStartState todo McThrown ws)
  | st_spawn todo ws w :
      start_step (mkStartState todo McSpawn (ws ++ [w]))
        (if pinned (sw_cpu_id w) then mkStartState todo McAcquire (ws ++ [sw_to WpBind w])
         else mkStartState todo McNext (ws ++ [sw_to WpLoop w]))
  | st_acquire todo ws w n :
      sw_ready w = S n → start_step (mkStartState todo McAcquire (ws ++ [w])) (mkStartState todo McNext (ws ++ [sw_sem n w]))
  (* the thread of a worker *)
  | st_bind todo pc ws i w :
      pc ≠ McTerminated → ws !! i = Some w → sw_pc w = WpBind →
      start_step (mkStartState todo pc ws) (mkStartState todo pc (<[i := sw_to WpInit (bind_to_cpu w)]> ws))
  | st_worker_init todo pc ws i w :
      pc ≠ McTerminated → ws !! i = Some w → sw_pc w = WpInit →
      start_step (mkStartState todo pc ws) (mkStartState todo pc (<[i := sw_to WpRelease (sw_init w)]> ws))
  | st_worker_throws todo pc ws i w :
      pc ≠ McTerminated → ws !! i = Some w → sw_pc w = WpInit →
      start_step (mkStartState todo pc ws) (mkStartState todo McTerminated ws)
  | st_release todo pc ws i w :
      pc ≠ McTerminated → ws !! i = Some w → sw_pc w = WpRelease →
      start_step (mkStartState todo pc ws) (mkStartState todo pc (<[i := sw_to WpLoop (sw_sem (S (sw_ready w)) w)]> ws)).

(** ** The invariant *)

(** What a pinned thread is bound to. *)
Definition bound (cpu : Z) : option Z := if allowed cpu then Some cpu else None.

(** A worker whose constructor has returned. *)
Record started (cpu : Z) (w : worker) : Prop := {
  sd_cpu : sw_cpu_id w = cpu;
  sd_pc : sw_pc w = WpLoop;
  sd_init : sw_initialised w = true;
  sd_affinity : sw_affinity w = if pinned cpu then bound cpu else None
}.

(** The worker under construction, by what its constructor does. *)
Definition constructing (pc : main_pc) (cpu : Z) (w : worker) : Prop :=
  sw_cpu_id w = cpu ∧
  match pc with
  | McInit => w = worker_new cpu ∧ pinned cpu = false
  | McSpawn => w = (if pinned cpu then worker_new cpu else sw_init (worker_new cpu))
  | McAcquire =>
      pinned cpu = true ∧
      match sw_pc w with
      | WpBind => sw_ready w = 0%nat ∧ sw_affinity w = None
      | WpInit => sw_ready w = 0%nat ∧ sw_affinity w = bound cpu
      | WpRelease => sw_ready w = 0%nat ∧ sw_affinity w = bound cpu ∧ sw_initialised w = true
      | WpLoop => sw_ready w = 1%nat ∧ sw_affinity w = bound cpu ∧ sw_initialised w = true
      | WpNone => False
      end
  | _ => False
  end.

Definition start_ok (cpus : list Z) (s : start_state) : Prop :=
  match ss_pc s with
  | McTerminated => True
  | McThrown => ∃ before cpu, cpus = before ++ cpu :: ss_todo s ∧ Forall2 started before (ss_workers s)
  | McNext => ∃ before, cpus = before ++ ss_todo s ∧ Forall2 started before (ss_workers s)
  | McReturned => ss_todo s = [] ∧ Forall2 started cpus (ss_workers s)
  | pc => ∃ before cpu ws w, cpus = before ++ cpu :: ss_todo s ∧ ss_workers s = ws ++ [w] ∧ Forall2 started before ws ∧
      constructing pc cpu w
  end.

(** Only the worker under construction has a thread that is not in its loop. *)
Lemma started_quiet before (ws : list worker) i w :
  Forall2 started before ws → ws !! i = Some w → sw_pc w = WpLoop.
Proof. intros H Hi. destruct (Forall2_lookup_r _ _ _ _ _ H Hi) as (c & _ & Hs). apply Hs. Qed.

Lemma last_busy before (ws : list worker) w i w' :
  Forall2 started before ws → (ws ++ [w]) !! i = Some w' → sw_pc w' ≠ WpLoop → w' = w ∧ i = length ws.
Proof.
  intros H Hi Hn. apply lookup_app_Some in Hi as [Hi|[Hl Hi]]; [by apply (started_quiet _ _ _ _ H) in Hi|].
  apply list_lookup_singleton_Some in Hi as [Hi ->]. split; [done|lia].
Qed.

(** A thread that is not in its loop is that of a pinned worker whose
    constructor waits. *)
Lemma busy_worker cpus todo pc ws i w :
  start_ok cpus (mkStartState todo pc ws) → pc ≠ McTerminated → ws !! i = Some w → sw_pc w ≠ WpLoop → sw_pc w ≠ WpNone →
  pc = McAcquire ∧ ∃ before cpu ws', cpus = before ++ cpu :: todo ∧ ws = ws' ++ [w] ∧ i = length ws' ∧
    Forall2 started before ws' ∧ constructing McAcquire cpu w.
Proof.
  intros H Hp Hi Hl Hn. unfold start_ok in H. cbn in H.
  destruct pc; try done; try (destruct H as (before & H)); try (destruct H as (cpu & ws' & w' & E & -> & H & Hc)); decompose_ex;
    try (exfalso; apply Hl; by eapply started_quiet).
  - destruct (last_busy _ _ _ _ _ H Hi Hl) as [-> ->]. destruct Hc as (_ & -> & _). by destruct Hn.
  - destruct (last_busy _ _ _ _ _ H Hi Hl) as [-> ->]. destruct Hc as (_ & ->). by destruct Hn; destruct (pinned cpu).
  - destruct (last_busy _ _ _ _ _ H Hi Hl) as [-> ->]. split; [done|]. by exists before, cpu, ws'.
Qed.

Lemma worker_step_ok cpus before cpu todo ws w w' :
  cpus = before ++ cpu :: todo → Forall2 started before ws → constructing McAcquire cpu w' →
  start_ok cpus (mkStartState todo McAcquire (<[length ws := w']> (ws ++ [w]))).
Proof.
  intros E H Hc. exists before, cpu, ws, w'. split_and!; try done. cbn. rewrite insert_app_r_alt, Nat.sub_diag by lia. done.
Qed.

Lemma bind_pinned w cpu : sw_cpu_id w = cpu → pinned cpu = true → sw_affinity w = None →
  bind_to_cpu w = mkStartWorker cpu (sw_pc w) (sw_initialised w) (sw_ready w) (bound cpu).
Proof.
  unfold bind_to_cpu, pinned, bound. intros <- H Ha. bools. rewrite (proj2 (Z.ltb_ge _ _)) by done.
  destruct w. cbn in *. by destruct (allowed _); subst.
Qed.

Lemma start_step_ok cpus s s' : start_ok cpus s → start_step s s' → start_ok cpus s'.
Proof.
  intros H Hs. destruct Hs as [ws|cpu todo ws|todo ws w|todo ws w|todo ws w|todo ws w n Hn|todo pc ws i w Hp Hi Hw
    |todo pc ws i w Hp Hi Hw|todo pc ws i w Hp Hi Hw|todo pc ws i w Hp Hi Hw].
  9: done.
  7-9: destruct (busy_worker _ _ _ _ _ _ H Hp Hi) as (-> & before & cpu & ws' & E & -> & -> & Hf & Hc & Hpin & Hst);
    [by rewrite Hw..|]; rewrite Hw in Hst; eapply worker_step_ok; [done..|]; (split; [|split; [done|]]).
  1-6: unfold start_ok in *; cbn [ss_pc ss_todo ss_workers] in *.
  - destruct H as (before & E & H). rewrite app_nil_r in E. by subst.
  - destruct H as (before & E & H). destruct (pinned cpu) eqn:Ep; exists before, cpu, ws, (worker_new cpu); split_and!; try done;
      (split; [done|]); by rewrite ?Ep.
  - destruct H as (before & cpu & ws' & w' & E & Ew & H & Hc & Hw & Hp). apply app_inj_tail in Ew as [<- <-]. subst w.
    exists before, cpu, ws, (sw_init (worker_new cpu)). split_and!; try done. split; [done|]. by rewrite Hp.
  - destruct H as (before & cpu & ws' & w' & E & Ew & H & _). apply app_inj_tail in Ew as [<- <-]. by exists before, cpu.
  - destruct H as (before & cpu & ws' & w' & E & Ew & H & Hc & Hw). apply app_inj_tail in Ew as [<- <-]. rewrite Hc.
    destruct (pinned cpu) eqn:Ep; subst w; cbn.
    + exists before, cpu, ws, (sw_to WpBind (worker_new cpu)). by split_and!.
    + exists (before ++ [cpu]). rewrite <- app_assoc. split; [done|]. apply Forall2_app; [done|]. constructor; [|constructor].
      split; try done. by rewrite Ep.
  - destruct H as (before & cpu & ws' & w' & E & Ew & H & Hc & Hp & Hw). apply app_inj_tail in Ew as [<- <-].
    exists (before ++ [cpu]). rewrite <- app_assoc. split; [done|]. apply Forall2_app; [done|]. constructor; [|constructor].
    destruct (sw_pc w) eqn:Epc; decompose_ex; try lia. split; try done. by rewrite Hp.
  - destruct Hst. by rewrite (bind_pinned w cpu).
  - destruct Hst. by rewrite (bind_pinned w cpu).
  - done.
  - cbn. by destruct Hst.
  - done.
  - cbn. destruct Hst as (-> & ? & ?). done.
Qed.

Lemma start_run_ok cpus s : rtc start_step (start_init cpus) s → start_ok cpus s.
Proof.
  assert (start_ok cpus (start_init cpus)) as H0 by (by exists []).
  intros H. induction H as [|s1 s2 s3 Hs _ IH]; [done|]. apply IH. by eapply start_step_ok.
Qed.

(** A worker in its loop is initialised, also while others are started. *)
Lemma start_ok_initialised cpus s i w :
  start_ok cpus s → ss_pc s ≠ McTerminated → ss_workers s !! i = Some w → sw_pc w = WpLoop → sw_initialised w = true.
Proof.
  destruct s as [todo pc ws]. unfold start_ok. cbn. intros H Hp Hi Hl.
  assert (Hq : ∀ before ws', Forall2 started before ws' → ws' !! i = Some w → sw_initialised w = true).
  { intros before ws' Hf Hi'. destruct (Forall2_lookup_r _ _ _ _ _ Hf Hi') as (c & _ & Hs). apply Hs. }
  destruct pc; try done; try (destruct H as (before & H)); try (destruct H as (cpu & ws' & w' & E & -> & H & Hc)); decompose_ex; eauto;
    apply lookup_app_Some in Hi as [Hi|[_ Hi]]; eauto; apply list_lookup_singleton_Some in Hi as [_ <-].
  - destruct Hc as (_ & -> & _). done.
  - destruct Hc as (_ & ->). by destruct (pinned cpu).
  - destruct Hc as (_ & _ & Hst). rewrite Hl in Hst. apply Hst.
Qed.

(** ** Progress *)
Definition final (pc : main_pc) : bool := match pc with McReturned | McThrown | McTerminated => true | _ => false end.

Lemma start_ok_progress cpus s : start_ok cpus s → final (ss_pc s) = false → ∃ s', start_step s s'.
Proof.
  destruct s as [todo pc ws]. unfold start_ok. cbn. intros H Hf. destruct pc; try done.
  - destruct todo; eexists; constructor.
  - destruct H as (before & cpu & ws' & w & _ & -> & _). eexists. apply st_init.
  - destruct H as (before & cpu & ws' & w & _ & -> & _). eexists. apply st_spawn.
  - destruct H as (before & cpu & ws' & w & _ & -> & _ & _ & _ & Hst).
    assert ((ws' ++ [w]) !! length ws' = Some w) as Hi by (by rewrite lookup_app_r, Nat.sub_diag by lia).
    destruct (sw_pc w) eqn:Epc; [done|eexists; by eapply st_bind|eexists; by eapply st_worker_init|eexists; by eapply st_release|].
    destruct Hst as [Hr _]. eexists. by eapply st_acquire.
Qed.

Definition main_rank (pc : main_pc) : nat :=
  match pc with McNext => 1 | McAcquire => 2 | McSpawn => 6 | McInit => 7 | _ => 0 end.
Definition worker_pc_rank (pc : worker_pc) : nat := match pc with WpBind => 3 | WpInit => 2 | WpRelease => 1 | _ => 0 end.
Definition worker_rank (w : worker) : nat := worker_pc_rank (sw_pc w).
#[local] Arguments worker_rank : simpl never.
Definition start_rank (s : start_state) : nat :=
  8 * length (ss_todo s) + main_rank (ss_pc s) + sum_list_with worker_rank (ss_workers s).

Lemma rank_app (ws : list worker) w : sum_list_with worker_rank (ws ++ [w]) = (sum_list_with worker_rank (ws) + worker_rank w)%nat.
Proof. induction ws; cbn in *; lia. Qed.

Lemma rank_insert (ws : list worker) i w w' : ws !! i = Some w →
  (sum_list_with worker_rank (<[i := w']> ws) + worker_rank w = sum_list_with worker_rank (ws) + worker_rank w')%nat.
Proof.
  revert i. induction ws as [|v ws IH]; intros [|i] Hi; cbn in *; simplify_eq; [lia|]. rewrite <- !Nat.add_assoc. f_equal. exact (IH _ Hi).
Qed.

(** A worker that takes a step gets nearer to its loop. *)
Lemma rank_move (ws : list worker) i w w' :
  ws !! i = Some w → (worker_pc_rank (sw_pc w') < worker_pc_rank (sw_pc w))%nat →
  (sum_list_with worker_rank (<[i := w']> ws) < sum_list_with worker_rank ws)%nat.
Proof. intros Hi Hr. pose proof (rank_insert _ _ _ w' Hi) as E. unfold worker_rank at 2 4 in E. lia. Qed.

Lemma start_step_rank cpus s s' : start_ok cpus s → start_step s s' → (start_rank s' < start_rank s)%nat.
Proof.
  intros H Hs. destruct Hs as [ws|cpu todo ws|todo ws w|todo ws w|todo ws w|todo ws w n Hn|todo pc ws i w Hp Hi Hw
    |todo pc ws i w Hp Hi Hw|todo pc ws i w Hp Hi Hw|todo pc ws i w Hp Hi Hw]; unfold start_rank; cbn [ss_todo ss_pc ss_workers main_rank].
  - lia.
  - rewrite rank_app. cbn [length]. change (worker_rank (worker_new cpu)) with 0%nat. destruct (pinned cpu); cbn [main_rank]; lia.
  - rewrite !rank_app. change (worker_rank (sw_init w)) with (worker_rank w). lia.
  - rewrite rank_app. lia.
  - destruct (pinned (sw_cpu_id w)); cbn [ss_todo ss_pc ss_workers main_rank]; rewrite !rank_app.
    + change (worker_rank (sw_to WpBind w)) with 3%nat. lia.
    + change (worker_rank (sw_to WpLoop w)) with 0%nat. lia.
  - rewrite !rank_app. change (worker_rank (sw_sem n w)) with (worker_rank w). lia.
  - apply Nat.add_lt_mono_l, (rank_move _ _ w); [done|]. rewrite Hw. cbn. lia.
  - apply Nat.add_lt_mono_l, (rank_move _ _ w); [done|]. rewrite Hw. cbn. lia.
  - destruct (busy_worker _ _ _ _ _ _ H Hp Hi) as [-> _]; [by rewrite Hw..|]. cbn [main_rank]. lia.
  - apply Nat.add_lt_mono_l, (rank_move _ _ w); [done|]. rewrite Hw. cbn. lia.
Qed.

Lemma start_nsteps cpus n s s' : start_ok cpus s → nsteps start_step n s s' → (n + start_rank s' ≤ start_rank s)%nat.
Proof.
  intros H Hn. induction Hn as [s|n s1 s2 s3 Hs Hn IH]; [lia|]. pose proof (start_step_rank _ _ _ H Hs).
  specialize (IH (start_step_ok _ _ _ H Hs)). lia.
Qed.
End startup.

(** [start] goes through its loop once per worker. *)
Lemma server_start_length affinity thread_nums cpu_list cpus :
  Server_start affinity thread_nums cpu_list = Ok cpus → length cpus = Z.to_nat thread_nums.
Proof.
  unfold Server_start. intros (? & _ & H)%bind_inv. set (body := fun i cpus => _) in H.
  enough (∀ n i acc, for_up n i body acc = Ok cpus → length cpus = (length acc + n)%nat) as Hgo by (by apply Hgo in H).
  clear H. induction n as [|n IH]; intros i acc H; [injection H as ->; lia|]. cbn [for_up] in H.
  apply bind_inv in H as (ids & Hb & H). unfold body in Hb. ok_inv. apply IH in H. rewrite length_app in H. cbn in H. lia.
Qed.

(** ** Claims *)

(** C12. Starting a server: whatever order the caller and the threads run in,
    when [start] returns there is one worker per configured thread, each is
    initialised and in its loop, and the pinned ones are bound to their CPU
    when the kernel accepts it.  No worker is ever in its loop before it is
    initialised.  The start cannot get stuck, on the semaphore
    or elsewhere, and is over after at most [8 n + 1] steps: [start] has
    returned or thrown, or a worker's exception has ended the program. *)
Theorem start_completes allowed affinity thread_nums cpu_list cpus n s :
  Server_start affinity thread_nums cpu_list = Ok cpus →
  nsteps (start_step allowed) n (start_init cpus) s →
  (n ≤ 8 * Z.to_nat thread_nums + 1)%nat ∧
  (final (ss_pc s) = false → ∃ s', start_step allowed s s') ∧
  (ss_pc s = McReturned → Forall2 (started allowed) cpus (ss_workers s) ∧ length (ss_workers s) = Z.to_nat thread_nums) ∧
  (ss_pc s ≠ McTerminated → ∀ i w, ss_workers s !! i = Some w → sw_pc w = WpLoop → sw_initialised w = true).
Proof.
  intros Hc Hn. apply server_start_length in Hc. pose proof (start_run_ok allowed cpus s (rtc_nsteps_2 _ _ _ Hn)) as Hs.
  assert (start_ok allowed cpus (start_init cpus)) as H0 by (by exists []).
  pose proof (start_nsteps allowed cpus n _ s H0 Hn) as Hr. split_and!.
  - unfold start_rank in Hr. cbn in Hr. lia.
  - by apply (start_ok_progress allowed cpus).
  - intros Hp. unfold start_ok in Hs. rewrite Hp in Hs. destruct Hs as [_ Hs]. split; [done|].
    by rewrite <- (Forall2_length _ _ _ Hs).
  - intros Hp i w. by apply (start_ok_initialised allowed cpus).
Qed.

Lemma start_completes_witness :
  ∃ s, nsteps (start_step (fun _ => true)) 7 (start_init [0]) s ∧ ss_pc s = McReturned ∧
    Forall2 (started (fun _ => true)) [0] (ss_workers s).
Proof.
  set (w pc i r := mkStartWorker 0 pc i r (Some 0)).
  assert (nsteps (start_step (fun _ => true)) 7 (start_init [0]) (mkStartState [] McReturned [w WpLoop true 0%nat])) as H.
  { eapply nsteps_l; [apply st_construct|]. eapply nsteps_l; [apply (st_spawn _ _ [])|].
    eapply nsteps_l; [by apply (st_bind _ _ _ _ 0 (sw_to WpBind (worker_new 0)))|].
    eapply nsteps_l; [by apply (st_worker_init _ _ _ _ 0 (w WpInit false 0%nat))|].
    eapply nsteps_l; [by apply (st_release _ _ _ _ 0 (w WpRelease true 0%nat))|].
    eapply nsteps_l; [by apply (st_acquire _ _ [] (w WpLoop true 1%nat) 0)|].
    eapply nsteps_l; [apply st_return|]. apply nsteps_O. }
  eexists. split; [exact H|]. split; [reflexivity|].
  apply (start_completes (fun _ => true) true 1 [0; 1] [0] 7 _); [reflexivity|exact H|reflexivity].
Defined.
