(* ===== verification/TcpEcho.v ===== *)
(** * TcpEcho: the TCP echo server from end to end

    A worker of the echo server (benchmarks/echo_server.cpp) together with the
    kernel it talks to: connections are accepted, bytes arrive in any chunks,
    writes complete partially and in any order, and the event loop handles the
    completions in batches of any size.  Composes the channels, coroutines and
    accept loop of TcpChannel.v with the receive path of TcpRecv.v, the
    transmit path of TcpSend.v and the start-up of Server.v. *)
From stdpp Require Import strings.
From S2P Require Import Prelude Ring BufPool WriteBuf WriteBufStream TcpSend BufRing ReadBuf TcpRecv Awaiter TcpChannel TcpLifecycle Server.

(** ** The worker and the kernel *)
Section net.
Context {R : Type} {Hlib : BufRingLib R}.

(** The worker, the completion queue, the submitted operations, and per
    channel the bytes the kernel has sent and received. *)
Record net := mkNet {
  ne_thread : TcpThread R;
  ne_cq : list (token_id * Z * Z);
  ne_kernel : list sqe;
  ne_wire : list (list byte);
  ne_recv : list (list byte)
}.

Inductive net_cmd :=
  | NcAccept (fd : Z)                              (* a connection arrives *)
  | NcRecv (c : nat) (d : list byte) (more : bool) (* a chunk arrives on a connection *)
  | NcWrite (c : nat) (m : Z)                      (* a write completes with [m] bytes *)
  | NcRound (m : nat).                             (* the loop handles [m] completions *)

(** The submitted write of a channel, and the other operations. *)
Fixpoint take_write (c : nat) (l : list sqe) : option (list (Z * Z) * list sqe) :=
  match l with
  | [] => None
  | SqeWritev d fd v :: l =>
      if decide (c = d) then Some (v, l) else '(v', l') ← take_write c l; Some (v', SqeWritev d fd v :: l')
  | e :: l => '(v', l') ← take_write c l; Some (v', e :: l')
  end.

(** The runs the theorems are about.  A completion carries no error and no end
    of stream, the accept stays armed, a chunk is not empty and fits a buffer, of which one is left (no
    -ENOBUFS), and a receive or write completes only while it is outstanding.  A
    round handles at most half as many completions as the submission queue has
    entries: each may need two. *)
Definition possible (x : net) (cmd : net_cmd) : bool :=
  let t := ne_thread x in
  match cmd with
  | NcAccept fd => 0 <=? fd
  | NcRecv c d _ =>
      negb (bool_decide (d = [])) && (Z.of_nat (length d) <=? br_buf_size (tt_buf_ring t)) &&
      match tt_channels t !! c with Some ch => bool_decide (tch_read ch = CoToken) | None => false end &&
      match kernel_receive (tt_buf_ring t) d with Ok (Some _) => true | _ => false end
  | NcWrite c m =>
      match take_write c (ne_kernel x) with Some (v, _) => (0 <? m) && (m <=? iov_total v) | None => false end
  | NcRound m => 2 * Z.of_nat m <=? tt_depth t
  end.

Definition net_step (x : net) (cmd : net_cmd) : result net :=
  let '(mkNet t cq kernel wire recv) := x in
  match cmd with
  | NcAccept fd => Ok (mkNet t (cq ++ [(TokAccept, fd, CQE_F_MORE)]) kernel wire recv)
  | NcRecv c d more =>
      r ← kernel_receive (tt_buf_ring t) d;
      match r with
      | None => Ok (mkNet t (cq ++ [(TokRead c, - ENOBUFS, 0)]) kernel wire recv)
      | Some (bid, b) =>
          Ok (mkNet (tt_with_bufs t b (tt_buf_pool t))
                (cq ++ [(TokRead c, Z.of_nat (length d), i32 (cqe_flags bid more))]) kernel wire
                (alter (fun r => r ++ d) c recv))
      end
  | NcWrite c m =>
      match take_write c kernel with
      | None => Ok x
      | Some (v, kernel') =>
          Ok (mkNet t (cq ++ [(TokWrite c, m, 0)]) kernel'
                (alter (fun w => w ++ take (Z.to_nat m) (gather (bp_bufs (tt_buf_pool t)) v)) c wire) recv)
      end
  | NcRound m =>
      t' ← TcpThread_round TcpEchoServer t (take m cq);
      Ok (mkNet t' (drop m cq) (kernel ++ tt_sq t) wire recv)
  end.

Fixpoint net_run (x : net) (cmds : list net_cmd) : result net :=
  match cmds with
  | [] => Ok x
  | cmd :: cmds => x ← net_step x cmd; net_run x cmds
  end.

(** Every command is possible when its turn comes. *)
Fixpoint all_possible (x : net) (cmds : list net_cmd) : bool :=
  match cmds with
  | [] => true
  | cmd :: cmds => possible x cmd && match net_step x cmd with Ok x => all_possible x cmds | Fault _ => true end
  end.

(** The blocks of the send pool that are not free and the buffers of the
    receive ring that are not with the kernel; and the most at any time. *)
Definition in_use (t : TcpThread R) : Z :=
  (bp_buf_num (tt_buf_pool t) - (bp_tail (tt_buf_pool t) - bp_head (tt_buf_pool t)) mod 2 ^ 32) +
  (br_buf_num (tt_buf_ring t) - Z.of_nat (length (ring_visible (br_ring (tt_buf_ring t))))).
Fixpoint net_peak (x : net) (cmds : list net_cmd) : result Z :=
  match cmds with
  | [] => Ok (in_use (ne_thread x))
  | cmd :: cmds =>
      x' ← net_step x cmd;
      m ← net_peak x' cmds;
      Ok (Z.max (in_use (ne_thread x)) m)
  end.

Definition net_start (t : TcpThread R) : net :=
  mkNet t [] [] (replicate (length (tt_channels t)) []) (replicate (length (tt_channels t)) []).
End net.
Arguments net : clear implicits.

(** ** One channel of a worker *)
Section exec.
Context {R : Type} {Hlib : BufRingLib R} (t : TcpThread R) (c : nat).
Context (Hlen : (c < length (tt_channels t))%nat).

(** The worker [t] with new buffers, operations, marks and channel [c]. *)
Definition at_ (b : BufRing R) (p : BufPool) (sq : list sqe) (pr : list nat) (ch : TcpChannel) : TcpThread R :=
  mkTcpThread b p (tt_depth t) sq (<[c := ch]> (tt_channels t)) (tt_free_queue t) (tt_head t) (tt_tail t) (tt_mask t)
    pr (tt_accept t) (tt_closed_fds t).

Lemma at_self ch : tt_channels t !! c = Some ch → at_ (tt_buf_ring t) (tt_buf_pool t) (tt_sq t) (tt_pending_reads t) ch = t.
Proof. intros H. unfold at_. rewrite list_insert_id by done. by destruct t. Qed.

Lemma chan_at b p sq pr ch : chan (at_ b p sq pr ch) c = Ok ch.
Proof. unfold chan, at_. simpl. by rewrite list_lookup_insert_eq. Qed.

Lemma upd_at b p sq pr ch f : upd (at_ b p sq pr ch) c f = at_ b p sq pr (f ch).
Proof.
  unfold upd, at_, tt_with_channels. simpl. f_equal.
  rewrite (list_alter_lookup f _ _ ch) by (by apply list_lookup_insert_eq). apply list_insert_insert_eq.
Qed.

Lemma bufs_at b p sq pr ch b' p' : tt_with_bufs (at_ b p sq pr ch) b' p' = at_ b' p' sq pr ch.
Proof. done. Qed.

Lemma pending_at b p sq pr ch pr' : tt_with_pending (at_ b p sq pr ch) pr' = at_ b p sq pr' ch.
Proof. done. Qed.

Lemma get_sqe_at b p sq pr ch op :
  Z.of_nat (length sq) < tt_depth t → get_sqe (at_ b p sq pr ch) op = Some (at_ b p (sq ++ [op]) pr ch).
Proof. intros H. unfold get_sqe. cbn [at_ tt_depth tt_sq]. by rewrite (proj2 (Z.leb_gt _ _)). Qed.

(** *** The write coroutine *)
Context (n bs cap : Z).

(** A write coroutine between two resumptions, with the vector of its write. *)
Definition wlive (f : option (list (Z * Z))) (ch : TcpChannel) : Prop :=
  match f with
  | None => tch_write ch = CoNotify ∧ tch_notify_token ch = mkNotifyToken false false true
  | Some v => tch_write ch = CoToken ∧ (∃ pd, tch_notify_token ch = mkNotifyToken pd false false) ∧
      tch_submitted ch = iov_total v
  end.

(** What the write side leaves alone. *)
Record same_read (ch ch' : TcpChannel) : Prop := {
  sr_fd : tch_fd ch' = tch_fd ch;
  sr_read_buf : tch_read_buf ch' = tch_read_buf ch;
  sr_pending : tch_in_pending_reads ch' = tch_in_pending_reads ch;
  sr_read : tch_read ch' = tch_read ch
}.

(** The operation a coroutine that goes on with [f'] has prepared. *)
Definition prepared (fd : Z) (f' : option (list (Z * Z))) : list sqe :=
  match f' with Some v => [SqeWritev c fd v] | None => [] end.

(** The same bytes, whatever is in flight. *)
Definition same_bytes (sp sp' : tx_spec) : Prop :=
  sp_pend sp' = sp_pend sp ∧ sp_sent sp' = sp_sent sp ∧ sp_acked sp' = sp_acked sp.

(** No block is empty; then no write is. *)
Definition full (l : list Z) (blks : list (list byte)) : Prop := ∀ i, i ∈ l → blk blks i ≠ [].
Definition moves (f : option (list (Z * Z))) : Prop := ∀ v, f = Some v → 0 < iov_total v.

Lemma full_send s p pend send frame free blks :
  ws_ok n bs cap s p pend send frame free blks → send ≠ [] → full send blks → (0 < length (send_stream s blks send))%nat.
Proof.
  intros Hok Hs Hf. destruct send as [|x l]; [done|]. unfold send_stream. rewrite length_drop, stream_cons, length_app.
  pose proof (wso_off Hok).
  assert (blk blks x ≠ []) as Hx by (apply Hf; by left). destruct (blk blks x) eqn:E; [done|].
  destruct (wso_head Hok) as [->|(? & ? & [= <- <-] & Hlt)]; [simpl; lia|]. rewrite E in Hlt. simpl in *. lia.
Qed.

Section write.
Context (b : BufRing R) (p : BufPool) (sq : list sqe) (pr : list nat).
Context (pend send frame free : list Z) (blks : list (list byte)) (sp : tx_spec) (wire : list byte).

(** The transmit state of a channel with the write [f] in flight. *)
Definition tx_at (ch : TcpChannel) (f : option (list (Z * Z))) (sp : tx_spec) : Prop :=
  ws_ok n bs cap (tch_write_buf ch) p pend send frame free blks ∧
  chan_inv bs cap blks (mkTxChan (tch_write_buf ch) f wire) (pend, send) sp.

Lemma has_send ch f sp' : tx_at ch f sp' → WriteBufStream_has_send_data (tch_write_buf ch) = negb (bool_decide (send = [])).
Proof.
  intros [Hok _]. unfold WriteBufStream_has_send_data.
  by rewrite (ring_eqb _ _ _ _ _ _ (wr_send (wbp_wb (wso_wbp Hok)))).
Qed.

(** Nothing to send. *)
Lemma write_try_empty ch pd h :
  tch_notify_token ch = mkNotifyToken pd false h → tx_at ch None sp → send = [] →
  ∃ s', write_try (at_ b p sq pr ch) c = Ok (true, at_ b p sq pr (tch_with_write_buf ch s')) ∧
    tx_at (tch_with_write_buf ch s') None sp.
Proof.
  intros Hn [Hok Hi] Hs. unfold write_try. rewrite chan_at. step. unfold TcpChannel_is_closing. rewrite Hn. step.
  destruct (peek_iovec_spec _ _ _ _ _ _ _ _ _ _ Hok) as (s' & E & Hok' & _ & Ho). cbn [at_ tt_buf_pool]. rewrite E. step.
  rewrite bool_decide_true by done. rewrite upd_at. exists s'. split; [done|]. split; [done|].
  pose proof (chan_inv_pending _ _ _ _ _ _ _ _ _ _ _ _ _ _ (sp_pend sp) Hi Hok' (same_on_refl _ _) Ho) as Hi'.
  destruct sp. apply Hi', Hi.
Qed.

(** All that is queued goes into one write. *)
Lemma write_try_issue ch pd h :
  tch_notify_token ch = mkNotifyToken pd false h → tx_at ch None sp → send ≠ [] → full send blks →
  Z.of_nat (length sq) < tt_depth t → - 2 ^ 31 ≤ tch_in_flight ch + 1 < 2 ^ 31 →
  ∃ s' v sp', write_try (at_ b p sq pr ch) c =
      Ok (false, at_ b p (sq ++ [SqeWritev c (tch_fd ch) v]) pr
            (tch_with_submitted (tch_with_write (tch_with_in_flight (tch_with_write_buf ch s') (tch_in_flight ch + 1)) CoToken)
               (iov_total v))) ∧
    tx_at (tch_with_write_buf ch s') (Some v) sp' ∧ same_bytes sp sp' ∧ moves (Some v).
Proof.
  intros Hn [Hok Hi] Hs Hfull Hd Hr. unfold write_try. rewrite chan_at. step. unfold TcpChannel_is_closing. rewrite Hn. step.
  destruct (peek_iovec_spec _ _ _ _ _ _ _ _ _ _ Hok) as (s' & E & Hok' & _ & Ho). cbn [at_ tt_buf_pool]. rewrite E. step.
  destruct (step_issue n bs cap (mkTxChan (tch_write_buf ch) None wire) p _ _ _ _ _ _ Hok Hi) as (ok & chx & p' & own' & free' & blks' & Ex & Hokx & _ & Hix & E1 & E2 & E3); subst own' free' blks'.
  rewrite bool_decide_false in E |- * by done. rewrite upd_at, get_sqe_at by done.
  unfold TcpChannel_in_flight_inc. rewrite chan_at. step. cbn [tch_in_flight tch_with_write_buf]. rewrite int_of_ok by done. step.
  rewrite !upd_at. set (v := iov_of _ _ _ _) in *.
  cbn [tx_chan_step tc_flight tc_stream] in Ex. rewrite (has_send ch None sp) in Ex by done.
  rewrite bool_decide_false in Ex by (by intros [? ?]). rewrite bool_decide_false in Ex by done. cbn [orb negb] in Ex.
  rewrite E in Ex. step. injection Ex as <- <- <-.
  assert (iov_total v = Z.of_nat (length (send_stream (tch_write_buf ch) blks send))) as Hv.
  { apply iov_total_of; [exact (wso_off Hok)|exact (wso_head Hok)]. }
  exists s', v, (tx_spec_chan sp TxIssue). 
  pose proof (full_send _ _ _ _ _ _ _ Hok Hs Hfull).
  split; [by rewrite Hv|split; [by split|split; [by destruct sp|]]]. intros ? [= <-]. lia.
Qed.

(** The loop of the coroutine settles: with a write of everything queued, or
    waiting for a notification when nothing is. *)
Lemma write_head_settles ch pd fuel :
  tch_notify_token ch = mkNotifyToken pd false false → tx_at ch None sp → full send blks →
  Z.of_nat (length sq) < tt_depth t → - 2 ^ 31 ≤ tch_in_flight ch + 1 < 2 ^ 31 →
  ∃ ch' f' sp', write_head (S (S fuel)) (at_ b p sq pr ch) c =
      Ok (at_ b p (sq ++ prepared (tch_fd ch) f') pr ch') ∧
    wlive f' ch' ∧ same_read ch ch' ∧ tx_at ch' f' sp' ∧ same_bytes sp sp' ∧ (f' = None ↔ send = []) ∧ moves f' ∧
    tch_in_flight ch' = tch_in_flight ch + Z.of_nat (length (prepared (tch_fd ch) f')).
Proof.
  intros Hn Htx Hfull Hd Hr. cbn [write_head]. rewrite chan_at. step. rewrite (has_send ch None sp) by done.
  case_bool_decide as Hs; cbn [negb].
  - unfold NotifyToken_await_ready. rewrite Hn. cbn [nt_pending]. destruct pd.
    + rewrite upd_at. cbn [nt_closed nt_handle].
      destruct (write_try_empty (tch_with_notify ch (mkNotifyToken false false false)) false false) as (s' & -> & Htx'); [done..|].
      step. rewrite chan_at. step. erewrite has_send by done. rewrite bool_decide_true by done.
      cbn [negb tch_notify_token tch_with_write_buf tch_with_notify nt_pending]. rewrite !upd_at. eexists _, None, sp. split; [by rewrite app_nil_r|]. simpl. split_and!; try done. lia.
    + rewrite !upd_at. eexists _, None, sp. split; [by rewrite app_nil_r|]. simpl. split_and!; try done. lia.
  - destruct (write_try_issue ch pd false Hn Htx Hs Hfull Hd Hr) as (s' & v & sp' & -> & Htx' & Hsb & Hm). step.
    eexists _, (Some v), sp'. split; [done|]. simpl. split_and!; try done. by eexists.
Qed.
End write.

(** Waking the coroutine of a channel that has something to send. *)
Lemma write_wake_issues b p sq pr ch pend send frame free blks sp wire pd :
  tch_notify_token ch = mkNotifyToken pd false false → tx_at p pend send frame free blks wire ch None sp → send ≠ [] →
  full send blks →
  Z.of_nat (length sq) < tt_depth t → - 2 ^ 31 ≤ tch_in_flight ch + 1 < 2 ^ 31 →
  ∃ ch' v sp', write_wake c (at_ b p sq pr ch) = Ok (at_ b p (sq ++ [SqeWritev c (tch_fd ch) v]) pr ch') ∧
    wlive (Some v) ch' ∧ same_read ch ch' ∧ tx_at p pend send frame free blks wire ch' (Some v) sp' ∧ same_bytes sp sp' ∧ moves (Some v) ∧
    tch_in_flight ch' = tch_in_flight ch + 1.
Proof.
  intros Hn Htx Hs Hfull Hd Hr. unfold write_wake. rewrite upd_at.
  destruct (write_try_issue b p sq pr pend send frame free blks sp wire (tch_with_write ch CoRunning) pd false)
    as (s' & v & sp' & -> & Htx' & Hsb & Hm); [done..|]. step.
  eexists _, v, sp'. split; [done|]. simpl. split_and!; try done. by eexists.
Qed.

(** [submit]: what is pending is queued, and a coroutine that waits is woken. *)
Lemma submit_at b p sq pr ch f pend send frame free blks sp wire :
  wlive f ch → tx_at p pend send frame free blks wire ch f sp → (f = None → send = []) →
  full (pend ++ send) blks → moves f →
  Z.of_nat (length sq) < tt_depth t → - 2 ^ 31 ≤ tch_in_flight ch + 1 < 2 ^ 31 →
  ∃ ok ch' f' sp' own' new, TcpChannel_submit write_wake (at_ b p sq pr ch) c = Ok (ok, at_ b p (sq ++ new) pr ch') ∧
    own' = (if ok then ([], send ++ pend) else (pend, send)) ∧
    ok = negb (bool_decide (pend = [])) && (Z.of_nat (length pend + length send) <=? cap) ∧
    wlive f' ch' ∧ same_read ch ch' ∧ tx_at p own'.1 own'.2 frame free blks wire ch' f' sp' ∧
    new = (if decide (f = None) then prepared (tch_fd ch) f' else []) ∧
    (f' = None ↔ f = None ∧ ok = false) ∧ (f ≠ None → f' = f) ∧
    same_bytes (if ok then mkTxSpec [] (sp_sent sp ++ sp_pend sp) (sp_acked sp) None else sp) sp' ∧ moves f' ∧
    tch_in_flight ch' = tch_in_flight ch + Z.of_nat (length new).
Proof.
  intros Hl [Hok Hi] Hf Hfull Hmv Hd Hr. unfold TcpChannel_submit. rewrite chan_at. step.
  destruct (step_submit n bs cap (mkTxChan (tch_write_buf ch) f wire) p _ _ _ _ _ _ Hok Hi)
    as (ok & chx & p' & own' & free' & blks' & Ex & Hokx & _ & Hix & E1 & E2 & E3 & Hcond). subst free' blks'.
  cbn [tx_chan_step tc_stream tc_flight tc_wire] in Ex.
  destruct (WriteBufStream_submit (tch_write_buf ch)) as [[ok' s']|] eqn:Es; [|done]. step.
  injection Ex as <- <- <-. rewrite upd_at. destruct ok'; cbn [negb].
  - subst own'. unfold TcpChannel_notify. rewrite chan_at. step. cbn [tch_notify_token tch_with_write_buf].
    destruct f as [v|].
    + destruct Hl as (Hw & (pd & Hn) & Hsub). rewrite Hn. cbn [NotifyToken_notify nt_handle nt_closed]. rewrite upd_at. step.
      eexists true, _, (Some v), _, _, []. rewrite app_nil_r. split; [done|]. split; [done|]. split; [done|].
      split; [split_and!; try done; by eexists|]. split; [done|]. split; [by split|].
      split_and!; try done; [|by destruct sp|simpl; lia]. by split; [|intros [? _]].
    + destruct Hl as (Hw & Hn). rewrite Hn. cbn [NotifyToken_notify nt_handle nt_closed nt_pending]. rewrite upd_at.
      rewrite (Hf eq_refl) in *. rewrite app_nil_l in *. assert (pend ≠ []) by (by intros ->).
      destruct (write_wake_issues b p sq pr (tch_with_notify (tch_with_write_buf ch s') (mkNotifyToken false false false))
        [] pend frame free blks (tx_spec_chan sp TxSubmit) wire false) as (ch' & v & sp' & -> & Hl' & Hsr & Htx' & Hsb & Hm & Hif);
        try done; [by rewrite app_nil_r in Hfull|]. step.
      eexists true, ch', (Some v), sp', _, _. split; [done|]. split; [done|]. split; [done|].
      split; [done|]. split; [by destruct Hsr|]. split; [done|]. split; [done|].
      split_and!; try done; [by split; [|intros [_ ?]]|by destruct sp].
  - subst own'. exists false, (tch_with_write_buf ch s'), f, sp, (pend, send), [].
    rewrite app_nil_r. split; [done|]. split; [done|]. split; [done|].
    split; [by destruct f|]. split; [done|]. split; [by split|]. split_and!; try done; [by destruct f|tauto|simpl; lia].
Qed.

(** A completion of a channel that is not closing. *)
Lemma in_flight_dec_at wake b p sq pr ch :
  nt_closed (tch_notify_token ch) = false → - 2 ^ 31 ≤ tch_in_flight ch - 1 < 2 ^ 31 →
  TcpChannel_in_flight_dec wake (at_ b p sq pr ch) c = Ok (at_ b p sq pr (tch_with_in_flight ch (tch_in_flight ch - 1))).
Proof.
  intros Hn Hr. unfold TcpChannel_in_flight_dec, TcpChannel_on_drained. rewrite chan_at. step. rewrite int_of_ok by done. step.
  rewrite upd_at. case_test; [|done]. rewrite chan_at. step. unfold TcpChannel_is_closing, NotifyToken_is_closed. simpl. by rewrite Hn.
Qed.

(** A completed write: its bytes leave the queue, and the coroutine goes on. *)
Lemma write_complete_at b p sq pr ch v m pend send frame free blks sp wire :
  wlive (Some v) ch → tx_at p pend send frame free blks wire ch (Some v) sp → 0 < m ≤ iov_total v →
  full (pend ++ send) blks → Z.of_nat (length sq) < tt_depth t → - 2 ^ 31 ≤ tch_in_flight ch - 1 ∧ tch_in_flight ch + 1 < 2 ^ 31 →
  ∃ ch' f' sp' p' rel send' free' blks' wire',
    write_complete TcpEchoServer (at_ b p sq pr ch) c m = Ok (at_ b p' (sq ++ prepared (tch_fd ch) f') pr ch') ∧
    wlive f' ch' ∧ same_read ch ch' ∧ tx_at p' pend send' frame free' blks' wire' ch' f' sp' ∧
    send = rel ++ send' ∧ free' = free ++ rel ∧ same_on frame blks blks' ∧ full (pend ++ send') blks' ∧
    sp_pend sp' = sp_pend sp ∧ sp_sent sp' = sp_sent sp ∧ sp_acked sp' = (sp_acked sp + Z.to_nat m)%nat ∧
    (f' = None ↔ send' = []) ∧ moves f' ∧
    tch_in_flight ch' = tch_in_flight ch - 1 + Z.of_nat (length (prepared (tch_fd ch) f')).
Proof.
  intros (Hw & (pd & Hn) & Hsub) [Hok Hi] Hm Hfull Hd Hr. unfold write_complete, write_resume.
  rewrite upd_at, in_flight_dec_at by (simpl; rewrite ?Hn; done || lia). step. rewrite chan_at. step.
  rewrite (proj2 (Z.leb_gt _ _)) by lia. cbn [tch_submitted tch_with_in_flight tch_with_write tch_write_buf tch_in_flight].
  destruct (flight_prefix n bs cap (mkTxChan (tch_write_buf ch) (Some v) wire) p _ _ _ _ _ _ Hok Hi v eq_refl) as [Hpre Htot].
  pose proof (ws_stream_bound _ _ _ _ _ _ _ _ _ _ Hok) as Hbd. apply prefix_length in Hpre.
  rewrite <- (ci_queue Hi) in Hpre. unfold send_stream in Hpre. rewrite length_drop in Hpre. cbn [snd] in Hpre.
  rewrite u32_small, Hsub, (proj2 (Z.leb_le _ _)) by lia. step.
  destruct (step_complete n bs cap (mkTxChan (tch_write_buf ch) (Some v) wire) p _ _ _ _ _ _ Hok Hi m)
    as (ok & chx & p' & [pend' send'] & free' & blks' & Ex & Hokx & Hsm & Hix & rel & E1 & E2 & E3 & Hsm2). simpl in E1, E2. subst pend'.
  cbn [tx_chan_step tc_flight tc_stream tc_wire] in Ex. rewrite (proj2 (Z.leb_le 0 m)), (proj2 (Z.leb_le m _)) in Ex by lia.
  cbn [andb at_ tt_buf_pool tt_buf_ring] in Ex |- *.
  destruct (WriteBufStream_consume_written (tch_write_buf ch) p m) as [[s' p1]|] eqn:Ec; [|done]. step. injection Ex as <- <- <-.
  rewrite bufs_at, upd_at.
  cbn [TcpEchoServer h_on_write run_app]. step. unfold write_fuel.
  assert (Hfull' : full (pend ++ send') blks').
  { intros i Hi'. rewrite Hsm2 by done. apply Hfull. rewrite E2. rewrite !elem_of_app in *. tauto. }
  destruct (write_head_settles b p1 sq pr pend send' frame free' blks' (tx_spec_chan sp (TxComplete m))
    (wire ++ take (Z.to_nat m) (gather (bp_bufs p) v))
    (tch_with_write_buf (tch_with_in_flight (tch_with_write ch CoRunning) (tch_in_flight ch - 1)) s') pd 2)
    as (ch' & f' & sp' & -> & Hl' & Hsr & Htx' & Hsb & Hff & Hmv & Hif);
    [done|by split|intros i Hi'; apply Hfull'; elt|done|simpl; lia|].
  eexists ch', f', sp', p1, rel, send', free', blks', _. split; [done|]. split; [done|]. split; [by destruct Hsr|].
  split; [exact Htx'|]. destruct Hsb as (? & ? & ?), sp. by split_and!.
Qed.

(** *** The echo *)

(** A piece that fits a block takes at most one. *)
Lemma append_need_le w p pend send frame free blks size :
  wbp n bs cap w p pend send frame free blks → 0 ≤ size ≤ bs → 0 ≤ append_need bs blks pend size ≤ 1.
Proof.
  intros Hw Hs. pose proof (wbp_pool Hw) as Hp. pose proof (pr_pos Hp) as Hbs.
  assert (Hle : ∀ k, k ≤ bs → 0 ≤ blocks_for bs k ≤ 1).
  { intros k Hk. split; [by apply blocks_for_nonneg|]. destruct (decide (0 < k)); [|rewrite blocks_for_nonpos by lia; lia].
    rewrite blocks_for_pos, blocks_for_nonpos by lia. lia. }
  unfold append_need. destruct (last pend) as [x|] eqn:El; [|specialize (Hle size); lia]. apply Hle.
  apply last_Some in El as [l ->]. destruct (wbp_held _ _ _ _ _ _ _ _ _ _ x Hw) as (Hx & _ & Hb); [elt|].
  destruct (pool_block _ _ _ _ _ x _ Hp ltac:(lia) Hb) as (_ & _ & ? & _). lia.
Qed.

(** The loop over the pieces: those that fit are appended, in order. *)
Lemma echo_append_at b sq pr send frame wire f k : ∀ pieces p ch pend free blks sp,
  tx_at p pend send frame free blks wire ch f sp → full (pend ++ send) blks →
  Forall (fun d => d ≠ [] ∧ Z.of_nat (length d) ≤ bs) pieces →
  ∃ kept s' p' pend' free' blks' sp',
    run_app write_wake (echo_append pieces k) (at_ b p sq pr ch) c =
      run_app write_wake k (at_ b p' sq pr (tch_with_write_buf ch s')) c ∧
    tx_at p' pend' send frame free' blks' wire (tch_with_write_buf ch s') f sp' ∧ full (pend' ++ send) blks' ∧
    same_on frame blks blks' ∧ kept `sublist_of` pieces ∧ sp_pend sp' = sp_pend sp ++ concat kept ∧
    sp_sent sp' = sp_sent sp ∧ sp_acked sp' = sp_acked sp ∧ (length free ≤ length free' + length pieces)%nat ∧
    ((length pieces ≤ length free)%nat → Z.of_nat (length pend + length pieces) ≤ cap → kept = pieces).
Proof.
  induction pieces as [|d pieces IH]; intros p ch pend free blks sp [Hok Hi] Hfull Hall; cbn [echo_append run_app].
  { exists [], (tch_write_buf ch), p, pend, free, blks, sp. replace (tch_with_write_buf ch (tch_write_buf ch)) with ch by (by destruct ch).
    rewrite app_nil_r. split_and!; try done. lia. }
  apply Forall_cons in Hall as [[Hd Hdl] Hall]. rewrite chan_at. step.
  pose proof (pr_total (wbp_pool (wso_wbp Hok))) as Ht.
  pose proof (wr_pos (wbp_wb (wso_wbp Hok))) as Hcap.
  pose proof (pool_n_pos _ _ _ _ _ (wbp_pool (wso_wbp Hok))) as Hn.
  destruct (step_append n bs cap (mkTxChan (tch_write_buf ch) f wire) p _ _ _ _ _ _ Hok Hi d)
    as (ok & chx & p1 & [pend1 send1] & free1 & blks1 & Ex & Hokx & Hsm & Hix & E1 & Hsm1 & Hno & Hyes & Hfit); [nia|].
  simpl in E1, Hno, Hyes. subst send1. cbn [tx_chan_step tc_stream tc_flight tc_wire] in Ex.
  cbn [at_ tt_buf_pool tt_buf_ring].
  destruct (WriteBufStream_append (tch_write_buf ch) p d (Z.of_nat (length d))) as [[[ok' s1] p1']|] eqn:Ea; [|done]. step.
  injection Ex as <- <- <-. rewrite bufs_at, upd_at.
  pose proof (append_need_le _ _ _ _ _ _ _ _ (wso_wbp Hok) (conj (Zle_0_nat (length d)) Hdl)) as Hneed.
  assert (Hfull1 : full (pend1 ++ send) blks1).
  { intros i [Hi1|Hi1]%elem_of_app; [|rewrite Hsm1 by done; apply Hfull; elt]. destruct ok'.
    - apply (Hyes eq_refl); [done| |done]. intros j Hj. apply Hfull. elt.
    - destruct (Hno eq_refl) as (-> & Hs & _). rewrite Hs by done. apply Hfull. elt. }
  assert (Hfree : (length free ≤ length free1 + 1)%nat ∧ (length pend1 ≤ length pend + 1)%nat).
  { destruct ok'.
    - destruct (Hyes eq_refl) as ((more & -> & ->) & Hl & _). rewrite !length_app in *. lia.
    - destruct (Hno eq_refl) as (-> & _ & ->). lia. }
  destruct (IH p1' (tch_with_write_buf ch s1) pend1 free1 blks1 (if ok' then tx_spec_chan sp (TxAppend d) else sp))
    as (kept & s' & p' & pend' & free' & blks' & sp' & Hrun & Htx & Hf & Hs & Hsub & Hp & Hsent & Hack & Hfr & Hex);
    [by split|done|done|].
  exists (if ok' then d :: kept else kept), s', p', pend', free', blks', sp'. split; [exact Hrun|].
  split; [exact Htx|]. split; [done|]. split; [intros i Hi'; rewrite Hs by done; by apply Hsm|].
  split; [destruct ok'; by constructor|]. destruct sp as [P S A F].
  split; [rewrite Hp; destruct ok'; simpl; [by rewrite (assoc_L (++))|done]|].
  split; [by destruct ok'|]. split; [by destruct ok'|]. split; [simpl; lia|]. intros Hl1 Hl2. simpl in Hl1, Hl2.
  assert (ok' = true) as ->; [rewrite Hfit; unfold fits; lia|]. f_equal. apply Hex; [lia|lia].
Qed.

Context {Hlaws : BufRingLaws R} (nr : Z).

Lemma gather_concat mem v : gather mem v = concat ((fun e => mem_read mem e.1 e.2) <$> v).
Proof. unfold gather. induction v as [|e v IH]; [done|]. rewrite bind_cons, fmap_cons. simpl. by rewrite IH. Qed.

Lemma recv_empty s rblks q : rs_rep nr s rblks q → recv_stream s rblks q = [] → q = [].
Proof.
  intros [Hs _] E. destruct q as [|i q]; [done|]. exfalso. unfold recv_stream in E. apply (f_equal length) in E.
  rewrite length_drop, stream_cons, length_app in E.
  pose proof (peek_offset nr s (i :: q) rblks 0 i q (rs_head_offset s) Hs eq_refl eq_refl). simpl in E. lia.
Qed.

(** The receive state of a channel that holds the buffers [q]. *)
Definition rx_at (b : BufRing R) (avail : list Z) (cq : list (Z * list byte)) (q other : list Z) (rblks : list (list byte))
    (ch : TcpChannel) : Prop :=
  br_rep nr bs b avail cq (q ++ other) rblks ∧ rs_rep nr (tch_read_buf ch) rblks q ∧
  rb_tail (rs_base (tch_read_buf ch)) = rb_head (rs_base (tch_read_buf ch)) + Z.of_nat (length q).

(** [peek] of all that is readable. *)
Lemma peek_all b avail cq q other rblks ch :
  rx_at b avail cq q other rblks ch →
  ∃ s', ReadBufStream_peek (tch_read_buf ch) b (rb_readable_bytes (rs_base (tch_read_buf ch))) = Ok (true, s') ∧
    rx_at b avail cq q other rblks (tch_with_read_buf ch s') ∧
    recv_stream s' rblks q = recv_stream (tch_read_buf ch) rblks q ∧
    rb_tail (rs_base s') = rb_tail (rs_base (tch_read_buf ch)) ∧
    let pieces := (fun e => mem_read (br_bufs b) e.1 e.2) <$> peek_pieces s' in
    concat pieces = recv_stream (tch_read_buf ch) rblks q ∧ (length pieces ≤ length q)%nat ∧
    Forall (fun d => d ≠ [] ∧ Z.of_nat (length d) ≤ bs) pieces.
Proof.
  intros (Hb & Hr & Ht).
  destruct (peek_spec _ _ _ _ _ _ _ _ _ (rb_readable_bytes (rs_base (tch_read_buf ch))) Hb Hr Ht)
    as (ok & s' & Hrun & Hok & Hr' & Hst & Hh & Htl & Hbytes); [rewrite (rsr_readable Hr); lia|].
  rewrite (rsr_readable Hr), Z.leb_refl in Hok. subst ok. destruct (Hbytes eq_refl) as (Hg & Hl & Hall).
  exists s'. split; [done|]. split; [split_and!; [done..|simpl; congruence]|]. split; [done|]. split; [done|]. simpl.
  rewrite <- gather_concat, length_fmap, Hg, (rsr_readable Hr), Nat2Z.id, firstn_all. split; [done|]. split; [done|].
  apply Forall_fmap. eapply Forall_impl; [exact Hall|]. intros e [Hpos Hle]. split; [|done]. simpl. intros E. rewrite E in Hpos. done.
Qed.

(** [consume] of all that is readable. *)
Lemma consume_all b avail cq q other rblks ch :
  rx_at b avail cq q other rblks ch → rb_tail (rs_base (tch_read_buf ch)) < 2 ^ 32 →
  ∃ s' b' rblks', ReadBufStream_consume (tch_read_buf ch) b (rb_readable_bytes (rs_base (tch_read_buf ch))) = Ok (true, s', b') ∧
    rx_at b' (avail ++ q) cq [] other rblks' (tch_with_read_buf ch s') ∧ same_on other rblks rblks' ∧
    rb_tail (rs_base s') = rb_tail (rs_base (tch_read_buf ch)) ∧ rb_readable_bytes (rs_base s') = 0.
Proof.
  intros (Hb & Hr & Ht) Htl.
  destruct (consume_spec _ _ _ _ _ _ _ _ _ (rb_readable_bytes (rs_base (tch_read_buf ch))) Hb Hr)
    as (ok & s' & b' & rel & q' & rblks' & Hrun & Hok & Hq & Hb' & Hr' & Hsm & Hst & Htl' & Hh'); [rewrite (rsr_readable Hr); lia|].
  rewrite (rsr_readable Hr), Z.leb_refl in Hok. subst ok.
  rewrite (rsr_readable Hr), Nat2Z.id, drop_all in Hst. pose proof (recv_empty _ _ _ Hr' Hst) as ->.
  rewrite app_nil_r in Hq. subst rel. exists s', b', rblks'. split; [done|].
  pose proof (rk_head (rsr_ring (rsr_core Hr))).
  split; [split_and!; [done..|simpl; rewrite Htl', Hh', u32_small by lia; lia]|]. split; [done|]. split; [done|].
  by rewrite (rsr_readable Hr'), Hst.
Qed.

(** What [on_read] of the echo server does with a channel: all that was
    readable is consumed, and the pieces that found room follow the bytes
    queued before. *)
Record echoed (avail : list Z) (cq : list (Z * list byte)) (q other : list Z) (rblks : list (list byte))
    (own : list Z * list Z) (frame free : list Z) (blks : list (list byte)) (wire : list byte)
    (ch : TcpChannel) (f : option (list (Z * Z))) (sp : tx_spec) (new : list sqe)
    (b' : BufRing R) (p' : BufPool) (ch' : TcpChannel) (f' : option (list (Z * Z))) (sp' : tx_spec) (own' : list Z * list Z)
    (free' : list Z) (blks' rblks' : list (list byte)) (pieces kept : list (list byte)) : Prop := {
  ec_rx : rx_at b' (avail ++ q) cq [] other rblks' ch';
  ec_rsame : same_on other rblks rblks';
  ec_tail : rb_tail (rs_base (tch_read_buf ch')) = rb_tail (rs_base (tch_read_buf ch));
  ec_pieces : concat pieces = recv_stream (tch_read_buf ch) rblks q;
  ec_count : (length pieces ≤ length q)%nat;
  ec_tx : tx_at p' own'.1 own'.2 frame free' blks' wire ch' f' sp';
  ec_same : same_on frame blks blks';
  ec_full : full (own'.1 ++ own'.2) blks';
  ec_live : wlive f' ch';
  ec_moves : moves f';
  ec_quiet : f' = None → own'.2 = [];
  ec_kept : kept `sublist_of` pieces;
  ec_sent : sp_sent sp' ++ sp_pend sp' = (sp_sent sp ++ sp_pend sp) ++ concat kept;
  ec_prefix : sp_sent sp `prefix_of` sp_sent sp';
  ec_acked : sp_acked sp' = sp_acked sp;
  ec_new : new = if decide (f = None) then prepared (tch_fd ch) f' else [];
  ec_flight : f ≠ None → f' = f;
  ec_free : (length free ≤ length free' + length pieces)%nat;
  ec_exact : sp_pend sp = [] → (length pieces ≤ length free)%nat →
    Z.of_nat (length own.1 + length own.2 + length pieces) ≤ cap → Z.of_nat (length own'.1 + length own'.2) ≤ cap →
    kept = pieces ∧ sp_pend sp' = [];
  ec_read : tch_fd ch' = tch_fd ch ∧ tch_in_pending_reads ch' = tch_in_pending_reads ch ∧ tch_read ch' = tch_read ch;
  ec_in_flight : tch_in_flight ch' = tch_in_flight ch + Z.of_nat (length new)
}.

Lemma on_read_at b avail cq q other rblks p own frame free blks wire ch f sp sq pr :
  rx_at b avail cq q other rblks ch → rb_tail (rs_base (tch_read_buf ch)) < 2 ^ 32 →
  tx_at p own.1 own.2 frame free blks wire ch f sp → full (own.1 ++ own.2) blks → wlive f ch → moves f →
  (f = None → own.2 = []) → Z.of_nat (length sq) < tt_depth t → - 2 ^ 31 ≤ tch_in_flight ch + 1 < 2 ^ 31 →
  ∃ new b' p' ch' f' sp' own' free' blks' rblks' pieces kept,
    run_app write_wake echo_on_read (at_ b p sq pr ch) c = Ok (at_ b' p' (sq ++ new) pr ch') ∧
    echoed avail cq q other rblks own frame free blks wire ch f sp new b' p' ch' f' sp' own' free' blks' rblks' pieces kept.
Proof.
  intros Hrx Htl Htx Hfull Hl Hmv Hq Hd Hr. unfold echo_on_read. cbn [run_app]. rewrite chan_at. step.
  pose proof (rsr_readable (proj1 (proj2 Hrx))) as Hrd. case_test.
  { (* nothing to read *)
    assert (recv_stream (tch_read_buf ch) rblks q = []) as E by (apply nil_length_inv; lia).
    assert (q = []) as -> by (eapply recv_empty; [apply Hrx|done]).
    exists [], b, p, ch, f, sp, own, free, blks, rblks, [], []. rewrite app_nil_r. split; [done|].
    split; rewrite ?app_nil_r; try done; try lia; try (by case_decide; subst); simpl; lia. }
  cbn [run_app]. rewrite chan_at. step. cbn [at_ tt_buf_ring].
  destruct (peek_all _ _ _ _ _ _ _ Hrx) as (s1 & -> & Hrx1 & Hst1 & Htl1 & Hcat & Hcnt & Hall). step. rewrite upd_at. cbn [at_ tt_buf_ring].
  set (pieces := _ <$> peek_pieces s1) in *. clearbody pieces. set (ch1 := tch_with_read_buf ch s1).
  destruct (echo_append_at b sq pr own.2 frame wire f
      (AppConsume (rb_readable_bytes (rs_base (tch_read_buf ch))) (fun _ => AppSubmit (fun _ => AppRet)))
      pieces p ch1 own.1 free blks sp Htx Hfull Hall)
    as (kept & s2 & p2 & pend2 & free2 & blks2 & sp2 & -> & Htx2 & Hfull2 & Hsm2 & Hsub & Hp2 & Hs2 & Ha2 & Hfr2 & Hex2).
  set (ch2 := tch_with_write_buf ch1 s2) in *. cbn [run_app]. rewrite chan_at. step. cbn [at_ tt_buf_ring tt_buf_pool].
  assert (rb_readable_bytes (rs_base (tch_read_buf ch)) = rb_readable_bytes (rs_base (tch_read_buf ch2))) as ->.
  { rewrite Hrd. change (tch_read_buf ch2) with s1. destruct Hrx1 as (_ & Hr1 & _). pose proof (rsr_readable Hr1) as E1. simpl in E1. by rewrite E1, Hst1. }
  destruct (consume_all b avail cq q other rblks ch2) as (s3 & b3 & rblks3 & -> & Hrx3 & Hsm3 & Htl3 & _);
    [done|change (tch_read_buf ch2) with s1; lia|].
  step. rewrite bufs_at, upd_at. set (ch3 := tch_with_read_buf ch2 s3) in *.
  destruct (submit_at b3 p2 sq pr ch3 f pend2 own.2 frame free2 blks2 sp2 wire)
    as (ok & ch4 & f4 & sp4 & own4 & new & -> & Hown & Hok & Hl4 & Hsr & Htx4 & Hnew & Hf4 & Hff & Hsb & Hm4 & Hif);
    [by destruct f|done..|]. step.
  exists new, b3, p2, ch4, f4, sp4, own4, free2, blks2, rblks3, pieces, kept. split; [done|].
  destruct Hsr as [Hfd Hrb Hpd Hro], Hsb as (Hb1 & Hb2 & Hb3).
  assert (own4 = ([], own.2 ++ pend2) ∨ own4 = (pend2, own.2)) as Hcase by (subst own4; destruct ok; auto).
  assert (Hord : sp_sent sp4 ++ sp_pend sp4 = (sp_sent sp ++ sp_pend sp) ++ concat kept).
  { rewrite Hb1, Hb2. destruct ok; simpl; rewrite ?app_nil_r, Hs2, Hp2; by rewrite (assoc_L (++)). }
  split; try done; unfold rx_at; rewrite ?Hrb; try done.
  - change (tch_read_buf ch3) with s3. rewrite Htl3. done.
  - intros i Hi. apply Hfull2. destruct Hcase as [-> | ->]; simpl in Hi; rewrite ?elem_of_app in *; tauto.
  - intros ->. destruct (proj1 Hf4 eq_refl) as [-> ->]. rewrite Hown. simpl. by apply Hq.
  - rewrite Hb2. destruct ok; simpl; rewrite Hs2; [by apply prefix_app_r|done].
  - rewrite Hb3. by destruct ok.
  - intros Hp0 Hx1 Hx2 Hx3. rewrite Hp0 in Hp2. simpl in Hp2.
    assert (kept = pieces) as -> by (apply Hex2; lia). split; [done|]. rewrite Hb1. destruct ok; [done|]. simpl.
    exfalso. rewrite Hown in Hx3. cbn [fst snd] in Hx3. rewrite (proj2 (Z.leb_le _ _)), andb_true_r in Hok by lia.
    symmetry in Hok. apply negb_false_iff, bool_decide_eq_true in Hok. subst pend2.
    destruct Htx2 as [_ Hi2]. pose proof (ci_pend Hi2) as E. rewrite Hp2, Hcat in E. apply (f_equal length) in E.
    unfold stream in E. simpl in E. lia.
Qed.

(** *** Receiving *)

(** A completion with data: the chunk is queued, the channel marked once. *)
Lemma read_complete_at b avail c2 i d q other rblks p ch sq pr more :
  rx_at b avail ((i, d) :: c2) q other rblks ch → d ≠ [] → rb_tail (rs_base (tch_read_buf ch)) + 1 < 2 ^ 32 →
  nt_closed (tch_notify_token ch) = false → Z.of_nat (length sq) < tt_depth t →
  - 2 ^ 31 ≤ tch_in_flight ch - 1 ∧ tch_in_flight ch < 2 ^ 31 →
  ∃ b' ch' new, read_complete TcpEchoServer (at_ b p sq pr ch) c (Z.of_nat (length d)) (i32 (cqe_flags i more)) =
      Ok (at_ b' p (sq ++ new) (if tch_in_pending_reads ch then pr else pr ++ [c]) ch') ∧
    rx_at b' avail c2 (q ++ [i]) other (<[Z.to_nat i := d]> rblks) ch' ∧ same_on other rblks (<[Z.to_nat i := d]> rblks) ∧
    recv_stream (tch_read_buf ch') (<[Z.to_nat i := d]> rblks) (q ++ [i]) = recv_stream (tch_read_buf ch) rblks q ++ d ∧
    rb_tail (rs_base (tch_read_buf ch')) = rb_tail (rs_base (tch_read_buf ch)) + 1 ∧
    tch_fd ch' = tch_fd ch ∧ tch_notify_token ch' = tch_notify_token ch ∧ tch_write_buf ch' = tch_write_buf ch ∧
    tch_write ch' = tch_write ch ∧ tch_submitted ch' = tch_submitted ch ∧
    tch_read ch' = CoToken ∧ tch_in_pending_reads ch' = true ∧
    tch_in_flight ch - 1 ≤ tch_in_flight ch' ≤ tch_in_flight ch ∧ (new = [] ∨ new = [SqeRecv c (tch_fd ch)]).
Proof.
  intros (Hb & Hr & Ht) Hd Htl Hn Hsq Hif. unfold read_complete.
  assert (Hi : 0 ≤ i < nr). { eapply br_range; [exact Hb|]. rewrite !elem_of_app. right. left. simpl. elt. }
  pose proof (brr_n Hb). rewrite upd_at, in_flight_dec_at by (simpl; done || lia). step.
  rewrite (proj2 (Z.leb_gt _ _)) by (destruct d; [done|simpl; lia]). rewrite flag_more_flags by lia.
  destruct (tcp_read_data_spec nr bs (tch_read_buf ch) b avail [] i d c2 q other rblks more Hb Hr Hd)
    as (s' & b' & Hrun & Hb' & Hr' & Hst & Hsm & Hh & Htl').
  pose proof (rk_tail (rsr_ring (rsr_core Hr))). rewrite u32_small in Htl' by lia.
  assert (Hstore : ∀ x sq', tch_read_buf x = tch_read_buf ch → tch_in_pending_reads x = tch_in_pending_reads ch →
    read_store (at_ b p sq' pr x) c (Z.of_nat (length d)) (i32 (cqe_flags i more)) =
      Ok (at_ b' p sq' (if tch_in_pending_reads ch then pr else pr ++ [c])
            (tch_with_read (tch_with_pending (tch_with_read_buf x s') true) CoToken))).
  { intros x sq' Ex Epd. unfold read_store, mark_pending_read. rewrite chan_at. step. cbn [at_ tt_buf_ring]. rewrite Ex, Hrun. step.
    rewrite bufs_at, upd_at, chan_at. step. cbn [tch_in_pending_reads tch_with_read_buf]. rewrite Epd.
    destruct (tch_in_pending_reads ch) eqn:Ep; step; rewrite upd_at; [destruct x; simpl in *; by subst|].
    by rewrite pending_at, upd_at. }
  assert (Hrx : ∀ x, tch_read_buf x = s' → rx_at b' avail c2 (q ++ [i]) other (<[Z.to_nat i:=d]> rblks) x).
  { intros x Ex. split; [done|]. rewrite Ex. split; [done|]. rewrite Htl', Hh, length_app. simpl. lia. }
  destruct more.
  - rewrite Hstore by done. eexists b', _, []. rewrite app_nil_r. split; [done|].
    split; [by apply Hrx|]. simpl. split_and!; try done; try lia. by left.
  - unfold arm_recv. rewrite chan_at. step. rewrite get_sqe_at by done. unfold TcpChannel_in_flight_inc. rewrite chan_at. step.
    cbn [tch_in_flight tch_with_in_flight tch_with_read]. rewrite int_of_ok by lia. step. rewrite upd_at.
    rewrite Hstore by done. eexists b', _, [_]. split; [done|].
    split; [by apply Hrx|]. simpl. split_and!; try done; try lia. by right.
Qed.

(** *** Accepting *)
Definition idle (ch : TcpChannel) : Prop :=
  tch_read ch = CoNone ∧ tch_write ch = CoNone ∧ tch_in_flight ch = 0.

(** A new connection: both coroutines are started and wait. *)
Lemma assign_at b p sq pr ch fd pend frame free blks wire sp :
  idle ch → tx_at p pend [] frame free blks wire ch None sp → Z.of_nat (length sq) + 1 < tt_depth t →
  ∃ ch' sp', TcpChannel_assign TcpEchoServer (at_ b p sq pr ch) c fd = Ok (at_ b p (sq ++ [SqeRecv c fd]) pr ch') ∧
    wlive None ch' ∧ tx_at p pend [] frame free blks wire ch' None sp' ∧ same_bytes sp sp' ∧ tch_read ch' = CoToken ∧
    tch_fd ch' = fd ∧ tch_read_buf ch' = tch_read_buf ch ∧ tch_in_pending_reads ch' = tch_in_pending_reads ch ∧
    tch_in_flight ch' = 1.
Proof.
  intros (Hr & Hw & Hi) Htx Hd. unfold TcpChannel_assign. rewrite !upd_at.
  unfold start_read. rewrite chan_at. step. cbn [tch_read tch_with_notify tch_with_fd tch_with_write tch_with_read]. rewrite Hr.
  change (destroy_done CoNone) with CoNone. rewrite decide_True by done.
  unfold arm_recv. rewrite chan_at. step. rewrite get_sqe_at by lia. unfold TcpChannel_in_flight_inc. rewrite chan_at. step.
  cbn [tch_fd tch_in_flight tch_with_notify tch_with_fd tch_with_write tch_with_read]. rewrite Hi, int_of_ok by lia. step. rewrite !upd_at.
  unfold start_write. rewrite chan_at. step.
  cbn [tch_write tch_with_notify tch_with_fd tch_with_write tch_with_read tch_with_in_flight]. rewrite Hw.
  change (destroy_done CoNone) with CoNone. rewrite decide_True by done. rewrite upd_at. unfold write_fuel.
  match goal with |- context [write_head _ (at_ _ _ _ _ ?x) _] => set (ch1 := x) end.
  destruct (write_head_settles b p (sq ++ [SqeRecv c fd]) pr pend [] frame free blks sp wire ch1 false 2)
    as (ch' & f' & sp' & -> & Hl & [Hfd Hrb Hpd Hro] & Htx' & Hsb & Hf & _ & Hif);
    [done|done|by intros i ?%not_elem_of_nil|rewrite length_app; simpl; lia|simpl; lia|].
  assert (f' = None) as -> by (by apply Hf). unfold ch1 in *. simpl in *. rewrite app_nil_r. step.
  exists ch', sp'. split_and!; try done; try lia; apply Hl.
Qed.
End exec.

(** ** The invariant of the worker and the kernel *)

(** What a channel stands for: its receive buffers and unread bytes, its send
    blocks, the bytes of its connection and the write in flight; [g_pieces]
    are the pieces read so far and [g_kept] those that were sent back. *)
Record gchan := mkGchan {
  g_q : list Z;
  g_unread : list byte;
  g_own : list Z * list Z;
  g_sp : tx_spec;
  g_flight : option (list (Z * Z));
  g_pieces : list (list byte);
  g_kept : list (list byte)
}.
Definition g_wire (g : gchan) : list byte := take (sp_acked (g_sp g)) (sp_sent (g_sp g)).
Definition txc (ch : TcpChannel) (g : gchan) : tx_chan := mkTxChan (tch_write_buf ch) (g_flight g) (g_wire g).

(** The writes of a channel that wait for the kernel, and those it has
    completed. *)
Definition wvec (c : nat) (e : sqe) : option (list (Z * Z)) :=
  match e with SqeWritev d _ v => if decide (c = d) then Some v else None | _ => None end.
Definition wdone (c : nat) (e : token_id * Z * Z) : option Z :=
  match e with (TokWrite d, m, _) => if decide (c = d) then Some m else None | _ => None end.

(** The bytes received for a channel and not yet handled. *)
Definition arrived (c : nat) (items : list (nat * list byte * Z)) : list byte :=
  concat ((fun it => it.1.2) <$> filter (fun it => it.1.1 = c) items).

(** The completions: accepted connections, the received chunks [items] in
    order, and finished writes, of [n] channels. *)
Inductive cq_ok (n : nat) : list (token_id * Z * Z) → list (nat * list byte * Z) → Prop :=
  | cq_nil : cq_ok n [] []
  | cq_accept fd cq items : 0 ≤ fd → cq_ok n cq items → cq_ok n ((TokAccept, fd, CQE_F_MORE) :: cq) items
  | cq_read c d i more cq items :
      cq_ok n cq items → cq_ok n ((TokRead c, Z.of_nat (length d), i32 (cqe_flags i more)) :: cq) ((c, d, i) :: items)
  | cq_write c m cq items : (c < n)%nat → cq_ok n cq items → cq_ok n ((TokWrite c, m, 0) :: cq) items.

Lemma cq_ok_app n cq1 items1 cq2 items2 : cq_ok n cq1 items1 → cq_ok n cq2 items2 → cq_ok n (cq1 ++ cq2) (items1 ++ items2).
Proof. intros H1 H2. induction H1; simpl; by try constructor. Qed.

Section inv.
Context {R : Type} {Hlib : BufRingLib R} {Hlaws : BufRingLaws R} (nr np bs cap : Z).
Implicit Types (t : TcpThread R) (gs : list gchan) (P : list nat).

Definition rx_ok (k : Z) t gs items avail rblks : Prop :=
  rx_inv nr bs k
    (mkRxSys (tt_buf_ring t) (tch_read_buf <$> tt_channels t)
       ((fun it => (it.1.1, Z.of_nat (length it.1.2), i32 (cqe_flags it.2 true))) <$> items))
    (mkRxSpec (g_unread <$> gs) (fst <$> items)) avail items (g_q <$> gs) rblks.
Definition tx_ok t gs free blks : Prop :=
  sys_inv np bs cap (mkTxSys (zip_with txc (tt_channels t) gs) (tt_buf_pool t)) (g_own <$> gs) (g_sp <$> gs) free blks.

(** One channel: [hd] connections were accepted, [P] are the channels marked
    for reading, [ops] the prepared and submitted operations, [w] and [r] the
    bytes sent and received; [N] bounds the blocks and buffers in use. *)
#[local] Set Implicit Arguments.
Record chan_ok (k hd N : Z) P (ops : list sqe) (cq : list (token_id * Z * Z)) (items : list (nat * list byte * Z))
    (c : nat) (ch : TcpChannel) (g : gchan) (w r : list byte) : Prop := {
  co_state : if Z.of_nat c <? hd then tch_read ch = CoToken ∧ wlive (g_flight g) ch else idle ch ∧ g_flight g = None;
  co_in_flight : - k ≤ tch_in_flight ch ≤ k;
  co_pending : tch_in_pending_reads ch = bool_decide (c ∈ P);
  co_unread : g_unread g ≠ [] → c ∈ P;
  co_moves : moves (g_flight g);
  co_quiet : g_flight g = None → (g_own g).2 = [];
  co_ops :
    match g_flight g with
    | None => omap (wvec c) ops = [] ∧ omap (wdone c) cq = []
    | Some v => omap (wvec c) ops = [v] ∧ omap (wdone c) cq = [] ∨
        omap (wvec c) ops = [] ∧ ∃ m, omap (wdone c) cq = [m] ∧ 0 < m ≤ iov_total v
    end;
  co_wire : w = take (sp_acked (g_sp g) + Z.to_nat (foldr Z.add 0 (omap (wdone c) cq))) (sp_sent (g_sp g));
  co_recv : r = concat (g_pieces g) ++ g_unread g ++ arrived c items;
  co_kept : g_kept g `sublist_of` g_pieces g;
  co_sent : sp_sent (g_sp g) ++ sp_pend (g_sp g) = concat (g_kept g);
  co_exact : N ≤ Z.min np cap → g_kept g = g_pieces g ∧ sp_pend (g_sp g) = []
}.
#[local] Unset Implicit Arguments.

(** The pool of channels: they are handed out in order and none comes back. *)
Record chans_ok t : Prop := {
  ch_queue : tt_free_queue t = seqZ 0 (Z.of_nat (length (tt_channels t)));
  ch_tail : tt_tail t = Z.of_nat (length (tt_channels t));
  ch_mask : tt_mask t = Z.of_nat (length (tt_channels t)) - 1;
  ch_pow : ∃ e, 0 ≤ e < 31 ∧ Z.of_nat (length (tt_channels t)) = 2 ^ e;
  ch_head : 0 ≤ tt_head t ≤ Z.of_nat (length (tt_channels t));
  ch_accept : tt_accept t = CoToken
}.

(** [T] bounds the work so far, [N] the blocks and buffers in use. *)
#[local] Set Implicit Arguments.
Record einv (T k N : Z) P t cq kernel (wire recv : list (list byte)) gs items avail rblks free blks : Prop := {
  e_rx : rx_ok k t gs items avail rblks;
  e_tx : tx_ok t gs free blks;
  e_full : full (owned (g_own <$> gs)) blks;
  e_gs : length gs = length (tt_channels t);
  e_wire : length wire = length (tt_channels t);
  e_recv : length recv = length (tt_channels t);
  e_chans : chans_ok t;
  e_cq : cq_ok (length (tt_channels t)) cq items;
  e_items : Forall (fun it => Z.of_nat it.1.1 < tt_head t) items;
  e_P : NoDup P;
  e_Plive : Forall (fun c => Z.of_nat c < tt_head t) P;
  e_count : np - Z.of_nat (length free) + Z.of_nat (length (held_by (g_q <$> gs)) + length items) ≤ N;
  e_ops c : (length (tt_channels t) ≤ c)%nat → omap (wvec c) (kernel ++ tt_sq t) = [];
  e_k : 0 ≤ k ∧ k + 3 * Z.of_nat (length cq) + 2 * Z.of_nat (length P) ≤ T;
  e_chan c ch g w r : tt_channels t !! c = Some ch → gs !! c = Some g → wire !! c = Some w → recv !! c = Some r →
    chan_ok k (tt_head t) N P (kernel ++ tt_sq t) cq items c ch g w r
}.
#[local] Unset Implicit Arguments.
Arguments e_ops {_ _ _ _ _ _ _ _ _ _ _ _ _ _ _} _ _.
Arguments e_chan {_ _ _ _ _ _ _ _ _ _ _ _ _ _ _} _ _ _ _ _ _.

(** *** One channel out of many *)
Lemma rx_focus k t gs items avail rblks c ch g :
  rx_ok k t gs items avail rblks → tt_channels t !! c = Some ch → gs !! c = Some g →
  rx_at bs nr (tt_buf_ring t) avail ((fun it => (it.2, it.1.2)) <$> items) (g_q g) (held_others c (g_q <$> gs)) rblks ch ∧
  recv_stream (tch_read_buf ch) rblks (g_q g) = g_unread g ∧ rb_tail (rs_base (tch_read_buf ch)) ≤ k.
Proof.
  intros H Hc Hg. assert (Hq : (g_q <$> gs) !! c = Some (g_q g)) by (by rewrite list_lookup_fmap, Hg).
  destruct (ri_chan H c (s := tch_read_buf ch) (q := g_q g) (u := g_unread g)) as [Hr Hu Ht Hk].
  - simpl. by rewrite list_lookup_fmap, Hc.
  - done.
  - simpl. by rewrite list_lookup_fmap, Hg.
  - split; [|done]. split; [|by split]. eapply br_rep_perm; [|apply (ri_ring H)]. by apply held_focus.
Qed.

Lemma rx_close k k' t gs items avail rblks c ch g t' b' avail' items' rblks' ch' g' :
  rx_ok k t gs items avail rblks → k ≤ k' → tt_channels t !! c = Some ch → gs !! c = Some g →
  rx_at bs nr b' avail' ((fun it => (it.2, it.1.2)) <$> items') (g_q g') (held_others c (g_q <$> gs)) rblks' ch' →
  same_on (held_others c (g_q <$> gs)) rblks rblks' → recv_stream (tch_read_buf ch') rblks' (g_q g') = g_unread g' →
  rb_tail (rs_base (tch_read_buf ch')) ≤ k' → items' `suffix_of` items →
  tt_buf_ring t' = b' → tt_channels t' = <[c := ch']> (tt_channels t) →
  rx_ok k' t' (<[c := g']> gs) items' avail' rblks'.
Proof.
  intros H Hk Hc Hg (Hb & Hr & Ht) Hsm Hu Htl Hsuf <- Hch. unfold rx_ok. rewrite Hch, !list_fmap_insert.
  refine (rx_update nr bs k k' _ _ _ _ _ _ c (tch_read_buf ch) (g_q g) (g_unread g) _ _ items' _ _ _ _ _ H Hk _ _ _ Hb Hsm _ Hsuf eq_refl).
  - simpl. by rewrite list_lookup_fmap, Hc.
  - by rewrite list_lookup_fmap, Hg.
  - simpl. by rewrite list_lookup_fmap, Hg.
  - by split.
Qed.

Lemma tx_focus t gs free blks c ch g :
  tx_ok t gs free blks → tt_channels t !! c = Some ch → gs !! c = Some g →
  tx_at np bs cap (tt_buf_pool t) (g_own g).1 (g_own g).2 (others c (g_own <$> gs)) free blks (g_wire g) ch (g_flight g) (g_sp g).
Proof.
  intros H Hc Hg. assert (Hx : zip_with txc (tt_channels t) gs !! c = Some (txc ch g)).
  { rewrite lookup_zip_with, Hc. simpl. by rewrite Hg. }
  assert (Ho : (g_own <$> gs) !! c = Some (g_own g)) by (by rewrite list_lookup_fmap, Hg).
  assert (Hs : (g_sp <$> gs) !! c = Some (g_sp g)) by (by rewrite list_lookup_fmap, Hg).
  split; [apply (sys_focus _ _ _ _ _ _ _ _ _ _ _ _ H Hx Ho Hs)|].
  rewrite <- surjective_pairing. by apply (si_chan H c (txc ch g) (g_own g) (g_sp g)).
Qed.

Lemma tx_close t gs free blks c ch g t' p' free' blks' ch' g' wire' :
  tx_ok t gs free blks → tt_channels t !! c = Some ch → gs !! c = Some g →
  tx_at np bs cap p' (g_own g').1 (g_own g').2 (others c (g_own <$> gs)) free' blks' wire' ch' (g_flight g') (g_sp g') →
  same_on (others c (g_own <$> gs)) blks blks' →
  tt_buf_pool t' = p' → tt_channels t' = <[c := ch']> (tt_channels t) →
  tx_ok t' (<[c := g']> gs) free' blks'.
Proof.
  intros H Hc Hg [Hok Hi] Hsm <- Hch. unfold tx_ok. rewrite Hch, !list_fmap_insert, <- (insert_zip_with txc).
  assert (wire' = g_wire g') as -> by apply (ci_wire Hi).
  rewrite <- surjective_pairing in Hi.
  refine (sys_update np bs cap _ _ _ _ _ c (txc ch g) (txc ch' g') _ _ _ _ _ H _ Hok Hsm Hi).
  simpl. rewrite lookup_zip_with, Hc. simpl. by rewrite Hg.
Qed.

(** What happens elsewhere does not matter to a channel. *)
Lemma chan_ok_other k k' hd hd' N N' P P' ops ops' cq cq' items items' c ch g w r :
  chan_ok k hd N P ops cq items c ch g w r → k ≤ k' → N ≤ N' → (Z.of_nat c <? hd') = (Z.of_nat c <? hd) →
  (c ∈ P' ↔ c ∈ P) → omap (wvec c) ops' = omap (wvec c) ops → omap (wdone c) cq' = omap (wdone c) cq →
  arrived c items' = arrived c items → chan_ok k' hd' N' P' ops' cq' items' c ch g w r.
Proof.
  intros [] Hk HB Hhd HP Hops Hcq Hit. split; rewrite ?Hhd, ?Hops, ?Hcq, ?Hit, ?HP; try done; try lia.
  - rewrite co_pending0. by apply bool_decide_ext.
  - intros ?. apply co_exact0. lia.
Qed.

(** The parts of the worker a callback or coroutine of channel [c] changes. *)
Record moved (c : nat) t t' (ch' : TcpChannel) (new : list sqe) : Prop := {
  mv_channels : tt_channels t' = <[c := ch']> (tt_channels t);
  mv_sq : tt_sq t' = tt_sq t ++ new;
  mv_head d : d ≠ c → (Z.of_nat d <? tt_head t') = (Z.of_nat d <? tt_head t);
  mv_le : tt_head t ≤ tt_head t';
  mv_chans : chans_ok t';
  mv_new d : d ≠ c → omap (wvec d) new = []
}.

Lemma moved_at c t ch' b p new pr : (c < length (tt_channels t))%nat → chans_ok t → (∀ d, d ≠ c → omap (wvec d) new = []) →
  moved c t (at_ t c b p (tt_sq t ++ new) pr ch') ch' new.
Proof.
  intros Hc [] Hn. split; try done. split; simpl; by rewrite ?length_insert.
Qed.

Lemma einv_update T k N P t cq kernel wire recv gs items avail rblks free blks
    c ch g w r t' ch' g' new k' P' cq' items' avail' rblks' free' blks' :
  einv T k N P t cq kernel wire recv gs items avail rblks free blks →
  tt_channels t !! c = Some ch → gs !! c = Some g → wire !! c = Some w → recv !! c = Some r →
  moved c t t' ch' new → k ≤ k' →
  rx_ok k' t' (<[c := g']> gs) items' avail' rblks' → tx_ok t' (<[c := g']> gs) free' blks' →
  same_on (others c (g_own <$> gs)) blks blks' → full ((g_own g').1 ++ (g_own g').2) blks' →
  (∀ d, d ≠ c → omap (wdone d) cq' = omap (wdone d) cq ∧ arrived d items' = arrived d items ∧ (d ∈ P' ↔ d ∈ P)) →
  cq_ok (length (tt_channels t)) cq' items' → items' `suffix_of` items → NoDup P' → Forall (fun c => Z.of_nat c < tt_head t') P' →
  Z.of_nat (length (g_q g') + length items') - Z.of_nat (length free') ≤ Z.of_nat (length (g_q g) + length items) - Z.of_nat (length free) →
  k' + 3 * Z.of_nat (length cq') + 2 * Z.of_nat (length P') ≤ T →
  chan_ok k' (tt_head t') N P' (kernel ++ tt_sq t') cq' items' c ch' g' w r →
  einv T k' N P' t' cq' kernel wire recv (<[c := g']> gs) items' avail' rblks' free' blks'.
Proof.
  intros E Hc Hg Hw Hr [Hch Hsq Hhd Hle Hchs Hnew] Hk Hrx Htx Hsm Hf Hoth Hcq Hsuf HP HPl Hcnt HT Hok.
  pose proof (lookup_lt_Some _ _ _ Hg) as Hlt. destruct E.
  split; try done; rewrite ?Hch, ?length_insert; try done; try lia.
  - intros i Hi. rewrite list_fmap_insert, owned_middle in Hi by (rewrite length_fmap; lia). rewrite (assoc_L (++)) in Hi.
    apply elem_of_app in Hi as [Hi|Hi]; [by apply Hf|]. rewrite Hsm by done. apply e_full0.
    rewrite <- (list_insert_id (g_own <$> gs) c (g_own g)) by (by rewrite list_lookup_fmap, Hg).
    rewrite owned_middle by (rewrite length_fmap; lia). elt.
  - destruct Hsuf as [pre ->]. apply Forall_app in e_items0 as [_ Hi]. eapply Forall_impl; [exact Hi|]. simpl. lia.
  - rewrite list_fmap_insert, held_middle by (rewrite length_fmap; lia). rewrite length_app.
    rewrite (held_focus (g_q <$> gs) c (g_q g)), length_app in e_count0 by (by rewrite list_lookup_fmap, Hg). lia.
  - intros d Hd. rewrite Hsq, (assoc_L (++)), omap_app, Hnew, app_nil_r by lia. by apply e_ops0.
  - intros d chd gd wd rd Hd1 Hd2 Hd3 Hd4. destruct (decide (d = c)) as [->|Hne].
    + rewrite list_lookup_insert_eq in Hd1 by (rewrite <- e_gs0; lia). rewrite list_lookup_insert_eq in Hd2 by lia. by simplify_eq.
    + rewrite list_lookup_insert_ne in Hd1 by done. rewrite list_lookup_insert_ne in Hd2 by done.
      destruct (Hoth d Hne) as (? & ? & ?). eapply chan_ok_other; [by eapply e_chan0|done|done|by apply Hhd|done| |done|done].
      rewrite Hsq, (assoc_L (++)), omap_app, Hnew, app_nil_r by done. done.
Qed.

Lemma in_use_eq k t gs items avail rblks free blks :
  rx_ok k t gs items avail rblks → tx_ok t gs free blks →
  in_use t = np - Z.of_nat (length free) + Z.of_nat (length (held_by (g_q <$> gs)) + length items).
Proof.
  intros Hrx Htx. pose proof (ri_ring Hrx) as Hb. pose proof (si_pool Htx) as Hp. simpl in Hb, Hp. unfold in_use.
  rewrite (pr_num Hp), <- (rk_len (pr_ring Hp)), (brr_num Hb), (brr_visible Hb), length_fmap.
  pose proof (Permutation_length (brr_perm Hb)) as Hl. rewrite !length_app, !length_fmap, length_seqZ in Hl. pose proof (brr_n Hb). lia.
Qed.

(** *** The completions *)
Definition Einv (T N : Z) P t cq kernel wire recv : Prop :=
  ∃ k gs items avail rblks free blks, einv T k N P t cq kernel wire recv gs items avail rblks free blks.

Lemma einv_get T k N P t cq kernel wire recv gs items avail rblks free blks c :
  einv T k N P t cq kernel wire recv gs items avail rblks free blks → (c < length (tt_channels t))%nat →
  ∃ ch g w r, tt_channels t !! c = Some ch ∧ gs !! c = Some g ∧ wire !! c = Some w ∧ recv !! c = Some r ∧
    chan_ok k (tt_head t) N P (kernel ++ tt_sq t) cq items c ch g w r.
Proof.
  intros E Hc. pose proof (e_gs E). pose proof (e_wire E). pose proof (e_recv E).
  destruct (lookup_lt_is_Some_2 (tt_channels t) c) as [ch Hch]; [lia|].
  destruct (lookup_lt_is_Some_2 gs c) as [g Hg]; [lia|].
  destruct (lookup_lt_is_Some_2 wire c) as [w Hw]; [lia|].
  destruct (lookup_lt_is_Some_2 recv c) as [r Hr]; [lia|].
  exists ch, g, w, r. split_and!; try done. exact (e_chan E c ch g w r Hch Hg Hw Hr).
Qed.

Lemma einv_lookup T k N P t cq kernel wire recv gs items avail rblks free blks c :
  einv T k N P t cq kernel wire recv gs items avail rblks free blks → Z.of_nat c < tt_head t →
  ∃ ch g w r, tt_channels t !! c = Some ch ∧ gs !! c = Some g ∧ wire !! c = Some w ∧ recv !! c = Some r ∧
    chan_ok k (tt_head t) N P (kernel ++ tt_sq t) cq items c ch g w r ∧ tch_read ch = CoToken ∧ wlive (g_flight g) ch ∧
    nt_closed (tch_notify_token ch) = false.
Proof.
  intros E Hc. pose proof (ch_head _ (e_chans E)).
  destruct (einv_get _ _ _ _ _ _ _ _ _ _ _ _ _ _ _ c E ltac:(lia)) as (ch & g & w & r & Hch & Hg & Hw & Hr & Hok).
  pose proof (co_state Hok) as Hst. rewrite (proj2 (Z.ltb_lt _ _)) in Hst by done. destruct Hst as [Hrd Hl].
  exists ch, g, w, r. split_and!; try done. destruct (g_flight g); [destruct Hl as (_ & (? & ->) & _)|destruct Hl as [_ ->]]; done.
Qed.

Lemma arrived_cons c d i items : arrived c ((c, d, i) :: items) = d ++ arrived c items.
Proof. unfold arrived. by rewrite filter_cons_True. Qed.
Lemma arrived_cons_ne c c' d i items : c' ≠ c → arrived c' ((c, d, i) :: items) = arrived c' items.
Proof. intros Hne. unfold arrived. by rewrite filter_cons_False by (simpl; congruence). Qed.

Lemma own_full T k N P t cq kernel wire recv gs items avail rblks free blks c g :
  einv T k N P t cq kernel wire recv gs items avail rblks free blks → gs !! c = Some g →
  full ((g_own g).1 ++ (g_own g).2) blks.
Proof.
  intros E Hg j Hj. apply (e_full E). unfold owned. apply list_elem_of_bind.
  exists (g_own g). split; [done|]. apply list_elem_of_lookup_2 with c. by rewrite list_lookup_fmap, Hg.
Qed.

(** A channel marked for reading once. *)
Definition marked (c : nat) (pr : list nat) : list nat := if bool_decide (c ∈ pr) then pr else pr ++ [c].

Lemma elem_of_marked c pr x : x ∈ marked c pr ↔ x ∈ pr ∨ x = c.
Proof.
  unfold marked. case_bool_decide; [|by rewrite elem_of_app, list_elem_of_singleton]. split; [by left|by intros [?| ->]].
Qed.
Lemma length_marked c pr : (length (marked c pr) ≤ length pr + 1)%nat.
Proof. unfold marked. case_bool_decide; rewrite ?length_app; simpl; lia. Qed.
Lemma marked_nodup c pr : NoDup pr → NoDup (marked c pr).
Proof.
  intros H. unfold marked. case_bool_decide; [done|]. apply NoDup_app. split_and!; [done| |apply NoDup_singleton].
  by intros x Hx ->%list_elem_of_singleton.
Qed.

Lemma handle_read T N t c d i more cq kernel wire recv k gs items avail rblks free blks :
  einv T k N (tt_pending_reads t) t ((TokRead c, Z.of_nat (length d), i32 (cqe_flags i more)) :: cq) kernel wire recv gs
    ((c, d, i) :: items) avail rblks free blks →
  T < 2 ^ 31 → Z.of_nat (length (tt_sq t)) < tt_depth t → cq_ok (length (tt_channels t)) cq items →
  ∃ t', complete TcpEchoServer t (TokRead c) (Z.of_nat (length d)) (i32 (cqe_flags i more)) = Ok t' ∧
    Einv T N (tt_pending_reads t') t' cq kernel wire recv ∧
    (length (tt_sq t') + length (tt_pending_reads t') ≤ length (tt_sq t) + length (tt_pending_reads t) + 2)%nat ∧
    tt_depth t' = tt_depth t.
Proof.
  intros E HT Hsq Hcqok. pose proof (e_items E) as [Hlive _]%Forall_cons. simpl in Hlive.
  destruct (einv_lookup _ _ _ _ _ _ _ _ _ _ _ _ _ _ _ c E Hlive) as (ch & g & w & r & Hc & Hg & Hw & Hr & Hok & Hrd & Hl & Hn).
  destruct (rx_focus _ _ _ _ _ _ _ _ _ (e_rx E) Hc Hg) as (Hrx & Hu & Htl).
  pose proof (e_k E) as [Hk0 HkT]. cbn [length] in HkT.
  pose proof (co_in_flight Hok) as Hif.
  destruct (ri_items (e_rx E) (c := c) (d := d) (i := i)) as [Hd _]; [by left|].
  unfold complete. unfold chan at 1. rewrite Hc. step. rewrite decide_True by done.
  pose proof (lookup_lt_Some _ _ _ Hc) as Hlt.
  destruct (read_complete_at t c Hlt bs nr (tt_buf_ring t) avail _ i d (g_q g) (held_others c (g_q <$> gs)) rblks (tt_buf_pool t) ch
    (tt_sq t) (tt_pending_reads t) more Hrx Hd)
    as (b' & ch' & new & Hrun & Hrx' & Hsm & Hst & Htl' & Hfd & Hnt & Hwb & Hwr & Hsub & Hrd' & Hpd & Hif' & Hnew); [lia|done|done|lia|].
  rewrite (at_self t c Hlt ch Hc) in Hrun. rewrite Hrun. eexists. split; [done|]. cbn [tt_pending_reads at_ tt_sq tt_depth].
  set (g' := mkGchan (g_q g ++ [i]) (g_unread g ++ d) (g_own g) (g_sp g) (g_flight g) (g_pieces g) (g_kept g)).
  assert ((if tch_in_pending_reads ch then tt_pending_reads t else tt_pending_reads t ++ [c]) = marked c (tt_pending_reads t)) as HP'.
  { by rewrite (co_pending Hok). }
  rewrite HP' in *. pose proof (length_marked c (tt_pending_reads t)) as Hlen.
  split; [|split; [|done]].
  2: { rewrite length_app. destruct Hnew as [-> | ->]; simpl; lia. }
  assert (Hnw : ∀ x, omap (wvec x) new = []) by (intros x; by destruct Hnew as [-> | ->]).
  eexists (k + 1), (<[c := g']> gs), items, avail, _, free, blks.
  eapply (einv_update T k N _ t _ kernel wire recv gs _ avail rblks free blks c ch g w r _ ch' g' new); try done.
  - apply moved_at; [done|apply E|auto].
  - lia.
  - eapply rx_close; [apply E|lia|done|done|exact Hrx'|done| |lia|by exists [(c, d, i)]|done|done]. simpl. by rewrite Hst, Hu.
  - eapply tx_close; [apply E|done|done| |done|done|done].
    pose proof (tx_focus _ _ _ _ _ _ _ (e_tx E) Hc Hg) as [Htx1 Htx2]. simpl.
    split; by rewrite Hwb.
  - exact (own_full _ _ _ _ _ _ _ _ _ _ _ _ _ _ _ _ _ E Hg).
  - intros x Hx. split; [done|]. split; [by rewrite arrived_cons_ne|]. rewrite elem_of_marked. tauto.
  - by exists [(c, d, i)].
  - apply marked_nodup, E.
  - apply Forall_forall. intros x [Hx | ->]%elem_of_marked; [|done]. simpl. by eapply (proj1 (Forall_forall _ _) (e_Plive E)).
  - simpl. rewrite length_app. simpl. lia.
  - lia.
  - cbn [at_ tt_sq tt_head]. destruct Hok. split; simpl; try done.
    + rewrite (proj2 (Z.ltb_lt _ _)) in * by done. split; [done|]. unfold wlive in *. destruct (g_flight g); by rewrite Hwr, Hnt, ?Hsub.
    + lia.
    + rewrite Hpd. symmetry. apply bool_decide_true, elem_of_marked. by right.
    + intros _. apply elem_of_marked. by right.
    + rewrite (assoc_L (++)), omap_app, Hnw, app_nil_r. done.
    + rewrite co_recv0, arrived_cons. by rewrite <- !(assoc_L (++)).
Qed.

(** The operations a write coroutine prepares are its own. *)
Lemma prepared_own c fd f d : d ≠ c → omap (wvec d) (prepared c fd f) = [].
Proof. intros Hd. destruct f; [|done]. cbn. by rewrite decide_False. Qed.
Lemma prepared_self c fd f : omap (wvec c) (prepared c fd f) = match f with Some v => [v] | None => [] end.
Proof. destruct f; [|done]. cbn. by rewrite decide_True. Qed.

(** Only an accepted connection has a finished write. *)
Lemma written_live T k N P t c m cq kernel wire recv gs items avail rblks free blks :
  einv T k N P t ((TokWrite c, m, 0) :: cq) kernel wire recv gs items avail rblks free blks →
  (c < length (tt_channels t))%nat → Z.of_nat c < tt_head t.
Proof.
  intros E Hlt. pose proof (e_gs E). pose proof (e_wire E).
  pose proof (e_recv E).
  destruct (lookup_lt_is_Some_2 (tt_channels t) c) as [ch Hch]; [lia|].
  destruct (lookup_lt_is_Some_2 gs c) as [g Hg]; [lia|].
  destruct (lookup_lt_is_Some_2 wire c) as [w Hw]; [lia|].
  destruct (lookup_lt_is_Some_2 recv c) as [r Hr]; [lia|].
  destruct (e_chan E c ch g w r Hch Hg Hw Hr) as [Hst _ _ _ _ _ Hops _ _ _ _ _].
  destruct (Z.ltb_spec (Z.of_nat c) (tt_head t)) as [|_]; [done|]. destruct Hst as [_ Hf]. rewrite Hf in Hops.
  destruct Hops as [_ Hd]. cbn in Hd. by rewrite decide_True in Hd.
Qed.

Lemma handle_write T N t c m cq kernel wire recv k gs items avail rblks free blks :
  einv T k N (tt_pending_reads t) t ((TokWrite c, m, 0) :: cq) kernel wire recv gs items avail rblks free blks →
  T < 2 ^ 31 → Z.of_nat (length (tt_sq t)) < tt_depth t → (c < length (tt_channels t))%nat → cq_ok (length (tt_channels t)) cq items →
  ∃ t', complete TcpEchoServer t (TokWrite c) m 0 = Ok t' ∧ Einv T N (tt_pending_reads t') t' cq kernel wire recv ∧
    (length (tt_sq t') + length (tt_pending_reads t') ≤ length (tt_sq t) + length (tt_pending_reads t) + 2)%nat ∧
    tt_depth t' = tt_depth t.
Proof.
  intros E HT Hsq Hlt Hcqok.
  assert (Hlive : Z.of_nat c < tt_head t) by (by eapply written_live).
  destruct (einv_lookup _ _ _ _ _ _ _ _ _ _ _ _ _ _ _ c E Hlive) as (ch & g & w & r & Hc & Hg & Hw & Hr & Hok & Hrd & Hl & Hn).
  pose proof (e_k E) as [Hk0 HkT]. cbn [length] in HkT.
  pose proof (co_in_flight Hok) as Hif. pose proof (co_ops Hok) as Hops.
  cbn in Hops. rewrite decide_True in Hops by done.
  destruct (g_flight g) as [v|] eqn:Hfl; [|by destruct Hops].
  destruct Hops as [[_ ?]|(Hvec & m' & [= <- Hdone] & Hm)]; [done|].
  pose proof (tx_focus _ _ _ _ _ _ _ (e_tx E) Hc Hg) as Htx. rewrite Hfl in Htx.
  unfold complete. unfold chan at 1. rewrite Hc. step. rewrite decide_True by apply Hl.
  destruct (write_complete_at t c Hlt np bs cap (tt_buf_ring t) (tt_buf_pool t) (tt_sq t) (tt_pending_reads t) ch v m _ _ _ _ _ _ _
      Hl Htx Hm (own_full _ _ _ _ _ _ _ _ _ _ _ _ _ _ _ _ _ E Hg) Hsq)
    as (ch' & f' & sp' & p' & rel & send' & free' & blks' & wire' & Hrun & Hl' & [Hfd Hrb Hpd Hro] & Htx' & Hsplit & Hfree & Hsm & Hfull &
        Hsp & Hst & Hak & Hf' & Hmv & Hif'); [lia|].
  rewrite (at_self t c Hlt ch Hc) in Hrun. rewrite Hrun. eexists. split; [done|]. cbn [tt_pending_reads at_ tt_sq tt_depth].
  set (g' := mkGchan (g_q g) (g_unread g) ((g_own g).1, send') sp' f' (g_pieces g) (g_kept g)).
  assert (Hnl : (length (prepared c (tch_fd ch) f') ≤ 1)%nat) by (destruct f'; simpl; lia).
  split; [|split; [rewrite length_app; lia|done]].
  eexists (k + 1), (<[c := g']> gs), items, avail, rblks, free', blks'.
  eapply (einv_update T k N _ t _ kernel wire recv gs _ avail rblks free blks c ch g w r _ ch' g' (prepared c (tch_fd ch) f')); try done; try lia.
  - apply moved_at; [done|apply E|]. intros d. apply prepared_own.
  - destruct (rx_focus _ _ _ _ _ _ _ _ _ (e_rx E) Hc Hg) as (Hrx & Hu & Htl).
    eapply rx_close; [apply E|lia|done|done| |done| | |done|done|done]; unfold rx_at; simpl; by rewrite ?Hrb; try lia.
  - eapply tx_close; [apply E|done|done|exact Htx'|done|done|done].
  - intros d Hd. cbn. by rewrite decide_False.
  - apply E.
  - apply E.
  - rewrite Hfree, length_app. simpl. lia.
  - cbn [at_ tt_sq tt_head]. destruct Hok. split; simpl; rewrite ?Hsp, ?Hst, ?Hak; try done.
    + rewrite (proj2 (Z.ltb_lt _ _)) by done. by rewrite Hro.
    + lia.
    + by rewrite Hpd.
    + apply Hf'.
    + rewrite (assoc_L (++)), omap_app, Hvec, prepared_self. simpl. destruct f'; [by left|done].
    + rewrite co_wire0. cbn. rewrite decide_True by done. rewrite Hdone. simpl. f_equal. lia.
Qed.

Lemma handle_accept_full T N t fd cq kernel wire recv k P gs items avail rblks free blks :
  einv T k N P t ((TokAccept, fd, CQE_F_MORE) :: cq) kernel wire recv gs items avail rblks free blks →
  cq_ok (length (tt_channels t)) cq items →
  einv T k N P (tt_close_fd t fd) cq kernel wire recv gs items avail rblks free blks.
Proof.
  intros [] Hcq. split; try done.
  - by destruct e_chans0.
  - cbn [length] in *. lia.
  - intros c ch g w r H1 H2 H3 H4. eapply chan_ok_other; [by eapply e_chan0|done..].
Qed.

(** The next channel of the pool. *)
Lemma acquire_next t : chans_ok t → tt_head t < tt_tail t →
  arr_get (tt_free_queue t) (Z.land (tt_head t) (tt_mask t)) = Ok (tt_head t).
Proof.
  intros [Hq Ht Hm (e & He & Hn) Hh _] Hlt. rewrite Hq, Hm, Hn, land_mask, Z.mod_small by lia.
  apply arr_get_ok; [lia|]. apply lookup_seqZ. lia.
Qed.

Lemma handle_accept T N t fd cq kernel wire recv k gs items avail rblks free blks :
  einv T k N (tt_pending_reads t) t ((TokAccept, fd, CQE_F_MORE) :: cq) kernel wire recv gs items avail rblks free blks →
  T < 2 ^ 31 → Z.of_nat (length (tt_sq t)) + 1 < tt_depth t → 0 ≤ fd → cq_ok (length (tt_channels t)) cq items →
  ∃ t', complete TcpEchoServer t TokAccept fd CQE_F_MORE = Ok t' ∧ Einv T N (tt_pending_reads t') t' cq kernel wire recv ∧
    (length (tt_sq t') + length (tt_pending_reads t') ≤ length (tt_sq t) + length (tt_pending_reads t) + 2)%nat ∧
    tt_depth t' = tt_depth t.
Proof.
  intros E HT Hsq Hfd Hcqok. pose proof (e_chans E) as Hch. pose proof Hch as [Hq Htl Hm (e & He & Hn) Hh Hacc].
  pose proof (e_k E) as [Hk0 HkT]. cbn [length] in HkT.
  unfold complete. rewrite decide_True by done. unfold accept_complete. rewrite (proj2 (Z.ltb_ge _ _)) by done.
  change (flag_more CQE_F_MORE) with true. step. unfold TcpChannelPool_acquire. case_test.
  { step. eexists. split; [done|]. split; [|split; [simpl; lia|done]].
    exists k, gs, items, avail, rblks, free, blks. by apply handle_accept_full. }
  rewrite acquire_next by (done || lia). step. assert (2 ^ e ≤ 2 ^ 30) by (apply Z.pow_le_mono_r; lia). rewrite int_of_ok by lia. step.
  set (c := Z.to_nat (tt_head t)). set (t1 := tt_with_free t (tt_free_queue t) (tt_head t + 1) (tt_tail t)).
  assert (Hlt : (c < length (tt_channels t))%nat) by lia.
  destruct (einv_get _ _ _ _ _ _ _ _ _ _ _ _ _ _ _ c E Hlt) as (ch & g & w & r & Hc & Hg & Hw & Hr & Hok).
  pose proof (co_state Hok) as Hst. rewrite (proj2 (Z.ltb_ge _ _)) in Hst by lia. destruct Hst as [Hidle Hfl].
  pose proof (tx_focus _ _ _ _ _ _ _ (e_tx E) Hc Hg) as Htx.
  rewrite Hfl, (co_quiet Hok Hfl) in Htx.
  destruct (assign_at t1 c Hlt np bs cap (tt_buf_ring t1) (tt_buf_pool t1) (tt_sq t1) (tt_pending_reads t1) ch fd _ _ _ _ _ _ Hidle Htx Hsq)
    as (ch' & sp' & Hrun & Hl' & Htx' & Hsb & Hrd & Hfd' & Hrb & Hpd & Hif).
  rewrite (at_self t1 c Hlt ch Hc) in Hrun. rewrite Hrun. step. eexists. split; [done|]. cbn [tt_pending_reads at_ tt_sq tt_depth].
  set (g' := mkGchan (g_q g) (g_unread g) (g_own g) sp' None (g_pieces g) (g_kept g)).
  split; [|split; [rewrite length_app; simpl; lia|done]].
  eexists (k + 1), (<[c := g']> gs), items, avail, rblks, free, blks.
  eapply (einv_update T k N _ t _ kernel wire recv gs _ avail rblks free blks c ch g w r _ ch' g' [SqeRecv c fd]); try done; try lia.
  - assert (Hne : ∀ d, d ≠ c → (Z.of_nat d <? tt_head t + 1) = (Z.of_nat d <? tt_head t)).
    { intros d Hd. destruct (Z.ltb_spec (Z.of_nat d) (tt_head t)); [apply Z.ltb_lt|apply Z.ltb_ge]; lia. }
    split; try done; cbn [at_ t1 tt_with_free tt_head]; [lia|].
    split; simpl; rewrite ?length_insert; try done; [by exists e|lia].
  - destruct (rx_focus _ _ _ _ _ _ _ _ _ (e_rx E) Hc Hg) as (Hrx & Hu & Htl').
    eapply rx_close; [apply E|lia|done|done| |done| | |done|done|done]; unfold rx_at; simpl; by rewrite ?Hrb; try lia.
  - eapply tx_close; [apply E|done|done| |done|done|done]. simpl. by rewrite (co_quiet Hok Hfl).
  - exact (own_full _ _ _ _ _ _ _ _ _ _ _ _ _ _ _ _ _ E Hg).
  - apply E.
  - cbn [at_ t1 tt_with_free tt_head]. eapply Forall_impl; [apply E|]. simpl. lia.
  - change (tt_pending_reads t1) with (tt_pending_reads t). lia.
  - destruct Hsb as (Hb1 & Hb2 & Hb3). cbn [at_ t1 tt_with_free tt_head tt_sq]. destruct Hok.
    split; simpl; rewrite ?Hb1, ?Hb2, ?Hb3; try done; try lia.
    + rewrite (proj2 (Z.ltb_lt _ _)) by lia. done.
    + by rewrite Hpd.
    + by intros _; apply co_quiet0.
    + rewrite Hfl in co_ops0. rewrite (assoc_L (++)), omap_app. simpl. rewrite app_nil_r. exact co_ops0.
Qed.

Lemma handle_one T N t e cq kernel wire recv :
  Einv T N (tt_pending_reads t) t (e :: cq) kernel wire recv → T < 2 ^ 31 → Z.of_nat (length (tt_sq t)) + 1 < tt_depth t →
  ∃ t', complete TcpEchoServer t e.1.1 e.1.2 e.2 = Ok t' ∧ Einv T N (tt_pending_reads t') t' cq kernel wire recv ∧
    (length (tt_sq t') + length (tt_pending_reads t') ≤ length (tt_sq t) + length (tt_pending_reads t) + 2)%nat ∧
    tt_depth t' = tt_depth t.
Proof.
  intros (k & gs & items & avail & rblks & free & blks & E) HT Hsq.
  pose proof (e_cq E) as Hcq. inversion Hcq; subst; simpl.
  - by eapply handle_accept.
  - eapply handle_read; [done|done|lia|done].
  - eapply handle_write; [done|done|lia|done|done].
Qed.

Lemma handle_all T N kernel wire recv : ∀ cqes t cq,
  Einv T N (tt_pending_reads t) t (cqes ++ cq) kernel wire recv → T < 2 ^ 31 →
  Z.of_nat (length (tt_sq t) + length (tt_pending_reads t) + 2 * length cqes) ≤ tt_depth t →
  ∃ t', complete_all TcpEchoServer t cqes = Ok t' ∧ Einv T N (tt_pending_reads t') t' cq kernel wire recv ∧
    Z.of_nat (length (tt_sq t') + length (tt_pending_reads t')) ≤ tt_depth t' ∧ tt_depth t' = tt_depth t.
Proof.
  induction cqes as [|[[tok res] flag] cqes IH]; intros t cq E HT Hd; cbn [complete_all length] in *.
  { exists t. split_and!; try done. lia. }
  destruct (handle_one T N t _ _ kernel wire recv E HT) as (t1 & Hrun & E1 & Hl & Hdep); [lia|]. simpl in Hrun. rewrite Hrun. step.
  destruct (IH t1 cq E1 HT) as (t' & -> & E' & Hd' & Hdep'); [rewrite Hdep; lia|]. exists t'. split_and!; try done. congruence.
Qed.

(** *** The end of a batch *)

(** What the kernel has taken was submitted. *)
Lemma taken_le k hd N P ops cq items c ch g w r p pend send frame free blks wire :
  chan_ok k hd N P ops cq items c ch g w r →
  tx_at np bs cap p pend send frame free blks wire ch (g_flight g) (g_sp g) →
  (sp_acked (g_sp g) + Z.to_nat (foldr Z.add 0%Z (omap (wdone c) cq)) ≤ length (sp_sent (g_sp g)))%nat.
Proof.
  intros Hok [Hws Hi]. pose proof (ci_acked Hi) as Ha. pose proof (co_ops Hok) as Hops.
  destruct (g_flight g) as [v|] eqn:Hf; [|destruct Hops as [_ ->]; simpl; lia].
  destruct Hops as [[_ ->]|(_ & m & -> & Hm)]; simpl; [lia|].
  destruct (flight_prefix np bs cap (mkTxChan (tch_write_buf ch) (Some v) wire) p _ _ _ _ _ _ Hws Hi v eq_refl) as [Hpre Ht].
  apply prefix_length in Hpre. rewrite length_drop in Hpre. lia.
Qed.

(** The blocks of a channel are in use. *)
Lemma own_le p pend send frame free blks wire ch f sp :
  tx_at np bs cap p pend send frame free blks wire ch f sp → Z.of_nat (length pend + length send) ≤ np - Z.of_nat (length free).
Proof.
  intros [Hws _]. pose proof (wbp_perm (wso_wbp Hws)) as Hp.
  pose proof (pool_n_pos _ _ _ _ _ (wbp_pool (wso_wbp Hws))).
  apply Permutation_length in Hp. rewrite !length_app, length_seqZ in Hp. lia.
Qed.

(** A channel that was read. *)
Lemma echoed_chan_ok t k N P kernel sq cq items c ch g w r avail cqs other rblks frame p free blks
    new b' p' ch' f' sp' own' free' blks' rblks' pieces kept :
  chan_ok k (tt_head t) N (c :: P) (kernel ++ sq) cq items c ch g w r → Z.of_nat c < tt_head t → c ∉ P →
  tch_read ch = CoToken → recv_stream (tch_read_buf ch) rblks (g_q g) = g_unread g →
  np - Z.of_nat (length free) + Z.of_nat (length (g_q g)) ≤ N →
  tx_at np bs cap p (g_own g).1 (g_own g).2 frame free blks (g_wire g) ch (g_flight g) (g_sp g) →
  echoed c np bs cap nr avail cqs (g_q g) other rblks (g_own g) frame free blks (g_wire g) (tch_with_pending ch false)
    (g_flight g) (g_sp g) new b' p' ch' f' sp' own' free' blks' rblks' pieces kept →
  chan_ok (k + 2) (tt_head t) N P (kernel ++ sq ++ new) cq items c ch'
    (mkGchan [] [] own' sp' f' (g_pieces g ++ pieces) (g_kept g ++ kept)) w r.
Proof.
  intros Hok Hlive HcP Hrd Hu Hus Htx []. pose proof (taken_le _ _ _ _ _ _ _ _ _ _ _ _ _ _ _ _ _ _ _ Hok Htx) as Htaken.
  pose proof (own_le _ _ _ _ _ _ _ _ _ _ Htx) as Ho. pose proof (own_le _ _ _ _ _ _ _ _ _ _ ec_tx0) as Ho'.
  assert (Hnl : (length new ≤ 1)%nat) by (rewrite ec_new0; case_decide; destruct f'; simpl; lia).
  destruct Hok, ec_read0 as (Hfd & Hpd & Hro). split; simpl; rewrite ?ec_acked0; try done.
  - rewrite (proj2 (Z.ltb_lt _ _)) by done. by rewrite Hro.
  - simpl in *. lia.
  - rewrite Hpd. simpl. symmetry. by apply bool_decide_false.
  - rewrite (assoc_L (++)), omap_app, ec_new0. destruct (g_flight g) as [v|] eqn:Hfl.
    + rewrite ec_flight0 by done. rewrite decide_False, app_nil_r by done. exact co_ops0.
    + rewrite decide_True, prepared_self by done. destruct co_ops0 as [-> ->]. simpl. destruct f'; [by left|done].
  - rewrite co_wire0. destruct ec_prefix0 as [x ->]. by rewrite take_app_le.
  - rewrite co_recv0, concat_app, ec_pieces0. simpl. change (tch_read_buf (tch_with_pending ch false)) with (tch_read_buf ch).
    rewrite Hu. by rewrite <- (assoc_L (++)).
  - by apply sublist_app.
  - by rewrite ec_sent0, co_sent0, concat_app.
  - intros HN. destruct (co_exact0 HN) as [-> Hpe]. destruct (ec_exact0 Hpe) as [-> ?]; [lia|lia|lia|done].
Qed.

Lemma read_one T N c P t cq kernel wire recv :
  Einv T N (c :: P) t cq kernel wire recv → T < 2 ^ 31 → Z.of_nat (length (tt_sq t)) < tt_depth t →
  ∃ t', run_app write_wake echo_on_read (upd t c (fun ch => tch_with_pending ch false)) c = Ok t' ∧
    Einv T N P t' cq kernel wire recv ∧ (length (tt_sq t') ≤ length (tt_sq t) + 1)%nat ∧ tt_depth t' = tt_depth t.
Proof.
  intros (k & gs & items & avail & rblks & free & blks & E) HT Hsq.
  pose proof (e_Plive E) as [Hlive HPl]%Forall_cons.
  pose proof (e_P E) as [HcP HPn]%NoDup_cons.
  destruct (einv_lookup _ _ _ _ _ _ _ _ _ _ _ _ _ _ _ c E Hlive) as (ch & g & w & r & Hc & Hg & Hw & Hr & Hok & Hrd & Hl & _).
  pose proof (lookup_lt_Some _ _ _ Hc) as Hlt.
  destruct (rx_focus _ _ _ _ _ _ _ _ _ (e_rx E) Hc Hg) as (Hrx & Hu & Htl).
  pose proof (tx_focus _ _ _ _ _ _ _ (e_tx E) Hc Hg) as Htx.
  pose proof (e_k E) as [Hk0 HkT]. cbn [length] in HkT.
  assert (Hus : np - Z.of_nat (length free) + Z.of_nat (length (g_q g)) ≤ N).
  { pose proof (e_count E) as Hcnt. rewrite (held_focus (g_q <$> gs) c (g_q g)), length_app in Hcnt by (by rewrite list_lookup_fmap, Hg). lia. }
  pose proof (co_in_flight Hok) as Hif.
  set (ch0 := tch_with_pending ch false).
  assert (Hupd : upd t c (fun ch => tch_with_pending ch false) = at_ t c (tt_buf_ring t) (tt_buf_pool t) (tt_sq t) (tt_pending_reads t) ch0).
  { rewrite <- (at_self t c Hlt ch Hc) at 1. by rewrite upd_at. }
  rewrite Hupd.
  destruct (on_read_at t c Hlt np bs cap nr (tt_buf_ring t) avail _ (g_q g) _ rblks (tt_buf_pool t) (g_own g) (others c (g_own <$> gs)) free blks (g_wire g) ch0
    (g_flight g) (g_sp g) (tt_sq t) (tt_pending_reads t) Hrx)
    as (new & b' & p' & ch' & f' & sp' & own' & free' & blks' & rblks' & pieces & kept & -> & He);
    [simpl; lia|exact Htx|by eapply own_full|by destruct (g_flight g)|apply Hok|apply Hok|done|simpl; lia|].
  eexists. split; [done|]. pose proof He as []. cbn [at_ tt_sq tt_depth].
  set (g' := mkGchan [] [] own' sp' f' (g_pieces g ++ pieces) (g_kept g ++ kept)).
  assert (Hnl : (length new ≤ 1)%nat) by (rewrite ec_new0; case_decide; destruct f'; simpl; lia).
  assert (Hno : ∀ d, d ≠ c → omap (wvec d) new = []).
  { intros d Hd. rewrite ec_new0. case_decide; [by apply prepared_own|done]. }
  split; [|split; [rewrite length_app; lia|done]].
  eexists (k + 2), (<[c := g']> gs), items, (avail ++ g_q g), rblks', free', blks'.
  eapply (einv_update T k N _ t _ kernel wire recv gs _ avail rblks free blks c ch g w r _ ch' g' new); try done; try lia.
  - apply moved_at; [done|apply E|done].
  - eapply rx_close; [apply E|lia|done|done|exact ec_rx0|done| |simpl in *; lia|done|done|done].
    simpl. unfold recv_stream, stream. simpl. by rewrite drop_nil.
  - eapply tx_close; [apply E|done|done|exact ec_tx0|done|done|done].
  - intros d Hd. split; [done|]. split; [done|]. rewrite elem_of_cons. tauto.
  - apply E.
  - simpl. lia.
  - by eapply echoed_chan_ok.
Qed.

Lemma read_all T N cq kernel wire recv : ∀ P t,
  Einv T N P t cq kernel wire recv → T < 2 ^ 31 → Z.of_nat (length (tt_sq t) + length P) ≤ tt_depth t →
  ∃ t', read_pending TcpEchoServer t P = Ok t' ∧ Einv T N [] t' cq kernel wire recv ∧ tt_depth t' = tt_depth t.
Proof.
  induction P as [|c P IH]; intros t E HT Hd; cbn [read_pending length] in *; [by exists t|].
  destruct (read_one T N c P t cq kernel wire recv E HT) as (t1 & Hrun & E1 & Hl & Hdep); [lia|].
  change (h_on_read TcpEchoServer) with echo_on_read. rewrite Hrun. step.
  destruct (IH t1 E1 HT) as (t' & -> & E' & Hdep'); [rewrite Hdep; lia|]. exists t'. split_and!; try done. congruence.
Qed.

(** ** The steps of worker and kernel *)
Definition net_inv (T N : Z) (x : net R) : Prop :=
  tt_pending_reads (ne_thread x) = [] ∧ Einv T N [] (ne_thread x) (ne_cq x) (ne_kernel x) (ne_wire x) (ne_recv x).

Lemma take_write_spec c kernel v kernel' : take_write c kernel = Some (v, kernel') →
  omap (wvec c) kernel = v :: omap (wvec c) kernel' ∧ ∀ d, d ≠ c → omap (wvec d) kernel' = omap (wvec d) kernel.
Proof.
  revert kernel'. induction kernel as [|e kernel IH]; intros kernel'; [done|].
  assert (Hrec : (wvec c e = None) → ('(v', l') ← take_write c kernel; Some (v', e :: l')) = Some (v, kernel') →
    omap (wvec c) (e :: kernel) = v :: omap (wvec c) kernel' ∧ ∀ d, d ≠ c → omap (wvec d) kernel' = omap (wvec d) (e :: kernel)).
  { intros He. destruct (take_write c kernel) as [[v' l']|]; [|done]. intros [= -> <-]. destruct (IH l' eq_refl) as [H1 H2].
    cbn. rewrite He. split; [exact H1|]. intros d Hd. by rewrite <- (H2 d Hd). }
  destruct e as [| |d fd v0]; cbn [take_write]; [by apply Hrec..|].
  destruct (decide (c = d)) as [<-|Hne]; [|apply Hrec; cbn; by rewrite decide_False].
  intros [= <- <-]. cbn. rewrite decide_True by done. split; [done|]. intros x Hx. by rewrite decide_False.
Qed.

Lemma step_accept T N t cq kernel wire recv fd : 0 ≤ fd →
  Einv T N [] t cq kernel wire recv → Einv (T + 4) N [] t (cq ++ [(TokAccept, fd, CQE_F_MORE)]) kernel wire recv.
Proof.
  intros Hfd (k & gs & items & avail & rblks & free & blks & []). exists k, gs, items, avail, rblks, free, blks. split; try done.
  - rewrite <- (app_nil_r items). apply cq_ok_app; [done|]. repeat constructor. done.
  - rewrite length_app. simpl in *. lia.
  - intros c ch g w r H1 H2 H3 H4. eapply chan_ok_other; [by eapply e_chan0|done..| |done]. by rewrite omap_app, app_nil_r.
Qed.

Lemma arrived_app c items1 items2 : arrived c (items1 ++ items2) = arrived c items1 ++ arrived c items2.
Proof. unfold arrived. by rewrite filter_app, fmap_app, concat_app. Qed.

Lemma step_recv T N t cq kernel wire recv c d more ch :
  Einv T N [] t cq kernel wire recv → d ≠ [] → Z.of_nat (length d) ≤ br_buf_size (tt_buf_ring t) →
  tt_channels t !! c = Some ch → tch_read ch = CoToken → (∃ r, kernel_receive (tt_buf_ring t) d = Ok (Some r)) →
  ∃ bid b, kernel_receive (tt_buf_ring t) d = Ok (Some (bid, b)) ∧
    ∀ N', N ≤ N' → in_use (tt_with_bufs t b (tt_buf_pool t)) ≤ N' →
    Einv (T + 4) N' [] (tt_with_bufs t b (tt_buf_pool t))
      (cq ++ [(TokRead c, Z.of_nat (length d), i32 (cqe_flags bid more))]) kernel wire (alter (fun r => r ++ d) c recv).
Proof.
  intros (k & gs & items & avail & rblks & free & blks & []) Hd Hl Hc Hrd [r Hr]. pose proof (lookup_lt_Some _ _ _ Hc) as Hlt.
  pose proof (ri_ring e_rx0) as Hb. simpl in Hb. rewrite (brr_bs Hb) in Hl.
  destruct avail as [|i avail]; [by rewrite (br_receive_none _ _ _ _ _ _ d Hb) in Hr|].
  destruct (rx_receive _ _ _ _ _ _ _ _ _ _ c d e_rx0 Hd Hl) as (b' & Hrun & Hrx); [simpl; by rewrite length_fmap|]. simpl in Hrun, Hrx.
  exists i, b'. split; [done|]. intros N' HN' Huse.
  assert (Hlive : Z.of_nat c < tt_head t).
  { destruct (lookup_lt_is_Some_2 gs c) as [g Hg]; [lia|]. destruct (lookup_lt_is_Some_2 wire c) as [w Hw]; [lia|].
    destruct (lookup_lt_is_Some_2 recv c) as [rr Hrr]; [lia|]. destruct (e_chan0 c ch g w rr Hc Hg Hw Hrr) as [Hst _ _ _ _ _ _ _ _ _ _ _].
    destruct (Z.ltb_spec (Z.of_nat c) (tt_head t)); [done|]. destruct Hst as [(Hn & _) _]. congruence. }
  assert (Hrx' : rx_ok k (tt_with_bufs t b' (tt_buf_pool t)) gs (items ++ [(c, d, i)]) avail rblks) by (unfold rx_ok; by rewrite !fmap_app).
  rewrite (in_use_eq _ _ _ _ _ _ _ _ Hrx' e_tx0) in Huse.
  exists k, gs, (items ++ [(c, d, i)]), avail, rblks, free, blks. split; try done.
  - by rewrite length_alter.
  - by destruct e_chans0.
  - apply cq_ok_app; [done|]. repeat constructor.
  - apply Forall_app. split; [done|]. by constructor.
  - rewrite length_app. simpl in *. lia.
  - intros c' ch' g w r' H1 H2 H3 H4. rewrite list_lookup_alter in H4. destruct (decide (c = c')) as [<-|Hne].
    + destruct (recv !! c) as [r0|] eqn:Hr0; [|done]. injection H4 as <-. destruct (e_chan0 c ch' g w r0 H1 H2 H3 Hr0).
      split; try done; rewrite ?(omap_app (wdone c)), ?app_nil_r; try done; [|intros ?; apply co_exact0; lia].
      rewrite co_recv0, arrived_app, arrived_cons. unfold arrived at 3. simpl. by rewrite app_nil_r, <- !(assoc_L (++)).
    + eapply chan_ok_other; [by eapply e_chan0|done..| |]; [by rewrite omap_app, app_nil_r|].
      rewrite arrived_app, arrived_cons_ne by done. apply app_nil_r.
Qed.

Lemma step_write T N t cq kernel wire recv c m v kernel' :
  Einv T N [] t cq kernel wire recv → take_write c kernel = Some (v, kernel') → 0 < m ≤ iov_total v →
  Einv (T + 4) N [] t (cq ++ [(TokWrite c, m, 0)]) kernel'
    (alter (fun w => w ++ take (Z.to_nat m) (gather (bp_bufs (tt_buf_pool t)) v)) c wire) recv.
Proof.
  intros (k & gs & items & avail & rblks & free & blks & E) Htake Hm. apply take_write_spec in Htake as [Hv Hoth].
  assert (Hd : ∀ d, d ≠ c → omap (wdone d) (cq ++ [(TokWrite c, m, 0)]) = omap (wdone d) cq).
  { intros d Hd. rewrite omap_app. cbn. rewrite decide_False by done. apply app_nil_r. }
  assert (Hlt : (c < length (tt_channels t))%nat).
  { destruct (decide (c < length (tt_channels t))%nat) as [|Hge]; [done|]. exfalso.
    pose proof (e_ops E c ltac:(lia)) as Ho. by rewrite omap_app, Hv in Ho. }
  exists k, gs, items, avail, rblks, free, blks. pose proof E as [].
  split; try done.
  - by rewrite length_alter.
  - rewrite <- (app_nil_r items). apply cq_ok_app; [done|]. by repeat constructor.
  - intros d Hdl. rewrite omap_app, Hoth, <- omap_app by lia. by apply e_ops0.
  - rewrite length_app. simpl in *. lia.
  - intros c' ch g w r H1 H2 H3 H4. rewrite list_lookup_alter in H3. destruct (decide (c = c')) as [<-|Hne].
    + destruct (wire !! c) as [w0|] eqn:Hw0; [|done]. injection H3 as <-. pose proof (e_chan0 c ch g w0 r H1 H2 Hw0 H4) as Hok.
      pose proof (tx_focus _ _ _ _ _ _ _ e_tx0 H1 H2) as Htx. destruct Hok.
      rewrite omap_app, Hv in co_ops0. destruct (g_flight g) as [v'|] eqn:Hf; [|by destruct co_ops0].
      destruct co_ops0 as [[[= -> Hrest] Hdn]|[? _]]; [|done].
      destruct Htx as [Hws Hi].
      destruct (flight_prefix np bs cap (mkTxChan (tch_write_buf ch) (Some v') (g_wire g)) _ _ _ _ _ _ _ Hws Hi v' eq_refl) as [Hpre Htot].
      split; try done; rewrite ?Hf, ?omap_app, ?Hdn; try done.
      * right. rewrite Hrest. cbn. rewrite decide_True by done. split; [done|]. by exists m.
      * rewrite co_wire0, Hdn. cbn. rewrite decide_True by done. simpl. destruct Hpre as [x Hx].
        rewrite Nat.add_0_r, Z.add_0_r, <- take_take_drop, Hx, take_app_le by lia. done.
    + eapply chan_ok_other; [by eapply e_chan0|done..| |by apply Hd|done]. rewrite !omap_app. f_equal. by apply Hoth.
Qed.

Lemma step_round T N t cq kernel wire recv m :
  tt_pending_reads t = [] → Einv T N [] t cq kernel wire recv → T < 2 ^ 31 → 2 * Z.of_nat m ≤ tt_depth t →
  ∃ t', TcpThread_round TcpEchoServer t (take m cq) = Ok t' ∧ tt_pending_reads t' = [] ∧
    Einv T N [] t' (drop m cq) (kernel ++ tt_sq t) wire recv.
Proof.
  intros Hp E HT Hm. unfold TcpThread_round, TcpThread_on_batch_done.
  assert (E0 : Einv T N (tt_pending_reads (tt_with_sq t [])) (tt_with_sq t []) (take m cq ++ drop m cq) (kernel ++ tt_sq t) wire recv).
  { rewrite take_drop. simpl. rewrite Hp. destruct E as (k & gs & items & avail & rblks & free & blks & []).
    exists k, gs, items, avail, rblks, free, blks. split; simpl; rewrite ?app_nil_r; try done. by destruct e_chans0. }
  destruct (handle_all T N _ wire recv _ _ _ E0 HT) as (t1 & -> & E1 & Hd & _); [simpl; rewrite Hp, length_take; simpl; lia|]. step.
  destruct (read_all T N _ _ wire recv _ t1 E1 HT) as (t2 & -> & E2 & _); [lia|]. step.
  eexists. split; [done|]. split; [done|]. destruct E2 as (k & gs & items & avail & rblks & free & blks & []).
  exists k, gs, items, avail, rblks, free, blks. split; try done. by destruct e_chans0.
Qed.

Lemma Einv_mono T T' N N' P t cq kernel wire recv :
  Einv T N P t cq kernel wire recv → T ≤ T' → N ≤ N' → Einv T' N' P t cq kernel wire recv.
Proof.
  intros (k & gs & items & avail & rblks & free & blks & []) ??.
  exists k, gs, items, avail, rblks, free, blks. split; try done; [lia|lia|].
  intros c ch g w r H1 H2 H3 H4. by eapply chan_ok_other; [by eapply e_chan0|..].
Qed.

Lemma net_step_inv T N x cmd :
  net_inv T N x → T < 2 ^ 31 → possible x cmd = true →
  ∃ x', net_step x cmd = Ok x' ∧ ∀ N', N ≤ N' → in_use (ne_thread x') ≤ N' → net_inv (T + 4) N' x'.
Proof.
  destruct x as [t cq kernel wire recv]. intros [Hp E] HT Hpos. simpl in Hp, E. destruct cmd as [fd|c d more|c m|m]; cbn [possible] in Hpos; simpl in Hpos.
  - eexists. split; [done|]. intros N' HN' _. split; [done|]. simpl. eapply Einv_mono; [apply step_accept; [lia|done]|lia|done].
  - apply andb_true_iff in Hpos as [Hpos Hk]. apply andb_true_iff in Hpos as [Hpos Hch]. apply andb_true_iff in Hpos as [Hd Hl].
    apply negb_true_iff, bool_decide_eq_false in Hd. apply Z.leb_le in Hl.
    destruct (tt_channels t !! c) as [ch|] eqn:Hc; [|done]. apply bool_decide_eq_true in Hch.
    destruct (step_recv T N t cq kernel wire recv c d more ch E Hd Hl Hc Hch) as (bid & b & Hrun & E').
    { destruct (kernel_receive (tt_buf_ring t) d) as [[r|]|]; [by exists r|done..]. }
    cbn [net_step]. rewrite Hrun. step. eexists. split; [done|]. intros N' HN' Hu. split; [done|]. by apply E'.
  - destruct (take_write c kernel) as [[v kernel']|] eqn:Ht; [|done]. cbn [net_step]. rewrite Ht.
    eexists. split; [done|]. intros N' HN' _. split; [done|]. eapply Einv_mono; [eapply step_write; [done|done|lia]|lia|done].
  - destruct (step_round T N t cq kernel wire recv m Hp E HT) as (t' & Hrun & Hp' & E'); [lia|]. cbn [net_step]. rewrite Hrun. step.
    eexists. split; [done|]. intros N' HN' _. split; [done|]. simpl. eapply Einv_mono; [done|lia|done].
Qed.

Lemma net_peak_ge x cmds m : net_peak x cmds = Ok m → in_use (ne_thread x) ≤ m.
Proof.
  destruct cmds as [|cmd cmds]; cbn [net_peak]; [intros [= <-]; lia|].
  intros (x' & _ & (m' & _ & [= <-])%bind_inv)%bind_inv. lia.
Qed.

Lemma net_run_inv cmds : ∀ T N x,
  net_inv T N x → T + 4 * Z.of_nat (length cmds) < 2 ^ 31 → all_possible x cmds = true →
  ∃ x' m, net_run x cmds = Ok x' ∧ net_peak x cmds = Ok m ∧ net_inv (T + 4 * Z.of_nat (length cmds)) (Z.max N m) x'.
Proof.
  induction cmds as [|cmd cmds IH]; intros T N x H HT Hpos; cbn [net_run net_peak all_possible] in *.
  { exists x, (in_use (ne_thread x)). split_and!; [done..|]. destruct H as [? H]. split; [done|]. eapply Einv_mono; [done|simpl; lia|lia]. }
  cbn [length] in HT.
  apply andb_true_iff in Hpos as [Hp Hpos]. destruct (net_step_inv T N x cmd H ltac:(lia) Hp) as (x1 & Hx1 & Hi). rewrite Hx1 in Hpos |- *.
  assert (H1 : net_inv (T + 4) (Z.max N (in_use (ne_thread x1))) x1) by (apply Hi; lia).
  step. destruct (IH _ _ x1 H1) as (x' & m & -> & Hm & [Hp' H']); [lia|done|]. rewrite Hm. step. eexists _, _. split_and!; [done..|].
  apply net_peak_ge in Hm. split; [done|]. eapply Einv_mono; [exact H'|cbn [length]; lia|lia].
Qed.

(** ** What the invariant says about the connections *)

(** Nothing is outstanding. *)
Definition is_writev (e : sqe) : bool := match e with SqeWritev _ _ _ => true | _ => false end.
Definition quiet (x : net R) : bool :=
  bool_decide (ne_cq x = []) && forallb (fun e => negb (is_writev e)) (ne_kernel x ++ tt_sq (ne_thread x)).

Lemma no_writes c l : forallb (fun e => negb (is_writev e)) l = true → omap (wvec c) l = [].
Proof.
  induction l as [|e l IH]; [done|]. cbn [forallb]. intros [He Hl]%andb_true_iff. destruct e; [exact (IH Hl)..|done].
Qed.

Lemma net_inv_echo T N x c w r :
  net_inv T N x → ne_wire x !! c = Some w → ne_recv x !! c = Some r →
  (∃ pieces kept, concat pieces `prefix_of` r ∧ kept `sublist_of` pieces ∧ w `prefix_of` concat kept) ∧
  (N ≤ Z.min np cap → w `prefix_of` r ∧ (quiet x = true → w = r)).
Proof.
  destruct x as [t cq kernel wire recv]. intros [_ (k & gs & items & avail & rblks & free & blks & E)] Hw Hr. simpl in *.
  pose proof E as []. pose proof (lookup_lt_Some _ _ _ Hw).
  destruct (lookup_lt_is_Some_2 (tt_channels t) c) as [ch Hc]; [lia|]. destruct (lookup_lt_is_Some_2 gs c) as [g Hg]; [lia|].
  pose proof (e_chan0 c ch g w r Hc Hg Hw Hr) as Hok. pose proof (tx_focus _ _ _ _ _ _ _ e_tx0 Hc Hg) as Htx. destruct Hok.
  assert (Hpre : w `prefix_of` concat (g_kept g)).
  { rewrite co_wire0, <- co_sent0. etransitivity; [apply prefix_take|]. by apply prefix_app_r. }
  assert (Hrec : concat (g_pieces g) `prefix_of` r) by (rewrite co_recv0; by apply prefix_app_r).
  split; [by exists (g_pieces g), (g_kept g)|]. intros HN. destruct (co_exact0 ltac:(lia)) as [Hke Hpe]. rewrite Hke in Hpre.
  split; [by etransitivity|]. unfold quiet. simpl. intros [Hq Hno%(no_writes c)]%andb_true_iff. apply bool_decide_eq_true in Hq. subst cq.
  inversion e_cq0; subst items. assert (g_unread g = []) as Hu.
  { destruct (g_unread g) eqn:Hu; [done|]. destruct (not_elem_of_nil c). by apply co_unread0. }
  assert (Hf : g_flight g = None).
  { destruct (g_flight g); [|done]. destruct co_ops0 as [[? _]|(_ & ? & ? & _)]; [by rewrite Hno in *|done]. }
  destruct Htx as [_ Hi]. pose proof (ci_queue Hi) as Hsq. pose proof (ci_acked Hi). simpl in Hsq.
  rewrite (co_quiet0 Hf) in Hsq. unfold send_stream, stream in Hsq. simpl in Hsq. rewrite drop_nil in Hsq.
  apply (f_equal length) in Hsq. rewrite length_drop in Hsq. simpl in Hsq.
  rewrite co_wire0, take_ge by (simpl; lia). rewrite <- (app_nil_r (sp_sent _)), <- Hpe, co_sent0, Hke, co_recv0, Hu.
  unfold arrived. simpl. by rewrite app_nil_r.
Qed.

(** A new worker. *)
Lemma net_start_inv e q depth b pl rs ws avail rblks free blks :
  0 ≤ e < 31 → br_rep nr bs b avail [] [] rblks → rs_rep nr rs rblks [] → rb_head (rs_base rs) = 0 → rb_tail (rs_base rs) = 0 →
  pool_rep np bs pl free blks → free ≡ₚ seqZ 0 np → cap = 2 ^ q → wb_rep cap (ws_base ws) [] [] →
  Z.of_nat (length (ws_iovec ws)) = cap → ws_send_head_offset ws = 0 →
  net_inv 0 0 (net_start (fresh_worker (2 ^ e) depth b pl rs ws)).
Proof.
  intros He Hb Hr Hh Ht Hp Hfree Hcap Hw Hiov Hoff. split; [done|]. set (n := Z.to_nat (2 ^ e)).
  assert (Hn : Z.of_nat n = 2 ^ e) by lia. pose proof (pool_n_pos _ _ _ _ _ Hp).
  exists 0, (replicate n (mkGchan [] [] ([], []) tx_spec_0 None [] [])), [], avail, rblks, free, blks.
  unfold net_start. cbn [ne_thread ne_cq ne_kernel ne_wire ne_recv].
  split; try done; simpl; rewrite ?length_replicate; fold n; try done; try lia.
  - unfold rx_ok. simpl. fold n. rewrite !fmap_replicate. exact (rx_inv_fresh nr bs b rs n rblks avail Hb Hr Hh Ht).
  - unfold tx_ok. simpl. fold n. rewrite !fmap_replicate, zip_with_replicate.
    exact (sys_inv_fresh np bs cap ws pl n blks free Hp Hfree Hw Hiov Hoff).
  - rewrite fmap_replicate, owned_fresh. by intros i ?%not_elem_of_nil.
  - split; simpl; rewrite ?length_replicate; fold n; rewrite ?Hn; try done; [by exists e|lia].
  - constructor.
  - constructor.
  - rewrite fmap_replicate, held_fresh. apply Permutation_length in Hfree. rewrite length_seqZ in Hfree. simpl. lia.
  - intros c ch g w r [-> Hc]%lookup_replicate_1 [-> _]%lookup_replicate_1 [-> _]%lookup_replicate_1 [-> _]%lookup_replicate_1.
    split; try done; simpl; try lia. by rewrite (proj2 (Z.ltb_ge _ _)) by lia.
Qed.
End inv.

(** A worker that main has started, after any possible commands. *)
Lemma tcp_run_inv {R} {Hlib : BufRingLib R} {Hlaws : BufRingLaws R} hw argv threads o j next cmds :
  echo_main hw argv = Ok (inr (threads, o)) → 2 ≤ pc_queue_depth (so_tcp o) →
  pc_buf_pool_size (so_tcp o) * 4096 < 2 ^ 31 → pc_buf_ring_size (so_tcp o) * 4096 < 2 ^ 31 →
  is_Some (io_uring_setup_buf_ring (R := R) (pc_buf_ring_size (so_tcp o)) next) →
  Z.of_nat (length cmds) < 2 ^ 29 →
  ∃ t, TcpThread_init (R := R) j (tcp_config o) next = Ok t ∧ (all_possible (net_start t) cmds = true →
    ∃ x m T, net_run (net_start t) cmds = Ok x ∧ net_peak (net_start t) cmds = Ok m ∧ T < 2 ^ 31 ∧
    net_inv (pc_buf_ring_size (so_tcp o)) (pc_buf_pool_size (so_tcp o)) 4096 (pc_channel_capacity (so_tcp o)) T (Z.max 0 m) x).
Proof.
  intros E Hqd2 Hp Hr Hs Hlen. apply echo_main_accepts in E as (Hv & (H1 & H2 & H3 & Hqd0) & _ & H4 & _).
  unfold config_valid, proto_valid in Hv. bools.
  destruct (pow2_exp (pc_buf_pool_size (so_tcp o))) as (k & Hk & Ek); [done..|].
  destruct (pow2_exp (pc_channel_capacity (so_tcp o))) as (q & Hq & Eq); [done..|].
  destruct (pow2_exp (pc_buf_ring_size (so_tcp o))) as (a & Ha & Ea); [done..|].
  destruct (pow2_exp (so_tcp_pool_size o)) as (e & He & Ee); [done..|].
  assert (Hqd : is_power_of_two (i32 (pc_queue_depth (so_tcp o))) = true) by done.
  rewrite Ea in Hs, Hr. rewrite Ek in Hp. rewrite Ea, Ek, Eq.
  destruct (worker_starts j (tcp_config o) next a k e q) as (b & pl & rs & ws & Ht & Eb & Epl & Ers & Ews); simpl; try done; try lia.
  cbn [tcp_config cfg_buf_size] in Eb, Epl. destruct Hs as [rg Hset].
  destruct (BufRing_new_rep (junk_byte j) next a 4096 rg) as (b' & Eb' & _ & Hb); [lia|lia|lia|done|]. rewrite Eb in Eb'. injection Eb' as <-.
  destruct (ReadBufStream_new_rep _ _ (junk_z j) (junk_z j) (junk_z j) (junk_z j 0) _ _ _ _ _ Hb) as (rs' & Ers' & Hrs & Hhd & Htl).
  rewrite Ers in Ers'. injection Ers' as <-.
  destruct (BufPool_new_rep (junk_byte j) (junk_z j) (junk_z j) k 4096) as (pl' & Epl' & Hpl); [lia..|]. rewrite Epl in Epl'. injection Epl' as <-.
  destruct (WriteBufStream_new_rep (junk_z j) (junk_z j) (junk_iov j) q Hq) as (ws' & Ews' & Hw & Hiov & Hoff). rewrite Ews in Ews'. injection Ews' as <-.
  pose proof (net_start_inv (2 ^ a) (2 ^ k) 4096 (2 ^ q) e q (cfg_queue_depth (tcp_config o)) b pl rs ws _ _ _ _ He Hb Hrs Hhd Htl Hpl
    (Permutation_refl _) eq_refl Hw Hiov Hoff) as Hinv.
  eexists. split; [exact Ht|]. intros Hpos.
  destruct (net_run_inv _ _ _ _ cmds 0 0 _ Hinv) as (x & m & Hrun & Hm & Hx); [lia|exact Hpos|].
  eexists x, m, _. split; [exact Hrun|]. split; [exact Hm|]. split; [|exact Hx]. lia.
Qed.

(** ** Claims *)

(** C1. The TCP echo server end to end.  For every command line main accepts,
    with a submission queue of at least two entries, buffer areas below 2 GiB and
    the buffer ring granted, and without --sqpoll, a worker starts.  Consider any
    sequence of fewer than [2^29] arriving connections, arriving chunks, partially
    completed writes and event-loop rounds, in which no operation fails, the
    accept stays armed, no peer ends its stream, a receive always finds a free
    buffer, and a round handles at most half as many completions as the submission
    queue has entries.  Then
    nothing faults, and on every connection the bytes sent are, in order, whole
    pieces of the bytes received, some possibly missing.  None is missing as long
    as the send blocks and receive buffers in use at one time never exceed the
    size of the pool and the capacity of a channel: then the bytes sent are a
    prefix of the bytes received, and all of them once nothing is outstanding. *)
Theorem tcp_echo_end_to_end {R} {Hlib : BufRingLib R} {Hlaws : BufRingLaws R} hw argv threads o j next cmds :
  echo_main hw argv = Ok (inr (threads, o)) → so_cpu_affinity o = false → 2 ≤ pc_queue_depth (so_tcp o) →
  pc_buf_pool_size (so_tcp o) * 4096 < 2 ^ 31 → pc_buf_ring_size (so_tcp o) * 4096 < 2 ^ 31 →
  is_Some (io_uring_setup_buf_ring (R := R) (pc_buf_ring_size (so_tcp o)) next) →
  Z.of_nat (length cmds) < 2 ^ 29 →
  ∃ t, TcpThread_init (R := R) j (tcp_config o) next = Ok t ∧ (all_possible (net_start t) cmds = true →
    ∃ x m, net_run (net_start t) cmds = Ok x ∧ net_peak (net_start t) cmds = Ok m ∧
    ∀ c w r, ne_wire x !! c = Some w → ne_recv x !! c = Some r →
      (∃ pieces kept, concat pieces `prefix_of` r ∧ kept `sublist_of` pieces ∧ w `prefix_of` concat kept) ∧
      (m ≤ Z.min (pc_buf_pool_size (so_tcp o)) (pc_channel_capacity (so_tcp o)) →
         w `prefix_of` r ∧ (quiet x = true → w = r))).
Proof.
  intros E _ Hqd Hp Hr Hs Hlen. destruct (tcp_run_inv _ _ _ _ j _ cmds E Hqd Hp Hr Hs Hlen) as (t & Ht & H).
  exists t. split; [done|]. intros Hpos. destruct (H Hpos) as (x & m & T & Hrun & Hm & _ & Hx).
  exists x, m. split_and!; [done..|]. intros c w r Hcw Hcr.
  destruct (net_inv_echo _ _ _ _ _ _ _ _ _ _ Hx Hcw Hcr) as [Hany Hexact]. split; [done|]. intros Hle. apply Hexact.
  apply echo_main_accepts in E as (Hv & _). unfold config_valid, proto_valid in Hv. bools.
  pose proof (power_of_two_pos (pc_buf_pool_size (so_tcp o)) ltac:(done)).
  pose proof (power_of_two_pos (pc_channel_capacity (so_tcp o)) ltac:(done)). lia.
Qed.

(** Three of five bytes come back, then the rest with two bytes that arrived
    meanwhile. *)
Definition echo_argv : list string :=
  ["--pool-size"; "2"; "--buf-pool-size"; "2"; "--buf-ring-size"; "2"; "--channel-capacity"; "2"]%string.
Definition echo_session : list net_cmd :=
  [NcAccept 5; NcRound 1; NcRecv 0 [x01; x02; x03; x04; x05] true; NcRound 1; NcRound 0; NcRecv 0 [x06; x07] true;
   NcWrite 0 3; NcRound 2; NcRound 0; NcWrite 0 2; NcRound 1; NcRound 0; NcWrite 0 2; NcRound 1].
Definition zero_junk : junk := mkJunk (fun _ => x00) (fun _ => 0) (fun _ => (0, 0)).

(** What is sent and received in a session, whether it ends quiet and is
    possible, and the most blocks and buffers in use. *)
Definition echo_outcome (cmds : list net_cmd) : result (list (list byte) * list (list byte) * bool * bool * Z) :=
  r ← echo_main 8 echo_argv;
  match r with
  | inl _ => Fault OutOfBounds
  | inr (_, o) =>
      t ← TcpThread_init (R := list_ring) zero_junk (tcp_config o) 0;
      x ← net_run (net_start t) cmds; m ← net_peak (net_start t) cmds; Ok (ne_wire x, ne_recv x, quiet x, all_possible (net_start t) cmds, m)
  end.

Example echo_session_outcome :
  echo_outcome echo_session = Ok ([[x01; x02; x03; x04; x05; x06; x07]; []], [[x01; x02; x03; x04; x05; x06; x07]; []], true, true, 2).
Proof. vm_compute. reflexivity. Qed.

Lemma echo_outcome_run cmds o t r b p :
  echo_main 8 echo_argv = Ok (inr (8, o)) → TcpThread_init (R := list_ring) zero_junk (tcp_config o) 0 = Ok t →
  echo_outcome cmds = Ok (r, b, p) → net_peak (net_start t) cmds = Ok p ∧ all_possible (net_start t) cmds = b.
Proof.
  unfold echo_outcome. generalize (echo_main 8 echo_argv). intros ? -> Ht Ho. cbn [mbind result_bind] in Ho. rewrite Ht in Ho.
  apply bind_inv in Ho as (t' & [= <-] & (x & _ & (m' & Hm' & [= _ <- <-])%bind_inv)%bind_inv). done.
Qed.

Lemma tcp_echo_end_to_end_witness :
  ∃ o t x, echo_main 8 echo_argv = Ok (inr (8, o)) ∧ TcpThread_init (R := list_ring) zero_junk (tcp_config o) 0 = Ok t ∧
    net_run (net_start t) echo_session = Ok x ∧
    ∀ c w r, ne_wire x !! c = Some w → ne_recv x !! c = Some r → w `prefix_of` r ∧ (quiet x = true → w = r).
Proof.
  assert (H : ∃ o, echo_main 8 echo_argv = Ok (inr (8, o)) ∧ so_tcp o = mkProtocolConfig 2 2 2 512 ∧ so_cpu_affinity o = false).
  { eexists. split; [vm_compute; reflexivity|split; reflexivity]. }
  destruct H as (o & E & Et & Ea). exists o.
  destruct (tcp_echo_end_to_end (R := list_ring) 8 echo_argv 8 o zero_junk 0 echo_session E Ea) as (t & Ht & H);
    rewrite ?Et; [simpl; lia|simpl; lia|simpl; lia|by eexists|simpl; lia|].
  destruct (echo_outcome_run _ _ _ _ _ _ E Ht echo_session_outcome) as [Hp Hpos].
  destruct (H Hpos) as (x & m & Hx & Hm & Hall). exists t, x. split_and!; [done..|]. intros c w r Hw Hr. apply (Hall c w r Hw Hr).
  rewrite Et. rewrite Hp in Hm. injection Hm as <-. done.
Defined.
