(* ===== verification/TcpMemory.v ===== *)
(** * TcpMemory: ownership and machine types in a running TCP worker

    What every state of the system of TcpEcho.v satisfies: each block of the
    send pool and each buffer of the receive ring is in exactly one place, and
    every counter, index and size has a value of its C++ type. *)
From stdpp Require Import strings.
From S2P Require Import Prelude Ring BufPool WriteBuf WriteBufStream TcpSend BufRing ReadBuf TcpRecv Awaiter TcpChannel Server TcpEcho.

(** The elements of a ring between its counters of [w] bits. *)
Definition queued (w : Z) (arr : list Z) (mask h t : Z) : list Z :=
  (fun i => arr !!! Z.to_nat (Z.land (h + i) mask)) <$> seqZ 0 ((t - h) mod 2 ^ w).

Definition free_blocks (p : BufPool) : list Z := queued 32 (bp_free_idx_queue p) (bp_mask p) (bp_head p) (bp_tail p).
Definition send_blocks (ch : TcpChannel) : list Z :=
  let w := ws_base (tch_write_buf ch) in
  queued 64 (wb_pending_bufs w) (wb_mask w) (wb_pending_head w) (wb_pending_tail w) ++
  queued 64 (wb_send_queue w) (wb_mask w) (wb_send_head w) (wb_send_tail w).
Definition recv_bufs (ch : TcpChannel) : list Z :=
  let r := rs_base (tch_read_buf ch) in queued 32 (rb_buf_queue r) (rb_mask r) (rb_head r) (rb_tail r).

(** The buffers named by completions nobody has handled. *)
Definition completed_bufs (cq : list (token_id * Z * Z)) : list Z :=
  omap (fun e => match e.1.1 with TokRead _ => Some (flag_bid e.2) | _ => None end) cq.

Definition is_int (v : Z) : Prop := - 2 ^ 31 ≤ v < 2 ^ 31.
Definition is_unsigned (v : Z) : Prop := 0 ≤ v < 2 ^ 32.
Definition is_size_t (v : Z) : Prop := 0 ≤ v < 2 ^ 64.

(** The fields of a channel, by the types of their declarations. *)
Record channel_typed (ch : TcpChannel) : Prop := {
  ty_in_flight : is_int (tch_in_flight ch);
  ty_rb_counters : is_unsigned (rb_head (rs_base (tch_read_buf ch))) ∧ is_unsigned (rb_tail (rs_base (tch_read_buf ch)));
  ty_rb_sizes : is_unsigned (rb_readable_bytes (rs_base (tch_read_buf ch))) ∧ is_unsigned (rs_head_offset (tch_read_buf ch));
  ty_wb_pending : is_size_t (wb_pending_head (ws_base (tch_write_buf ch))) ∧ is_size_t (wb_pending_tail (ws_base (tch_write_buf ch)));
  ty_wb_send : is_size_t (wb_send_head (ws_base (tch_write_buf ch))) ∧ is_size_t (wb_send_tail (ws_base (tch_write_buf ch)));
  ty_wb_offset : is_unsigned (ws_send_head_offset (tch_write_buf ch));
  ty_wb_iovec : Z.of_nat (length (ws_iovec (tch_write_buf ch))) = wb_capacity (ws_base (tch_write_buf ch))
}.

Section memory.
Context {R : Type} {Hlib : BufRingLib R}.

Record well_formed (x : net R) : Prop := {
  wf_send : free_blocks (tt_buf_pool (ne_thread x)) ++ (tt_channels (ne_thread x) ≫= send_blocks)
    ≡ₚ seqZ 0 (bp_buf_num (tt_buf_pool (ne_thread x)));
  wf_recv : (be_bid <$> ring_visible (br_ring (tt_buf_ring (ne_thread x)))) ++ completed_bufs (ne_cq x) ++
      (tt_channels (ne_thread x) ≫= recv_bufs)
    ≡ₚ seqZ 0 (br_buf_num (tt_buf_ring (ne_thread x)));
  wf_pool : is_unsigned (bp_head (tt_buf_pool (ne_thread x))) ∧ is_unsigned (bp_tail (tt_buf_pool (ne_thread x))) ∧
    Forall (fun d => 0 ≤ d ≤ bp_buf_size (tt_buf_pool (ne_thread x))) (bp_data_size (tt_buf_pool (ne_thread x)));
  wf_ring : Forall (fun d => 0 ≤ d ≤ br_buf_size (tt_buf_ring (ne_thread x))) (br_data_size (tt_buf_ring (ne_thread x)));
  wf_channels : Forall channel_typed (tt_channels (ne_thread x))
}.

Lemma queued_ring w arr mask h t l : ring_ok w arr mask h t l → queued w arr mask h t = l.
Proof.
  intros H. unfold queued. rewrite <- (rk_len H). apply list_eq. intros i. rewrite list_lookup_fmap.
  destruct (l !! i) as [v|] eqn:E.
  - pose proof (lookup_lt_Some _ _ _ E). rewrite (proj2 (lookup_seqZ _ _ _ (Z.of_nat i))) by lia.
    simpl. f_equal. apply list_lookup_total_correct. by apply (rk_cells H).
  - apply lookup_ge_None in E. by rewrite lookup_seqZ_ge by lia.
Qed.

(** Two lists related pointwise give the same elements. *)
Lemma bind_pointwise {A B C} (f : A → list C) (g : B → list C) (l : list A) (k : list B) :
  length l = length k → (∀ i a b, l !! i = Some a → k !! i = Some b → f a = g b) → l ≫= f = k ≫= g.
Proof.
  revert k. induction l as [|a l IH]; intros [|b k] Hl H; simpl in *; try done.
  rewrite (H 0%nat a b) by done. f_equal. apply IH; [lia|]. intros i. apply (H (S i)).
Qed.

Context {Hlaws : BufRingLaws R} (nr np bs cap T N : Z) (x : net R).

Lemma completed_items n cq items : cq_ok n cq items → (∀ it, it ∈ items → 0 ≤ it.2 < 2 ^ 15) → completed_bufs cq = snd <$> items.
Proof.
  induction 1 as [|fd cq items ? _ IH|c d i more cq items _ IH|c m cq items ? _ IH]; intros Hi; simpl; try done; [by apply IH| |by apply IH].
  rewrite flag_bid_flags by (apply (Hi (c, d, i)); by left). f_equal. apply IH. intros it Hit. apply Hi. by right.
Qed.

Lemma chan_typed k t gs items avail rblks free blks c ch g :
  rx_ok nr bs k t gs items avail rblks → tx_ok np bs cap t gs free blks →
  tt_channels t !! c = Some ch → gs !! c = Some g → - k ≤ tch_in_flight ch ≤ k → k < 2 ^ 31 → channel_typed ch.
Proof.
  intros Hrx Htx Hc Hg Hif Hk. destruct (rx_focus _ _ _ _ _ _ _ _ _ _ _ Hrx Hc Hg) as ((Hb & Hr & _) & _ & _).
  destruct (tx_focus _ _ _ _ _ _ _ _ _ _ Htx Hc Hg) as [Hws _].
  destruct (recv_bound _ _ _ _ _ _ _ _ Hb) as [Hst _].
  pose proof (rsr_ring (rsr_core Hr)) as Hrr. pose proof (wbp_wb (wso_wbp Hws)) as Hw.
  pose proof (wr_pend Hw) as Hwp. pose proof (wr_send Hw) as Hwsd.
  split; unfold is_int, is_unsigned, is_size_t.
  - lia.
  - split; [apply (rk_head Hrr)|apply (rk_tail Hrr)].
  - rewrite (rsr_readable Hr). pose proof (recv_len (tch_read_buf ch) rblks (g_q g)). pose proof (rsr_off (rsr_core Hr)). split; [lia|].
    destruct (rsr_head (rsr_core Hr)) as [->|(i & l & El & Hlt)]; [lia|]. rewrite El, stream_cons, length_app in Hst. lia.
  - split; [apply (rk_head Hwp)|apply (rk_tail Hwp)].
  - split; [apply (rk_head Hwsd)|apply (rk_tail Hwsd)].
  - pose proof (wso_off Hws). destruct (wso_head Hws) as [->|(i & l & El & Hlt)]; [lia|].
    destruct (wbp_held _ _ _ _ _ _ _ _ _ _ i (wso_wbp Hws)) as (Hir & _ & Hib); [rewrite El; elt|].
    destruct (pool_block _ _ _ _ _ i _ (wbp_pool (wso_wbp Hws)) (proj1 Hir) Hib) as (_ & _ & Hl & _).
    pose proof (pr_total (wbp_pool (wso_wbp Hws))). pose proof (pr_pos (wbp_pool (wso_wbp Hws))). nia.
  - rewrite (wso_iov Hws), (wr_cap Hw). done.
Qed.

Lemma net_well_formed : net_inv nr np bs cap T N x → T < 2 ^ 31 → well_formed x.
Proof.
  intros (_ & k & gs & items & avail & rblks & free & blks & E) HT. pose proof (e_k E) as [Hk0 HkT].
  pose proof (e_rx E) as Hrx. pose proof (e_tx E) as Htx. pose proof (ri_ring Hrx) as Hb. pose proof (si_pool Htx) as Hp. simpl in Hb, Hp.
  split.
  - unfold free_blocks. rewrite (queued_ring _ _ _ _ _ _ (pr_ring Hp)), (pr_num Hp), <- (si_perm Htx). unfold owned. f_equiv.
    apply Permutation_refl', bind_pointwise; [rewrite length_fmap; symmetry; apply (e_gs E)|].
    intros c ch o Hc Ho. rewrite list_lookup_fmap in Ho. destruct (gs !! c) as [g|] eqn:Hg; [|done]. injection Ho as <-.
    destruct (tx_focus _ _ _ _ _ _ _ _ _ _ Htx Hc Hg) as [Hws _]. pose proof (wbp_wb (wso_wbp Hws)) as Hw.
    unfold send_blocks. by rewrite (queued_ring _ _ _ _ _ _ (wr_pend Hw)), (queued_ring _ _ _ _ _ _ (wr_send Hw)).
  - rewrite (brr_num Hb), <- (brr_perm Hb), (brr_visible Hb), <- !list_fmap_compose, list_fmap_id.
    do 2 f_equiv; [apply Permutation_refl'|].
    + eapply completed_items; [apply (e_cq E)|]. intros it Hit. pose proof (brr_n Hb).
      assert (0 ≤ it.2 < nr); [|lia]. eapply br_range; [exact Hb|]. rewrite <- list_fmap_compose. apply elem_of_app. right. apply elem_of_app. left.
      by apply (list_elem_of_fmap_2 snd).
    + apply Permutation_refl'. unfold held_by. apply bind_pointwise; [rewrite length_fmap; symmetry; apply (e_gs E)|].
      intros c ch q Hc Hq. rewrite list_lookup_fmap in Hq. destruct (gs !! c) as [g|] eqn:Hg; [|done]. injection Hq as <-.
      destruct (rx_focus _ _ _ _ _ _ _ _ _ _ _ Hrx Hc Hg) as ((_ & Hr & _) & _ & _).
      exact (queued_ring _ _ _ _ _ _ (rsr_ring (rsr_core Hr))).
  - split_and!; [apply (rk_head (pr_ring Hp))|apply (rk_tail (pr_ring Hp))|]. rewrite (pr_bs Hp).
    apply Forall_lookup. intros i d Hd. by destruct (pr_blk Hp i d Hd).
  - rewrite (brr_bs Hb). apply Forall_lookup. intros i d Hd. by destruct (brr_blk Hb i Hd).
  - apply Forall_lookup. intros c ch Hc.
    destruct (einv_get _ _ _ _ _ _ _ _ _ _ _ _ _ _ _ _ _ _ _ c E (lookup_lt_Some _ _ _ Hc)) as (ch' & g & w & r & Hc' & Hg & _ & _ & Hok).
    rewrite Hc in Hc'. injection Hc' as <-. eapply chan_typed; [done|done|done|done|apply (co_in_flight Hok)|lia].
Qed.
End memory.

(** C6. In every state a worker of an accepted command line reaches (with a
    submission queue of at least two entries, buffer areas below 2 GiB and the
    buffer ring granted, without --sqpoll, over runs in which no operation fails,
    the accept stays armed, no peer ends its stream, a receive always finds a free buffer and a round
    handles at most half as many completions as the submission queue has
    entries), memory is accounted for exactly: every block of the
    send pool is either free or in the pending or send queue of one channel,
    and every buffer of the receive ring is either with the kernel, named by
    one unhandled completion, or queued on one channel, with nothing lost,
    duplicated or shared; and every counter, size and offset of the pool, the
    ring and the channels is a value of its C++ type. *)
Theorem tcp_worker_memory_well_formed {R} {Hlib : BufRingLib R} {Hlaws : BufRingLaws R} hw argv threads o j next cmds :
  echo_main hw argv = Ok (inr (threads, o)) → so_cpu_affinity o = false → 2 ≤ pc_queue_depth (so_tcp o) →
  pc_buf_pool_size (so_tcp o) * 4096 < 2 ^ 31 → pc_buf_ring_size (so_tcp o) * 4096 < 2 ^ 31 →
  is_Some (io_uring_setup_buf_ring (R := R) (pc_buf_ring_size (so_tcp o)) next) →
  Z.of_nat (length cmds) < 2 ^ 29 →
  ∃ t, TcpThread_init (R := R) j (tcp_config o) next = Ok t ∧
    (all_possible (net_start t) cmds = true → ∃ x, net_run (net_start t) cmds = Ok x ∧ well_formed x).
Proof.
  intros E _ Hqd Hp Hr Hs Hlen. destruct (tcp_run_inv _ _ _ _ j _ cmds E Hqd Hp Hr Hs Hlen) as (t & Ht & H).
  exists t. split; [exact Ht|]. intros Hpos. destruct (H Hpos) as (x & m & T & Hrun & _ & HT & Hx).
  exists x. split; [exact Hrun|]. by eapply net_well_formed.
Qed.

Lemma tcp_worker_memory_well_formed_witness :
  ∃ o t x, echo_main 8 echo_argv = Ok (inr (8, o)) ∧ TcpThread_init (R := list_ring) zero_junk (tcp_config o) 0 = Ok t ∧
    net_run (net_start t) (take 5 echo_session) = Ok x ∧ well_formed x.
Proof.
  assert (H : ∃ o, echo_main 8 echo_argv = Ok (inr (8, o)) ∧ so_tcp o = mkProtocolConfig 2 2 2 512 ∧ so_cpu_affinity o = false).
  { eexists. split; [vm_compute; reflexivity|split; reflexivity]. }
  destruct H as (o & E & Et & Ea). exists o.
  destruct (tcp_worker_memory_well_formed (R := list_ring) 8 echo_argv 8 o zero_junk 0 (take 5 echo_session) E Ea) as (t & Ht & H);
    rewrite ?Et; [simpl; lia|simpl; lia|simpl; lia|by eexists|simpl; lia|].
  assert (Hout : ∃ r p, echo_outcome (take 5 echo_session) = Ok (r, true, p)) by (eexists _, _; vm_compute; reflexivity).
  destruct Hout as (r & p & Hout). destruct (echo_outcome_run _ _ _ _ _ _ E Ht Hout) as [_ Hpos].
  destruct (H Hpos) as (x & Hx & Hwf). exists t, x. by split_and!.
Defined.
