(* ===== verification/UdpThread.v ===== *)
(** * UdpThread: a UDP worker from its start to its first answers

    Models UdpThread::do_init_resources (src/core/udp_thread.cpp), the
    constructor of UdpChannel and UdpChannel::assign (src/net/channel.cpp), and
    what UdpServer and the echo server pass on to them.  Opening and binding the
    socket is I/O; [assign] starts both coroutines, of which the first prepares
    the receive and the second waits for the notify token. *)
From stdpp Require Import strings.
From S2P Require Import Prelude Ring BufPool WriteBuf WriteBufStream TcpSend BufRing ReadBuf TcpRecv Awaiter MsghdrPool.
From S2P Require Import UdpSend TcpChannel UdpRecv Logger Server.

(** What a UdpServer is constructed with. *)
Record UdpConfig := mkUdpConfig {
  ucf_buf_pool_size : Z;
  ucf_buf_ring_size : Z;
  ucf_msghdr_pool_size : Z;
  ucf_channel_capacity : Z;
  ucf_queue_depth : Z
}.

Definition udp_config (o : ServerOptions) : UdpConfig :=
  mkUdpConfig (pc_buf_pool_size (so_udp o)) (pc_buf_ring_size (so_udp o)) (so_udp_msghdr_pool_size o)
    (pc_channel_capacity (so_udp o)) (pc_queue_depth (so_udp o)).

Section init.
Context {R : Type} {Hlib : BufRingLib R}.

(** The contents of fresh memory. *)
Record udp_junk := mkUdpJunk { uj_base : junk; uj_slot : nat → MsghdrSlot }.

(** [UdpChannel(thread)]: the coroutines are not started. *)
Definition UdpChannel_new (j : udp_junk) (b : BufRing R) (p : BufPool) (mp : MsghdrPool) (cfg : UdpConfig)
    : result (UdpChannel R) :=
  let jz := junk_z (uj_base j) in
  r ← ReadBufDgram_new jz jz jz (jz 0%nat) b;
  w ← WriteBufDgram_new jz jz jz mp (ucf_channel_capacity cfg);
  Ok (mkUdpChannel b r (mkUdpTx w p mp NotifyToken_new false (ucf_queue_depth cfg) [] []) false).

(** [assign]: [udp_read_loop] up to its first completion, [udp_write_loop] up
    to the notify token, which is not pending.  The read coroutine swallows the
    exception of a full submission queue and ends. *)
Definition UdpChannel_assign (c : UdpChannel R) : result (UdpChannel R) :=
  let '(c, alive) := match udp_arm c with None => (c, false) | Some c => (c, true) end in
  let u := uc_tx c in
  let u := mkUdpTx (ut_write_buf u) (ut_pool u) (ut_msghdr u) (NotifyToken_await_suspend (ut_notify u)) true
             (ut_depth u) (ut_sq u) (ut_flight u) in
  Ok (mkUdpChannel (uc_buf_ring c) (uc_read_buf c) u alive).

(** [do_init_resources]; buffers have 4096 bytes and messages 16 vectors by
    default. *)
Definition UdpThread_init (j : udp_junk) (cfg : UdpConfig) (next : Z) : result (UdpChannel R) :=
  let jb := junk_byte (uj_base j) in
  let jz := junk_z (uj_base j) in
  '(b, _) ← BufRing_new jb next (ucf_buf_ring_size cfg) 4096;
  p ← BufPool_new jb jz jz (ucf_buf_pool_size cfg) 4096;
  mp ← MsghdrPool_new (uj_slot j) (junk_iov (uj_base j)) jz (ucf_msghdr_pool_size cfg) 16;
  c ← UdpChannel_new j b p mp cfg;
  UdpChannel_assign c.

(** The kernel puts datagrams that arrive into the provided buffers and posts
    their completions. *)
Fixpoint udp_arrive {Hrm : RecvmsgLib} (c : UdpChannel R) (ds : list dgram) : result (UdpChannel R * list (Z * Z)) :=
  match ds with
  | [] => Ok (c, [])
  | d :: ds =>
      r ← kernel_receive (uc_buf_ring c) (frame_of d);
      match r with
      | None => Ok (c, [])
      | Some (bid, b) =>
          '(c, cqes) ← udp_arrive (uc_with_rx c b (uc_read_buf c)) ds;
          Ok (c, (Z.of_nat (length (frame_of d)), i32 (cqe_flags bid true)) :: cqes)
      end
  end.
End init.

(** ** Start-up *)
Section start.
Context {R : Type} {Hlib : BufRingLib R} {Hlaws : BufRingLaws R} {Hrm : RecvmsgLib} {Hrl : RecvmsgLaws}.

Lemma udp_worker_starts j cfg next a k m q :
  0 ≤ a → ucf_buf_ring_size cfg = 2 ^ a → 0 ≤ k → ucf_buf_pool_size cfg = 2 ^ k → 0 ≤ m → ucf_msghdr_pool_size cfg = 2 ^ m →
  0 ≤ q < 31 → ucf_channel_capacity cfg = 2 ^ q → 2 ^ a * 4096 < 2 ^ 31 → 2 ^ k * 4096 < 2 ^ 31 → 2 ^ m * 16 < 2 ^ 31 →
  2 ^ m < ucf_queue_depth cfg → is_Some (io_uring_setup_buf_ring (R := R) (2 ^ a) next) →
  ∃ c, UdpThread_init (R := R) j cfg next = Ok c ∧
    uc_inv (2 ^ a) 4096 (2 ^ k) 4096 (2 ^ q) (2 ^ m) 16 c (seqZ 0 (2 ^ a)) [] [] [] udp_spec_0.
Proof.
  intros Ha Ea Hk Ek Hm Em Hq Eq Hra Hrk Hrm' Hd [r Hset]. unfold UdpThread_init. rewrite Ea, Ek, Em.
  destruct (BufRing_new_rep (junk_byte (uj_base j)) next a 4096 r Ha ltac:(lia) Hra Hset) as (b & -> & _ & Hb). step.
  destruct (ReadBufStream_new_rep _ _ (junk_z (uj_base j)) (junk_z (uj_base j)) (junk_z (uj_base j))
    (junk_z (uj_base j) 0%nat) _ _ _ _ _ Hb) as (rs & Ers & Hrs & _).
  destruct (udp_inv_fresh (uj_slot j) (junk_iov (uj_base j)) (junk_z (uj_base j)) (junk_byte (uj_base j))
    (junk_z (uj_base j)) (junk_z (uj_base j)) (junk_z (uj_base j)) (junk_z (uj_base j)) (junk_z (uj_base j))
    k 4096 q m 16 (ucf_queue_depth cfg - 1)) as (p & mp & w & -> & Emp & Ew & Hu); try lia.
  step. rewrite Emp. step. unfold UdpChannel_new, ReadBufDgram_new. unfold ReadBufStream_new in Ers. ok_inv.
  match goal with E : ReadBufBase_new _ _ _ _ _ = Ok _ |- _ => rewrite E end. step. rewrite Eq, Ew. step.
  unfold UdpChannel_assign, udp_arm. cbn [uc_tx ut_depth ut_sq length]. assert (0 < 2 ^ m) by lia.
  rewrite (proj2 (Z.leb_gt _ _)) by lia. eexists. split; [done|]. split; [done|]. split; [cbn; lia|].
  eexists _, _, _, _, _, _. split_and!; [exact Hb| |exact Hu]. split; [exact Hrs|done|done|constructor].
Qed.

Lemma udp_arrive_spec n bs pn pbs cap mcap mi ds : ∀ c avail cq q ds' sp,
  uc_inv n bs pn pbs cap mcap mi c avail cq q ds' sp → (length ds ≤ length avail)%nat →
  Forall (fun d => Z.of_nat (length (frame_of d)) ≤ bs) ds →
  ∃ c' items, udp_arrive c ds = Ok (c', (fun it => (Z.of_nat (length (frame_of it.2)), i32 (cqe_flags it.1 true))) <$> items) ∧
    items.*2 = ds ∧ items.*1 ++ drop (length ds) avail = avail ∧
    uc_inv n bs pn pbs cap mcap mi c' (drop (length ds) avail) (cq ++ ((fun it => (it.1, frame_of it.2)) <$> items)) q ds' sp.
Proof.
  induction ds as [|d ds IH]; intros c avail cq q ds' sp Hinv Hl Hf; cbn [udp_arrive length] in *.
  - exists c, []. rewrite drop_0. cbn. by rewrite app_nil_r.
  - inversion_clear Hf. destruct avail as [|i avail]; [cbn in Hl; lia|].
    destruct Hinv as (Hal & Hdep & blks & free & mfree & sqb & flb & tblks & Hb & Hd & Hu).
    destruct (br_receive _ _ _ _ _ _ _ _ (frame_of d) Hb) as (b' & -> & Hb'); [done|]. step.
    destruct (IH (uc_with_rx c b' (uc_read_buf c)) avail (cq ++ [(i, frame_of d)]) q ds' sp) as
      (c' & items & -> & E2 & E1 & Hinv'); [|cbn in Hl; lia|done|].
    { split; [done|]. split; [done|]. by exists blks, free, mfree, sqb, flb, tblks. }
    step. exists c', ((i, d) :: items). cbn. rewrite E1, E2. split_and!; try done.
    by rewrite <- app_assoc in Hinv'.
Qed.

(** With nothing under way all blocks and headers are free. *)
Lemma udp_room_idle n bs pn pbs cap mcap mi (c : UdpChannel R) avail cq q ds :
  uc_inv n bs pn pbs cap mcap mi c avail cq q ds udp_spec_0 → udp_room mcap (uc_tx c) udp_spec_0 = Z.min pn mcap.
Proof.
  intros (_ & _ & blks & free & mfree & sqb & flb & tblks & _ & _ & Hu).
  pose proof (ui_sp_sq Hu) as Hsq. pose proof (ui_sp_flight Hu) as Hfl. cbn in Hsq, Hfl.
  destruct sqb; [|done]. destruct flb; [|done]. unfold udp_room. destruct (blocks_counted _ _ _ _ _ _ _ _ _ _ _ _ _ Hu) as [_ ->]. cbn. lia.
Qed.

(** The payload is a part of what the kernel delivers. *)
Lemma dgram_payload_fits d bs : peer_ok d → Z.of_nat (length (frame_of d)) ≤ bs → Z.of_nat (length d.2) ≤ bs.
Proof.
  intros Hp Hf. destruct (recvmsg_law d.1 d.2 Hp) as (Hlen & _). pose proof recvmsg_overhead_pos. unfold frame_of in Hf. lia.
Qed.
End start.

(** C22. From the command line to the answers of a UDP worker.  If main accepts
    the command line, the memory of a worker is below 2 GiB, there are more
    queue entries than message headers and the kernel grants the buffer ring,
    then a UDP worker initialises without a fault.  Whatever datagrams then
    arrive in one batch, at most as many as there are buffers and each small
    enough for one, the kernel has a buffer for each, the echo server handles
    all completions without a fault, and every buffer returns to the kernel.
    Exactly the first so many datagrams as the pools have send blocks and message
    headers, whichever are fewer, are handed to the transmit queue: their
    payloads, addressed to their senders, in the order of arrival. *)
Theorem udp_worker_starts_and_echoes {R} {Hlib : BufRingLib R} {Hlaws : BufRingLaws R} {Hrm : RecvmsgLib}
    {Hrl : RecvmsgLaws} hw argv threads o j next ds :
  echo_main hw argv = Ok (inr (threads, o)) →
  pc_buf_pool_size (so_udp o) * 4096 < 2 ^ 31 → pc_buf_ring_size (so_udp o) * 4096 < 2 ^ 31 →
  so_udp_msghdr_pool_size o * 16 < 2 ^ 31 → so_udp_msghdr_pool_size o < pc_queue_depth (so_udp o) →
  is_Some (io_uring_setup_buf_ring (R := R) (pc_buf_ring_size (so_udp o)) next) →
  Z.of_nat (length ds) ≤ pc_buf_ring_size (so_udp o) →
  Forall (fun d => Z.of_nat (length (frame_of d)) ≤ 4096 ∧ peer_ok d) ds →
  ∃ c0 c1 cqes c2, UdpThread_init (R := R) j (udp_config o) next = Ok c0 ∧ udp_arrive c0 ds = Ok (c1, cqes) ∧
    length cqes = length ds ∧ udp_reads (udp_echo 2) c1 cqes = Ok c2 ∧
    uc_inv (pc_buf_ring_size (so_udp o)) 4096 (pc_buf_pool_size (so_udp o)) 4096 (pc_channel_capacity (so_udp o))
      (so_udp_msghdr_pool_size o) 16 c2
      (drop (length ds) (seqZ 0 (pc_buf_ring_size (so_udp o))) ++ take (length ds) (seqZ 0 (pc_buf_ring_size (so_udp o))))
      [] [] [] (mkUdpSpec [] (take (Z.to_nat (Z.min (pc_buf_pool_size (so_udp o)) (so_udp_msghdr_pool_size o))) ds) []).
Proof.
  intros E Hp Hr Hm Hd Hs Hl Hds. apply echo_main_accepts in E as (Hv & _ & (H1 & H2 & H3 & _) & _ & H4).
  unfold config_valid, proto_valid in Hv. bools.
  destruct (pow2_exp (pc_buf_pool_size (so_udp o))) as (k & Hk & Ek); [done..|].
  destruct (pow2_exp (pc_channel_capacity (so_udp o))) as (q & Hq & Eq); [done..|].
  destruct (pow2_exp (pc_buf_ring_size (so_udp o))) as (a & Ha & Ea); [done..|].
  destruct (pow2_exp (so_udp_msghdr_pool_size o)) as (m & Hm' & Em); [done..|].
  rewrite Ea in Hs, Hl |- *. rewrite Ek, Eq, Em.
  destruct (udp_worker_starts j (udp_config o) next a k m q) as (c0 & Hi & Hinv); simpl; try done; try lia.
  destruct (udp_arrive_spec _ _ _ _ _ _ _ ds _ _ _ _ _ _ Hinv) as (c1 & items & Hrun & <- & Ea' & Hinv1).
  { rewrite length_seqZ. lia. } { eapply Forall_impl; [done|]. by intros ? [? ?]. }
  destruct (udp_echo_reads (2 ^ a) 4096 (2 ^ k) 4096 (2 ^ q) (2 ^ m) 16 2 items c1 (drop (length items.*2) (seqZ 0 (2 ^ a))) udp_spec_0 ltac:(lia)) as (c2 & Hrd & Hinv2);
    [|exact Hinv1|].
  { apply Forall_fmap in Hds. eapply Forall_impl; [done|]. intros [i d] [Hf Hpd]. split; [done|]. by apply dgram_payload_fits. }
  assert (Hlen : length items.*2 = length items) by apply length_fmap. rewrite Hlen in *.
  rewrite (udp_room_idle _ _ _ _ _ _ _ _ _ _ _ _ Hinv1) in Hinv2.
  eexists c0, c1, _, c2. split; [done|]. split; [done|]. split; [by rewrite length_fmap|]. split; [done|].
  replace (take (length items) (seqZ 0 (2 ^ a))) with items.*1; [exact Hinv2|].
  rewrite <- Ea' at 1. by rewrite take_app_length' by (by rewrite length_fmap).
Qed.

(** Five datagrams arrive, and there are four message headers. *)
Lemma udp_worker_starts_and_echoes_witness :
  let ds := [([x7f; x01], [x61; x62]); ([x7f; x02], [x63]); ([x7f; x03], []); ([x7f; x01], [x64]); ([x7f; x02], [x65])] in
  let j := mkUdpJunk (mkJunk (fun _ => x00) (fun _ => 0) (fun _ => (0, 0))) (fun _ => mkMsghdrSlot false None 0 None 0 [] 0) in
  ∃ o c0 c1 cqes c2, echo_main 8 ["--msghdr-pool-size"; "4"; "--buf-ring-size"; "8"]%string = Ok (inr (8, o)) ∧
    UdpThread_init (R := list_ring) j (udp_config o) 0 = Ok c0 ∧ udp_arrive c0 ds = Ok (c1, cqes) ∧
    udp_reads (udp_echo 2) c1 cqes = Ok c2 ∧
    uc_inv 8 4096 1024 4096 64 4 16 c2 [5; 6; 7; 0; 1; 2; 3; 4] [] [] []
      (mkUdpSpec [] [([x7f; x01], [x61; x62]); ([x7f; x02], [x63]); ([x7f; x03], []); ([x7f; x01], [x64])] []).
Proof.
  intros ds j.
  assert (H : ∃ o, echo_main 8 ["--msghdr-pool-size"; "4"; "--buf-ring-size"; "8"]%string = Ok (inr (8, o)) ∧
    so_udp o = mkProtocolConfig 1024 64 8 512 ∧ so_udp_msghdr_pool_size o = 4).
  { eexists. split; [vm_compute; reflexivity|]. split; reflexivity. }
  destruct H as (o & E & Eu & Em). exists o.
  destruct (udp_worker_starts_and_echoes (R := list_ring) 8 _ 8 o j 0 ds E) as (c0 & c1 & cqes & c2 & H1 & H2 & _ & H3 & H4);
    rewrite ?Eu, ?Em; try (simpl; lia); [by eexists|repeat constructor; vm_compute; discriminate|].
  rewrite Eu, Em in H4. by exists c0, c1, cqes, c2.
Defined.
