(* ===== verification/UdpWorker.v ===== *)
(** * UdpWorker: the event loop with the UDP channel in it

    The UDP worker as an implementation of the interface of IoThread.v:
    UdpThread has no hooks of its own; its tokens are that of the receive and
    those of the message headers ([MsgToken::complete] of src/core/awaiter.cpp
    with the server's [on_write]). *)
From S2P Require Import Prelude Ring BufPool WriteBuf WriteBufStream BufRing ReadBuf TcpRecv Awaiter MsghdrPool.
From S2P Require Import UdpSend UdpRecv IoRing IoThread.

Inductive utoken := UTokRead | UTokSend (slot : Z).

Section worker.
Context {R : Type} {Hlib : BufRingLib R} {Hrm : RecvmsgLib} (on_read : uapp) (on_write : Z → uapp).
Implicit Types (c : UdpChannel R) (r : IoRing utoken).

Definition free_entries r : Z := ir_entries r - Z.of_nat (length (ir_sq r)).

(** What is left of the submission queue for a callback, *)
Definition lend_udp r c : UdpChannel R :=
  let u := uc_tx c in
  uc_with_tx c (mkUdpTx (ut_write_buf u) (ut_pool u) (ut_msghdr u) (ut_notify u) (ut_alive u) (free_entries r) [] (ut_flight u)).
(** and the queue after it: the receive, if it was prepared again, and the
    messages. *)
Definition collect_udp r c : UdpChannel R * IoRing utoken :=
  let armed := replicate (Z.to_nat (free_entries r - ut_depth (uc_tx c))) UTokRead in
  (c, mkIoRing (ir_queue_depth r) (ir_entries r) (ir_sq r ++ (UdToken <$> (armed ++ (UTokSend <$> ut_sq (uc_tx c)))))
        (ir_kernel r) (ir_cq r)).

Definition utoken_complete (tok : utoken) (res flags : Z) c : result (UdpChannel R) :=
  match tok with
  | UTokRead => if uc_read_alive c then udp_read_complete on_read c res flags else Ok c
  | UTokSend slot =>
      u ← MsgToken_complete (uc_tx c) slot;
      run_uapp (on_write res) (uc_with_tx c u)
  end.

#[local] Instance udp_ops : ThreadOps utoken (UdpChannel R) := {
  on_loop_start c r := Ok (c, r);
  token_complete tok res flags c r := c ← utoken_complete tok res flags (lend_udp r c); Ok (collect_udp r c);
  on_batch_done c r := Ok (c, r)
}.

#[local] Instance udp_laws : ThreadLaws utoken (UdpChannel R).
Proof. split; cbn; unfold collect_udp; intros; ok_inv; try (eexists; reflexivity); apply prepares_refl. Qed.
End worker.
