(* ===== verification/Shutdown.v ===== *)
(** * Shutdown: the destructor of a worker against its thread

    Nothing in the program asks a worker to stop but the destructor of its
    [std::jthread].  [thread_] is a member of the base class IoThread, so the
    destructor of a TcpThread or UdpThread runs in this order
    (include/core/tcp_thread.hpp, udp_thread.hpp, io_thread.hpp,
    src/core/io_thread.cpp lines 90-94), while the thread goes on:
    - the members of the derived class are destroyed: connections, message
      headers, pending reads;
    - [~IoThread] begins: virtual calls now reach the methods of IoThread, and
      the body closes [wakeup_fd_];
    - [thread_] is destroyed: the stop is requested, the stop callback writes to
      [wakeup_fd_], the thread is joined.

    The worker is the loop of IoThread.v over a state that knows how far the
    destructor is.  The read of the eventfd completes when its count is
    positive. *)
From S2P Require Import Prelude Ring BufPool WriteBuf WriteBufStream BufRing ReadBuf TcpRecv Awaiter MsghdrPool.
From S2P Require Import UdpSend TcpChannel TcpLifecycle UdpRecv IoRing IoThread TcpWorker Server UdpThread UdpWorker.

(** How far the destructor is. *)
Inductive lifetime :=
  | LtAlive
  | LtMembersGone                  (* the derived members are destroyed *)
  | LtClosed                       (* ~IoThread has closed wakeup_fd_ *)
  | LtJoining                      (* the stop is requested *)
  | LtGone.
#[export] Instance lifetime_eq_dec : EqDecision lifetime.
Proof. solve_decision. Defined.

(** [overrides]: the derived class has its own [on_loop_start],
    [on_batch_done] and [on_stop].  [complete_destroyed]: a token is completed
    after the derived members are gone. *)
Class DestroyedOps (T : Type) := {
  overrides : bool;
  complete_destroyed : T → Z → Z → IoRing T → result (IoRing T)
}.

Section shutdown.
Context {T S : Type} {Hops : ThreadOps T S} {Hdead : DestroyedOps T}.

(** A virtual call: to the derived class, whose members may be gone, or to
    the empty method of IoThread. *)
Definition hook (f : S → IoRing T → result (S * IoRing T)) (st : lifetime * S) (r : IoRing T)
    : result ((lifetime * S) * IoRing T) :=
  match st.1 with
  | LtAlive => '(s, r) ← f st.2 r; Ok ((LtAlive, s), r)
  | LtMembersGone => if overrides then Fault InvalidPointer else Ok (st, r)
  | _ => Ok (st, r)
  end.

#[export] Instance lifetime_ops : ThreadOps T (lifetime * S) := {
  on_loop_start := hook on_loop_start;
  token_complete t res flags st r :=
    match st.1 with
    | LtAlive => '(s, r) ← token_complete t res flags st.2 r; Ok ((LtAlive, s), r)
    | _ => r ← complete_destroyed t res flags r; Ok (st, r)
    end;
  on_batch_done := hook on_batch_done
}.

(** The eventfd behind [wakeup_fd_]: open or closed, and its count. *)
Record Worker := mkWorker {
  wo_thread : IoThread T (lifetime * S);
  wo_wakeup_open : bool;
  wo_eventfd : Z
}.
Definition wo_lifetime (w : Worker) : lifetime := (it_state (wo_thread w)).1.

Definition wo_with (w : Worker) (g : IoThread T (lifetime * S)) : Worker := mkWorker g (wo_wakeup_open w) (wo_eventfd w).
Definition it_with_lifetime (g : IoThread T (lifetime * S)) (own_stop : bool) (lt : lifetime) : IoThread T (lifetime * S) :=
  mkIoThread (it_cpu_id g) (it_wakeup_fd g) own_stop (it_ring g) (lt, (it_state g).2) (it_pc g) (it_stop g)
    (it_posted g) (it_delivered g).

(** The stop callback of [run_loop] writes a one to [wakeup_fd_]. *)
Definition stop_callback (w : Worker) : Worker :=
  if it_wakeup_fd (wo_thread w) && wo_wakeup_open w
  then mkWorker (wo_thread w) (wo_wakeup_open w) (wo_eventfd w + 1) else w.

(** [~IoThread]: its body. *)
Definition IoThread_destroy (w : Worker) : Worker :=
  mkWorker (wo_thread w) (if it_wakeup_fd (wo_thread w) then false else wo_wakeup_open w) (wo_eventfd w).

Definition request_stop (g : IoThread T (lifetime * S)) : IoThread T (lifetime * S) :=
  mkIoThread (it_cpu_id g) (it_wakeup_fd g) (it_own_stop g) (it_ring g) (it_state g) (it_pc g) true (it_posted g) (it_delivered g).

(** One step of the destructor; a join waits for the end of the thread. *)
Definition destroy_worker (w : Worker) : Worker :=
  let g := wo_thread w in
  match wo_lifetime w with
  | LtAlive => wo_with w (it_with_lifetime g (it_own_stop g) LtMembersGone)
  | LtMembersGone => IoThread_destroy (wo_with w (it_with_lifetime g false LtClosed))
  | LtClosed => stop_callback (wo_with w (request_stop (it_with_lifetime g (it_own_stop g) LtJoining)))
  | LtJoining =>
      match it_pc g with IoEnd => wo_with w (it_with_lifetime g (it_own_stop g) LtGone) | _ => w end
  | LtGone => w
  end.

Inductive wo_event := WoThread (ret : Z) | WoComplete (i : nat) (res flags : Z) | WoDestroy.

Definition wo_step (w : Worker) (e : wo_event) : result Worker :=
  match e with
  | WoThread ret => g ← io_step (wo_thread w) (EvStep ret); Ok (wo_with w g)
  | WoComplete i res flags =>
      match ir_kernel (it_ring (wo_thread w)) !! i with
      | Some UdWakeup =>
          if 0 <? wo_eventfd w
          then g ← io_step (wo_thread w) (EvComplete i res 0); Ok (mkWorker g (wo_wakeup_open w) 0)
          else Ok w
      | _ => g ← io_step (wo_thread w) (EvComplete i res flags); Ok (wo_with w g)
      end
  | WoDestroy => Ok (destroy_worker w)
  end.

Fixpoint wo_run (w : Worker) (es : list wo_event) : result Worker :=
  match es with [] => Ok w | e :: es => w ← wo_step w e; wo_run w es end.

(** A worker as its constructor leaves it. *)
Definition Worker_new (cpu_id queue_depth entries : Z) (sq : list T) (s : S) : Worker :=
  mkWorker (IoThread_new cpu_id true overrides queue_depth entries sq (LtAlive, s)) true 0.
End shutdown.
Arguments Worker : clear implicits.

(** ** What holds in every run *)
Section invariant.
Context {T S : Type} {Hops : ThreadOps T S} {Hdead : DestroyedOps T}.
Implicit Types (g : IoThread T (lifetime * S)) (w : Worker T S).

(** What a step of the thread leaves alone. *)
Record frame g g' : Prop := {
  fr_cpu : it_cpu_id g' = it_cpu_id g;
  fr_fd : it_wakeup_fd g' = it_wakeup_fd g;
  fr_own : it_own_stop g' = it_own_stop g;
  fr_stop : it_stop g' = it_stop g;
  fr_life : (it_state g').1 = (it_state g).1
}.

Lemma frame_refl g : frame g g.
Proof. done. Qed.
Lemma frame_to g r s pc : s.1 = (it_state g).1 → frame g (it_to g r s pc).
Proof. done. Qed.

Lemma hook_life f (st st' : lifetime * S) (r r' : IoRing T) : hook f st r = Ok (st', r') → st'.1 = st.1.
Proof. unfold hook. destruct st as [[] s]; cbn; intros H; try case_match; by ok_inv. Qed.

Lemma complete_frame g t c pc g' : call_complete g t c pc = Ok g' → frame g g' ∧ it_pc g' = pc.
Proof.
  unfold call_complete. cbn. intros H. ok_inv. split; [|done]. split; try done. cbn.
  destruct (it_state g) as [[] s0]; cbn in *; by ok_inv.
Qed.

(** The loop ends only by a stop request. *)
Definition in_run (pc : io_pc) : bool :=
  match pc with IoStart | IoTop | IoWait | IoPeek | IoDispatch _ _ => true | _ => false end.

Lemma loop_frame g ret g' :
  in_run (it_pc g) = true → run_loop_step g ret = Ok g' →
  frame g g' ∧ (in_run (it_pc g') = true ∨ it_pc g' = IoStop ∧ it_stop g = true).
Proof.
  intros Hpc H. unfold run_loop_step in H. destruct (it_pc g) as [| | | |n i| | | | |n i fin|] eqn:Epc; try done.
  - cbn in H. ok_inv. match goal with E : hook _ _ _ = Ok _ |- _ => apply hook_life in E end. split; [by apply frame_to|by left].
  - destruct (it_stop g) eqn:Es; ok_inv; (split; [by apply frame_to|]); [by right|left; by destruct (_ =? _)].
  - ok_inv. case_match; (split; [by split|left; by rewrite ?Epc]).
  - ok_inv. split; [by apply frame_to|by left].
  - destruct (i <? n)%nat.
    + destruct (ir_cq (it_ring g) !! i) as [c|]; [|done]. destruct (cq_data c); ok_inv; [split; [by apply frame_to|by left]..|].
      apply complete_frame in H as [? ->]. auto.
    + cbn in H. ok_inv. match goal with E : hook _ _ _ = Ok _ |- _ => apply hook_life in E end. split; [by apply frame_to|by left].
Qed.

Record wo_ok w : Prop := {
  wk_fd : it_wakeup_fd (wo_thread w) = true;
  wk_count : wo_eventfd w = 0;
  wk_open : wo_wakeup_open w = true → wo_lifetime w = LtAlive ∨ wo_lifetime w = LtMembersGone;
  wk_stop : it_stop (wo_thread w) = true → wo_lifetime w = LtJoining ∨ wo_lifetime w = LtGone;
  wk_own : it_own_stop (wo_thread w) = true → wo_lifetime w = LtAlive ∨ wo_lifetime w = LtMembersGone;
  wk_pc : in_run (it_pc (wo_thread w)) = true ∨ it_stop (wo_thread w) = true;
  wk_loop : match it_pc (wo_thread w) with IoStopTop | IoStopWait | IoStopPeek | IoStopDispatch _ _ _ => False | _ => True end;
  wk_gone : wo_lifetime w = LtGone → it_pc (wo_thread w) = IoEnd;
  wk_joining : wo_lifetime w = LtJoining ∨ wo_lifetime w = LtGone → it_stop (wo_thread w) = true
}.

Lemma thread_wo_ok w ret g : wo_ok w → io_thread_step (wo_thread w) ret = Ok g → wo_ok (wo_with w g) ∧ frame (wo_thread w) g.
Proof.
  intros [Hf Hc Ho Hs Hn Hp Hl Hg Hj] H. unfold io_thread_step in H.
  destruct (in_run (it_pc (wo_thread w))) eqn:Er.
  - assert (run_loop_step (wo_thread w) ret = Ok g) as Hr by (by destruct (it_pc (wo_thread w))).
    apply loop_frame in Hr as [[Fc Ff Fo Fs Fl] Hpc]; [|done]. split; [|by split]. unfold wo_lifetime in *.
    split; unfold wo_lifetime; cbn; rewrite ?Ff, ?Fo, ?Fs, ?Fl; try done; [destruct Hpc as [|[_ ?]]; auto|..].
    + destruct Hpc as [Hpc|[-> _]]; [by destruct (it_pc g)|done].
    + intros E. by rewrite (Hg E) in Er.
  - destruct Hp as [|Hp]; [done|].
    destruct (it_pc (wo_thread w)) as [| | | |n i| | | | |n i fin|] eqn:Epc; try done.
    + destruct (it_own_stop (wo_thread w)) eqn:Eo.
      { destruct (Hs Hp), (Hn eq_refl); unfold wo_lifetime in *; congruence. }
      unfold IoThread_on_stop in H. ok_inv. split; [|done]. split; cbn; try done; [by rewrite Eo|by right].
    + ok_inv. split; [|done]. split; cbn; try done; [by right|by rewrite Epc].
Qed.

Lemma kernel_same g i res flags g' :
  io_step g (EvComplete i res flags) = Ok g' →
  it_cpu_id g' = it_cpu_id g ∧ it_wakeup_fd g' = it_wakeup_fd g ∧ it_own_stop g' = it_own_stop g ∧ it_stop g' = it_stop g ∧
  it_state g' = it_state g ∧ it_pc g' = it_pc g.
Proof. cbn [io_step]. destruct (kernel_complete _ _ _ _). intros H. by ok_inv. Qed.

Lemma destroy_wo_ok w : wo_ok w → wo_ok (destroy_worker w).
Proof.
  intros [Hf Hc Ho Hs Hn Hp Hl Hg Hj]. unfold destroy_worker.
  destruct (wo_lifetime w) eqn:El; [..|by split; rewrite ?El].
  - split; cbn; try done; auto; [|by intros []]. intros ?. destruct (Hs ltac:(done)); congruence.
  - unfold IoThread_destroy. cbn. rewrite Hf. split; cbn; try done; auto; [|by intros []]. intros ?. destruct (Hs ltac:(done)); congruence.
  - unfold stop_callback. cbn. destruct (wo_wakeup_open w) eqn:Eo; [destruct (Ho eq_refl); congruence|]. rewrite andb_false_r.
    split; cbn; rewrite ?Eo; auto; try done. intros ?. destruct (Hn ltac:(done)); congruence.
  - destruct (it_pc (wo_thread w)) eqn:Epc; try (split; rewrite ?El, ?Epc; auto; done).
    split; cbn; rewrite ?Epc; auto; intros ?; [destruct (Ho ltac:(done))|destruct (Hn ltac:(done))]; congruence.
Qed.

Lemma wo_step_ok w e w' : wo_ok w → wo_step w e = Ok w' → wo_ok w'.
Proof.
  intros Hw H. destruct e as [ret|i res flags|]; cbn [wo_step] in H.
  - ok_inv. by eapply thread_wo_ok.
  - rewrite (wk_count _ Hw) in H. cbn [Z.ltb Z.compare] in H. destruct Hw as [Hf Hc Ho Hs Hn Hp Hl Hg Hj].
    destruct (ir_kernel _ !! i) as [[]|]; ok_inv; try done;
      match goal with E : io_step _ _ = Ok _ |- _ => apply kernel_same in E as (_ & Ef & Eo & Es & Et & Ep) end;
      split; unfold wo_lifetime; cbn; rewrite ?Ef, ?Eo, ?Es, ?Et, ?Ep; done.
  - ok_inv. by apply destroy_wo_ok.
Qed.

(** The CPU stays, and so does the [on_stop] of IoThread. *)
Definition same_class w w' : Prop :=
  it_cpu_id (wo_thread w') = it_cpu_id (wo_thread w) ∧
  (it_own_stop (wo_thread w) = false → it_own_stop (wo_thread w') = false).

Lemma wo_step_class w e w' : wo_ok w → wo_step w e = Ok w' → same_class w w'.
Proof.
  intros Hw H. destruct e as [ret|i res flags|]; cbn [wo_step] in H.
  - ok_inv. eapply thread_wo_ok in Hw as [_ [Fc _ Fo _ _]]; [|done]. split; cbn; [done|by rewrite Fo].
  - rewrite (wk_count _ Hw) in H. cbn [Z.ltb Z.compare] in H. destruct (ir_kernel _ !! i) as [[]|]; ok_inv; try done;
      match goal with E : io_step _ _ = Ok _ |- _ => apply kernel_same in E as (Ec & _ & Eo & _) end;
      split; cbn; congruence.
  - ok_inv. unfold destroy_worker, stop_callback. destruct (wo_lifetime w); cbn; try done; by case_match.
Qed.

Lemma wo_run_class es : ∀ w w', wo_ok w → wo_run w es = Ok w' → same_class w w'.
Proof.
  induction es as [|e es IH]; intros w w' Hw H; cbn in H; ok_inv; [done|].
  match goal with E : wo_step w e = Ok ?x |- _ => pose proof (wo_step_class _ _ _ Hw E) as [C1 O1];
    destruct (IH x w' (wo_step_ok _ _ _ Hw E) H) as [C2 O2] end.
  split; [congruence|auto].
Qed.

Lemma wo_run_ok es : ∀ w w', wo_ok w → wo_run w es = Ok w' → wo_ok w'.
Proof.
  induction es as [|e es IH]; intros w w' Hw H; cbn in H; ok_inv; [done|]. eapply IH; [|done]. by eapply wo_step_ok.
Qed.

Lemma Worker_new_ok cpu_id depth entries sq s : wo_ok (Worker_new cpu_id depth entries sq s).
Proof. split; cbn; auto; try done; by intros []. Qed.
End invariant.

(** C25. The stop code of TcpThread never runs.  Whatever coroutines, kernel
    and destructor do: when the loop ends, the destructor is already past the
    members of the derived class, so [on_stop] is the one of IoThread, and no
    run enters the loop of [TcpThread::on_stop].  The accept coroutine it would
    destroy stays allocated, and cancelled operations are not waited for. *)
Theorem derived_on_stop_never_runs {T S} `{ThreadOps T S} `{DestroyedOps T} cpu_id depth entries sq (s : S) es (w : Worker T S) :
  wo_run (Worker_new cpu_id depth entries sq s) es = Ok w →
  match it_pc (wo_thread w) with
  | IoStop => it_own_stop (wo_thread w) = false ∧ wo_lifetime w = LtJoining
  | IoStopTop | IoStopWait | IoStopPeek | IoStopDispatch _ _ _ => False
  | _ => True
  end.
Proof.
  intros Hr. apply wo_run_ok in Hr as [_ _ _ Hs Hn Hp Hl Hg _]; [|apply Worker_new_ok].
  destruct (it_pc (wo_thread w)) eqn:Epc; try done. destruct Hp as [|Hp]; [done|].
  destruct (Hs Hp) as [E|E]; [|by specialize (Hg E)]. split; [|done].
  destruct (it_own_stop (wo_thread w)) eqn:Eo; [|done]. destruct (Hn eq_refl); congruence.
Qed.

(** ** A worker that waits *)
Section idle.
Context {T S : Type} {Hops : ThreadOps T S} {Hdead : DestroyedOps T}.
Implicit Types (w : Worker T S).

(** No completion but that of the wake-up read. *)
Definition quiet (kernel : list (user_data T)) (e : wo_event) : Prop :=
  match e with WoComplete i _ _ => kernel !! i = Some UdWakeup | _ => True end.

Definition idle (kernel : list (user_data T)) w : Prop :=
  wo_ok w ∧ it_pc (wo_thread w) = IoWait ∧ ir_cq (it_ring (wo_thread w)) = [] ∧ ir_kernel (it_ring (wo_thread w)) = kernel.

Lemma idle_step kernel w e : idle kernel w → quiet kernel e → ∃ w', wo_step w e = Ok w' ∧ idle kernel w'.
Proof.
  intros (Hw & Hpc & Hcq & Hk) Hq. destruct e as [ret|i res flags|]; cbn [wo_step quiet] in *.
  - cbn [io_step]. unfold io_thread_step, run_loop_step. rewrite Hpc, Hcq. eexists. split; [done|]. by destruct w.
  - rewrite Hk, Hq, (wk_count _ Hw). eexists. split; [done|]. done.
  - eexists. split; [done|]. split; [by apply destroy_wo_ok|]. unfold destroy_worker. destruct (wo_lifetime w); cbn; try done.
    + unfold stop_callback. cbn. by destruct (_ && _).
    + by rewrite Hpc.
Qed.

Lemma idle_run kernel es : ∀ w, idle kernel w → Forall (quiet kernel) es → ∃ w', wo_run w es = Ok w' ∧ idle kernel w'.
Proof.
  induction es as [|e es IH]; intros w Hw Hq; [by exists w|]. apply Forall_cons in Hq as [He Hq].
  destruct (idle_step kernel w e Hw He) as (w1 & E & H1). cbn. rewrite E. by apply IH.
Qed.
End idle.

(** Destroying an idle worker never ends.  Take any run of a worker that
    is not pinned to a state in which it waits for completions.  From then on,
    as long as no operation of a connection completes, the thread stays in
    [submit_and_wait] and the destructor does not return, whatever the
    interleaving: the destructor has closed [wakeup_fd_] before the stop
    callback writes to it, so the read that should wake the worker never
    completes, and the join waits forever. *)
Theorem idle_worker_is_never_joined {T S} `{ThreadOps T S} `{DestroyedOps T} depth entries sq (s : S) es (w : Worker T S) es' :
  wo_run (Worker_new (-1) depth entries sq s) es = Ok w →
  it_pc (wo_thread w) = IoWait → ir_cq (it_ring (wo_thread w)) = [] →
  Forall (quiet (ir_kernel (it_ring (wo_thread w)))) es' →
  ∃ w', wo_run w es' = Ok w' ∧ it_pc (wo_thread w') = IoWait ∧ wo_lifetime w' ≠ LtGone.
Proof.
  intros Hr Hpc Hcq Hq. apply wo_run_ok in Hr; [|apply Worker_new_ok].
  destruct (idle_run (ir_kernel (it_ring (wo_thread w))) es' w) as (w' & E & Hw' & Hpc' & _); [done..|].
  exists w'. split; [done|]. split; [done|]. intros Eg. by rewrite (wk_gone _ Hw' Eg) in Hpc'.
Qed.

(** ** A worker that polls *)

(** A class without overrides has the empty hooks of IoThread. *)
Class DestroyedLaws (T S : Type) `{!ThreadOps T S} `{!DestroyedOps T} := {
  plain_start (s : S) (r : IoRing T) : overrides = false → on_loop_start s r = Ok (s, r);
  plain_batch (s : S) (r : IoRing T) : overrides = false → on_batch_done s r = Ok (s, r)
}.

Section polling.
Context {T S : Type} {Hops : ThreadOps T S} {Hdead : DestroyedOps T} {Hlaws : DestroyedLaws T S}.
Implicit Types (w : Worker T S).

(** The worker or the destructor takes a step; calls of io_uring succeed. *)
Definition calm (e : wo_event) : Prop := match e with WoThread ret => 0 ≤ ret | WoComplete _ _ _ => False | WoDestroy => True end.
Definition is_thread (e : wo_event) : bool := match e with WoThread _ => true | _ => false end.
Definition is_destroy (e : wo_event) : bool := match e with WoDestroy => true | _ => false end.
Definition count (f : wo_event → bool) (es : list wo_event) : nat := length (filter f es).

(** How far thread and destructor are from the end. *)
Definition thread_rank (pc : io_pc) : nat :=
  match pc with IoPeek => 4 | IoDispatch _ _ => 3 | IoTop => 2 | IoStop => 1 | _ => 0 end.
Definition stop_rank (lt : lifetime) : nat := match lt with LtAlive => 3 | LtMembersGone => 2 | LtClosed => 1 | _ => 0 end.

Record polling w : Prop := {
  po_plain : overrides (T := T) = false;
  po_cpu : it_cpu_id (wo_thread w) ≠ -1;
  po_own : it_own_stop (wo_thread w) = false;
  po_cq : ir_cq (it_ring (wo_thread w)) = [];
  po_pc : match it_pc (wo_thread w) with
          | IoTop | IoPeek | IoDispatch 0 0 | IoEnd => True
          | IoStop => it_stop (wo_thread w) = true
          | _ => False
          end;
  po_room : it_pc (wo_thread w) ≠ IoEnd →
    Z.of_nat (length (ir_sq (it_ring (wo_thread w)))) < ir_entries (it_ring (wo_thread w));
  po_stop : stop_rank (wo_lifetime w) = 0%nat → it_stop (wo_thread w) = true
}.

Lemma polling_thread w ret : polling w → 0 ≤ ret →
  ∃ w', wo_step w (WoThread ret) = Ok w' ∧ polling w' ∧ wo_lifetime w' = wo_lifetime w ∧
    (it_stop (wo_thread w) = true → it_stop (wo_thread w') = true ∧
      (thread_rank (it_pc (wo_thread w')) ≤ thread_rank (it_pc (wo_thread w)) - 1)%nat).
Proof.
  intros [Hpl Hc Ho Hq Hp Hm Hs] Hr. cbn [wo_step io_step]. unfold io_thread_step, run_loop_step.
  destruct (it_pc (wo_thread w)) as [| | | |[|n] [|i]| | | | |n i fin|] eqn:Epc; try done.
  - destruct (it_stop (wo_thread w)) eqn:Est.
    { eexists. split; [done|]. split; [|by split; cbn; [|auto]]. split; cbn; auto. }
    unfold IoRing_submit. rewrite (proj2 (Z.ltb_ge _ _)) by done. step. rewrite (proj2 (Z.eqb_neq _ _)) by done.
    eexists. split; [done|]. split; [|by split]. split; cbn; auto.
    + rewrite length_drop. specialize (Hm ltac:(done)). lia.
    + by rewrite Est.
  - unfold IoRing_peek_batch_cqe. rewrite Hq. cbn [length]. rewrite Nat.min_0_r. eexists. split; [done|].
    split; [|by split; cbn; [|auto]]. split; cbn; auto.
  - cbn [Nat.ltb Nat.leb]. cbn [on_batch_done lifetime_ops]. unfold IoRing_cqe_advance. rewrite drop_0.
    assert (hook on_batch_done (it_state (wo_thread w))
      (mkIoRing (ir_queue_depth (it_ring (wo_thread w))) (ir_entries (it_ring (wo_thread w))) (ir_sq (it_ring (wo_thread w)))
        (ir_kernel (it_ring (wo_thread w))) (ir_cq (it_ring (wo_thread w)))) = Ok (it_state (wo_thread w), it_ring (wo_thread w))) as ->.
    { unfold hook. destruct (it_state (wo_thread w)) as [lt s]. cbn. rewrite Hpl, plain_batch by done. cbn.
      by destruct lt, (it_ring (wo_thread w)). }
    step. eexists. split; [done|]. split; [|by split; cbn; [|auto]]. split; cbn; auto.
  - rewrite Ho. unfold IoThread_on_stop, IoRing_get_sqe, IoRing_submit.
    rewrite (proj2 (Z.leb_gt _ _)) by (by apply Hm). step. rewrite (proj2 (Z.ltb_ge _ _)) by done. step.
    eexists. split; [done|]. split; [|by split; cbn; [|auto]]. split; cbn; auto. done.
  - eexists. split; [done|]. split; [|by split; cbn; [|rewrite Epc; auto]]. split; cbn; rewrite ?Epc; auto.
Qed.

Lemma polling_destroy w : polling w →
  polling (destroy_worker w) ∧ it_pc (wo_thread (destroy_worker w)) = it_pc (wo_thread w) ∧
  (it_stop (wo_thread w) = true → it_stop (wo_thread (destroy_worker w)) = true) ∧
  (stop_rank (wo_lifetime (destroy_worker w)) ≤ stop_rank (wo_lifetime w) - 1)%nat ∧
  (stop_rank (wo_lifetime w) = 0%nat → it_pc (wo_thread w) = IoEnd → wo_lifetime (destroy_worker w) = LtGone).
Proof.
  intros Hw. pose proof Hw as [Hpl Hc Ho Hq Hp Hm Hs]. unfold destroy_worker.
  destruct (wo_lifetime w) eqn:El.
  1,2: split_and!; try done; split; cbn; auto; done.
  - unfold stop_callback. cbn. destruct (_ && _); (split_and!; try done); split; cbn; auto; try done;
      intros; case_match; try done; by case_match.
  - destruct (it_pc (wo_thread w)) eqn:Epc; rewrite ?El; (split_and!; try done).
    split; cbn; rewrite ?Epc; auto.
  - rewrite El. by split_and!.
Qed.

(** A run in which every step of one kind decreases a measure. *)
Lemma calm_run (P : Worker T S → Prop) (m : Worker T S → nat) (f : wo_event → bool) :
  (∀ w e, P w → calm e → ∃ w', wo_step w e = Ok w' ∧ P w' ∧ (m w' ≤ m w - if f e then 1 else 0)%nat) →
  ∀ es w, P w → Forall calm es → ∃ w', wo_run w es = Ok w' ∧ P w' ∧ (m w' ≤ m w - count f es)%nat.
Proof.
  intros Hstep. induction es as [|e es IH]; intros w Hw Hc; [exists w; cbn; split_and!; [done|done|lia]|].
  apply Forall_cons in Hc as [He Hc]. destruct (Hstep w e Hw He) as (w1 & E & H1 & Hm). cbn [wo_run]. rewrite E.
  destruct (IH w1 H1 Hc) as (w2 & E2 & H2 & Hm2). exists w2. split; [done|]. split; [done|].
  unfold count in *. rewrite filter_cons. destruct (f e); case_decide; cbn; try done; lia.
Qed.

Lemma calm_step w e : polling w → calm e → ∃ w', wo_step w e = Ok w' ∧ polling w' ∧
  (stop_rank (wo_lifetime w') ≤ stop_rank (wo_lifetime w) - if is_destroy e then 1 else 0)%nat ∧
  (it_stop (wo_thread w) = true → it_stop (wo_thread w') = true ∧
    (thread_rank (it_pc (wo_thread w')) ≤ thread_rank (it_pc (wo_thread w)) - if is_thread e then 1 else 0)%nat).
Proof.
  intros Hw He. destruct e as [ret| |]; [|done|].
  - destruct (polling_thread w ret Hw He) as (w' & E & Hw' & El & Hr). exists w'. rewrite El. cbn. split_and!; [done..|lia|done].
  - destruct (polling_destroy w Hw) as (Hw' & Ep & Es & Hr & _). eexists. split; [done|]. rewrite Ep. cbn. split_and!; [done..|].
    intros. split; [auto|lia].
Qed.

Lemma wo_run_app es es' w : wo_run w (es ++ es') = (w ← wo_run w es; wo_run w es').
Proof. revert w. induction es as [|e es IH]; intros w; [done|]. cbn. destruct (wo_step w e); [apply IH|done]. Qed.

Lemma polling_joined es1 es2 es3 w :
  polling w → Forall calm es1 → Forall calm es2 → Forall calm es3 →
  (3 ≤ count is_destroy es1)%nat → (4 ≤ count is_thread es2)%nat → (1 ≤ count is_destroy es3)%nat →
  ∃ w', wo_run w (es1 ++ es2 ++ es3) = Ok w' ∧ wo_lifetime w' = LtGone.
Proof.
  intros Hw C1 C2 C3 N1 N2 N3.
  destruct (calm_run polling (fun w => stop_rank (wo_lifetime w)) is_destroy) with (es := es1) (w := w)
    as (w1 & E1 & H1 & M1); [|done..|].
  { intros v e Hv He. destruct (calm_step v e Hv He) as (v' & ? & ? & ? & _). eauto. }
  assert (stop_rank (wo_lifetime w1) = 0%nat) as Z1 by (destruct (wo_lifetime w); cbn in M1; lia).
  destruct (calm_run (fun v => polling v ∧ it_stop (wo_thread v) = true ∧ stop_rank (wo_lifetime v) = 0%nat)
    (fun v => thread_rank (it_pc (wo_thread v))) is_thread) with (es := es2) (w := w1)
    as (w2 & E2 & (H2 & S2 & Z2) & M2); [|split_and!; [done|by apply po_stop|done]|done|].
  { intros v e (Hv & Sv & Zv) He. destruct (calm_step v e Hv He) as (v' & ? & ? & ? & Ht). destruct (Ht Sv).
    exists v'. split_and!; [done..|lia|done]. }
  assert (it_pc (wo_thread w2) = IoEnd) as P2.
  { pose proof (po_pc _ H2) as Hp. assert (thread_rank (it_pc (wo_thread w1)) ≤ 4)%nat by (destruct (it_pc (wo_thread w1)); cbn; lia).
    destruct (it_pc (wo_thread w2)) as [| | | |[] []| | | | | |]; cbn in M2; done || lia. }
  destruct (calm_run (fun v => polling v ∧ it_pc (wo_thread v) = IoEnd ∧ stop_rank (wo_lifetime v) = 0%nat)
    (fun v => if decide (wo_lifetime v = LtGone) then 0%nat else 1%nat) is_destroy) with (es := es3) (w := w2)
    as (w3 & E3 & _ & M3); [|done..|].
  { intros v e (Hv & Pv & Zv) He. destruct e as [ret| |]; [|done|].
    - cbn [wo_step io_step]. unfold io_thread_step. rewrite Pv. step. exists v. split; [by destruct v|]. split; [done|]. cbn. lia.
    - destruct (polling_destroy v Hv) as (Hv' & Ep & _ & Hr & Hg). eexists. split; [done|]. split; [split_and!; [done|congruence|lia]|].
      rewrite (Hg Zv Pv), decide_True by done. lia. }
  exists w3. rewrite !wo_run_app, E1. step. rewrite wo_run_app, E2. step. split; [done|].
  destruct (decide (wo_lifetime w3 = LtGone)); [done|]. case_decide; lia.
Qed.
End polling.

(** C34. A pinned UDP worker that is idle is joined.  A worker whose class has
    no hooks of its own and that polls its completions ends when it is
    destroyed: from the head of its loop with no completion there and room for
    one entry, and provided that from then on no completion arrives and no call
    of [submit] fails, in every interleaving in which the destructor takes its
    first three steps, then the thread four and then the destructor one, with
    any other steps of the two in between, the destructor returns. *)
Theorem pinned_plain_worker_is_joined {T S} `{DestroyedLaws T S} cpu_id depth entries sq (s : S) es (w : Worker T S) es1 es2 es3 :
  overrides = false → cpu_id ≠ -1 →
  wo_run (Worker_new cpu_id depth entries sq s) es = Ok w →
  it_pc (wo_thread w) = IoTop → ir_cq (it_ring (wo_thread w)) = [] →
  Z.of_nat (length (ir_sq (it_ring (wo_thread w)))) < ir_entries (it_ring (wo_thread w)) →
  Forall calm es1 → Forall calm es2 → Forall calm es3 →
  (3 ≤ count is_destroy es1)%nat → (4 ≤ count is_thread es2)%nat → (1 ≤ count is_destroy es3)%nat →
  ∃ w', wo_run w (es1 ++ es2 ++ es3) = Ok w' ∧ wo_lifetime w' = LtGone.
Proof.
  intros Ho Hc Hr Hpc Hcq Hm. apply polling_joined.
  pose proof (wo_run_class _ _ _ (Worker_new_ok _ _ _ _ _) Hr) as [Ec Eo].
  apply wo_run_ok in Hr; [|apply Worker_new_ok]. split; try done.
  - by rewrite Ec.
  - by apply Eo.
  - by rewrite Hpc.
  - intros E. apply (wk_joining _ Hr). destruct (wo_lifetime w); auto; done.
Qed.

(** ** A completion after the members are gone *)

(** From the wait, three steps of the thread hand over the first completion. *)
Lemma late_completion {T S} `{ThreadOps T S} `{DestroyedOps T} (w : Worker T S) tok c cqes f r1 r2 r3 :
  it_pc (wo_thread w) = IoWait → ir_cq (it_ring (wo_thread w)) = c :: cqes → 0 < ir_queue_depth (it_ring (wo_thread w)) →
  cq_data c = UdToken tok → wo_lifetime w ≠ LtAlive →
  complete_destroyed tok (cq_res c) (cq_flags c) (it_ring (wo_thread w)) = Fault f →
  wo_run w [WoThread r1; WoThread r2; WoThread r3] = Fault f.
Proof.
  destruct w as [[cpu fd own [qd en sq k cq] [lt s] pc st po dl] op ev]. cbn. intros -> -> Hd Hc Hl Hf.
  assert (∃ n, IoRing_peek_batch_cqe (mkIoRing qd en sq k (c :: cqes)) qd = Datatypes.S n) as [n En].
  { unfold IoRing_peek_batch_cqe. cbn. destruct (Z.to_nat qd) as [|m] eqn:Em; [lia|]. by exists (min m (length cqes)). }
  cbn. rewrite ?En. cbn. rewrite Hc. unfold call_complete. cbn. destruct lt; [done|..]; by rewrite Hf.
Qed.

(** ** The TCP worker *)

(** The frames of the connections are part of the channels; the frame of the
    accept loop is not, but it uses the channel pool. *)
#[export] Instance tcp_destroyed : DestroyedOps token_id := {
  overrides := true;
  complete_destroyed tok res flags r :=
    match tok with
    | TokAccept => if res <? 0 then Ok r else Fault InvalidPointer
    | TokRead _ | TokWrite _ => Fault InvalidPointer
    end
}.

Section tcp.
Context {R : Type} {Hlib : BufRingLib R} (h : TcpHandlers).
#[local] Existing Instance tcp_ops.

(** Destroying a TCP worker with a connection is a use after free.  Take
    any run of a worker that is not pinned to a state in which it waits for
    completions, a receive or write of a connection being in the kernel.  If
    that operation completes once the destructor has destroyed the members of
    TcpThread, the loop resumes a coroutine in a destroyed channel. *)
Theorem destroyed_channel_is_resumed depth entries t0 es (w : Worker token_id (TcpThread R)) i c tok res flags :
  wo_run (Hops := tcp_ops h) (Worker_new (-1) depth entries [] t0) es = Ok w →
  it_pc (wo_thread w) = IoWait → ir_cq (it_ring (wo_thread w)) = [] → 0 < ir_queue_depth (it_ring (wo_thread w)) →
  ir_kernel (it_ring (wo_thread w)) !! i = Some (UdToken tok) → tok = TokRead c ∨ tok = TokWrite c →
  wo_run (Hops := tcp_ops h) w [WoDestroy; WoComplete i res flags; WoThread 0; WoThread 0; WoThread 0] = Fault InvalidPointer.
Proof.
  intros Hr Hpc Hcq Hd Hk Ht. apply wo_run_ok in Hr; [|apply Worker_new_ok].
  assert (it_ring (wo_thread (destroy_worker w)) = it_ring (wo_thread w) ∧ it_pc (wo_thread (destroy_worker w)) = IoWait ∧
    wo_lifetime (destroy_worker w) ≠ LtAlive) as (Er & Ep & El).
  { unfold destroy_worker, stop_callback. destruct (wo_lifetime w) eqn:El; cbn; try done; [by case_match|..]; by rewrite ?Hpc, ?El. }
  change (wo_run (Hops := tcp_ops h) w [WoDestroy; WoComplete i res flags; WoThread 0; WoThread 0; WoThread 0]) with
    (w ← wo_step (Hops := tcp_ops h) (destroy_worker w) (WoComplete i res flags);
     wo_run (Hops := tcp_ops h) w [WoThread 0; WoThread 0; WoThread 0]).
  generalize dependent (destroy_worker w). intros v Er Ep El. cbn [wo_step]. rewrite Er, Hk. cbn [io_step]. unfold kernel_complete.
  rewrite Er, Hk. step. apply (late_completion _ tok (mkCqe (UdToken tok) res flags) []); cbn; rewrite ?Er, ?Hcq; try done.
  by destruct Ht as [-> | ->].
Qed.
End tcp.

(** A worker that polls calls [on_batch_done] in every round. *)
Theorem pinned_tcp_worker_races {T S} `{ThreadOps T S} `{DestroyedOps T} cpu fd own qd en sq k (s : S) po dl ev r1 r2 r3 :
  overrides = true → cpu ≠ -1 → 0 ≤ r1 →
  wo_run (mkWorker (mkIoThread cpu fd own (mkIoRing qd en sq k []) (LtAlive, s) IoTop false po dl) true ev)
    [WoDestroy; WoThread r1; WoThread r2; WoThread r3] = Fault InvalidPointer.
Proof.
  intros Ho Hc Hr. cbn. unfold IoRing_submit. rewrite (proj2 (Z.ltb_ge _ _)) by done. cbn. rewrite (proj2 (Z.eqb_neq _ _)) by done.
  cbn. unfold IoRing_peek_batch_cqe. cbn. rewrite Nat.min_0_r. cbn. unfold hook. cbn. by rewrite Ho.
Qed.

(** ** The UDP worker *)

(** The channel and the message headers are members. *)
#[export] Instance udp_destroyed : DestroyedOps utoken := {
  overrides := false;
  complete_destroyed _ _ _ _ := Fault InvalidPointer
}.
#[local] Existing Instance udp_ops.
#[local] Instance udp_destroyed_laws {R} `{BufRingLib R} `{RecvmsgLib} on_read on_write :
  @DestroyedLaws utoken (UdpChannel R) (udp_ops on_read on_write) udp_destroyed.
Proof. done. Qed.

(** *** Runs *)
Definition tcp_start (cpu_id : Z) (es : list wo_event) : result (Worker token_id (TcpThread list_ring)) :=
  t ← TcpThread_do_init_resources run_junk (mkTcpConfig 4 4 4 1 8 4) 0;
  wo_run (Hops := tcp_ops TcpEchoServer) (Worker_new cpu_id 8 8 [] t) es.

Lemma tcp_start_inv cpu_id es w : tcp_start cpu_id es = Ok w →
  ∃ t, wo_run (Hops := tcp_ops TcpEchoServer) (Worker_new cpu_id 8 8 [] t) es = Ok w.
Proof. unfold tcp_start. intros H. ok_inv. eauto. Qed.

Lemma derived_on_stop_never_runs_witness :
  ∃ w, tcp_start 2 [WoThread 8; WoDestroy; WoDestroy; WoDestroy; WoThread 8] = Ok w ∧ it_pc (wo_thread w) = IoStop ∧
    it_own_stop (wo_thread w) = false.
Proof.
  destruct (tcp_start 2 _) as [w|] eqn:E; [|vm_compute in E; discriminate E]. exists w.
  assert (it_pc (wo_thread w) = IoStop) as Hpc by (vm_compute in E; injection E as <-; reflexivity).
  apply tcp_start_inv in E as (t & E). pose proof (derived_on_stop_never_runs _ _ _ _ _ _ _ E) as H. rewrite Hpc in H.
  split; [done|]. split; [done|apply H].
Defined.

(** A worker without connections is destroyed. *)
Lemma idle_worker_is_never_joined_witness :
  ∃ w w', tcp_start (-1) [WoThread 8; WoThread 8] = Ok w ∧
    wo_run (Hops := tcp_ops TcpEchoServer) w
      [WoDestroy; WoDestroy; WoDestroy; WoThread 8; WoComplete 1 8 0; WoThread 8; WoDestroy] = Ok w' ∧
    wo_lifetime w' ≠ LtGone.
Proof.
  destruct (tcp_start (-1) _) as [w|] eqn:E; [|vm_compute in E; discriminate E]. exists w.
  assert (it_pc (wo_thread w) = IoWait ∧ ir_cq (it_ring (wo_thread w)) = [] ∧
    ir_kernel (it_ring (wo_thread w)) = [UdToken TokAccept; UdWakeup]) as (H1 & H2 & H3)
    by (vm_compute in E; injection E as <-; split_and!; reflexivity).
  destruct (tcp_start_inv _ _ _ E) as (t & Er).
  destruct (idle_worker_is_never_joined 8 8 [] t _ w
    [WoDestroy; WoDestroy; WoDestroy; WoThread 8; WoComplete 1 8 0; WoThread 8; WoDestroy] Er H1 H2) as (w' & Ew & _ & Hl).
  { rewrite H3. repeat constructor. }
  exists w'. split; [reflexivity|]. split; [exact Ew|exact Hl].
Defined.

(** A connection has been accepted and its receive is in the kernel. *)
Lemma destroyed_channel_is_resumed_witness :
  ∃ w, tcp_start (-1) ([WoThread 8; WoThread 8; WoComplete 0 5 2] ++ replicate 5 (WoThread 8)) = Ok w ∧
    wo_run (Hops := tcp_ops TcpEchoServer) w [WoDestroy; WoComplete 2 0 0; WoThread 0; WoThread 0; WoThread 0] = Fault InvalidPointer.
Proof.
  destruct (tcp_start (-1) _) as [w|] eqn:E; [|vm_compute in E; discriminate E]. exists w.
  assert (it_pc (wo_thread w) = IoWait ∧ ir_cq (it_ring (wo_thread w)) = [] ∧ ir_queue_depth (it_ring (wo_thread w)) = 8 ∧
    ir_kernel (it_ring (wo_thread w)) !! 2%nat = Some (UdToken (TokRead 0))) as (H1 & H2 & H3 & H4)
    by (vm_compute in E; injection E as <-; split_and!; reflexivity).
  destruct (tcp_start_inv _ _ _ E) as (t & Er). split; [reflexivity|].
  apply (destroyed_channel_is_resumed TcpEchoServer 8 8 t _ w 2 0 (TokRead 0) 0 0 Er H1 H2); [by rewrite H3|done|by left].
Defined.

(** A pinned UDP echo server. *)
Definition udp_start (es : list wo_event) : result (Worker utoken (UdpChannel list_ring)) :=
  let j := mkUdpJunk run_junk (fun _ => mkMsghdrSlot false None 0 None 0 [] 0) in
  c ← UdpThread_init j (mkUdpConfig 4 4 4 4 8) 0;
  wo_run (Hops := udp_ops (udp_echo 2) (fun _ => UaRet)) (Worker_new 2 8 8 [UTokRead] c) es.

Lemma udp_start_inv es w : udp_start es = Ok w →
  ∃ c, wo_run (Hops := udp_ops (udp_echo 2) (fun _ => UaRet)) (Worker_new 2 8 8 [UTokRead] c) es = Ok w.
Proof. unfold udp_start. intros H. ok_inv. eauto. Qed.

Lemma udp_start_view :
  (w ← udp_start [WoThread 8]; Ok (it_pc (wo_thread w), ir_cq (it_ring (wo_thread w)),
    Z.of_nat (length (ir_sq (it_ring (wo_thread w)))), ir_entries (it_ring (wo_thread w)))) = Ok (IoTop, [], 2, 8).
Proof. vm_compute. reflexivity. Qed.

Lemma pinned_plain_worker_is_joined_witness :
  ∃ (w w' : Worker utoken (UdpChannel list_ring)),
    wo_run (Hops := udp_ops (udp_echo 2) (fun _ => UaRet)) w
      ([WoDestroy; WoThread 8; WoDestroy; WoThread 8; WoDestroy] ++ replicate 4 (WoThread 8) ++ [WoDestroy]) = Ok w' ∧
    wo_lifetime w' = LtGone.
Proof.
  destruct (bind_inv _ _ _ udp_start_view) as (w & E & V). destruct (udp_start_inv _ _ E) as (c & Er).
  injection V as H1 H2 H3 H4.
  pose proof (udp_destroyed_laws (R := list_ring) (udp_echo 2) (fun _ => UaRet)) as Hlaws.
  destruct (@pinned_plain_worker_is_joined _ _ _ _ Hlaws 2 8 8 [UTokRead] c [WoThread 8] w
    [WoDestroy; WoThread 8; WoDestroy; WoThread 8; WoDestroy] (replicate 4 (WoThread 8)) [WoDestroy] eq_refl ltac:(lia) Er H1 H2)
    as (w' & Ew & El); [rewrite H3, H4; lia|..];
    try (cbn; repeat (apply Forall_cons_2; [cbn; done || lia|]); apply Forall_nil_2); try (apply Nat.leb_le; reflexivity).
  exists w, w'. split; [exact Ew|exact El].
Defined.
