(* ===== verification/Requests.v ===== *)
(** * Requests: what the program asks the kernel to do

    Every place of the program that takes an entry of the submission queue
    fills it by a sequence of calls of Sqe (IoRing.v).  [prepare] is those
    sequences; the theorem is that, whatever the entry held before, the kernel
    reads the operation that was meant, with its flags, buffer group and token,
    so the lists of operations in the other files are what the kernel gets. *)
From S2P Require Import Socket Prelude IoRing TcpChannel TcpWorker.

(** IOSQE_BUFFER_SELECT *)
Definition IOSQE_BUFFER_SELECT : Z := 32.

(** The operations of the program; [T] are its tokens. *)
Inductive op (T : Type) :=
  | OpWakeup (fd buf : Z)                             (* run_loop *)
  | OpCancelAll                                       (* on_stop *)
  | OpAccept (fd : Z) (t : T)                         (* accept_loop *)
  | OpRecv (fd bgid : Z) (t : T)                      (* tcp_read_loop *)
  | OpWritev (fd iov count : Z) (t : T)               (* tcp_write_loop *)
  | OpRecvmsg (fd msg bgid : Z) (t : T)               (* udp_read_loop *)
  | OpSendmsg (fd msg : Z) (t : T)                    (* udp_write_loop *)
  | OpLogWrite (fd buf nbytes offset : Z) (t : T).    (* submit_buf *)
Arguments OpWakeup {T}. Arguments OpCancelAll {T}. Arguments OpAccept {T}. Arguments OpRecv {T}.
Arguments OpWritev {T}. Arguments OpRecvmsg {T}. Arguments OpSendmsg {T}. Arguments OpLogWrite {T}.

Section requests.
Context {E T : Type} {Hlib : SqeLib E (user_data T)}.
Implicit Types e : E.

(** [run_loop]: the read of the eventfd into [wakeup_buf_]. *)
Definition prepare_wakeup (fd buf : Z) e : E := Sqe_set_data UdWakeup (Sqe_prep_read fd buf 8 0 e).
(** [on_stop] *)
Definition prepare_cancel e : E := Sqe_set_data UdNull (Sqe_prep_cancel_all e).
(** [accept_loop] *)
Definition prepare_accept (fd : Z) (t : T) e : E :=
  Sqe_set_data (UdToken t) (Sqe_prep_multishot_accept fd 0 0 SOCK_CLOEXEC e).
(** [tcp_read_loop] *)
Definition prepare_recv (fd bgid : Z) (t : T) e : E :=
  Sqe_set_data (UdToken t) (Sqe_set_buf_group bgid (Sqe_set_flags IOSQE_BUFFER_SELECT (Sqe_prep_multishot_recv fd 0 0 0 e))).
(** [tcp_write_loop] *)
Definition prepare_writev (fd iov count : Z) (t : T) e : E := Sqe_set_data (UdToken t) (Sqe_prep_writev fd iov (u32 count) 0 e).
(** [udp_read_loop] *)
Definition prepare_recvmsg (fd msg bgid : Z) (t : T) e : E :=
  Sqe_set_data (UdToken t) (Sqe_set_buf_group bgid (Sqe_set_flags IOSQE_BUFFER_SELECT (Sqe_prep_multishot_recvmsg fd msg 0 e))).
(** [udp_write_loop] *)
Definition prepare_sendmsg (fd msg : Z) (t : T) e : E := Sqe_set_data (UdToken t) (Sqe_prep_sendmsg fd msg 0 e).
(** [submit_buf] of the logger; the length is a [size_t]. *)
Definition prepare_log_write (fd buf nbytes offset : Z) (t : T) e : E :=
  Sqe_set_data (UdToken t) (Sqe_prep_write fd buf (u32 nbytes) offset e).

Definition prepare (o : op T) e : E :=
  match o with
  | OpWakeup fd buf => prepare_wakeup fd buf e
  | OpCancelAll => prepare_cancel e
  | OpAccept fd t => prepare_accept fd t e
  | OpRecv fd bgid t => prepare_recv fd bgid t e
  | OpWritev fd iov count t => prepare_writev fd iov count t e
  | OpRecvmsg fd msg bgid t => prepare_recvmsg fd msg bgid t e
  | OpSendmsg fd msg t => prepare_sendmsg fd msg t e
  | OpLogWrite fd buf nbytes offset t => prepare_log_write fd buf nbytes offset t e
  end.

(** What the kernel reads: a buffer group only where a buffer is selected. *)
Record kernel_view := mkKernelView { kv_request : request; kv_flags : Z; kv_group : option Z; kv_data : user_data T }.
Definition view e : kernel_view :=
  mkKernelView (sqe_request e) (sqe_flags e)
    (if Z.testbit (sqe_flags e) 5 then Some (sqe_buf_group e) else None) (sqe_data e).

(** The operation an entry stands for. *)
Definition decode (v : kernel_view) : option (op T) :=
  match kv_request v, kv_flags v, kv_group v, kv_data v with
  | ReqRead fd buf 8 0, 0, None, UdWakeup => Some (OpWakeup fd buf)
  | ReqCancel 0 5, 0, None, UdNull => Some OpCancelAll
  | ReqAcceptMultishot fd 0 0 524288, 0, None, UdToken t => Some (OpAccept fd t)
  | ReqRecvMultishot fd 0 0 0, 32, Some bgid, UdToken t => Some (OpRecv fd bgid t)
  | ReqWritev fd iov count 0, 0, None, UdToken t => Some (OpWritev fd iov count t)
  | ReqRecvmsgMultishot fd msg 0, 32, Some bgid, UdToken t => Some (OpRecvmsg fd msg bgid t)
  | ReqSendmsg fd msg 0, 0, None, UdToken t => Some (OpSendmsg fd msg t)
  | ReqWrite fd buf nbytes offset, 0, None, UdToken t => Some (OpLogWrite fd buf nbytes offset t)
  | _, _, _, _ => None
  end.

(** The arguments are in the ranges of their types; the count of vectors and the
    length of a log buffer, which are converted to [unsigned], and the group id,
    an [int] that is converted to [unsigned short], fit. *)
Definition op_fits (o : op T) : bool :=
  match o with
  | OpWakeup fd buf => is_int fd && is_pointer buf
  | OpCancelAll => true
  | OpAccept fd _ => is_int fd
  | OpRecv fd bgid _ => is_int fd && ((0 <=? bgid) && (bgid <? 2 ^ 16))
  | OpWritev fd iov count _ => is_int fd && is_pointer iov && is_unsigned count
  | OpRecvmsg fd msg bgid _ => is_int fd && is_pointer msg && ((0 <=? bgid) && (bgid <? 2 ^ 16))
  | OpSendmsg fd msg _ => is_int fd && is_pointer msg
  | OpLogWrite fd buf nbytes offset _ => is_int fd && is_pointer buf && is_unsigned nbytes && is_offset offset
  end.

Context {Hlaws : SqeLaws E (user_data T)}.

Create Rewrite HintDb sqe.
#[local] Hint Rewrite (set_data_data (E := E) (D := user_data T)) (set_data_request (E := E) (D := user_data T))
  (set_data_flags (E := E) (D := user_data T)) (set_data_group (E := E) (D := user_data T))
  (put_flags_request (E := E) (D := user_data T)) (put_group_flags (E := E) (D := user_data T))
  (prep_flags (E := E) (D := user_data T)) : sqe.

Lemma view_plain q d e : request_fits q = true → view (Sqe_set_data d (io_uring_prep q e)) = mkKernelView q 0 None d.
Proof. intros Hq. unfold view, Sqe_set_data. autorewrite with sqe. by rewrite prep_request. Qed.

(** Whatever the group id, the kernel gets its low 16 bits. *)
Lemma view_select q bgid d e : request_fits q = true → uses_buf_index q = false →
  view (Sqe_set_data d (Sqe_set_buf_group bgid (Sqe_set_flags IOSQE_BUFFER_SELECT (io_uring_prep q e)))) =
  mkKernelView q 32 (Some (u16 bgid)) d.
Proof.
  intros Hf Hq. unfold view, Sqe_set_data, Sqe_set_buf_group, Sqe_set_flags. autorewrite with sqe.
  rewrite put_flags_flags by apply u8_range. rewrite put_group_group by apply u16_range.
  rewrite put_group_request by (autorewrite with sqe; by rewrite prep_request). autorewrite with sqe. by rewrite prep_request.
Qed.
End requests.

(** Arguments in range. *)
Ltac request_fits :=
  unfold request_fits, is_int, is_unsigned, is_pointer, is_offset, SOCK_CLOEXEC, ASYNC_CANCEL_ALL, ASYNC_CANCEL_ANY;
  repeat (apply andb_true_iff; split); (apply Z.leb_le || apply Z.ltb_lt); lia || by vm_compute.

(** C26. The kernel reads every operation as it was meant.  Whatever an entry
    of the submission queue held before, after the calls the program makes on
    it the kernel finds exactly that operation in it, with its arguments, the
    buffer group if one is selected, and its token; flags or groups left by an
    earlier use of the entry do not matter.  The arguments are in the ranges of
    their types; a count of vectors or a length is below 2^32, and the buffer
    group is below 65536 (of a larger one the kernel gets the low 16 bits). *)
Theorem operations_roundtrip {E T} `{SqeLaws E (user_data T)} (o : op T) (e : E) :
  op_fits o = true → decode (view (prepare o e)) = Some o.
Proof.
  intros Hf. destruct o; cbn [prepare op_fits] in *; unfold prepare_wakeup, prepare_cancel, prepare_accept, prepare_recv,
    prepare_writev, prepare_recvmsg, prepare_sendmsg, prepare_log_write, is_int, is_unsigned, is_pointer, is_offset in *; bools;
    rewrite ?u32_small by lia; unfold Sqe_prep_multishot_recv, Sqe_prep_multishot_recvmsg, Sqe_prep_read, Sqe_prep_cancel_all,
    Sqe_prep_multishot_accept, Sqe_prep_writev, Sqe_prep_sendmsg, Sqe_prep_write;
    (rewrite view_plain by request_fits) || (rewrite view_select by (done || request_fits); rewrite u16_small by lia); done.
Qed.

(** *** An entry as a record of its fields *)
Record sqe_fields (T : Type) := mkSqeFields { sf_request : request; sf_flags : Z; sf_group : Z; sf_data : user_data T }.
Arguments mkSqeFields {T}.
#[export] Instance fields_lib T : SqeLib (sqe_fields T) (user_data T) := {
  io_uring_prep q e := mkSqeFields q 0 (sf_group _ e) (sf_data _ e);
  io_uring_sqe_set_data d e := mkSqeFields (sf_request _ e) (sf_flags _ e) (sf_group _ e) d;
  sqe_flags := sf_flags _;
  sqe_put_flags f e := mkSqeFields (sf_request _ e) f (sf_group _ e) (sf_data _ e);
  sqe_put_buf_group g e := mkSqeFields (sf_request _ e) (sf_flags _ e) g (sf_data _ e);
  sqe_request := sf_request _;
  sqe_data := sf_data _;
  sqe_buf_group := sf_group _
}.
#[export] Instance fields_laws T : SqeLaws (sqe_fields T) (user_data T).
Proof. by split. Qed.

(** An entry left by a write of the logger becomes a receive. *)
Lemma operations_roundtrip_witness :
  let stale := mkSqeFields (ReqWrite 3 0 320 0) 16 7 UdNull in
  decode (view (prepare (OpRecv 5 1 (TokRead 0)) stale)) = Some (OpRecv 5 1 (TokRead 0)) ∧
  view (prepare (OpRecv 5 1 (TokRead 0)) stale) = mkKernelView (ReqRecvMultishot 5 0 0 0) 32 (Some 1) (UdToken (TokRead 0)).
Proof. intros stale. split; [by apply (operations_roundtrip (OpRecv 5 1 (TokRead 0)) stale)|reflexivity]. Defined.

(** ** The operations of the TCP worker

    [listen_fd] is the socket of the accept loop, [bgid] the group of the
    buffer ring, [iov c] the address of the vectors of channel [c]. *)
Definition tcp_op (listen_fd bgid : Z) (iov : nat → Z) (o : sqe) : op token_id :=
  match o with
  | SqeAccept => OpAccept listen_fd TokAccept
  | SqeRecv c fd => OpRecv fd bgid (TokRead c)
  | SqeWritev c fd vecs => OpWritev fd (iov c) (Z.of_nat (length vecs)) (TokWrite c)
  end.

(** The ring of TcpWorker.v holds the user data of these entries. *)
Lemma tcp_op_token {E} `{SqeLaws E (user_data token_id)} listen_fd bgid iov o (e : E) :
  sqe_data (prepare (tcp_op listen_fd bgid iov o) e) = UdToken (sqe_token o).
Proof. destruct o; cbn; unfold prepare_accept, prepare_recv, prepare_writev; apply set_data_data. Qed.
