(* ===== verification/Resources.v ===== *)
(** * Resources: what constructors acquire and destructors give back

    The classes of the library own arrays, rings of the kernel, buffer rings
    registered with them, descriptors and coroutine frames.  This file models
    the constructors and destructors as far as they acquire and release
    (the files of src/buffer, src/core/buf_ring.cpp, src/core/io_ring.cpp,
    src/net/tcp_channel_pool.cpp, include/net/channel.hpp), the coroutine
    handles and their owners [ChannelHandler] (include/net/handler.hpp),
    [Acceptor] (acceptor.hpp, acceptor.cpp) and [GetPromise] (awaiter.hpp), and
    the members of a TCP and a UDP worker in the order in which C++ constructs
    and destroys them.

    A store has the live resources; releasing what is not live, or destroying
    a coroutine that does not exist, is a fault.  The frames of a channel's
    coroutines lie in arrays inside the channel: building a coroutine where one
    lives is a fault, too. *)
From stdpp Require Import gmap.
From S2P Require Import Prelude Ring BufPool WriteBuf WriteBufStream BufRing ReadBuf TcpRecv Awaiter TcpChannel.

(** ** The store *)

(** A coroutine that exists: suspended, with the descriptors of the sockets
    among its local variables, or at its final suspension point. *)
Inductive frame := Suspended (locals : list nat) | Finished.

Inductive kind :=
  | KBlock                                     (* new T[n] *)
  | KRing                                      (* an io_uring *)
  | KBufRing (ring : nat)                      (* a buffer ring of it *)
  | KFd                                        (* an open descriptor *)
  | KFrame (embedded : bool) (f : option frame). (* room for a coroutine, in a channel or on the heap *)
#[export] Instance frame_eq_dec : EqDecision frame.
Proof. solve_decision. Defined.
#[export] Instance kind_eq_dec : EqDecision kind.
Proof. solve_decision. Defined.

Record store := mkStore { st_next : nat; st_live : gmap nat kind }.

Definition acquire (k : kind) (s : store) : nat * store :=
  (st_next s, mkStore (S (st_next s)) (<[st_next s := k]> (st_live s))).
Definition st_set (id : nat) (k : kind) (s : store) : store := mkStore (st_next s) (<[id := k]> (st_live s)).
Definition st_delete (id : nat) (s : store) : store := mkStore (st_next s) (delete id (st_live s)).
Definition give_back (id : nat) (k : kind) (s : store) : result store :=
  if decide (st_live s !! id = Some k) then Ok (st_delete id s) else Fault InvalidPointer.

Definition new_block : store → nat * store := acquire KBlock.
Definition delete_block (id : nat) : store → result store := give_back id KBlock.

(** [close] of a descriptor that is not open fails and changes nothing. *)
Definition sys_close (fd : nat) (s : store) : store :=
  if decide (st_live s !! fd = Some KFd) then st_delete fd s else s.

(** A buffer ring is registered with a ring that exists, and freed before it. *)
Definition setup_buf_ring (ring : nat) (s : store) : result (nat * store) :=
  if decide (st_live s !! ring = Some KRing) then Ok (acquire (KBufRing ring) s) else Fault InvalidPointer.
Definition free_buf_ring (ring id : nat) (s : store) : result store :=
  if decide (st_live s !! ring = Some KRing) then give_back id (KBufRing ring) s else Fault InvalidPointer.

(** ** Coroutine handles *)
Definition handle : Type := option nat.

Definition handle_done (h : handle) (s : store) : result bool :=
  match h with
  | None => Fault NullDereference
  | Some id =>
      match st_live s !! id with
      | Some (KFrame _ (Some f)) => Ok (bool_decide (f = Finished))
      | _ => Fault InvalidPointer
      end
  end.

(** The local variables of a frame are destroyed: its sockets are closed. *)
Definition destroy_locals (f : frame) (s : store) : store :=
  match f with Suspended locals => foldr sys_close s locals | Finished => s end.

(** [h.destroy()]; the frame is then given to [operator delete], which does
    nothing for a frame inside a channel. *)
Definition handle_destroy (h : handle) (s : store) : result store :=
  match h with
  | None => Fault NullDereference
  | Some id =>
      match st_live s !! id with
      | Some (KFrame embedded (Some f)) =>
          let s := destroy_locals f s in
          Ok (if embedded : bool then st_set id (KFrame true None) s else st_delete id s)
      | _ => Fault InvalidPointer
      end
  end.

(** A suspended coroutine runs to its end: its local variables go. *)
Definition coro_finish (id : nat) (s : store) : store :=
  match st_live s !! id with
  | Some (KFrame embedded (Some f)) => st_set id (KFrame embedded (Some Finished)) (destroy_locals f s)
  | _ => s
  end.

(** ** GetPromise *)
Record GetPromise := mkGetPromise { gp_handle : handle }.
Definition GetPromise_await_ready (g : GetPromise) : bool := false.
Definition GetPromise_await_suspend (g : GetPromise) (h : handle) : bool * GetPromise := (false, mkGetPromise h).
Definition GetPromise_await_resume (g : GetPromise) (s : store) : result nat :=
  match gp_handle g with
  | None => Fault NullDereference
  | Some id => match st_live s !! id with Some (KFrame _ (Some _)) => Ok id | _ => Fault InvalidPointer end
  end.

(** [co_await GetPromise{}] in the coroutine [self]: the promise, unless the
    coroutine stays suspended. *)
Definition co_await_promise (self : nat) (s : store) : result (option nat) :=
  let g := mkGetPromise None in
  if GetPromise_await_ready g then p ← GetPromise_await_resume g s; Ok (Some p) else
  let '(suspended, g) := GetPromise_await_suspend g (Some self) in
  if suspended : bool then Ok None else p ← GetPromise_await_resume g s; Ok (Some p).

(** ** ChannelHandler *)
Record ChannelHandler := mkChannelHandler { hd_handle : handle }.
Definition coro_frame_size : Z := 256.

(** [promise_type::operator new]: [size] is the compiler's frame size. *)
Definition promise_new (place : nat) (size : Z) (s : store) : result store :=
  assert_ (size <=? coro_frame_size);;
  match st_live s !! place with
  | Some (KFrame true None) => Ok (st_set place (KFrame true (Some (Suspended []))) s)
  | Some (KFrame true (Some _)) => Fault FrameOverwritten
  | _ => Fault InvalidPointer
  end.
Definition promise_get_return_object (place : nat) : ChannelHandler := mkChannelHandler (Some place).

(** Calling one of the four loops: it runs to its first suspension point, or,
    when an exception ends it, to its final one. *)
Definition channel_loop (place : nat) (size : Z) (throws : bool) (s : store) : result (ChannelHandler * store) :=
  s ← promise_new place size s;
  let r := promise_get_return_object place in
  p ← co_await_promise place s;
  match p with
  | None => Ok (r, s)
  | Some p => Ok (r, if throws : bool then coro_finish p s else s)
  end.

(** [std::exchange(handle_, {})]. *)
Definition ChannelHandler_release (h : ChannelHandler) : handle * ChannelHandler := (hd_handle h, mkChannelHandler None).
Definition ChannelHandler_move (o : ChannelHandler) : ChannelHandler * ChannelHandler :=
  let '(h, o) := ChannelHandler_release o in (mkChannelHandler h, o).

(** [if (h && h.done()) h.destroy()]. *)
Definition destroy_if_done (h : handle) (s : store) : result (bool * store) :=
  match h with
  | None => Ok (false, s)
  | Some _ => d ← handle_done h s; if d : bool then s ← handle_destroy h s; Ok (true, s) else Ok (false, s)
  end.

(** [objs[i] = std::move(objs[j])]; [i] and [j] may be the same object. *)
Definition ChannelHandler_assign (objs : list ChannelHandler) (i j : nat) (s : store) : result (list ChannelHandler * store) :=
  match objs !! i, objs !! j with
  | Some this, Some _ =>
      '(_, s) ← destroy_if_done (hd_handle this) s;
      match objs !! j with
      | Some o => let '(h, o) := ChannelHandler_release o in Ok (<[i := mkChannelHandler h]> (<[j := o]> objs), s)
      | None => Fault OutOfBounds
      end
  | _, _ => Fault OutOfBounds
  end.

(** ** Acceptor *)
Record Acceptor := mkAcceptor { ac_handle : handle }.

(** [accept_loop(thread)]: a frame on the heap, with the listening socket;
    an exception in it ends the program. *)
Definition accept_loop (s : store) : Acceptor * store :=
  let '(id, s) := acquire (KFrame false (Some (Suspended []))) s in
  let '(fd, s) := acquire KFd s in
  (mkAcceptor (Some id), st_set id (KFrame false (Some (Suspended [fd]))) s).
Definition Acceptor_release (a : Acceptor) : handle * Acceptor := (ac_handle a, mkAcceptor None).
Definition Acceptor_destroy (a : Acceptor) (s : store) : result store :=
  match ac_handle a with None => Ok s | Some _ => handle_destroy (ac_handle a) s end.

(** [resume()] runs [k], the code up to the next suspension point. *)
Definition Acceptor_resume (k : store → result store) (a : Acceptor) (s : store) : result store :=
  match ac_handle a with
  | None => Ok s
  | Some _ => d ← handle_done (ac_handle a) s; if d : bool then Ok s else k s
  end.

(** ** The arrays of the buffer classes *)
Record BufPool_arrays := mkBufPoolArrays { bpa_bufs : nat; bpa_data_size : nat; bpa_free_idx_queue : nat }.
Definition BufPool_acquire_arrays (s : store) : BufPool_arrays * store :=
  let '(a, s) := new_block s in let '(b, s) := new_block s in let '(c, s) := new_block s in (mkBufPoolArrays a b c, s).
Definition BufPool_destroy (p : BufPool_arrays) (s : store) : result store :=
  s ← delete_block (bpa_bufs p) s; s ← delete_block (bpa_data_size p) s; delete_block (bpa_free_idx_queue p) s.

Record BufRing_arrays := mkBufRingArrays { bra_io_ring : nat; bra_bufs : nat; bra_data_size : nat; bra_uring_ring : nat }.
Definition BufRing_acquire_arrays (ring : nat) (s : store) : result (BufRing_arrays * store) :=
  let '(a, s) := new_block s in let '(b, s) := new_block s in
  '(g, s) ← setup_buf_ring ring s; Ok (mkBufRingArrays ring a b g, s).
Definition BufRing_destroy (r : BufRing_arrays) (s : store) : result store :=
  s ← free_buf_ring (bra_io_ring r) (bra_uring_ring r) s; s ← delete_block (bra_bufs r) s; delete_block (bra_data_size r) s.

Record ReadBuf_arrays := mkReadBufArrays { rba_buf_queue : nat; rba_data : nat; rba_size : nat }.
Definition ReadBufBase_acquire_arrays (s : store) : ReadBuf_arrays * store :=
  let '(a, s) := new_block s in let '(b, s) := new_block s in let '(c, s) := new_block s in (mkReadBufArrays a b c, s).
Definition ReadBufBase_destroy (r : ReadBuf_arrays) (s : store) : result store :=
  s ← delete_block (rba_buf_queue r) s; s ← delete_block (rba_data r) s; delete_block (rba_size r) s.

Record WriteBuf_arrays := mkWriteBufArrays { wba_pending_bufs : nat; wba_send_queue : nat }.
Definition WriteBufBase_acquire_arrays (s : store) : WriteBuf_arrays * store :=
  let '(a, s) := new_block s in let '(b, s) := new_block s in (mkWriteBufArrays a b, s).
Definition WriteBufBase_destroy (w : WriteBuf_arrays) (s : store) : result store :=
  s ← delete_block (wba_pending_bufs w) s; delete_block (wba_send_queue w) s.

(** [WriteBufStream] with [iovec_], [WriteBufDgram] with [slot_queue_]: the
    base class first, and last when they are destroyed. *)
Record WriteBufDerived := mkWriteBufDerived { wbd_base : WriteBuf_arrays; wbd_array : nat }.
Definition WriteBufDerived_acquire (s : store) : WriteBufDerived * store :=
  let '(b, s) := WriteBufBase_acquire_arrays s in let '(a, s) := new_block s in (mkWriteBufDerived b a, s).
Definition WriteBufStream_acquire_arrays : store → WriteBufDerived * store := WriteBufDerived_acquire.
Definition WriteBufDgram_acquire_arrays : store → WriteBufDerived * store := WriteBufDerived_acquire.
Definition WriteBufDerived_destroy (w : WriteBufDerived) (s : store) : result store :=
  s ← delete_block (wbd_array w) s; WriteBufBase_destroy (wbd_base w) s.
Definition WriteBufStream_destroy : WriteBufDerived → store → result store := WriteBufDerived_destroy.
Definition WriteBufDgram_destroy : WriteBufDerived → store → result store := WriteBufDerived_destroy.

Record MsghdrPool_arrays := mkMsghdrPoolArrays { mpa_slots : nat; mpa_iovecs : nat; mpa_pool : nat }.
Definition MsghdrPool_acquire_arrays (s : store) : MsghdrPool_arrays * store :=
  let '(a, s) := new_block s in let '(b, s) := new_block s in let '(c, s) := new_block s in (mkMsghdrPoolArrays a b c, s).
Definition MsghdrPool_destroy (p : MsghdrPool_arrays) (s : store) : result store :=
  s ← delete_block (mpa_slots p) s; s ← delete_block (mpa_iovecs p) s; delete_block (mpa_pool p) s.

(** ** Channels *)
Record Channel := mkChannel {
  ch_fd : option nat;              (* None is -1 *)
  ch_read_handle : handle;
  ch_write_handle : handle;
  ch_read_coro_frame : nat;
  ch_write_coro_frame : nat;
  ch_read_buf : ReadBuf_arrays;
  ch_write_buf : WriteBufDerived
}.

(** The constructors of TcpChannel and UdpChannel: the base class with the
    room for two frames, then the buffers. *)
Definition Channel_new (s : store) : Channel * store :=
  let '(rf, s) := acquire (KFrame true None) s in
  let '(wf, s) := acquire (KFrame true None) s in
  let '(r, s) := ReadBufBase_acquire_arrays s in
  let '(w, s) := WriteBufStream_acquire_arrays s in
  (mkChannel None None None rf wf r w, s).

Definition destroy_handle (h : handle) (s : store) : result store :=
  match h with None => Ok s | Some _ => handle_destroy h s end.

(** The buffers in reverse order, then [~Channel]; the room for the frames
    goes with the object. *)
Definition Channel_destroy (ch : Channel) (s : store) : result store :=
  s ← WriteBufStream_destroy (ch_write_buf ch) s;
  s ← ReadBufBase_destroy (ch_read_buf ch) s;
  s ← destroy_handle (ch_read_handle ch) s;
  s ← destroy_handle (ch_write_handle ch) s;
  s ← give_back (ch_read_coro_frame ch) (KFrame true None) s;
  give_back (ch_write_coro_frame ch) (KFrame true None) s.

(** [if (h && h.done()) { h.destroy(); h = {}; }]. *)
Definition drop_done (h : handle) (s : store) : result (handle * store) :=
  '(d, s) ← destroy_if_done h s; Ok (if d : bool then None else h, s).

Section workers.
(** The frame sizes of the loops. *)
Context (read_size write_size : Z).

Definition ch_with (ch : Channel) (fd : option nat) (rh wh : handle) : Channel :=
  mkChannel fd rh wh (ch_read_coro_frame ch) (ch_write_coro_frame ch) (ch_read_buf ch) (ch_write_buf ch).

Definition start_loops (ch : Channel) (rt wt : bool) (s : store) : result (Channel * store) :=
  '(r, s) ← channel_loop (ch_read_coro_frame ch) read_size rt s;
  let '(rh, _) := ChannelHandler_release r in
  let ch := ch_with ch (ch_fd ch) rh (ch_write_handle ch) in
  '(w, s) ← channel_loop (ch_write_coro_frame ch) write_size wt s;
  let '(wh, _) := ChannelHandler_release w in
  Ok (ch_with ch (ch_fd ch) (ch_read_handle ch) wh, s).

(** [TcpChannel::assign]; [rt] and [wt] tell whether an exception ends a loop
    at once. *)
Definition TcpChannel_assign_handles (ch : Channel) (fd : nat) (rt wt : bool) (s : store) : result (Channel * store) :=
  '(rh, s) ← drop_done (ch_read_handle ch) s;
  '(wh, s) ← drop_done (ch_write_handle ch) s;
  start_loops (ch_with ch (Some fd) rh wh) rt wt s.

(** [UdpChannel::assign]. *)
Definition UdpChannel_assign_handles (ch : Channel) (fd : nat) (rt wt : bool) (s : store) : result (Channel * store) :=
  start_loops (ch_with ch (Some fd) (ch_read_handle ch) (ch_write_handle ch)) rt wt s.

(** ** A TCP worker *)
Record TcpMembers := mkTcpMembers {
  tm_io_ring : nat;
  tm_buf_ring : BufRing_arrays;
  tm_buf_pool : BufPool_arrays;
  tm_channel_block : nat;          (* channels_ *)
  tm_free_queue : nat;
  tm_channels : list Channel;
  tm_wakeup_fd : nat;
  tm_accept_handle : handle
}.

Fixpoint new_channels (n : nat) (s : store) : list Channel * store :=
  match n with
  | O => ([], s)
  | S n => let '(c, s) := Channel_new s in let '(cs, s) := new_channels n s in (c :: cs, s)
  end.
Fixpoint destroy_channels (cs : list Channel) (s : store) : result store :=
  match cs with [] => Ok s | c :: cs => s ← Channel_destroy c s; destroy_channels cs s end.

(** [do_init_resources], then [on_loop_start]: the temporary [Acceptor] gives
    up its handle before it is destroyed. *)
Definition TcpThread_acquire (pool_size : nat) (s : store) : result (TcpMembers * store) :=
  let '(ring, s) := acquire KRing s in
  '(br, s) ← BufRing_acquire_arrays ring s;
  let '(bp, s) := BufPool_acquire_arrays s in
  let '(block, s) := new_block s in
  let '(queue, s) := new_block s in
  let '(cs, s) := new_channels pool_size s in
  let '(fd, s) := acquire KFd s in
  let '(a, s) := accept_loop s in
  let '(h, a) := Acceptor_release a in
  s ← Acceptor_destroy a s;
  Ok (mkTcpMembers ring br bp block queue cs fd h, s).

(** The end of [TcpThread::on_stop]. *)
Definition TcpThread_on_stop_destroy (w : TcpMembers) (s : store) : result store := destroy_handle (tm_accept_handle w) s.

Definition TcpChannelPool_destroy (w : TcpMembers) (s : store) : result store :=
  s ← destroy_channels (tm_channels w) s;
  s ← delete_block (tm_channel_block w) s;
  delete_block (tm_free_queue w) s.

(** The members of IoThread, after its body has closed the eventfd and the
    thread has been joined. *)
Definition IoThread_destroy_members (bp : BufPool_arrays) (br : BufRing_arrays) (ring fd : nat) (s : store) : result store :=
  let s := sys_close fd s in
  s ← BufPool_destroy bp s;
  s ← BufRing_destroy br s;
  give_back ring KRing s.

(** [own_stop]: the thread has run [TcpThread::on_stop]. *)
Definition TcpThread_destroy (own_stop : bool) (w : TcpMembers) (s : store) : result store :=
  s ← (if own_stop then TcpThread_on_stop_destroy w s else Ok s);
  s ← TcpChannelPool_destroy w s;
  IoThread_destroy_members (tm_buf_pool w) (tm_buf_ring w) (tm_io_ring w) (tm_wakeup_fd w) s.

(** What happens to the resources while the worker runs.  The pool hands out
    a channel only after its [close], which [release] asserts. *)
Inductive tcp_event :=
  | EvAssign (c : nat) (rt wt : bool)
  | EvReadEnd (c : nat)
  | EvWriteEnd (c : nat)
  | EvClose (c : nat)
  | EvAcceptEnd.

Definition tm_with_channel (w : TcpMembers) (c : nat) (ch : Channel) : TcpMembers :=
  mkTcpMembers (tm_io_ring w) (tm_buf_ring w) (tm_buf_pool w) (tm_channel_block w) (tm_free_queue w)
    (<[c := ch]> (tm_channels w)) (tm_wakeup_fd w) (tm_accept_handle w).

(** [TcpChannel::close]: the descriptor. *)
Definition Channel_close (ch : Channel) (s : store) : Channel * store :=
  (ch_with ch None (ch_read_handle ch) (ch_write_handle ch),
   match ch_fd ch with Some fd => sys_close fd s | None => s end).

Definition tcp_event_step (e : tcp_event) (w : TcpMembers) (s : store) : result (TcpMembers * store) :=
  match e with
  | EvAssign c rt wt =>
      match tm_channels w !! c with
      | Some ch =>
          if decide (ch_fd ch = None) then
            let '(fd, s) := acquire KFd s in
            '(ch, s) ← TcpChannel_assign_handles ch fd rt wt s;
            Ok (tm_with_channel w c ch, s)
          else Ok (w, s)
      | None => Ok (w, s)
      end
  | EvReadEnd c => Ok (w, match tm_channels w !! c with Some ch => coro_finish (ch_read_coro_frame ch) s | None => s end)
  | EvWriteEnd c => Ok (w, match tm_channels w !! c with Some ch => coro_finish (ch_write_coro_frame ch) s | None => s end)
  | EvClose c =>
      match tm_channels w !! c with
      | Some ch => let '(ch, s) := Channel_close ch s in Ok (tm_with_channel w c ch, s)
      | None => Ok (w, s)
      end
  | EvAcceptEnd => Ok (w, match tm_accept_handle w with Some id => coro_finish id s | None => s end)
  end.

Fixpoint tcp_events (es : list tcp_event) (w : TcpMembers) (s : store) : result (TcpMembers * store) :=
  match es with [] => Ok (w, s) | e :: es => '(w, s) ← tcp_event_step e w s; tcp_events es w s end.

(** ** A UDP worker *)
Record UdpMembers := mkUdpMembers {
  um_io_ring : nat;
  um_buf_ring : BufRing_arrays;
  um_buf_pool : BufPool_arrays;
  um_msghdr_pool : MsghdrPool_arrays;
  um_socket : nat;
  um_channel_block : nat;          (* the object channel_ points to *)
  um_channel : Channel;
  um_wakeup_fd : nat
}.

Definition UdpThread_acquire (rt wt : bool) (s : store) : result (UdpMembers * store) :=
  let '(ring, s) := acquire KRing s in
  '(br, s) ← BufRing_acquire_arrays ring s;
  let '(bp, s) := BufPool_acquire_arrays s in
  let '(mp, s) := MsghdrPool_acquire_arrays s in
  let '(sock, s) := acquire KFd s in
  let '(block, s) := new_block s in
  let '(ch, s) := Channel_new s in
  '(ch, s) ← UdpChannel_assign_handles ch sock rt wt s;
  let '(fd, s) := acquire KFd s in
  Ok (mkUdpMembers ring br bp mp sock block ch fd, s).

Definition UdpThread_destroy (w : UdpMembers) (s : store) : result store :=
  s ← Channel_destroy (um_channel w) s;
  s ← delete_block (um_channel_block w) s;
  let s := sys_close (um_socket w) s in
  s ← MsghdrPool_destroy (um_msghdr_pool w) s;
  IoThread_destroy_members (um_buf_pool w) (um_buf_ring w) (um_io_ring w) (um_wakeup_fd w) s.

(** An exception ends a coroutine of the channel. *)
Inductive udp_event := UeReadEnd | UeWriteEnd.
Definition udp_event_step (e : udp_event) (w : UdpMembers) (s : store) : store :=
  match e with
  | UeReadEnd => coro_finish (ch_read_coro_frame (um_channel w)) s
  | UeWriteEnd => coro_finish (ch_write_coro_frame (um_channel w)) s
  end.
End workers.

(** ** What a store has, as a list *)
#[local] Set Implicit Arguments.
Record has (s : store) (l : list (nat * kind)) : Prop := {
  has_live : map_to_list (st_live s) ≡ₚ l;
  has_fresh : ∀ id k, st_live s !! id = Some k → (id < st_next s)%nat
}.
#[local] Unset Implicit Arguments.

#[export] Instance has_proper s : Proper ((≡ₚ) ==> iff) (has s).
Proof. intros l l' E. split; intros [H F]; split; [by rewrite <- E|done|by rewrite E|done]. Qed.

Lemma has_perm s l l' : has s l → l ≡ₚ l' → has s l'.
Proof. by intros H <-. Qed.
Ltac perm H := apply (has_perm _ _ _ H); solve_Permutation.

Lemma has_lookup s id k l : has s ((id, k) :: l) → st_live s !! id = Some k.
Proof. intros [H _]. apply elem_of_map_to_list. rewrite H. by left. Qed.
Lemma has_elem s id k l : has s l → (id, k) ∈ l → st_live s !! id = Some k.
Proof. intros [H _] He. apply elem_of_map_to_list. by rewrite H. Qed.

Lemma acquire_has {k s l id s'} : acquire k s = (id, s') → has s l → has s' ((id, k) :: l).
Proof.
  intros [= <- <-] [H F]. assert (st_live s !! st_next s = None) as Hn.
  { destruct (st_live s !! st_next s) eqn:E; [|done]. apply F in E. lia. }
  split; cbn; [by rewrite map_to_list_insert, H|].
  intros id k' [[<- _]|[_ E]]%lookup_insert_Some; [lia|]. apply F in E. lia.
Qed.

Lemma delete_has {s id k l} : has s ((id, k) :: l) → has (st_delete id s) l.
Proof.
  intros Hh. pose proof (has_lookup _ _ _ _ Hh) as E. destruct Hh as [H F]. split; cbn.
  - apply (Permutation_cons_inv (a := (id, k))). by rewrite map_to_list_delete.
  - intros id' k' [_ E']%lookup_delete_Some. by eapply F.
Qed.

Lemma set_has {s id k k' l} : has s ((id, k) :: l) → has (st_set id k' s) ((id, k') :: l).
Proof.
  intros Hh. pose proof (has_lookup _ _ _ _ Hh) as E. pose proof (delete_has Hh) as [H _]. destruct Hh as [_ F]. split; cbn in *.
  - rewrite <- insert_delete_eq, map_to_list_insert by apply lookup_delete_eq. by rewrite H.
  - intros id' k'' [[<- _]|[_ E']]%lookup_insert_Some; by eapply F.
Qed.

Lemma give_back_has {s id k l} : has s ((id, k) :: l) → ∃ s', give_back id k s = Ok s' ∧ has s' l.
Proof.
  intros H. exists (st_delete id s). split; [|by apply delete_has in H]. unfold give_back.
  by rewrite decide_True by (by eapply has_lookup).
Qed.

Lemma close_has {s fd l} : has s ((fd, KFd) :: l) → has (sys_close fd s) l.
Proof. intros H. unfold sys_close. rewrite decide_True by (by eapply has_lookup). by apply delete_has in H. Qed.

(** Give back one after the other, in the order of the list. *)
Ltac give H :=
  let s' := fresh "s" in let E := fresh "E" in let Hg := fresh "Hg" in
  destruct (give_back_has H) as (s' & E & Hg); rewrite E; step; clear H E; rename Hg into H.

(** ** Objects with arrays

    What an object owns, what else must be there when it is destroyed, and
    its destructor: destruction releases exactly what is owned. *)
Class Owned (C : Type) := {
  owned : C → list (nat * kind);
  needs : C → list (nat * kind);
  destroy : C → store → result store
}.
Class OwnedLaws (C : Type) `{Owned C} :=
  destroy_has : ∀ (c : C) s l, has s (owned c ++ l) → needs c ⊆ l → ∃ s', destroy c s = Ok s' ∧ has s' l.

Definition blocks (ids : list nat) : list (nat * kind) := (., KBlock) <$> ids.

#[export] Instance BufPool_owned : Owned BufPool_arrays := {
  owned p := blocks [bpa_bufs p; bpa_data_size p; bpa_free_idx_queue p]; needs _ := []; destroy := BufPool_destroy }.
#[export] Instance BufRing_owned : Owned BufRing_arrays := {
  owned r := (bra_uring_ring r, KBufRing (bra_io_ring r)) :: blocks [bra_bufs r; bra_data_size r];
  needs r := [(bra_io_ring r, KRing)]; destroy := BufRing_destroy }.
#[export] Instance ReadBuf_owned : Owned ReadBuf_arrays := {
  owned r := blocks [rba_buf_queue r; rba_data r; rba_size r]; needs _ := []; destroy := ReadBufBase_destroy }.
#[export] Instance WriteBuf_owned : Owned WriteBufDerived := {
  owned w := blocks [wbd_array w; wba_pending_bufs (wbd_base w); wba_send_queue (wbd_base w)]; needs _ := [];
  destroy := WriteBufDerived_destroy }.
#[export] Instance MsghdrPool_owned : Owned MsghdrPool_arrays := {
  owned p := blocks [mpa_slots p; mpa_iovecs p; mpa_pool p]; needs _ := []; destroy := MsghdrPool_destroy }.

Ltac gives H := unfold delete_block; repeat give H; eauto.
#[export] Instance BufPool_owned_laws : OwnedLaws BufPool_arrays.
Proof. intros c s l H _. cbn in *. unfold BufPool_destroy. gives H. Qed.
#[export] Instance ReadBuf_owned_laws : OwnedLaws ReadBuf_arrays.
Proof. intros c s l H _. cbn in *. unfold ReadBufBase_destroy. gives H. Qed.
#[export] Instance WriteBuf_owned_laws : OwnedLaws WriteBufDerived.
Proof. intros c s l H _. cbn in *. unfold WriteBufDerived_destroy, WriteBufBase_destroy. gives H. Qed.
#[export] Instance MsghdrPool_owned_laws : OwnedLaws MsghdrPool_arrays.
Proof. intros c s l H _. cbn in *. unfold MsghdrPool_destroy. gives H. Qed.
#[export] Instance BufRing_owned_laws : OwnedLaws BufRing_arrays.
Proof.
  intros c s l H Hn. cbn in *. unfold BufRing_destroy, free_buf_ring.
  rewrite decide_True by (eapply has_elem; [exact H|]; do 3 right; apply Hn; by left). gives H.
Qed.

(** Constructors acquire what their objects own. *)
Ltac acquires E H :=
  repeat match type of E with
  | (let '(_, _) := acquire ?k ?s in _) = _ =>
      let E' := fresh in destruct (acquire k s) as [? ?] eqn:E'; apply (acquire_has E') in H; clear E'
  end.

Lemma BufPool_acquires {s l p s'} : BufPool_acquire_arrays s = (p, s') → has s l → has s' (owned p ++ l).
Proof. unfold BufPool_acquire_arrays, new_block. intros E H. acquires E H. injection E as <- <-. perm H. Qed.
Lemma ReadBuf_acquires {s l p s'} : ReadBufBase_acquire_arrays s = (p, s') → has s l → has s' (owned p ++ l).
Proof. unfold ReadBufBase_acquire_arrays, new_block. intros E H. acquires E H. injection E as <- <-. perm H. Qed.
Lemma WriteBuf_acquires {s l p s'} : WriteBufDerived_acquire s = (p, s') → has s l → has s' (owned p ++ l).
Proof.
  unfold WriteBufDerived_acquire, WriteBufBase_acquire_arrays, new_block. intros E H.
  destruct (acquire KBlock s) as [a s1] eqn:E1. apply (acquire_has E1) in H.
  destruct (acquire KBlock s1) as [b s2] eqn:E2. apply (acquire_has E2) in H.
  cbn beta iota in E. acquires E H. injection E as <- <-. perm H.
Qed.
Lemma MsghdrPool_acquires {s l p s'} : MsghdrPool_acquire_arrays s = (p, s') → has s l → has s' (owned p ++ l).
Proof. unfold MsghdrPool_acquire_arrays, new_block. intros E H. acquires E H. injection E as <- <-. perm H. Qed.
Lemma BufRing_acquires {s l ring} :
  has s l → (ring, KRing) ∈ l →
  ∃ r s', BufRing_acquire_arrays ring s = Ok (r, s') ∧ has s' (owned r ++ l) ∧ bra_io_ring r = ring.
Proof.
  intros H Hr. unfold BufRing_acquire_arrays, new_block.
  destruct (acquire KBlock s) as [a s1] eqn:E1. apply (acquire_has E1) in H.
  destruct (acquire KBlock s1) as [b s2] eqn:E2. apply (acquire_has E2) in H. unfold setup_buf_ring.
  rewrite decide_True by (eapply has_elem; [exact H|]; by do 2 right).
  destruct (acquire (KBufRing ring) s2) as [g s3] eqn:E3. apply (acquire_has E3) in H. step.
  eexists _, _. split; [done|]. split; [perm H|done].
Qed.

(** ** Coroutine frames *)

(** A frame of a channel: none, or one that has ended or not. *)
Definition chan_frame (g : option bool) : option frame := (fun fin : bool => if fin then Finished else Suspended []) <$> g.
Definition frame_entry (id : nat) (g : option bool) : nat * kind := (id, KFrame true (chan_frame g)).
(** The handle of a coroutine that is there. *)
Definition frame_handle (id : nat) (g : option bool) : handle := (fun _ => id) <$> g.

Lemma finish_has {s id g l} :
  has s (frame_entry id g :: l) → has (coro_finish id s) (frame_entry id ((fun _ => true) <$> g) :: l).
Proof.
  intros H. unfold coro_finish. rewrite (has_lookup _ _ _ _ H). destruct g as [[]|]; [..|done]; exact (set_has (k' := KFrame true (Some Finished)) H).
Qed.

Lemma destroy_frame_has {s id g l} :
  has s (frame_entry id g :: l) → ∃ s', destroy_handle (frame_handle id g) s = Ok s' ∧ has s' (frame_entry id None :: l).
Proof.
  intros H. unfold destroy_handle, handle_destroy. destruct g as [fin|]; cbn; [|eauto].
  rewrite (has_lookup _ _ _ _ H). cbn. eexists. split; [done|]. apply (set_has (k' := KFrame true None)) in H.
  by destruct fin.
Qed.

(** [assign] takes away a coroutine that has ended. *)
Definition without_done (g : option bool) : option bool := if decide (g = Some true) then None else g.

Lemma drop_done_has {s id g l} :
  has s (frame_entry id g :: l) →
  ∃ s', drop_done (frame_handle id g) s = Ok (frame_handle id (without_done g), s') ∧ has s' (frame_entry id (without_done g) :: l).
Proof.
  intros H. unfold drop_done, destroy_if_done, handle_done. destruct g as [[]|]; cbn; [..|eauto]; rewrite (has_lookup _ _ _ _ H); cbn.
  - eexists. split; [done|]. by apply (set_has (k' := KFrame true None)) in H.
  - eauto.
Qed.

(** A new coroutine, where there is none. *)
Lemma loop_has {s id l} size throws :
  size ≤ coro_frame_size → has s (frame_entry id None :: l) →
  ∃ s', channel_loop id size throws s = Ok (mkChannelHandler (Some id), s') ∧ has s' (frame_entry id (Some throws) :: l).
Proof.
  intros Hs H. unfold channel_loop, promise_new. rewrite (proj2 (Z.leb_le _ _)) by done. step.
  rewrite (has_lookup _ _ _ _ H). cbn [chan_frame fmap option_fmap option_map]. step.
  apply (set_has (k' := KFrame true (Some (Suspended [])))) in H.
  unfold co_await_promise, GetPromise_await_resume. cbn. rewrite lookup_insert_eq. cbn. eexists. split; [done|].
  destruct throws; [|done]. by apply (@finish_has _ _ (Some false)) in H.
Qed.

Lemma loop_overwrites {s id l} size throws fin :
  size ≤ coro_frame_size → has s (frame_entry id (Some fin) :: l) → channel_loop id size throws s = Fault FrameOverwritten.
Proof.
  intros Hs H. unfold channel_loop, promise_new. rewrite (proj2 (Z.leb_le _ _)) by done. step. by rewrite (has_lookup _ _ _ _ H).
Qed.

(** ** Channels *)

(** A channel with the state of its two coroutines, and its descriptor. *)
Definition chan_owned (ch : Channel) (g : option bool * option bool) : list (nat * kind) :=
  frame_entry (ch_read_coro_frame ch) g.1 :: frame_entry (ch_write_coro_frame ch) g.2 ::
  owned (ch_read_buf ch) ++ owned (ch_write_buf ch).
Definition chan_fd (ch : Channel) : list (nat * kind) := (., KFd) <$> option_list (ch_fd ch).

(** The handles are those of the coroutines that exist. *)
Definition chan_ok (ch : Channel) (g : option bool * option bool) : Prop :=
  ch_read_handle ch = frame_handle (ch_read_coro_frame ch) g.1 ∧ ch_write_handle ch = frame_handle (ch_write_coro_frame ch) g.2.

Lemma Channel_new_has {s l ch s'} :
  Channel_new s = (ch, s') → has s l → has s' (chan_owned ch (None, None) ++ l) ∧ chan_ok ch (None, None) ∧ ch_fd ch = None.
Proof.
  unfold Channel_new, WriteBufStream_acquire_arrays. intros E H. acquires E H.
  destruct (ReadBufBase_acquire_arrays _) as [r sr] eqn:Er. apply (ReadBuf_acquires Er) in H.
  destruct (WriteBufDerived_acquire _) as [w sw] eqn:Ew. apply (WriteBuf_acquires Ew) in H. injection E as <- <-.
  split; [|done]. unfold chan_owned, frame_entry. cbn [ch_read_coro_frame ch_write_coro_frame ch_read_buf ch_write_buf chan_frame]. perm H.
Qed.

Lemma Channel_destroy_has {s l ch g} :
  chan_ok ch g → has s (chan_owned ch g ++ l) → ∃ s', Channel_destroy ch s = Ok s' ∧ has s' l.
Proof.
  intros [Hr Hw] H. unfold Channel_destroy, chan_owned in *. destruct g as [gr gw]. cbn [fst snd] in *.
  set (R := frame_entry (ch_read_coro_frame ch) gr) in *. set (W := frame_entry (ch_write_coro_frame ch) gw) in *.
  destruct (destroy_has (ch_write_buf ch) s (R :: W :: owned (ch_read_buf ch) ++ l)) as (s1 & E1 & H1); [perm H|apply list_subseteq_nil|].
  cbn [destroy WriteBuf_owned] in E1. unfold WriteBufStream_destroy. rewrite E1. step.
  destruct (destroy_has (ch_read_buf ch) s1 (R :: W :: l)) as (s2 & E2 & H2); [perm H1|apply list_subseteq_nil|].
  cbn [destroy ReadBuf_owned] in E2. rewrite E2. step.
  destruct (destroy_frame_has H2) as (s3 & E3 & H3). rewrite Hr, E3. step.
  eassert (has s3 (W :: _)) as H4 by (rewrite Permutation_swap in H3; exact H3).
  destruct (destroy_frame_has H4) as (s4 & E4 & H5). rewrite Hw, E4. step. rewrite Permutation_swap in H5.
  unfold frame_entry in H5. cbn in H5. give H5. by apply give_back_has.
Qed.

Section sizes.
Context (read_size write_size : Z) (Hrs : read_size ≤ coro_frame_size) (Hws : write_size ≤ coro_frame_size).

Lemma start_loops_has {s l ch g} rt wt :
  chan_ok ch g → has s (chan_owned ch g ++ l) →
  match g with
  | (None, None) =>
      ∃ ch' s', start_loops read_size write_size ch rt wt s = Ok (ch', s') ∧ has s' (chan_owned ch' (Some rt, Some wt) ++ l) ∧
        chan_ok ch' (Some rt, Some wt) ∧ ch_fd ch' = ch_fd ch
  | _ => start_loops read_size write_size ch rt wt s = Fault FrameOverwritten
  end.
Proof.
  intros Hok H. unfold start_loops, chan_owned in *. destruct g as [[fr|] gw]; cbn [fst snd Datatypes.app] in *.
  { by rewrite (loop_overwrites _ _ _ Hrs H). }
  destruct (loop_has read_size rt Hrs H) as (s1 & E1 & H1). rewrite E1. step. cbn [ChannelHandler_release hd_handle ch_with ch_write_coro_frame].
  rewrite Permutation_swap in H1. destruct gw as [fw|]; [by rewrite (loop_overwrites _ _ _ Hws H1)|].
  destruct (loop_has write_size wt Hws H1) as (s2 & E2 & H2). rewrite E2. step. cbn [ChannelHandler_release hd_handle].
  rewrite Permutation_swap in H2. eexists _, _. split; [done|]. split; [exact H2|]. done.
Qed.

(** [assign] succeeds exactly when both coroutines are absent or have ended. *)
Definition reusable (g : option bool * option bool) : bool := bool_decide (without_done g.1 = None ∧ without_done g.2 = None).

Lemma assign_has {s l ch g} fd rt wt :
  chan_ok ch g → has s (chan_owned ch g ++ l) →
  if reusable g then
    ∃ ch' s', TcpChannel_assign_handles read_size write_size ch fd rt wt s = Ok (ch', s') ∧
      has s' (chan_owned ch' (Some rt, Some wt) ++ l) ∧ chan_ok ch' (Some rt, Some wt) ∧ ch_fd ch' = Some fd
  else TcpChannel_assign_handles read_size write_size ch fd rt wt s = Fault FrameOverwritten.
Proof.
  intros [Hr Hw] H. unfold TcpChannel_assign_handles, chan_owned in *. destruct g as [gr gw]. cbn [fst snd Datatypes.app] in *.
  destruct (drop_done_has H) as (s1 & E1 & H1). rewrite Hr, E1. step. rewrite Permutation_swap in H1.
  destruct (drop_done_has H1) as (s2 & E2 & H2). rewrite Hw, E2. step. rewrite Permutation_swap in H2.
  set (ch1 := ch_with ch (Some fd) _ _).
  assert (has s2 (chan_owned ch1 (without_done gr, without_done gw) ++ l)) as H3 by exact H2.
  assert (chan_ok ch1 (without_done gr, without_done gw)) as Hok by done.
  pose proof (start_loops_has rt wt Hok H3) as Hs. unfold reusable. cbn [fst snd].
  destruct (without_done gr) as [fr|], (without_done gw) as [fw|];
    [rewrite bool_decide_false by (by intros [? ?])..|rewrite bool_decide_true by done]; exact Hs.
Qed.
End sizes.

(** ** A TCP worker *)
Definition locals (f : frame) : list nat := match f with Suspended ls => ls | Finished => [] end.
Definition fds (l : list nat) : list (nat * kind) := (., KFd) <$> l.

Lemma locals_has {ls} : ∀ {s l}, has s (fds ls ++ l) → has (foldr sys_close s ls) l.
Proof.
  induction ls as [|x ls IH]; intros s l H; [done|]. cbn. apply close_has, IH. perm H.
Qed.

(** The accept coroutine, with the sockets in its frame. *)
Definition accept_entries (id : nat) (f : frame) : list (nat * kind) := (id, KFrame false (Some f)) :: fds (locals f).

Lemma frame_locals_has {s id e f l} :
  has s ((id, KFrame e (Some f)) :: fds (locals f) ++ l) → has (destroy_locals f s) ((id, KFrame e (Some f)) :: l).
Proof.
  intros H. destruct f as [ls|]; [|done]. cbn in *. apply locals_has. perm H.
Qed.

Lemma accept_finish_has {s id f l} : has s (accept_entries id f ++ l) → has (coro_finish id s) (accept_entries id Finished ++ l).
Proof.
  intros H. unfold accept_entries in *. cbn [Datatypes.app] in H. unfold coro_finish. rewrite (has_lookup _ _ _ _ H).
  apply frame_locals_has in H. exact (set_has (k' := KFrame false (Some Finished)) H).
Qed.

Lemma accept_destroy_has {s id f l} :
  has s (accept_entries id f ++ l) → ∃ s', destroy_handle (Some id) s = Ok s' ∧ has s' l.
Proof.
  intros H. unfold accept_entries in *. cbn [Datatypes.app] in H. unfold destroy_handle, handle_destroy.
  rewrite (has_lookup _ _ _ _ H). apply frame_locals_has in H. eexists. split; [done|]. exact (delete_has H).
Qed.

Lemma accept_loop_has {s l a s'} :
  accept_loop s = (a, s') → has s l → ∃ id fd, ac_handle a = Some id ∧ has s' (accept_entries id (Suspended [fd]) ++ l).
Proof.
  unfold accept_loop. intros E H. acquires E H. injection E as <- <-. eexists _, _. split; [done|]. rewrite Permutation_swap in H.
  exact (set_has (k' := KFrame false (Some (Suspended [_]))) H).
Qed.

(** Channels with the states of their coroutines. *)
Definition chan_state : Type := Channel * (option bool * option bool).
Definition st_owned (p : chan_state) : list (nat * kind) := chan_owned p.1 p.2.
Definition st_fd (p : chan_state) : list (nat * kind) := chan_fd p.1.
Definition st_all (p : chan_state) : list (nat * kind) := st_owned p ++ st_fd p.

Lemma bind_split (l : list chan_state) : l ≫= st_all ≡ₚ (l ≫= st_owned) ++ (l ≫= st_fd).
Proof. induction l as [|p l IH]; [done|]. cbn. rewrite IH. unfold st_all. solve_Permutation. Qed.

Lemma insert_delete_perm {A} (l : list A) i x y : l !! i = Some x → <[i := y]> l ≡ₚ y :: delete i l.
Proof.
  intros H. apply lookup_lt_Some in H. rewrite insert_take_drop, delete_take_drop by done. solve_Permutation.
Qed.

Lemma new_channels_has n : ∀ {s l cs s'}, new_channels n s = (cs, s') → has s l →
  ∃ ps, cs = ps.*1 ∧ Forall (fun p => chan_ok p.1 p.2) ps ∧ has s' ((ps ≫= st_all) ++ l).
Proof.
  induction n as [|n IH]; intros s l cs s' E H; cbn [new_channels] in E; [injection E as <- <-; by exists []|].
  destruct (Channel_new s) as [c s1] eqn:Ec. destruct (new_channels n s1) as [cs1 s2] eqn:En. injection E as <- <-.
  destruct (Channel_new_has Ec H) as (H1 & Hok & Hfd). destruct (IH _ _ _ _ En H1) as (ps & -> & Hps & H2).
  exists ((c, (None, None)) :: ps). split; [done|]. split; [by constructor|]. rewrite bind_cons. unfold st_all at 1, st_fd, st_owned, chan_fd.
  cbn [fst snd]. rewrite Hfd. cbn [option_list fmap list_fmap]. rewrite app_nil_r. perm H2.
Qed.

Lemma destroy_channels_has (ps : list chan_state) : ∀ {s l}, Forall (fun p => chan_ok p.1 p.2) ps → has s ((ps ≫= st_owned) ++ l) →
  ∃ s', destroy_channels ps.*1 s = Ok s' ∧ has s' l.
Proof.
  induction ps as [|[c g] ps IH]; intros s l Hok H; [by exists s|]. apply Forall_cons in Hok as [Hc Hok].
  destruct (Channel_destroy_has (s := s) (l := (ps ≫= st_owned) ++ l) Hc) as (s1 & E1 & H1); [by rewrite bind_cons, <- app_assoc in H|].
  cbn [fst] in E1. rewrite fmap_cons. cbn [destroy_channels fst]. rewrite E1. step. by apply IH.
Qed.

Definition tm_owned (w : TcpMembers) : list (nat * kind) :=
  (tm_io_ring w, KRing) :: owned (tm_buf_ring w) ++ owned (tm_buf_pool w) ++
  [(tm_channel_block w, KBlock); (tm_free_queue w, KBlock); (tm_wakeup_fd w, KFd)].

(** The worker has its members, its channels and its accept coroutine; [L] is
    everything else. *)
#[local] Set Implicit Arguments.
Record tcp_has (L : list (nat * kind)) (ps : list chan_state) (id : nat) (f : frame) (w : TcpMembers) (s : store) : Prop := {
  th_channels : tm_channels w = ps.*1;
  th_ok : Forall (fun p => chan_ok p.1 p.2) ps;
  th_accept : tm_accept_handle w = Some id;
  th_ring : bra_io_ring (tm_buf_ring w) = tm_io_ring w;
  th_has : has s (tm_owned w ++ (ps ≫= st_all) ++ accept_entries id f ++ L)
}.
#[local] Unset Implicit Arguments.

Lemma TcpThread_acquire_has n {s L} :
  has s L → ∃ w s' ps id fd, TcpThread_acquire n s = Ok (w, s') ∧ tcp_has L ps id (Suspended [fd]) w s'.
Proof.
  intros H. unfold TcpThread_acquire, new_block. destruct (acquire KRing s) as [ring s1] eqn:E1. apply (acquire_has E1) in H.
  destruct (BufRing_acquires (ring := ring) H) as (br & s2 & E2 & H2 & Hr); [by left|]. rewrite E2. step.
  destruct (BufPool_acquire_arrays s2) as [bp s3] eqn:E3. apply (BufPool_acquires E3) in H2.
  destruct (acquire KBlock s3) as [block s4] eqn:E4. apply (acquire_has E4) in H2.
  destruct (acquire KBlock s4) as [queue s5] eqn:E5. apply (acquire_has E5) in H2.
  destruct (new_channels n s5) as [cs s6] eqn:E6. destruct (new_channels_has n E6 H2) as (ps & -> & Hps & H6).
  destruct (acquire KFd s6) as [wfd s7] eqn:E7. apply (acquire_has E7) in H6.
  destruct (accept_loop s7) as [a s8] eqn:E8. destruct (accept_loop_has E8 H6) as (id & fd & Ha & H8).
  cbn. eexists _, _, ps, id, fd. split; [done|]. split; [done|done|by rewrite Ha|done|].
  unfold tm_owned. cbn [tm_io_ring tm_buf_ring tm_buf_pool tm_channel_block tm_free_queue tm_wakeup_fd]. perm H8.
Qed.

(** The channel of an [assign] has a coroutine that has not ended. *)
Definition frame_live (s : store) (id : nat) : Prop := ∃ l, st_live s !! id = Some (KFrame true (Some (Suspended l))).
Definition assigns_live (e : tcp_event) (w : TcpMembers) (s : store) : Prop :=
  match e with
  | EvAssign c _ _ =>
      ∃ ch, tm_channels w !! c = Some ch ∧ (frame_live s (ch_read_coro_frame ch) ∨ frame_live s (ch_write_coro_frame ch))
  | _ => False
  end.

Lemma not_reusable_live s l ch g :
  reusable g = false → has s (chan_owned ch g ++ l) → frame_live s (ch_read_coro_frame ch) ∨ frame_live s (ch_write_coro_frame ch).
Proof.
  intros Hg H. unfold chan_owned in H. destruct g as [gr gw]. cbn [fst snd Datatypes.app] in H.
  destruct gr as [[|]|]; [|left; exists []; by rewrite (has_lookup _ _ _ _ H)|]; right;
    (rewrite Permutation_swap in H; destruct gw as [[|]|]; [done| |done]; exists []; by rewrite (has_lookup _ _ _ _ H)).
Qed.

Section tcp_runs.
Context (read_size write_size : Z) (Hrs : read_size ≤ coro_frame_size) (Hws : write_size ≤ coro_frame_size).
Context (L : list (nat * kind)).

(** A change of one channel. *)
Lemma tcp_focus {ps id f w s c ch} :
  tcp_has L ps id f w s → tm_channels w !! c = Some ch →
  ∃ g rest, ps !! c = Some (ch, g) ∧ chan_ok ch g ∧ has s (chan_owned ch g ++ chan_fd ch ++ rest) ∧
    ∀ ch' g' s', chan_ok ch' g' → has s' (chan_owned ch' g' ++ chan_fd ch' ++ rest) →
      tcp_has L (<[c := (ch', g')]> ps) id f (tm_with_channel w c ch') s'.
Proof.
  intros [Hc Hok Ha Hr H] Hl. rewrite Hc in Hl. apply list_lookup_fmap_Some in Hl as ([ch0 g] & -> & Ep).
  pose proof (proj1 (Forall_lookup _ _) Hok _ _ Ep) as Hg.
  exists g, (tm_owned w ++ (delete c ps ≫= st_all) ++ accept_entries id f ++ L). split; [done|]. split; [done|]. split.
  - rewrite (delete_Permutation ps c _ Ep), bind_cons in H. unfold st_all at 1, st_owned, st_fd in H. cbn [fst snd] in H. perm H.
  - intros ch' g' s' Hok' H'. split; [..|done|done|].
    + cbn. by rewrite Hc, list_fmap_insert.
    + by apply Forall_insert.
    + rewrite (insert_delete_perm ps c _ _ Ep), bind_cons. unfold st_all at 1, st_owned, st_fd. cbn [fst snd].
      change (tm_owned (tm_with_channel w c ch')) with (tm_owned w). perm H'.
Qed.

Lemma tcp_same_channel w c ch : tm_channels w !! c = Some ch → tm_with_channel w c ch = w.
Proof. intros H. unfold tm_with_channel. rewrite list_insert_id by done. by destruct w. Qed.

Lemma tcp_assign_has {ps id f w s} c rt wt :
  tcp_has L ps id f w s →
  (∃ ps' w' s', tcp_event_step read_size write_size (EvAssign c rt wt) w s = Ok (w', s') ∧ tcp_has L ps' id f w' s') ∨
  (tcp_event_step read_size write_size (EvAssign c rt wt) w s = Fault FrameOverwritten ∧ assigns_live (EvAssign c rt wt) w s).
Proof.
  intros Hw. cbn [tcp_event_step]. destruct (tm_channels w !! c) as [ch|] eqn:Ec; [|left; eauto 10].
  case_decide as Hfd; [|left; eauto 10]. destruct (tcp_focus Hw Ec) as (g & rest & _ & Hok & H & Hback).
  destruct (acquire KFd s) as [fd s1] eqn:E1. pose proof H as H0. apply (acquire_has E1) in H.
  assert (has s1 (chan_owned ch g ++ (fd, KFd) :: rest)) as H1.
  { unfold chan_fd in H. rewrite Hfd in H. cbn [option_list fmap list_fmap] in H. perm H. }
  pose proof (assign_has read_size write_size Hrs Hws fd rt wt Hok H1) as Ha. destruct (reusable g) eqn:Eg.
  2: { right. rewrite Ha. split; [done|]. exists ch. split; [done|]. by eapply not_reusable_live. }
  destruct Ha as (ch' & s' & E & H' & Hok' & Hfd'). rewrite E. left. eexists _, _, _. split; [done|]. eapply Hback; [done|].
  unfold chan_fd. by rewrite Hfd'.
Qed.

Lemma tcp_end_has {ps id f w s} c :
  tcp_has L ps id f w s → ∀ read : bool,
  ∃ ps', tcp_has L ps' id f w (match tm_channels w !! c with
    | Some ch => coro_finish (if read then ch_read_coro_frame ch else ch_write_coro_frame ch) s | None => s end).
Proof.
  intros Hw read. destruct (tm_channels w !! c) as [ch|] eqn:Ec; [|eauto].
  destruct (tcp_focus Hw Ec) as ([gr gw] & rest & _ & [Hr Hwr] & H & Hback). rewrite <- (tcp_same_channel w c ch Ec).
  unfold chan_owned in H. cbn [fst snd Datatypes.app] in *.
  destruct read; eexists; [apply (Hback ch ((fun _ => true) <$> gr, gw))|apply (Hback ch (gr, (fun _ => true) <$> gw))];
    unfold chan_ok, chan_owned; cbn [fst snd Datatypes.app].
  - rewrite Hr, Hwr. by destruct gr.
  - by apply finish_has in H.
  - rewrite Hr, Hwr. by destruct gw.
  - rewrite Permutation_swap in H. apply finish_has in H. by rewrite Permutation_swap in H.
Qed.

Lemma tcp_step_has {ps id f w s} e :
  tcp_has L ps id f w s →
  (∃ ps' f' w' s', tcp_event_step read_size write_size e w s = Ok (w', s') ∧ tcp_has L ps' id f' w' s') ∨
  (tcp_event_step read_size write_size e w s = Fault FrameOverwritten ∧ assigns_live e w s).
Proof.
  intros Hw. destruct e as [c rt wt|c|c|c|].
  - destruct (tcp_assign_has c rt wt Hw) as [(ps' & w' & s' & ? & ?)|?]; [left; eauto 10|by right].
  - left. cbn. destruct (tcp_end_has c Hw true). eauto 10.
  - left. cbn. destruct (tcp_end_has c Hw false). eauto 10.
  - left. cbn [tcp_event_step]. destruct (tm_channels w !! c) as [ch|] eqn:Ec; [|eauto 10]. unfold Channel_close.
    destruct (tcp_focus Hw Ec) as (g & rest & _ & Hok & H & Hback). eexists _, f, _, _. split; [done|].
    eapply Hback; [done|]. unfold chan_fd in *. cbn [ch_with ch_fd option_list fmap list_fmap]. destruct (ch_fd ch) as [fd|]; [|done].
    apply close_has. cbn in H. perm H.
  - left. cbn. eexists ps, Finished, w, _. split; [done|]. destruct Hw as [Hc Hok Ha Hr H]. rewrite Ha. split; try done.
    assert (has s (accept_entries id f ++ tm_owned w ++ (ps ≫= st_all) ++ L)) as H1 by (perm H).
    apply accept_finish_has in H1. perm H1.
Qed.

Lemma tcp_events_has es : ∀ {ps id f w s}, tcp_has L ps id f w s →
  (∃ ps' f' w' s', tcp_events read_size write_size es w s = Ok (w', s') ∧ tcp_has L ps' id f' w' s') ∨
  (tcp_events read_size write_size es w s = Fault FrameOverwritten ∧
   ∃ pre e post w' s', es = pre ++ e :: post ∧ tcp_events read_size write_size pre w s = Ok (w', s') ∧ assigns_live e w' s').
Proof.
  induction es as [|e es IH]; intros ps id f w s Hw; [left; eauto 10|]. cbn [tcp_events].
  destruct (tcp_step_has e Hw) as [(ps' & f' & w' & s' & E & H')|[E Hl]].
  - rewrite E. step. destruct (IH _ _ _ _ _ H') as [?|(E2 & pre & e' & post & w2 & s2 & -> & E3 & Hl)]; [by left|right].
    split; [done|]. exists (e :: pre), e', post, w2, s2. split; [done|]. split; [|done]. cbn [tcp_events]. by rewrite E.
  - right. rewrite E. split; [done|]. by exists [], e, es, w, s.
Qed.
End tcp_runs.

(** The members of IoThread. *)
Lemma IoThread_members_has {s l br bp ring fd} :
  bra_io_ring br = ring → has s ((ring, KRing) :: owned br ++ owned bp ++ (fd, KFd) :: l) →
  ∃ s', IoThread_destroy_members bp br ring fd s = Ok s' ∧ has s' l.
Proof.
  intros Hr H. unfold IoThread_destroy_members.
  assert (has (sys_close fd s) (owned bp ++ (ring, KRing) :: owned br ++ l)) as H1 by (apply close_has; perm H).
  destruct (destroy_has bp _ _ H1) as (s1 & E1 & H2); [apply list_subseteq_nil|]. cbn [destroy BufPool_owned] in E1. rewrite E1. step.
  destruct (destroy_has br s1 ((ring, KRing) :: l)) as (s2 & E2 & H3); [perm H2|by rewrite <- Hr; intros x ->%list_elem_of_singleton; left|].
  cbn [destroy BufRing_owned] in E2. rewrite E2. step. by apply give_back_has.
Qed.

Lemma TcpThread_destroy_has {L ps id f w s} own_stop :
  tcp_has L ps id f w s →
  ∃ s', TcpThread_destroy own_stop w s = Ok s' ∧ has s' ((if own_stop : bool then [] else accept_entries id f) ++ (ps ≫= st_fd) ++ L).
Proof.
  intros [Hc Hok Ha Hr H]. unfold TcpThread_destroy.
  set (A := if own_stop then [] else accept_entries id f).
  assert (∃ s1, (if own_stop then TcpThread_on_stop_destroy w s else Ok s) = Ok s1 ∧
    has s1 (tm_owned w ++ (ps ≫= st_all) ++ A ++ L)) as (s1 & E1 & H1).
  { unfold A. destruct own_stop; [|eauto]. unfold TcpThread_on_stop_destroy. rewrite Ha. apply (accept_destroy_has (f := f)). perm H. }
  rewrite E1. step. unfold TcpChannelPool_destroy. rewrite bind_split in H1. unfold tm_owned in H1.
  destruct (destroy_channels_has ps (s := s1) (l := (tm_channel_block w, KBlock) :: (tm_free_queue w, KBlock) ::
    ((tm_io_ring w, KRing) :: owned (tm_buf_ring w) ++ owned (tm_buf_pool w) ++ (tm_wakeup_fd w, KFd) :: A ++ (ps ≫= st_fd) ++ L)) Hok)
    as (s2 & E2 & H2); [perm H1|].
  rewrite Hc, E2. step. unfold delete_block. give H2. give H2. by apply (IoThread_members_has Hr H2).
Qed.

(** The descriptors of connections that are not closed. *)
Definition open_fds (w : TcpMembers) : list nat := omap ch_fd (tm_channels w).

Lemma open_fds_eq (ps : list chan_state) : ps ≫= st_fd = fds (omap ch_fd ps.*1).
Proof.
  induction ps as [|[ch g] ps IH]; [done|]. rewrite bind_cons, IH. unfold st_fd, chan_fd. cbn. by destruct (ch_fd ch).
Qed.

(** C9. The destructor of a TCP worker gives everything back once.  Build a
    worker with any number of channels, let any sequence of connections,
    closes and ends of coroutines happen, and destroy it.  Unless in that
    sequence a channel is assigned to a new connection while one of its
    coroutines has not ended, which overwrites the frame of that coroutine (the
    pool allows it, TcpLifecycle.v), nothing is released
    twice and no coroutine that is gone is touched, and what is left of the
    acquired resources is exactly the frame of the accept coroutine with the
    listening socket in it, unless [TcpThread::on_stop] has run, and the
    descriptors of the connections that were never closed. *)
Theorem tcp_worker_destroyed_once read_size write_size s n es own_stop :
  read_size ≤ coro_frame_size → write_size ≤ coro_frame_size →
  (∀ id k, st_live s !! id = Some k → (id < st_next s)%nat) →
  ∃ w s1, TcpThread_acquire n s = Ok (w, s1) ∧
    ((tcp_events read_size write_size es w s1 = Fault FrameOverwritten ∧
      ∃ pre e post w' s', es = pre ++ e :: post ∧ tcp_events read_size write_size pre w s1 = Ok (w', s') ∧ assigns_live e w' s') ∨
     ∃ w' s2 s3 id f, tcp_events read_size write_size es w s1 = Ok (w', s2) ∧ tm_accept_handle w' = Some id ∧
       TcpThread_destroy own_stop w' s2 = Ok s3 ∧
       map_to_list (st_live s3) ≡ₚ
         (if own_stop : bool then [] else accept_entries id f) ++ fds (open_fds w') ++ map_to_list (st_live s)).
Proof.
  intros Hrs Hws Hf. destruct (TcpThread_acquire_has n (s := s) (L := map_to_list (st_live s))) as (w & s1 & ps & id & fd & E & H1).
  { by split. }
  exists w, s1. split; [done|]. destruct (tcp_events_has _ _ Hrs Hws _ es H1) as [(ps' & f & w' & s2 & E2 & H2)|E2]; [right|by left].
  destruct (TcpThread_destroy_has own_stop H2) as (s3 & E3 & H3). exists w', s2, s3, id, f. split_and!; [done|apply H2|done|].
  unfold open_fds. rewrite (th_channels H2), <- open_fds_eq. apply H3.
Qed.

(** ** A UDP worker *)
Lemma UdpThread_acquire_has {s L} read_size write_size rt wt :
  read_size ≤ coro_frame_size → write_size ≤ coro_frame_size → has s L →
  ∃ w s' g, UdpThread_acquire read_size write_size rt wt s = Ok (w, s') ∧ chan_ok (um_channel w) g ∧
    bra_io_ring (um_buf_ring w) = um_io_ring w ∧
    has s' (chan_owned (um_channel w) g ++ (um_channel_block w, KBlock) :: (um_socket w, KFd) :: owned (um_msghdr_pool w) ++
      (um_io_ring w, KRing) :: owned (um_buf_ring w) ++ owned (um_buf_pool w) ++ (um_wakeup_fd w, KFd) :: L).
Proof.
  intros Hrs Hws H. unfold UdpThread_acquire, new_block. destruct (acquire KRing s) as [ring s1] eqn:E1. apply (acquire_has E1) in H.
  destruct (BufRing_acquires (ring := ring) H) as (br & s2 & E2 & H2 & Hr); [by left|]. rewrite E2. step.
  destruct (BufPool_acquire_arrays s2) as [bp s3] eqn:E3. apply (BufPool_acquires E3) in H2.
  destruct (MsghdrPool_acquire_arrays s3) as [mp s4] eqn:E4. apply (MsghdrPool_acquires E4) in H2.
  destruct (acquire KFd s4) as [sock s5] eqn:E5. apply (acquire_has E5) in H2.
  destruct (acquire KBlock s5) as [block s6] eqn:E6. apply (acquire_has E6) in H2.
  destruct (Channel_new s6) as [ch s7] eqn:E7. destruct (Channel_new_has E7 H2) as (H7 & Hok & _).
  unfold UdpChannel_assign_handles. set (ch1 := ch_with ch _ _ _).
  destruct (start_loops_has read_size write_size Hrs Hws (ch := ch1) (g := (None, None)) rt wt Hok H7)
    as (ch' & s8 & E8 & H8 & Hok' & _).
  rewrite E8. step. destruct (acquire KFd s8) as [wfd s9] eqn:E9. apply (acquire_has E9) in H8.
  eexists _, _, _. split; [done|]. split; [exact Hok'|]. split; [done|].
  cbn [um_channel um_channel_block um_socket um_msghdr_pool um_io_ring um_buf_ring um_buf_pool um_wakeup_fd]. perm H8.
Qed.

Lemma udp_event_has {w g s l} e :
  chan_ok (um_channel w) g → has s (chan_owned (um_channel w) g ++ l) →
  ∃ g', chan_ok (um_channel w) g' ∧ has (udp_event_step e w s) (chan_owned (um_channel w) g' ++ l).
Proof.
  intros [Hr Hw] H. destruct g as [gr gw]. unfold chan_owned in H. cbn [fst snd Datatypes.app] in *.
  destruct e; [exists ((fun _ => true) <$> gr, gw)|exists (gr, (fun _ => true) <$> gw)]; unfold chan_ok, chan_owned; cbn [fst snd Datatypes.app].
  - rewrite Hr, Hw. split; [by destruct gr|]. by apply finish_has in H.
  - rewrite Hr, Hw. split; [by destruct gw|]. rewrite Permutation_swap in H. apply finish_has in H. by rewrite Permutation_swap in H.
Qed.

Lemma udp_events_has {w l} es : ∀ {g s},
  chan_ok (um_channel w) g → has s (chan_owned (um_channel w) g ++ l) →
  ∃ g', chan_ok (um_channel w) g' ∧ has (foldl (fun s e => udp_event_step e w s) s es) (chan_owned (um_channel w) g' ++ l).
Proof.
  induction es as [|e es IH]; intros g s Hok H; [eauto|]. destruct (udp_event_has e Hok H) as (g' & Hok' & H'). by apply (IH g').
Qed.

(** C10. The destructor of a UDP worker gives back exactly what the worker
    acquired: arrays, message headers, both coroutines whether they have ended
    or not, the socket, the eventfd, the buffer ring while its ring exists,
    and the ring, each once. *)
Theorem udp_worker_destroyed_exactly read_size write_size s rt wt es :
  read_size ≤ coro_frame_size → write_size ≤ coro_frame_size →
  (∀ id k, st_live s !! id = Some k → (id < st_next s)%nat) →
  ∃ w s1 s2, UdpThread_acquire read_size write_size rt wt s = Ok (w, s1) ∧
    UdpThread_destroy w (foldl (fun s e => udp_event_step e w s) s1 es) = Ok s2 ∧
    st_live s2 = st_live s.
Proof.
  intros Hrs Hws Hf.
  destruct (UdpThread_acquire_has (s := s) (L := map_to_list (st_live s)) read_size write_size rt wt Hrs Hws) as (w & s1 & g & E & Hok & Hr & H1).
  { by split. }
  destruct (udp_events_has es Hok H1) as (g' & Hok' & H2). exists w, s1. rewrite E. unfold UdpThread_destroy.
  destruct (Channel_destroy_has Hok' H2) as (s3 & -> & H3). step. unfold delete_block. give H3. apply close_has in H3.
  destruct (destroy_has (um_msghdr_pool w) _ _ H3) as (s4 & E4 & H4); [apply list_subseteq_nil|].
  cbn [destroy MsghdrPool_owned] in E4. rewrite E4. step.
  destruct (IoThread_members_has Hr H4) as (s5 & -> & H5). exists s5. split; [done|]. split; [done|]. apply map_to_list_inj, H5.
Qed.

(** A worker whose two coroutines have ended by exceptions, next to other
    resources. *)
Lemma udp_worker_destroyed_exactly_witness :
  ∃ w s1 s2, UdpThread_acquire 200 256 false true (mkStore 1 {[0%nat := KFd]}) = Ok (w, s1) ∧ size (st_live s1) = 22%nat ∧
    UdpThread_destroy w (foldl (fun s e => udp_event_step e w s) s1 [UeReadEnd; UeWriteEnd]) = Ok s2 ∧ st_live s2 = {[0%nat := KFd]}.
Proof.
  destruct (udp_worker_destroyed_exactly 200 256 (mkStore 1 {[0%nat := KFd]}) false true [UeReadEnd; UeWriteEnd])
    as (w & s1 & s2 & E & E2 & H); [done|done| |].
  - intros id k Hk. cbn in *. apply lookup_singleton_Some in Hk as [<- _]. lia.
  - exists w, s1, s2. split; [exact E|]. split; [|by split]. vm_compute in E. injection E as _ <-. reflexivity.
Defined.

(** Two channels; one connection ends and its channel is used again, another
    one is still open at the end. *)
Definition sample_events : list tcp_event :=
  [EvAssign 0 false false; EvClose 0; EvReadEnd 0; EvWriteEnd 0; EvAssign 0 false true; EvAssign 1 false false; EvClose 1].

Lemma tcp_worker_destroyed_once_witness :
  ∃ w s1 w' s2 s3 id f, TcpThread_acquire 2 (mkStore 0 ∅) = Ok (w, s1) ∧
    tcp_events 200 256 sample_events w s1 = Ok (w', s2) ∧ TcpThread_destroy false w' s2 = Ok s3 ∧ length (open_fds w') = 1%nat ∧
    map_to_list (st_live s3) ≡ₚ accept_entries id f ++ fds (open_fds w').
Proof.
  destruct (tcp_worker_destroyed_once 200 256 (mkStore 0 ∅) 2 sample_events false) as (w & s1 & E & [[E2 _]|H]); [done|done|done|..].
  - exfalso. vm_compute in E. injection E as <- <-. vm_compute in E2. discriminate E2.
  - destruct H as (w' & s2 & s3 & id & f & E2 & _ & E3 & H). exists w, s1, w', s2, s3, id, f.
    split; [exact E|]. split; [exact E2|]. split; [exact E3|]. split.
    + vm_compute in E. injection E as <- <-. vm_compute in E2. injection E2 as <- _. reflexivity.
    + cbn [st_live] in H. rewrite map_to_list_empty, app_nil_r in H. exact H.
Defined.

(** ** The coroutine states of TcpChannel

    TcpChannel.v has the states of the coroutines instead of handles and
    frames; what [assign] does there is what the handles do here. *)
Definition coro_frame (co : coro) : option bool :=
  match co with CoNone => None | CoDone => Some true | _ => Some false end.

Lemma without_done_coro co : without_done (coro_frame co) = coro_frame (destroy_done co).
Proof. by destruct co. Qed.

Lemma assign_agrees read_size write_size s l ch r w fd rt wt :
  read_size ≤ coro_frame_size → write_size ≤ coro_frame_size →
  chan_ok ch (coro_frame r, coro_frame w) → has s (chan_owned ch (coro_frame r, coro_frame w) ++ l) →
  if decide (destroy_done r = CoNone ∧ destroy_done w = CoNone)
  then ∃ a, TcpChannel_assign_handles read_size write_size ch fd rt wt s = Ok a
  else TcpChannel_assign_handles read_size write_size ch fd rt wt s = Fault FrameOverwritten.
Proof.
  intros Hrs Hws Hok H. pose proof (assign_has _ _ Hrs Hws fd rt wt Hok H) as Ha. unfold reusable in Ha. cbn [fst snd] in Ha.
  rewrite !without_done_coro in Ha. case_decide as Hd.
  - destruct Hd as [Er Ew]. rewrite Er, Ew, bool_decide_true in Ha by done. destruct Ha as (ch' & s' & -> & _). eauto.
  - rewrite bool_decide_false in Ha; [done|]. intros [? ?]. apply Hd. by destruct (destroy_done r), (destroy_done w).
Qed.

(** ** Handler objects

    Any number of [ChannelHandler]s that are created by calling a loop, moved,
    assigned and released. *)
Inductive h_event :=
  | HCall (place : nat) (size : Z) (throws : bool)
  | HMove (j : nat)                (* ChannelHandler x(std::move(objs[j])) *)
  | HAssign (i j : nat)            (* objs[i] = std::move(objs[j]) *)
  | HRelease (i : nat)
  | HEnd (id : nat).               (* a coroutine runs to its end *)

Record h_state := mkHState { hs_objs : list ChannelHandler; hs_released : list handle; hs_store : store }.

Definition h_step (st : h_state) (e : h_event) : result h_state :=
  let '(mkHState objs rel s) := st in
  match e with
  | HCall place size throws => '(h, s) ← channel_loop place size throws s; Ok (mkHState (objs ++ [h]) rel s)
  | HMove j =>
      match objs !! j with
      | Some o => let '(x, o) := ChannelHandler_move o in Ok (mkHState (<[j := o]> objs ++ [x]) rel s)
      | None => Fault OutOfBounds
      end
  | HAssign i j => '(objs, s) ← ChannelHandler_assign objs i j s; Ok (mkHState objs rel s)
  | HRelease i =>
      match objs !! i with
      | Some o => let '(h, o) := ChannelHandler_release o in Ok (mkHState (<[i := o]> objs) (rel ++ [h]) s)
      | None => Fault OutOfBounds
      end
  | HEnd id => Ok (mkHState objs rel (coro_finish id s))
  end.

Fixpoint h_run (st : h_state) (es : list h_event) : result h_state :=
  match es with [] => Ok st | e :: es => st ← h_step st e; h_run st es end.

(** The coroutines that are held, by an object or by who released them. *)
Definition held (st : h_state) : list nat := omap hd_handle (hs_objs st) ++ omap id (hs_released st).

Definition alive (s : store) (id : nat) : Prop := ∃ f, st_live s !! id = Some (KFrame true (Some f)).















(** Two rooms for frames. *)
Definition two_rooms : store := mkStore 2 {[0%nat := KFrame true None; 1%nat := KFrame true None]}.

(** An object assigned to itself keeps the handle of the coroutine it has
    destroyed. *)
Lemma self_assignment_dangles : ∃ st,
  h_run (mkHState [] [] two_rooms) [HCall 0 100 true; HAssign 0 0] = Ok st ∧ held st = [0%nat] ∧ ¬ alive (hs_store st) 0.
Proof.
  eexists. split; [vm_compute; reflexivity|]. split; [reflexivity|]. intros [f H]. vm_compute in H. discriminate H.
Qed.
