(* ===== verification/EchoMain.v ===== *)
(** * EchoMain: the echo server from its command line to its end

    Models [main] of benchmarks/echo_server.cpp (lines 112-218) with the
    constructors of Server, TcpServer, UdpServer and of the two echo servers:
    the checked options of Server.v, the servers that are built and started,
    the loop that waits for a signal, and the destruction of the servers, which
    is the sequence of the destructors of their workers (Shutdown.v) while all
    workers run.

    The state of the program has all workers of both servers.  A run is a list
    of events: a step of the main thread, a signal, a step of a worker or a
    completion for it.  C++ does not say in which order a vector destroys its
    elements; a step of the main thread says which one it takes next. *)
From stdpp Require Import strings.
From S2P Require Import Prelude Ring BufPool WriteBuf WriteBufStream BufRing ReadBuf TcpRecv Awaiter MsghdrPool.
From S2P Require Import UdpSend TcpChannel TcpLifecycle UdpRecv Logger IoRing IoThread TcpWorker Server UdpThread UdpWorker Shutdown.

(** ** The server objects *)
Record Server := mkServer {
  sv_port : Z;
  sv_thread_nums : Z;
  sv_buf_pool_size : Z;
  sv_cpu_affinity : bool
}.
Definition Server_new (hw port thread_nums buf_pool_size : Z) (cpu_affinity : bool) : result Server :=
  Server_check hw thread_nums cpu_affinity;;
  Ok (mkServer port thread_nums buf_pool_size cpu_affinity).
Definition Server_get_port : Server → Z := sv_port.
Definition Server_get_thread_nums : Server → Z := sv_thread_nums.
Definition Server_get_buf_pool_size : Server → Z := sv_buf_pool_size.

Record TcpServer := mkTcpServer {
  ts_base : Server;
  ts_channel_capacity : Z;
  ts_buf_ring_size : Z;
  ts_pool_size : Z;
  ts_queue_depth : Z
}.
Definition TcpServer_new (hw port thread_nums buf_pool_size channel_capacity buf_ring_size pool_size queue_depth : Z)
    (cpu_affinity : bool) : result TcpServer :=
  b ← Server_new hw port thread_nums buf_pool_size cpu_affinity;
  Ok (mkTcpServer b channel_capacity buf_ring_size pool_size queue_depth).

Record UdpServer := mkUdpServer {
  us_base : Server;
  us_buf_ring_size : Z;
  us_msghdr_pool_size : Z;
  us_channel_capacity : Z;
  us_queue_depth : Z
}.
Definition UdpServer_new (hw port thread_nums buf_pool_size buf_ring_size msghdr_pool_size channel_capacity queue_depth : Z)
    (cpu_affinity : bool) : result UdpServer :=
  b ← Server_new hw port thread_nums buf_pool_size cpu_affinity;
  Ok (mkUdpServer b buf_ring_size msghdr_pool_size channel_capacity queue_depth).

(** What the workers read of their server, through its getters; the buffer
    size is the default argument of BufPool and BufRing. *)
Definition TcpServer_config (s : TcpServer) : TcpConfig :=
  mkTcpConfig (Server_get_buf_pool_size (ts_base s)) (ts_channel_capacity s) (ts_buf_ring_size s) (ts_pool_size s)
    (ts_queue_depth s) 4096.
Definition UdpServer_config (s : UdpServer) : UdpConfig :=
  mkUdpConfig (Server_get_buf_pool_size (us_base s)) (us_buf_ring_size s) (us_msghdr_pool_size s) (us_channel_capacity s)
    (us_queue_depth s).

Definition TcpEchoServer_new (hw port threads : Z) (config : ServerOptions) (cpu_affinity : bool) : result TcpServer :=
  TcpServer_new hw port threads (pc_buf_pool_size (so_tcp config)) (pc_channel_capacity (so_tcp config))
    (pc_buf_ring_size (so_tcp config)) (so_tcp_pool_size config) (pc_queue_depth (so_tcp config)) cpu_affinity.
Definition UdpEchoServer_new (hw port threads : Z) (config : ServerOptions) (cpu_affinity : bool) : result UdpServer :=
  UdpServer_new hw port threads (pc_buf_pool_size (so_udp config)) (pc_buf_ring_size (so_udp config))
    (so_udp_msghdr_pool_size config) (pc_channel_capacity (so_udp config)) (pc_queue_depth (so_udp config)) cpu_affinity.

(** ** What main prints *)
Inductive output :=
  | OutInvalidSizes
  | OutMode (cpu_affinity : bool) (threads : Z)
  | OutTcpConfig (pool read_capacity write_capacity buf_pool buf_ring queue : Z)
  | OutUdpConfig (msghdr_pool read_capacity write_capacity buf_pool buf_ring queue : Z)
  | OutNoProtocol
  | OutTcpListening
  | OutUdpListening
  | OutPressCtrlC
  | OutShuttingDown.

Definition config_lines (threads : Z) (o : ServerOptions) : list output :=
  let t := so_tcp o in let u := so_udp o in
  [OutMode (so_cpu_affinity o) threads;
   OutTcpConfig (so_tcp_pool_size o) (pc_buf_ring_size t) (pc_channel_capacity t) (pc_buf_pool_size t) (pc_buf_ring_size t)
     (pc_queue_depth t);
   OutUdpConfig (so_udp_msghdr_pool_size o) (pc_buf_ring_size u) (pc_channel_capacity u) (pc_buf_pool_size u)
     (pc_buf_ring_size u) (pc_queue_depth u)].

(** ** Destroying the workers of a server *)

(** The vector goes on to another element when the destructor of one has
    returned. *)
Definition untouched_or_gone {T S} (w : Worker T S) : bool :=
  match wo_lifetime w with LtAlive | LtGone => true | _ => false end.
Definition all_gone {T S} (ws : list (Worker T S)) : bool := forallb (fun w => bool_decide (wo_lifetime w = LtGone)) ws.
Definition destroy_threads {T S} (i : nat) (ws : list (Worker T S)) : list (Worker T S) :=
  if forallb untouched_or_gone (delete i ws) then alter destroy_worker i ws else ws.

(** ** main *)
Inductive main_point := MpInit | MpTcp | MpUdp | MpLoop | MpDestroy | MpReturned (code : Z).

(** An event of a worker that is not its destructor. *)
Definition not_destroy (e : wo_event) : bool := match e with WoDestroy => false | _ => true end.

Section main.
Context {R : Type} {Hlib : BufRingLib R} {Hrm : RecvmsgLib}.
(** [hardware_concurrency()], the CPUs of the machine, fresh memory, the
    number of entries of a ring for a queue depth, and a bound for the loop of
    [UdpEchoServer::on_read]. *)
Context (hw : Z) (cpus : list Z) (j : udp_junk) (entries : Z → Z) (fuel : nat).

#[local] Instance tcp_echo_ops : ThreadOps token_id (TcpThread R) := tcp_ops TcpEchoServer.
#[local] Instance udp_echo_ops : ThreadOps utoken (UdpChannel R) := udp_ops (udp_echo fuel) (fun _ => UaRet).
Definition tcp_worker : Type := Worker token_id (TcpThread R).
Definition udp_worker : Type := Worker utoken (UdpChannel R).

(** A worker per CPU of the list, or per -1; [next] is the next group id.  The
    workers take their first steps when all of them are there: the steps of
    [start] itself are in Startup.v. *)
Fixpoint start_tcp (s : TcpServer) (ids : list Z) (next : Z) : result (list tcp_worker * Z) :=
  match ids with
  | [] => Ok ([], next)
  | cpu :: ids =>
      t ← TcpThread_do_init_resources (uj_base j) (TcpServer_config s) next;
      '(ws, next) ← start_tcp s ids (i32 (next + 1));
      Ok (Worker_new cpu (ts_queue_depth s) (entries (ts_queue_depth s)) [] t :: ws, next)
  end.
Fixpoint start_udp (s : UdpServer) (ids : list Z) (next : Z) : result (list udp_worker * Z) :=
  match ids with
  | [] => Ok ([], next)
  | cpu :: ids =>
      c ← UdpThread_init j (UdpServer_config s) next;
      '(ws, next) ← start_udp s ids (i32 (next + 1));
      Ok (Worker_new cpu (us_queue_depth s) (entries (us_queue_depth s)) [UTokRead] c :: ws, next)
  end.

Record main_state := mkMain {
  ms_running : bool;               (* g_running *)
  ms_point : main_point;
  ms_options : ServerOptions;
  ms_threads : Z;
  ms_tcp : list tcp_worker;        (* the workers of [tcp], none if it is null *)
  ms_udp : list udp_worker;
  ms_next_group_id : Z;
  ms_out : list output
}.
Definition main_init : main_state := mkMain true MpInit default_options 0 [] [] 0 [].

Definition ms_to (st : main_state) (pc : main_point) (out : list output) : main_state :=
  mkMain (ms_running st) pc (ms_options st) (ms_threads st) (ms_tcp st) (ms_udp st) (ms_next_group_id st) (ms_out st ++ out).

Definition ms_with_tcp (st : main_state) (ws : list tcp_worker) : main_state :=
  mkMain (ms_running st) (ms_point st) (ms_options st) (ms_threads st) ws (ms_udp st) (ms_next_group_id st) (ms_out st).
Definition ms_with_udp (st : main_state) (ws : list udp_worker) : main_state :=
  mkMain (ms_running st) (ms_point st) (ms_options st) (ms_threads st) (ms_tcp st) ws (ms_next_group_id st) (ms_out st).

(** One step of the main thread; [i] is the worker a destructor of a vector
    takes next. *)
Definition main_thread (argv : list string) (i : nat) (st : main_state) : result main_state :=
  let o := ms_options st in
  match ms_point st with
  | MpInit =>
      o ← parse_args argv default_options;
      r ← echo_main hw argv;
      match r with
      | inl code =>
          Ok (ms_to st (MpReturned code)
            (if config_valid o then config_lines (worker_count o hw) o ++ [OutNoProtocol] else [OutInvalidSizes]))
      | inr (threads, o) =>
          Ok (mkMain (ms_running st) MpTcp o threads [] [] (ms_next_group_id st) (ms_out st ++ config_lines threads o))
      end
  | MpTcp =>
      if so_run_tcp o then
        s ← TcpEchoServer_new hw 8080 (ms_threads st) o (so_cpu_affinity o);
        ids ← Server_start (sv_cpu_affinity (ts_base s)) (Server_get_thread_nums (ts_base s)) cpus;
        '(ws, next) ← start_tcp s ids (ms_next_group_id st);
        Ok (mkMain (ms_running st) MpUdp o (ms_threads st) ws (ms_udp st) next (ms_out st ++ [OutTcpListening]))
      else Ok (ms_to st MpUdp [])
  | MpUdp =>
      if so_run_udp o then
        s ← UdpEchoServer_new hw 8081 (ms_threads st) o (so_cpu_affinity o);
        ids ← UdpServer_start (sv_cpu_affinity (us_base s)) (Server_get_thread_nums (us_base s)) cpus;
        '(ws, next) ← start_udp s ids (ms_next_group_id st);
        Ok (mkMain (ms_running st) MpLoop o (ms_threads st) (ms_tcp st) ws next (ms_out st ++ [OutUdpListening; OutPressCtrlC]))
      else Ok (ms_to st MpLoop [OutPressCtrlC])
  | MpLoop => Ok (if ms_running st then st else ms_to st MpDestroy [OutShuttingDown])
  | MpDestroy =>
      (* [udp] is declared last and destroyed first *)
      if negb (all_gone (ms_udp st)) then
        Ok (ms_with_udp st (destroy_threads i (ms_udp st)))
      else if negb (all_gone (ms_tcp st)) then
        Ok (ms_with_tcp st (destroy_threads i (ms_tcp st)))
      else Ok (ms_to st (MpReturned 0) [])
  | MpReturned _ => Ok st
  end.

Inductive main_event :=
  | MeMain (i : nat)
  | MeSignal                       (* SIGINT or SIGTERM *)
  | MeTcp (i : nat) (e : wo_event)
  | MeUdp (i : nat) (e : wo_event).

(** A step of the worker at index [i]. *)
Definition step_nth {T S} `{ThreadOps T S} `{DestroyedOps T} (i : nat) (e : wo_event) (ws : list (Worker T S))
    : result (list (Worker T S)) :=
  match ws !! i with
  | Some w => if not_destroy e then w ← wo_step w e; Ok (<[i := w]> ws) else Ok ws
  | None => Ok ws
  end.

(** The signal handlers. *)
Definition ms_signal (st : main_state) : main_state :=
  mkMain false (ms_point st) (ms_options st) (ms_threads st) (ms_tcp st) (ms_udp st) (ms_next_group_id st) (ms_out st).

Definition has_returned (pc : main_point) : bool := match pc with MpReturned _ => true | _ => false end.

Definition main_step (argv : list string) (st : main_state) (e : main_event) : result main_state :=
  if has_returned (ms_point st) then Ok st else
  match e with
  | MeMain i => main_thread argv i st
  | MeSignal => Ok (ms_signal st)
  | MeTcp i e => ws ← step_nth i e (ms_tcp st); Ok (ms_with_tcp st ws)
  | MeUdp i e => ws ← step_nth i e (ms_udp st); Ok (ms_with_udp st ws)
  end.

Fixpoint main_run (argv : list string) (st : main_state) (es : list main_event) : result main_state :=
  match es with [] => Ok st | e :: es => st ← main_step argv st e; main_run argv st es end.
End main.

(** ** The workers of one server *)
Section workers.
Context {T S : Type} {Hops : ThreadOps T S} {Hdead : DestroyedOps T}.
Implicit Types (w : Worker T S) (ws : list (Worker T S)).

Definition cpu_of w : Z := it_cpu_id (wo_thread w).

Lemma wo_step_life w e w' : wo_ok w → not_destroy e = true → wo_step w e = Ok w' → wo_lifetime w' = wo_lifetime w.
Proof.
  intros Hw He H. destruct e as [ret|i res flags|]; cbn [wo_step] in H; [| |done].
  - ok_inv. destruct (thread_wo_ok _ _ _ Hw ltac:(done)) as [_ F]. apply (fr_life _ _ F).
  - rewrite (wk_count _ Hw) in H. cbn [Z.ltb Z.compare] in H. destruct (ir_kernel _ !! i) as [[]|]; ok_inv; try done;
      match goal with E : io_step _ _ = Ok _ |- _ => apply kernel_same in E as (_ & _ & _ & _ & Et & _) end; unfold wo_lifetime; cbn; by rewrite Et.
Qed.

(** Workers that all satisfy the invariant of Shutdown.v. *)
Definition ws_ok ws : Prop := Forall wo_ok ws.

Lemma fmap_insert_same {A B} (f : A → B) (l : list A) i x y : l !! i = Some x → f y = f x → f <$> <[i := y]> l = f <$> l.
Proof.
  intros Hi E. rewrite list_fmap_insert, E. apply list_insert_id. by rewrite list_lookup_fmap, Hi.
Qed.

Lemma step_nth_ok i e ws ws' :
  ws_ok ws → step_nth i e ws = Ok ws' →
  ws_ok ws' ∧ wo_lifetime <$> ws' = wo_lifetime <$> ws ∧ cpu_of <$> ws' = cpu_of <$> ws.
Proof.
  intros Hw H. unfold step_nth in H. destruct (ws !! i) as [w|] eqn:Ei; [|by ok_inv].
  destruct (not_destroy e) eqn:He; ok_inv; [|done].
  pose proof (proj1 (Forall_lookup _ _) Hw _ _ Ei) as Hwi.
  match goal with E : wo_step w e = Ok ?x |- _ => pose proof (wo_step_ok _ _ _ Hwi E); pose proof (wo_step_life _ _ _ Hwi He E);
    pose proof (wo_step_class _ _ _ Hwi E) as [? _] end.
  split; [by apply Forall_insert|]. split; by apply (fmap_insert_same _ _ _ w).
Qed.

Lemma destroy_threads_ok i ws :
  ws_ok ws → ws_ok (destroy_threads i ws) ∧ cpu_of <$> destroy_threads i ws = cpu_of <$> ws.
Proof.
  intros Hw. unfold destroy_threads. case_match; [|done]. destruct (ws !! i) as [w|] eqn:Ei.
  - rewrite (list_alter_lookup _ _ _ _ Ei). pose proof (proj1 (Forall_lookup _ _) Hw _ _ Ei) as Hwi. split.
    + apply Forall_insert; [done|]. by apply destroy_wo_ok.
    + apply (fmap_insert_same _ _ _ w); [done|]. by apply (wo_step_class w WoDestroy).
  - enough (alter destroy_worker i ws = ws) as -> by done. apply list_eq. intros k. destruct (decide (i = k)) as [<-|].
    + by rewrite list_lookup_alter_eq, Ei.
    + by rewrite list_lookup_alter_ne.
Qed.

Definition all_alive ws : Prop := Forall (fun w => wo_lifetime w = LtAlive) ws.

Lemma same_life_alive ws ws' : wo_lifetime <$> ws' = wo_lifetime <$> ws → all_alive ws → all_alive ws'.
Proof.
  unfold all_alive. revert ws. induction ws' as [|w' ws' IH]; intros [|w ws] E H; try done.
  injection E as E1 E2. apply Forall_cons in H as [? ?]. constructor; [congruence|by eapply IH].
Qed.
Lemma same_life_gone ws ws' : wo_lifetime <$> ws' = wo_lifetime <$> ws → all_gone ws' = all_gone ws.
Proof.
  unfold all_gone. revert ws. induction ws' as [|w' ws' IH]; intros [|w ws] E; try done. injection E as E1 E2. cbn. rewrite E1. f_equal. by apply IH.
Qed.
Lemma all_gone_spec ws : all_gone ws = true ↔ Forall (fun w => wo_lifetime w = LtGone) ws.
Proof.
  unfold all_gone. rewrite <- Is_true_true, forallb_True. split; (intros H; eapply Forall_impl; [exact H|]; intros w; apply bool_decide_spec).
Qed.
End workers.

Lemma Server_start_length aff n cpus ids : 0 ≤ n → Server_start aff n cpus = Ok ids → Z.of_nat (length ids) = n.
Proof.
  intros Hn H. unfold Server_start in H. apply bind_inv in H as ([] & _ & H).
  enough (Hgo : ∀ k i acc ids, for_up k i (fun i cpu_ids => cpu_id ← (if aff then arr_get cpus (i * 2) else Ok (-1)); Ok (cpu_ids ++ [cpu_id])) acc
    = Ok ids → length ids = (length acc + k)%nat).
  { apply Hgo in H. rewrite H. cbn. lia. }
  clear. induction k as [|k IH]; intros i acc ids H; cbn in H; ok_inv; [lia|]. apply IH in H. rewrite H, length_app. cbn. lia.
Qed.

(** ** What holds in every run of the program *)
Section invariant.
Context {R : Type} {Hlib : BufRingLib R} {Hrm : RecvmsgLib}.
Context (hw : Z) (cpus : list Z) (j : udp_junk) (entries : Z → Z) (fuel : nat) (argv : list string).
#[local] Existing Instance tcp_echo_ops.
#[local] Instance udp_echo_ops' : ThreadOps utoken (UdpChannel R) := udp_echo_ops fuel.
Implicit Types (st : main_state (R := R)) (es : list main_event).

Lemma start_tcp_ok s ids : ∀ next ws next',
  start_tcp j entries s ids next = Ok (ws, next') →
  ws_ok (S := TcpThread R) ws ∧ all_alive ws ∧ cpu_of <$> ws = ids.
Proof.
  induction ids as [|cpu ids IH]; intros next ws next' H; cbn [start_tcp] in H; ok_inv; [by repeat split; constructor|].
  match goal with E : _ = Ok (_, next') |- _ => destruct (IH _ _ _ E) as (Ho & Ha & Hc) end.
  split; [constructor; [apply Worker_new_ok|done]|]. split; [by constructor|]. cbn. by rewrite Hc.
Qed.
Lemma start_udp_ok s ids : ∀ next ws next',
  start_udp j entries s ids next = Ok (ws, next') →
  ws_ok (S := UdpChannel R) ws ∧ all_alive ws ∧ cpu_of <$> ws = ids.
Proof.
  induction ids as [|cpu ids IH]; intros next ws next' H; cbn [start_udp] in H; ok_inv; [by repeat split; constructor|].
  match goal with E : _ = Ok (_, next') |- _ => destruct (IH _ _ _ E) as (Ho & Ha & Hc) end.
  split; [constructor; [apply Worker_new_ok|done]|]. split; [by constructor|]. cbn. by rewrite Hc.
Qed.

(** Before the destruction all workers are alive; the TCP workers are alive
    until the UDP workers are gone. *)
Definition point_ok st : Prop :=
  match ms_point st with
  | MpInit | MpTcp => ms_tcp st = [] ∧ ms_udp st = []
  | MpUdp => all_alive (ms_tcp st) ∧ ms_udp st = []
  | MpLoop => all_alive (ms_tcp st) ∧ all_alive (ms_udp st)
  | MpDestroy => ms_running st = false ∧ (all_gone (ms_udp st) = true ∨ all_alive (ms_tcp st))
  | MpReturned code =>
      code = 0 ∧ ms_running st = false ∧ all_gone (ms_tcp st) = true ∧ all_gone (ms_udp st) = true ∨
      code = 2 ∧ ms_tcp st = [] ∧ ms_udp st = []
  end.

(** The workers of a server are those of [start]. *)
Definition placed (o : ServerOptions) (threads : Z) (run : bool) (ids : list Z) : Prop :=
  if run then Server_start (so_cpu_affinity o) threads cpus = Ok ids else ids = [].
Definition cpus_ok st : Prop :=
  match ms_point st with
  | MpInit | MpTcp => True
  | MpUdp => placed (ms_options st) (ms_threads st) (so_run_tcp (ms_options st)) (cpu_of <$> ms_tcp st)
  | MpLoop | MpDestroy | MpReturned 0 =>
      placed (ms_options st) (ms_threads st) (so_run_tcp (ms_options st)) (cpu_of <$> ms_tcp st) ∧
      placed (ms_options st) (ms_threads st) (so_run_udp (ms_options st)) (cpu_of <$> ms_udp st)
  | MpReturned _ => True
  end.

Record main_ok es st : Prop := {
  mo_signal : ms_running st = false → MeSignal ∈ es;
  mo_tcp : ws_ok (ms_tcp st);
  mo_udp : ws_ok (ms_udp st);
  mo_point : point_ok st;
  mo_cpus : cpus_ok st
}.

Lemma main_signal_mono es e st : (ms_running st = false → MeSignal ∈ es) → ms_running st = false → MeSignal ∈ es ++ [e].
Proof. intros H E. apply elem_of_app. left. auto. Qed.

Lemma echo_main_code args code : echo_main hw args = Ok (inl code) → code = 2.
Proof. unfold echo_main. intros H. ok_inv. repeat case_match; by simplify_eq. Qed.

Lemma TcpEchoServer_new_base port threads o aff s :
  TcpEchoServer_new hw port threads o aff = Ok s → sv_cpu_affinity (ts_base s) = aff ∧ Server_get_thread_nums (ts_base s) = threads.
Proof. unfold TcpEchoServer_new, TcpServer_new, Server_new. intros H. by ok_inv. Qed.
Lemma UdpEchoServer_new_base port threads o aff s :
  UdpEchoServer_new hw port threads o aff = Ok s → sv_cpu_affinity (us_base s) = aff ∧ Server_get_thread_nums (us_base s) = threads.
Proof. unfold UdpEchoServer_new, UdpServer_new, Server_new. intros H. by ok_inv. Qed.

Lemma main_start_tcp_ok es e i st st' :
  main_ok es st → ms_point st = MpTcp → main_thread hw cpus j entries argv i st = Ok st' → main_ok (es ++ [e]) st'.
Proof.
  intros [Hs Ht Hu Hp Hc] Ep H. unfold main_thread in H. unfold point_ok in Hp. rewrite Ep in H, Hp. destruct Hp as [Et Eu].
  pose proof (main_signal_mono es e st Hs) as Hs'. destruct (so_run_tcp (ms_options st)) eqn:Er; ok_inv.
  - match goal with E : TcpEchoServer_new _ _ _ _ _ = Ok _ |- _ => apply TcpEchoServer_new_base in E as [Ea En] end.
    match goal with E : start_tcp _ _ _ _ _ = Ok _ |- _ => apply start_tcp_ok in E as (Ho & Hl & Hi) end.
    split; try done; unfold cpus_ok, placed; cbn. rewrite Er, Hi, <- Ea, <- En. done.
  - split; try done; unfold point_ok, cpus_ok, placed; cbn; rewrite ?Et, ?Eu, ?Er; [by split; [constructor|]|done].
Qed.

Lemma main_start_udp_ok es e i st st' :
  main_ok es st → ms_point st = MpUdp → main_thread hw cpus j entries argv i st = Ok st' → main_ok (es ++ [e]) st'.
Proof.
  intros [Hs Ht Hu Hp Hc] Ep H. unfold main_thread in H. unfold point_ok in Hp. unfold cpus_ok in Hc. rewrite Ep in H, Hp, Hc.
  destruct Hp as [Et Eu]. pose proof (main_signal_mono es e st Hs) as Hs'. destruct (so_run_udp (ms_options st)) eqn:Er; ok_inv.
  - match goal with E : UdpEchoServer_new _ _ _ _ _ = Ok _ |- _ => apply UdpEchoServer_new_base in E as [Ea En] end.
    match goal with E : start_udp _ _ _ _ _ = Ok _ |- _ => apply start_udp_ok in E as (Ho & Hl & Hi) end.
    split; try done; unfold cpus_ok; cbn. split; [done|]. unfold placed. by rewrite Er, Hi, <- Ea, <- En.
  - split; try done; unfold point_ok, cpus_ok; cbn; rewrite ?Eu; [by split; [|constructor]|]. split; [done|]. unfold placed. by rewrite Er.
Qed.

Lemma main_destroy_ok es e i st st' :
  main_ok es st → ms_point st = MpDestroy → main_thread hw cpus j entries argv i st = Ok st' → main_ok (es ++ [e]) st'.
Proof.
  intros [Hs Ht Hu Hp Hc] Ep H. unfold main_thread in H. unfold point_ok in Hp. unfold cpus_ok in Hc. rewrite Ep in H, Hp, Hc.
  destruct Hp as [Hrun Hp]. pose proof (main_signal_mono es e st Hs) as Hs'.
  destruct (all_gone (ms_udp st)) eqn:Eu; cbn [negb] in H; [destruct (all_gone (ms_tcp st)) eqn:Et; cbn [negb] in H|]; ok_inv.
  - split; try done; unfold point_ok; cbn. by left.
  - destruct (destroy_threads_ok i _ Ht) as [H1 H2]. split; try done; unfold point_ok, cpus_ok; cbn; rewrite Ep; [by split; [|left]|by rewrite H2].
  - destruct (destroy_threads_ok i _ Hu) as [H1 H2]. split; try done; unfold point_ok, cpus_ok; cbn; rewrite Ep; [|by rewrite H2].
    split; [done|]. destruct Hp; [done|by right].
Qed.

Lemma main_thread_ok es e i st st' :
  main_ok es st → (∀ code, ms_point st ≠ MpReturned code) → main_thread hw cpus j entries argv i st = Ok st' → main_ok (es ++ [e]) st'.
Proof.
  intros Hok Hne H. destruct (ms_point st) eqn:Ep; [|by eapply main_start_tcp_ok|by eapply main_start_udp_ok| |by eapply main_destroy_ok|by destruct (Hne code)].
  - destruct Hok as [Hs Ht Hu Hp Hc]. pose proof (main_signal_mono es e st Hs) as Hs'. unfold main_thread in H. unfold point_ok in Hp.
    rewrite Ep in H, Hp. destruct Hp as [Et Eu]. ok_inv. match goal with E : echo_main _ _ = Ok ?x |- _ => destruct x as [code|[threads o]] eqn:Ex end; ok_inv.
    + match goal with E : echo_main _ _ = Ok _ |- _ => apply echo_main_code in E as -> end.
      split; try done; unfold point_ok; cbn. by right.
    + split; try done; constructor.
  - destruct Hok as [Hs Ht Hu Hp Hc]. pose proof (main_signal_mono es e st Hs) as Hs'. unfold main_thread in H. rewrite Ep in H. unfold point_ok in Hp.
    unfold cpus_ok in Hc. rewrite Ep in Hp, Hc.
    assert (ms_running st = true ∨ ms_running st = false) as [Er|Er] by (destruct (ms_running st); auto); rewrite Er in H; ok_inv.
    + split; try done; unfold point_ok, cpus_ok; by rewrite Ep.
    + split; try done; unfold point_ok; cbn. split; [done|]. right. apply Hp.
Qed.

(** Steps of workers change nothing main looks at. *)
Lemma main_with_tcp_ok es e st ws :
  main_ok es st → ws_ok ws → wo_lifetime <$> ws = wo_lifetime <$> ms_tcp st → cpu_of <$> ws = cpu_of <$> ms_tcp st →
  main_ok (es ++ [e]) (ms_with_tcp st ws).
Proof.
  intros [Hs Ht Hu Hp Hc] Ho El Ec. pose proof (main_signal_mono es e st Hs). pose proof (same_life_alive _ _ El).
  pose proof (same_life_gone _ _ El) as Eg. split; try done; [|unfold cpus_ok in *; cbn; by rewrite Ec].
  assert (ms_tcp st = [] → ws = []) as Hn by (intros E; rewrite E in El; by apply fmap_nil_inv in El).
  unfold point_ok in *. cbn [ms_point ms_tcp ms_udp ms_running ms_with_tcp ms_with_udp]. rewrite ?Eg. destruct (ms_point st); tauto.
Qed.
Lemma main_with_udp_ok es e st ws :
  main_ok es st → ws_ok ws → wo_lifetime <$> ws = wo_lifetime <$> ms_udp st → cpu_of <$> ws = cpu_of <$> ms_udp st →
  main_ok (es ++ [e]) (ms_with_udp st ws).
Proof.
  intros [Hs Ht Hu Hp Hc] Ho El Ec. pose proof (main_signal_mono es e st Hs). pose proof (same_life_alive _ _ El).
  pose proof (same_life_gone _ _ El) as Eg. split; try done; [|unfold cpus_ok in *; cbn; by rewrite Ec].
  assert (ms_udp st = [] → ws = []) as Hn by (intros E; rewrite E in El; by apply fmap_nil_inv in El).
  unfold point_ok in *. cbn [ms_point ms_tcp ms_udp ms_running ms_with_tcp ms_with_udp]. rewrite ?Eg. destruct (ms_point st); tauto.
Qed.

Lemma main_step_ok es e st st' :
  main_ok es st → main_step hw cpus j entries fuel argv st e = Ok st' → main_ok (es ++ [e]) st'.
Proof.
  intros Hok H. unfold main_step in H. destruct (has_returned (ms_point st)) eqn:Er.
  { ok_inv. destruct Hok as [Hs Ht Hu Hp Hc]. split; try done. by apply main_signal_mono. }
  destruct e as [i| |i e|i e].
  - eapply main_thread_ok; [done| |done]. intros code E. by rewrite E in Er.
  - ok_inv. destruct Hok as [Hs Ht Hu Hp Hc]. split; try done; [intros _; apply elem_of_app; right; by left|].
    unfold point_ok in *. cbn. destruct (ms_point st); try done. by destruct Hp.
  - ok_inv. match goal with E : step_nth _ _ _ = Ok _ |- _ => destruct (step_nth_ok _ _ _ _ (mo_tcp _ _ Hok) E) as (Ho & El & Ec) end.
    by apply main_with_tcp_ok.
  - ok_inv. match goal with E : step_nth _ _ _ = Ok _ |- _ => destruct (step_nth_ok _ _ _ _ (mo_udp _ _ Hok) E) as (Ho & El & Ec) end.
    by apply main_with_udp_ok.
Qed.

Lemma main_run_ok es : ∀ before st st', main_ok before st → main_run hw cpus j entries fuel argv st es = Ok st' → main_ok (before ++ es) st'.
Proof.
  induction es as [|e es IH]; intros before st st' Hok H; cbn in H; ok_inv; [by rewrite app_nil_r|].
  rewrite cons_middle, app_assoc. eapply IH; [|done]. by eapply main_step_ok.
Qed.

Lemma main_init_ok : main_ok [] (main_init (R := R)).
Proof. split; try done; constructor. Qed.
End invariant.

(** C7. The echo server ends only by a signal, in order.  In every run of the
    program, with any command line, any kernel and any interleaving of main
    and the workers: the workers are alive until main leaves its loop, which
    it does only after SIGINT or SIGTERM; the TCP workers are not touched
    before all UDP workers are gone; the exit code is 0 only when every worker
    of both servers has been joined, and 2 only when none was ever started.
    Once the servers run, the workers of each are those [start] placed, and
    with both protocols the UDP worker [i] has the same CPU as the TCP worker
    [i]. *)
Theorem echo_server_lifecycle {R} {Hlib : BufRingLib R} {Hrm : RecvmsgLib} hw cpus j entries fuel argv es (st : main_state (R := R)) :
  main_run hw cpus j entries fuel argv main_init es = Ok st →
  match ms_point st with
  | MpReturned code =>
      code = 0 ∧ MeSignal ∈ es ∧ Forall (fun w => wo_lifetime w = LtGone) (ms_tcp st) ∧
        Forall (fun w => wo_lifetime w = LtGone) (ms_udp st) ∨
      code = 2 ∧ ms_tcp st = [] ∧ ms_udp st = []
  | MpDestroy => MeSignal ∈ es ∧ (Forall (fun w => wo_lifetime w = LtGone) (ms_udp st) ∨ all_alive (ms_tcp st))
  | _ => all_alive (ms_tcp st) ∧ all_alive (ms_udp st)
  end ∧
  (ms_point st = MpLoop ∨ ms_point st = MpDestroy ∨ ms_point st = MpReturned 0 →
   placed cpus (ms_options st) (ms_threads st) (so_run_tcp (ms_options st)) (cpu_of <$> ms_tcp st) ∧
   placed cpus (ms_options st) (ms_threads st) (so_run_udp (ms_options st)) (cpu_of <$> ms_udp st) ∧
   (so_run_tcp (ms_options st) = true → so_run_udp (ms_options st) = true → cpu_of <$> ms_udp st = cpu_of <$> ms_tcp st)).
Proof.
  intros H. destruct (main_run_ok hw cpus j entries fuel argv es [] _ _ (main_init_ok cpus) H) as [Hs Ht Hu Hp Hc]. split.
  - unfold point_ok in Hp. destruct (ms_point st); rewrite ?all_gone_spec in Hp; try done.
    + destruct Hp as [-> ->]. by split; constructor.
    + destruct Hp as [-> ->]. by split; constructor.
    + destruct Hp as [? ->]. by split; [|constructor].
    + destruct Hp as [? ?]. split; [by apply Hs|done].
    + destruct Hp as [(-> & ? & ?)|?]; [left|by right]. split; [done|]. split; [by apply Hs|done].
  - intros Hpt. assert (placed cpus (ms_options st) (ms_threads st) (so_run_tcp (ms_options st)) (cpu_of <$> ms_tcp st) ∧
      placed cpus (ms_options st) (ms_threads st) (so_run_udp (ms_options st)) (cpu_of <$> ms_udp st)) as [P1 P2].
    { unfold cpus_ok in Hc. by destruct Hpt as [E|[E|E]]; rewrite E in Hc. }
    split; [done|]. split; [done|]. intros Er Eu. unfold placed in P1, P2. rewrite Er in P1. rewrite Eu in P2. congruence.
Qed.

(** ** A worker that waits *)
Section waiting.
Context {T S : Type} {Hops : ThreadOps T S} {Hdead : DestroyedOps T}.
Implicit Types (w : Worker T S) (ws : list (Worker T S)).

Definition waits (kernel : list (user_data T)) (i : nat) ws : Prop := ∃ w, ws !! i = Some w ∧ idle kernel w.

Lemma waits_step kernel i k e ws ws' :
  waits kernel i ws → (k = i → quiet kernel e) → step_nth k e ws = Ok ws' → waits kernel i ws'.
Proof.
  intros (w & Hi & Hw) Hq H. unfold step_nth in H. destruct (ws !! k) as [v|] eqn:Ek; [|ok_inv; by exists w].
  destruct (not_destroy e); ok_inv; [|by exists w]. destruct (decide (k = i)) as [->|Hne].
  - rewrite Hi in Ek. injection Ek as <-. destruct (idle_step kernel w e Hw (Hq eq_refl)) as (w' & E & Hw').
    exists w'. split; [|done]. rewrite list_lookup_insert_eq by (by apply lookup_lt_Some in Hi). congruence.
  - exists w. split; [|done]. by rewrite list_lookup_insert_ne.
Qed.

Lemma waits_destroy kernel i k ws : waits kernel i ws → waits kernel i (destroy_threads k ws).
Proof.
  intros (w & Hi & Hw). unfold destroy_threads. case_match; [|by exists w]. destruct (decide (k = i)) as [->|Hne].
  - destruct (idle_step kernel w WoDestroy Hw I) as (w' & E & Hw'). exists w'. split; [|done].
    rewrite list_lookup_alter_eq, Hi. cbn in *. congruence.
  - exists w. split; [|done]. by rewrite list_lookup_alter_ne.
Qed.

Lemma waits_not_gone kernel i ws : waits kernel i ws → all_gone ws = false.
Proof.
  intros (w & Hi & Hw & Hpc & _). destruct (all_gone ws) eqn:E; [|done]. apply all_gone_spec in E.
  pose proof (proj1 (Forall_lookup _ _) E _ _ Hi) as Hg. cbn in Hg. apply (wk_gone _ Hw) in Hg. congruence.
Qed.
End waiting.

Section never_stops.
Context {R : Type} {Hlib : BufRingLib R} {Hrm : RecvmsgLib}.
Context (hw : Z) (cpus : list Z) (j : udp_junk) (entries : Z → Z) (fuel : nat) (argv : list string).
#[local] Existing Instance tcp_echo_ops.
#[local] Instance udp_fuel_ops : ThreadOps utoken (UdpChannel R) := udp_echo_ops fuel.
Implicit Types (st : main_state (R := R)) (es : list main_event).

(** No operation of the worker completes but the read of its eventfd. *)
Definition quiet_tcp (i : nat) (kernel : list (user_data token_id)) (e : main_event) : Prop :=
  match e with MeTcp k e => k = i → quiet kernel e | _ => True end.
Definition quiet_udp (i : nat) (kernel : list (user_data utoken)) (e : main_event) : Prop :=
  match e with MeUdp k e => k = i → quiet kernel e | _ => True end.

Definition tcp_stays kernel i st : Prop :=
  waits kernel i (ms_tcp st) ∧ (ms_point st = MpUdp ∨ ms_point st = MpLoop ∨ ms_point st = MpDestroy).
Definition udp_stays kernel i st : Prop :=
  waits kernel i (ms_udp st) ∧ (ms_point st = MpLoop ∨ ms_point st = MpDestroy).

Lemma tcp_stays_step kernel i e st st' :
  tcp_stays kernel i st → quiet_tcp i kernel e → main_step hw cpus j entries fuel argv st e = Ok st' → tcp_stays kernel i st'.
Proof.
  intros [Hw Hp] Hq H. pose proof (waits_not_gone _ _ _ Hw) as Hg. unfold main_step in H.
  assert (has_returned (ms_point st) = false) as Hr by (by destruct Hp as [-> | [-> | ->]]). rewrite Hr in H.
  destruct e as [k| |k e|k e]; [|by ok_inv|ok_inv; split; [by eapply waits_step|done]|by ok_inv].
  unfold main_thread in H. destruct Hp as [E|[E|E]]; rewrite E in H.
  - destruct (so_run_udp (ms_options st)); ok_inv; split; cbn; auto.
  - destruct (ms_running st); ok_inv; split; cbn; auto.
  - rewrite Hg in H. destruct (negb (all_gone (ms_udp st))); cbn [negb] in H; ok_inv; split; cbn; auto. by apply waits_destroy.
Qed.

Lemma udp_stays_step kernel i e st st' :
  udp_stays kernel i st → quiet_udp i kernel e → main_step hw cpus j entries fuel argv st e = Ok st' → udp_stays kernel i st'.
Proof.
  intros [Hw Hp] Hq H. pose proof (waits_not_gone _ _ _ Hw) as Hg. unfold main_step in H.
  assert (has_returned (ms_point st) = false) as Hr by (by destruct Hp as [-> | ->]). rewrite Hr in H.
  destruct e as [k| |k e|k e]; [|by ok_inv|by ok_inv|ok_inv; split; [by eapply waits_step|done]].
  unfold main_thread in H. destruct Hp as [E|E]; rewrite E in H.
  - destruct (ms_running st); ok_inv; split; cbn; auto.
  - rewrite Hg in H. cbn [negb] in H. ok_inv. split; cbn; auto. by apply waits_destroy.
Qed.

Lemma stays_run (P : main_event → Prop) (Q : main_state → Prop) es :
  (∀ e st st', Q st → P e → main_step hw cpus j entries fuel argv st e = Ok st' → Q st') →
  ∀ st st', Q st → Forall P es → main_run hw cpus j entries fuel argv st es = Ok st' → Q st'.
Proof.
  intros Hstep. induction es as [|e es IH]; intros st st' HQ HP H; cbn in H; ok_inv; [done|].
  apply Forall_cons in HP as [He HP]. eapply IH; [|done|done]. eauto.
Qed.

(** A worker that waits, in a state of a run. *)
Lemma waiting_tcp es st i w :
  main_run hw cpus j entries fuel argv main_init es = Ok st → ms_tcp st !! i = Some w →
  it_pc (wo_thread w) = IoWait → ir_cq (it_ring (wo_thread w)) = [] → tcp_stays (ir_kernel (it_ring (wo_thread w))) i st.
Proof.
  intros H Hi Hpc Hcq. destruct (main_run_ok hw cpus j entries fuel argv es [] _ _ (main_init_ok cpus) H) as [_ Ht _ Hp _].
  assert (waits (ir_kernel (it_ring (wo_thread w))) i (ms_tcp st)) as Hw.
  { exists w. split; [done|]. split; [by apply (proj1 (Forall_lookup _ _) Ht _ _ Hi)|done]. }
  split; [done|]. apply waits_not_gone in Hw. unfold point_ok in Hp.
  destruct (ms_point st); auto; try (destruct Hp as [Hp _]; by rewrite Hp in Hi).
  destruct Hp as [(_ & _ & Hp & _)|(_ & Hp & _)]; [congruence|by rewrite Hp in Hi].
Qed.
Lemma waiting_udp es st i w :
  main_run hw cpus j entries fuel argv main_init es = Ok st → ms_udp st !! i = Some w →
  it_pc (wo_thread w) = IoWait → ir_cq (it_ring (wo_thread w)) = [] → udp_stays (ir_kernel (it_ring (wo_thread w))) i st.
Proof.
  intros H Hi Hpc Hcq. destruct (main_run_ok hw cpus j entries fuel argv es [] _ _ (main_init_ok cpus) H) as [_ _ Hu Hp _].
  assert (waits (ir_kernel (it_ring (wo_thread w))) i (ms_udp st)) as Hw.
  { exists w. split; [done|]. split; [by apply (proj1 (Forall_lookup _ _) Hu _ _ Hi)|done]. }
  split; [done|]. apply waits_not_gone in Hw. unfold point_ok in Hp.
  destruct (ms_point st); auto; try (destruct Hp as [_ Hp]; by rewrite Hp in Hi).
  destruct Hp as [(_ & _ & _ & Hp)|(_ & _ & Hp)]; [congruence|by rewrite Hp in Hi].
Qed.

(** C35. Ctrl+C does not stop an idle echo server.  Take any run of the program
    to a state in which some worker waits for completions with none queued.
    As long as no operation of that worker completes, main does not return,
    whatever signals arrive and whatever main, the other workers and the
    kernel do: main starts to destroy the servers and waits forever in the
    join of that worker, or of one before it. *)
Theorem idle_server_is_never_stopped es st es' st' i :
  main_run hw cpus j entries fuel argv main_init es = Ok st →
  (∃ w, ms_tcp st !! i = Some w ∧ it_pc (wo_thread w) = IoWait ∧ ir_cq (it_ring (wo_thread w)) = [] ∧
     Forall (quiet_tcp i (ir_kernel (it_ring (wo_thread w)))) es') ∨
  (∃ w, ms_udp st !! i = Some w ∧ it_pc (wo_thread w) = IoWait ∧ ir_cq (it_ring (wo_thread w)) = [] ∧
     Forall (quiet_udp i (ir_kernel (it_ring (wo_thread w)))) es') →
  main_run hw cpus j entries fuel argv st es' = Ok st' →
  ∀ code, ms_point st' ≠ MpReturned code.
Proof.
  intros H [(w & Hi & Hpc & Hcq & Hq)|(w & Hi & Hpc & Hcq & Hq)] H' code E.
  - pose proof (waiting_tcp _ _ _ _ H Hi Hpc Hcq) as Hw.
    destruct (stays_run _ (tcp_stays _ i) es' (fun e s s' => tcp_stays_step _ i e s s') st st' Hw Hq H') as [_ Hp].
    rewrite E in Hp. by destruct Hp as [|[|]].
  - pose proof (waiting_udp _ _ _ _ H Hi Hpc Hcq) as Hw.
    destruct (stays_run _ (udp_stays _ i) es' (fun e s s' => udp_stays_step _ i e s s') st st' Hw Hq H') as [_ Hp].
    rewrite E in Hp. by destruct Hp.
Qed.
End never_stops.

(** ** A run *)
Definition main_junk : udp_junk := mkUdpJunk run_junk (fun _ => mkMsghdrSlot false None 0 None 0 [] 0).
Definition small_argv : list string :=
  ["--threads"; "1"; "--buf-pool-size"; "2"; "--buf-ring-size"; "2"; "--channel-capacity"; "2"; "--pool-size"; "1";
   "--msghdr-pool-size"; "2"; "--queue-depth"; "8"]%string.
Definition small_run (st : main_state (R := list_ring)) (es : list main_event) : result (main_state (R := list_ring)) :=
  main_run 4 [] main_junk (fun d => d) 2 small_argv st es.

(** Both servers are started and the worker of each gets to its wait. *)
Definition start_events : list main_event :=
  [MeMain 0; MeMain 0; MeMain 0; MeTcp 0 (WoThread 8); MeTcp 0 (WoThread 8); MeUdp 0 (WoThread 8); MeUdp 0 (WoThread 8)].
Definition stop_events : list main_event :=
  MeSignal :: replicate 20 (MeMain 0) ++ [MeUdp 0 (WoThread 8); MeTcp 0 (WoThread 8); MeMain 0].


(** With [--sqpoll] both workers poll and are joined. *)
Definition polling_run (es : list main_event) : result (main_state (R := list_ring)) :=
  main_run 4 [0; 1] main_junk (fun d => d) 2 ("--sqpoll"%string :: small_argv) main_init es.
Definition polling_events : list main_event :=
  [MeMain 0; MeMain 0; MeMain 0; MeTcp 0 (WoThread 8); MeUdp 0 (WoThread 8); MeMain 0; MeSignal] ++ replicate 4 (MeMain 0) ++
  replicate 4 (MeUdp 0 (WoThread 8)) ++ replicate 4 (MeMain 0) ++ replicate 4 (MeTcp 0 (WoThread 8)) ++ replicate 2 (MeMain 0).

Lemma polling_inv es st : polling_run es = Ok st → main_run 4 [0; 1] main_junk (fun d => d) 2 ("--sqpoll"%string :: small_argv) main_init es = Ok st.
Proof. exact (fun H => H). Qed.
Lemma small_inv es st st' : small_run st es = Ok st' → main_run 4 [] main_junk (fun d => d) 2 small_argv st es = Ok st'.
Proof. exact (fun H => H). Qed.

Lemma polling_view :
  (st ← polling_run polling_events; Ok (ms_point st, cpu_of <$> ms_tcp st, cpu_of <$> ms_udp st)) = Ok (MpReturned 0, [0], [0]).
Proof. vm_compute. reflexivity. Qed.

Lemma echo_server_lifecycle_witness :
  ∃ st, polling_run polling_events = Ok st ∧ ms_point st = MpReturned 0 ∧ cpu_of <$> ms_tcp st = [0] ∧
    Forall (fun w => wo_lifetime w = LtGone) (ms_tcp st) ∧ Forall (fun w => wo_lifetime w = LtGone) (ms_udp st).
Proof.
  destruct (bind_inv _ _ _ polling_view) as (st & E & V). injection V as Ep Et Eu. exists st.
  destruct (echo_server_lifecycle 4 [0; 1] main_junk (fun d => d) 2 ("--sqpoll"%string :: small_argv) polling_events st (polling_inv _ _ E)) as [H _].
  rewrite Ep in H. destruct H as [(_ & _ & Ht & Hu)|[H _]]; [|discriminate H]. split; [exact E|]. split; [exact Ep|]. split; [exact Et|]. split; [exact Ht|exact Hu].
Defined.

(** Without, the signal leads to a join that never returns. *)
Lemma waiting_view :
  (st ← small_run main_init start_events; st' ← small_run st stop_events;
   Ok (ms_point st, ms_point st', (fun w => (it_pc (wo_thread w), ir_cq (it_ring (wo_thread w)), ir_kernel (it_ring (wo_thread w)))) <$> ms_udp st,
       wo_lifetime <$> ms_udp st', wo_lifetime <$> ms_tcp st')) =
  Ok (MpLoop, MpDestroy, [(IoWait, [], [UdToken UTokRead; UdWakeup])], [LtJoining], [LtAlive]).
Proof. vm_compute. reflexivity. Qed.

Lemma idle_server_is_never_stopped_witness :
  ∃ st st', small_run main_init start_events = Ok st ∧ small_run st stop_events = Ok st' ∧ ∀ code, ms_point st' ≠ MpReturned code.
Proof.
  destruct (bind_inv _ _ _ waiting_view) as (st & E & V). destruct (bind_inv _ _ _ V) as (st' & E' & V').
  exists st, st'. split; [exact E|]. split; [exact E'|]. injection V' as _ _ Hw _ _.
  destruct (ms_udp st) as [|w [|]] eqn:Eu; [discriminate Hw| |discriminate Hw]. injection Hw as Hpc Hcq Hk.
  apply (idle_server_is_never_stopped 4 [] main_junk (fun d => d) 2 small_argv start_events st stop_events st' 0 (small_inv _ _ _ E)); [|exact (small_inv _ _ _ E')].
  right. exists w. split; [by rewrite Eu|]. split; [exact Hpc|]. split; [exact Hcq|]. repeat constructor; done.
Defined.
