(* ===== verification/ConnScale.v ===== *)
(** * ConnScale: the connection scale benchmark

    Models benchmarks/connection_scale.cpp: the client that opens many
    connections to the echo server, holds them and then has every connection
    send its payload and check what comes back, batch by batch, over epoll.

    The kernel, the network and the clock are a world with the system calls as
    operations (class [World]); the program is a function that threads the
    world through.  What the theorems need of the calls is [WorldLaws]: a
    transfer is not longer than asked for, epoll reports registered data, the
    clock moves while the program waits.  What a connection sends, what arrives
    on it and the descriptors that are opened and closed are recorded; the
    program never reads the records. *)
From Stdlib Require Import Ascii.
From stdpp Require Import strings.
From S2P Require Import Prelude Ring BufPool WriteBuf WriteBufStream TcpSend BufRing ReadBuf TcpRecv Awaiter TcpChannel Logger Server IpAddress.

(** ** Connections *)
Inductive State := Connecting | Idle | Sending | Receiving | Complete | Failed.
#[export] Instance State_eq_dec : EqDecision State.
Proof. solve_decision. Defined.

Record Connection := mkConnection { cn_fd : Z; cn_state : State; cn_sent : Z; cn_received : Z }.
Definition Connection_new : Connection := mkConnection (-1) Failed 0 0.
Definition cn_with_fd (c : Connection) fd : Connection := mkConnection fd (cn_state c) (cn_sent c) (cn_received c).
Definition cn_with_state (c : Connection) st : Connection := mkConnection (cn_fd c) st (cn_sent c) (cn_received c).
Definition cn_with_sent (c : Connection) n : Connection := mkConnection (cn_fd c) (cn_state c) n (cn_received c).
Definition cn_with_received (c : Connection) n : Connection := mkConnection (cn_fd c) (cn_state c) (cn_sent c) n.

Record Config := mkConfig {
  cf_address : string;
  cf_port : Z;
  cf_connections : Z;
  cf_hold_seconds : Z;
  cf_payload_size : Z;
  cf_batch_size : Z;
  cf_timeout_seconds : Z
}.
Definition Config_new : Config := mkConfig "127.0.0.1" 8080 10000 2 64 256 30.

(** ** The command line *)

(** [std::strtol] in base 10: the value and what is left of the text; without
    digits nothing is taken. *)
Fixpoint strtol_digits (s : string) (acc : Z) : Z * string :=
  match s with
  | String c s' =>
      let d := Z.of_nat (nat_of_ascii c) - 48 in
      if (0 <=? d) && (d <=? 9) then strtol_digits s' (acc * 10 + d) else (acc, s)
  | EmptyString => (acc, s)
  end.
Definition is_digit (s : string) : bool :=
  match s with String c _ => let d := Z.of_nat (nat_of_ascii c) - 48 in (0 <=? d) && (d <=? 9) | EmptyString => false end.
Fixpoint skip_blanks (s : string) : string :=
  match s with String c s' => if is_blank c then skip_blanks s' else s | EmptyString => s end.
Definition strtol (s : string) : Z * string :=
  let b := skip_blanks s in
  let '(neg, d) :=
    match b with
    | String c r => if bool_decide (c = "-"%char) then (true, r) else if bool_decide (c = "+"%char) then (false, r) else (false, b)
    | EmptyString => (false, b)
    end in
  if is_digit d then
    let '(n, rest) := strtol_digits d 0 in (Z.max (- 2 ^ 63) (Z.min (2 ^ 63 - 1) (if neg : bool then - n else n)), rest)
  else (0, s).

Definition parse_positive (text : string) : option Z :=
  let '(parsed, rest) := strtol text in
  if negb (bool_decide (rest = EmptyString)) || (parsed <=? 0) || (1000000 <? parsed) then None else Some parsed.

(** An option with a number. *)
Definition parse_number (opt v : string) (c : Config) : option Config :=
  let '(mkConfig a p n h s b t) := c in
  if bool_decide (opt = "--port"%string) then (fun x => mkConfig a x n h s b t) <$> parse_positive v
  else if bool_decide (opt = "--connections"%string) then (fun x => mkConfig a p x h s b t) <$> parse_positive v
  else if bool_decide (opt = "--hold"%string) then (fun x => mkConfig a p n x s b t) <$> parse_positive v
  else if bool_decide (opt = "--payload-size"%string) then (fun x => mkConfig a p n h x b t) <$> parse_positive v
  else if bool_decide (opt = "--batch-size"%string) then (fun x => mkConfig a p n h s x t) <$> parse_positive v
  else if bool_decide (opt = "--timeout"%string) then (fun x => mkConfig a p n h s b x) <$> parse_positive v
  else None.

(** Either an exit code or the configuration. *)
Fixpoint parse_options (argv : list string) (c : Config) : Z + Config :=
  match argv with
  | [] => inr c
  | opt :: rest =>
      match rest with
      | v :: rest' =>
          if bool_decide (opt = "--addr"%string) then
            parse_options rest' (mkConfig v (cf_port c) (cf_connections c) (cf_hold_seconds c) (cf_payload_size c)
              (cf_batch_size c) (cf_timeout_seconds c))
          else
            match parse_number opt v c with
            | Some c => parse_options rest' c
            | None => inl (if bool_decide (opt = "-h"%string) || bool_decide (opt = "--help"%string) then 0 else 2)
            end
      | [] => inl (if bool_decide (opt = "-h"%string) || bool_decide (opt = "--help"%string) then 0 else 2)
      end
  end.

(** ** The world *)
Definition EPOLLIN : Z := 1.
Definition EPOLLOUT : Z := 4.
Definition EPOLLERR : Z := 8.
Definition EPOLLHUP : Z := 16.
Definition EPOLLRDHUP : Z := 8192.
Definition EPOLL_CTL_ADD : Z := 1.
Definition EPOLL_CTL_MOD : Z := 3.
Definition EINTR : Z := 4.
Definition EWOULDBLOCK : Z := 11.
Definition EINPROGRESS : Z := 115.

(** The system calls; those that set [errno] return it behind the result. *)
Class World (W : Type) := {
  w_getrlimit : W → Z * Z;                          (* result, rlim_cur *)
  w_epoll_create : W → Z * W;
  w_socket : W → Z * W;
  w_connect : Z → list Z → Z → W → Z * Z * W;       (* fd, octets, port *)
  w_epoll_ctl : Z → Z → Z → Z → W → Z * W;          (* op, fd, events, data *)
  w_epoll_wait : Z → W → Z * Z * list Z * W;        (* maxevents; the data of the events *)
  w_getsockopt : Z → W → Z * Z * W;                 (* result, socket_error *)
  w_send : Z → list byte → W → Z * Z * W;
  w_recv : Z → Z → W → Z * Z * list byte * W;
  w_close : Z → W → W;
  w_sleep : Z → W → W;
  w_now : W → Z;                                    (* ticks of the steady clock *)
  w_second : Z                                      (* ticks per second *)
}.

(** ** The program *)
Record Client := mkClient {
  cl_connections : list Connection;
  cl_connected : Z;
  cl_failed : Z;
  cl_echoed : Z;
  cl_echo_failed : Z;
  cl_receive_buffer : list byte;
  cl_wire : list (list byte * list byte);   (* what [send] took and [recv] delivered, by connection *)
  cl_opened : list Z;              (* descriptors of sockets *)
  cl_closed : list Z
}.
Definition cl_with_connections (s : Client) cs : Client :=
  mkClient cs (cl_connected s) (cl_failed s) (cl_echoed s) (cl_echo_failed s) (cl_receive_buffer s) (cl_wire s) (cl_opened s) (cl_closed s).
Definition cl_with_counts (s : Client) c f : Client :=
  mkClient (cl_connections s) c f (cl_echoed s) (cl_echo_failed s) (cl_receive_buffer s) (cl_wire s) (cl_opened s) (cl_closed s).
Definition cl_with_echo (s : Client) e f : Client :=
  mkClient (cl_connections s) (cl_connected s) (cl_failed s) e f (cl_receive_buffer s) (cl_wire s) (cl_opened s) (cl_closed s).
Definition cl_with_buffer (s : Client) b a : Client :=
  mkClient (cl_connections s) (cl_connected s) (cl_failed s) (cl_echoed s) (cl_echo_failed s) b a (cl_opened s) (cl_closed s).
Definition cl_open (s : Client) fd : Client :=
  mkClient (cl_connections s) (cl_connected s) (cl_failed s) (cl_echoed s) (cl_echo_failed s) (cl_receive_buffer s)
    (cl_wire s) (cl_opened s ++ [fd]) (cl_closed s).
Definition cl_close (s : Client) fd : Client :=
  mkClient (cl_connections s) (cl_connected s) (cl_failed s) (cl_echoed s) (cl_echo_failed s) (cl_receive_buffer s)
    (cl_wire s) (cl_opened s) (cl_closed s ++ [fd]).

(** [connections[index]]: the vector has no check of its own. *)
Definition conn (s : Client) (index : Z) : result Connection := arr_get (cl_connections s) index.
Definition set_conn (s : Client) (index : Z) (c : Connection) : result Client :=
  cs ← arr_set (cl_connections s) index c; Ok (cl_with_connections s cs).

(** [static_cast<char>((index + offset) % 251)]. *)
Definition payload_byte (index offset : Z) : byte := byte_of (u32 (index + offset) mod 251).
Definition payload (index size : Z) : list byte := payload_byte index <$> seqZ 0 size.

Section program.
Context {W : Type} `{World W}.

Definition update_events (index : Z) (c : Connection) (events : Z) (w : W) : bool * W :=
  let '(r, w) := w_epoll_ctl EPOLL_CTL_MOD (cn_fd c) (Z.lor (Z.lor (Z.lor events EPOLLERR) EPOLLHUP) EPOLLRDHUP) index w in (r =? 0, w).

Definition fail_connection (s : Client) (index : Z) (w : W) : result (Client * W) :=
  c ← conn s index;
  let '(s, w) := if 0 <=? cn_fd c then (cl_close s (cn_fd c), w_close (cn_fd c) w) else (s, w) in
  s ← set_conn s index (cn_with_state (cn_with_fd c (-1)) Failed);
  Ok (s, w).

(** One round of the loop that connects. *)
Definition register (s : Client) (index fd : Z) (w : W) : result (Client * W) :=
  c ← conn s index;
  let events := if decide (cn_state c = Connecting) then EPOLLOUT else EPOLLIN in
  let '(r, w) := w_epoll_ctl EPOLL_CTL_ADD fd (Z.lor (Z.lor (Z.lor events EPOLLERR) EPOLLHUP) EPOLLRDHUP) index w in
  if r =? 0 then Ok (s, w) else
  let was_connected := bool_decide (cn_state c = Idle) in
  '(s, w) ← fail_connection s index w;
  Ok (cl_with_counts s (if was_connected then cl_connected s - 1 else cl_connected s) (cl_failed s + 1), w).

Definition connect_one (sin_addr : list Z) (sin_port : Z) (index : Z) (st : Client * W) : result (Client * W) :=
  let '(s, w) := st in
  let '(fd, w) := w_socket w in
  if fd <? 0 then Ok (cl_with_counts s (cl_connected s) (cl_failed s + 1), w) else
  c ← conn s index;
  s ← set_conn (cl_open s fd) index (cn_with_fd c fd);
  let '(r, errno, w) := w_connect fd sin_addr sin_port w in
  c ← conn s index;
  if r =? 0 then
    s ← set_conn s index (cn_with_state c Idle);
    register (cl_with_counts s (cl_connected s + 1) (cl_failed s)) index fd w
  else if errno =? EINPROGRESS then
    s ← set_conn s index (cn_with_state c Connecting);
    register s index fd w
  else
    '(s, w) ← fail_connection s index w;
    Ok (cl_with_counts s (cl_connected s) (cl_failed s + 1), w).

(** An event while connecting. *)
Definition connect_event (st : Client * W) (index : Z) : result (Client * W) :=
  let '(s, w) := st in
  c ← conn s index;
  if decide (cn_state c = Connecting) then
    let '(r, socket_error, w) := w_getsockopt (cn_fd c) w in
    if (r =? 0) && (socket_error =? 0) then
      let c := cn_with_state c Idle in
      s ← set_conn s index c;
      let s := cl_with_counts s (cl_connected s + 1) (cl_failed s) in
      let '(ok, w) := update_events index c EPOLLIN w in
      if ok : bool then Ok (s, w) else
      '(s, w) ← fail_connection s index w;
      Ok (cl_with_counts s (cl_connected s - 1) (cl_failed s + 1), w)
    else
      '(s, w) ← fail_connection s index w;
      Ok (cl_with_counts s (cl_connected s) (cl_failed s + 1), w)
  else Ok (s, w).

Fixpoint for_events (body : Client * W → Z → result (Client * W)) (events : list Z) (st : Client * W) : result (Client * W) :=
  match events with [] => Ok st | e :: events => st ← body st e; for_events body events st end.

(** [while (more && now < deadline)] with an [epoll_wait] in it. *)
Fixpoint event_loop (fuel : nat) (more : Client → bool) (body : Client * W → Z → result (Client * W)) (deadline maxevents : Z)
    (st : Client * W) : result (Client * W) :=
  match fuel with
  | O => Fault OutOfFuel
  | S fuel =>
      let '(s, w) := st in
      if more s && (w_now w <? deadline) then
        let '(ready, errno, events, w) := w_epoll_wait maxevents w in
        if ready <? 0 then
          if errno =? EINTR then event_loop fuel more body deadline maxevents (s, w) else Ok (s, w)
        else
          st ← for_events body events (s, w);
          event_loop fuel more body deadline maxevents st
      else Ok st
  end.

(** [for (auto &connection : connections)] with a state that has run out of
    time. *)
Definition connect_sweep_one (index : Z) (st : Client * W) : result (Client * W) :=
  let '(s, w) := st in
  c ← conn s index;
  if decide (cn_state c = Connecting) then
    '(s, w) ← fail_connection s index w;
    Ok (cl_with_counts s (cl_connected s) (cl_failed s + 1), w)
  else Ok (s, w).

(** Enough rounds for a deadline, one per tick. *)
Definition rounds (config : Config) : nat := Z.to_nat (cf_timeout_seconds config * w_second + 1).

Definition connect_phase (config : Config) (sin_addr : list Z) (w : W) : result (Client * W) :=
  let n := cf_connections config in
  let s := mkClient (replicate (Z.to_nat n) Connection_new) 0 0 0 0 [] [] [] [] in
  let connect_start := w_now w in
  st ← for_up (Z.to_nat n) 0 (connect_one sin_addr (cf_port config mod 2 ^ 16)) (s, w);
  let connect_deadline := connect_start + cf_timeout_seconds config * w_second in
  st ← event_loop (rounds config) (fun s => cl_connected s + cl_failed s <? n) connect_event connect_deadline (Z.min n 4096) st;
  for_up (Z.to_nat n) 0 connect_sweep_one st.

(** Activation of a connection of a batch. *)
Definition activate_one (index : Z) (st : Client * W) : result (Client * W) :=
  let '(s, w) := st in
  c ← conn s index;
  let c := cn_with_state c Sending in
  s ← set_conn s index c;
  let '(ok, w) := update_events index c EPOLLOUT w in
  if ok : bool then Ok (s, w) else
  '(s, w) ← fail_connection s index w;
  Ok (cl_with_echo s (cl_echoed s) (cl_echo_failed s + 1), w).

Definition would_block (errno : Z) : bool := (errno =? 11) || (errno =? EWOULDBLOCK).

Definition echo_fail (s : Client) (index : Z) (w : W) : result (Client * W) :=
  '(s, w) ← fail_connection s index w;
  Ok (cl_with_echo s (cl_echoed s) (cl_echo_failed s + 1), w).

Definition send_event (payload_size : Z) (s : Client) (index : Z) (c : Connection) (w : W) : result (Client * W) :=
  let send_buffer := payload index payload_size in
  let '(r, errno, w) := w_send (cn_fd c) (drop (Z.to_nat (cn_sent c)) send_buffer) w in
  if 0 <? r then
    let sent := take (Z.to_nat r) (drop (Z.to_nat (cn_sent c)) send_buffer) in
    let s := cl_with_buffer s (cl_receive_buffer s) (alter (fun l => (l.1 ++ sent, l.2)) (Z.to_nat index) (cl_wire s)) in
    let c := cn_with_sent c (u32 (cn_sent c + u32 r)) in
    if cn_sent c =? Z.of_nat (length send_buffer) then
      let c := cn_with_state c Receiving in
      s ← set_conn s index c;
      let '(_, w) := update_events index c EPOLLIN w in Ok (s, w)
    else s ← set_conn s index c; Ok (s, w)
  else if (r <? 0) && negb (would_block errno) then echo_fail s index w
  else Ok (s, w).

Definition recv_event (payload_size : Z) (s : Client) (index : Z) (c : Connection) (w : W) : result (Client * W) :=
  let target := index * payload_size in
  let '(r, errno, d, w) := w_recv (cn_fd c) (u32 (payload_size - cn_received c)) w in
  b ← mem_write (cl_receive_buffer s) (target + cn_received c) d;
  let s := cl_with_buffer s b (alter (fun l => (l.1, l.2 ++ d)) (Z.to_nat index) (cl_wire s)) in
  if 0 <? r then
    let c := cn_with_received c (u32 (cn_received c + u32 r)) in
    if cn_received c =? u32 payload_size then
      let valid := bool_decide (mem_read b target payload_size = payload index payload_size) in
      s ← set_conn s index (cn_with_state c (if valid then Complete else Failed));
      Ok (if valid then cl_with_echo s (cl_echoed s + 1) (cl_echo_failed s)
          else cl_with_echo s (cl_echoed s) (cl_echo_failed s + 1), w)
    else s ← set_conn s index c; Ok (s, w)
  else if (r =? 0) || ((r <? 0) && negb (would_block errno)) then echo_fail s index w
  else Ok (s, w).

(** An event while echoing. *)
Definition echo_event (payload_size : Z) (st : Client * W) (index : Z) : result (Client * W) :=
  let '(s, w) := st in
  c ← conn s index;
  match cn_state c with
  | Sending => send_event payload_size s index c w
  | Receiving => recv_event payload_size s index c w
  | _ => Ok (s, w)
  end.

Definition echo_sweep_one (index : Z) (st : Client * W) : result (Client * W) :=
  let '(s, w) := st in
  c ← conn s index;
  match cn_state c with Sending | Receiving => echo_fail s index w | _ => Ok (s, w) end.

Definition echo_batch (config : Config) (batch_start : Z) (st : Client * W) : result (Client * W) :=
  let batch_end := Z.min (batch_start + cf_batch_size config) (cf_connections config) in
  let batch_count := batch_end - batch_start in
  let batch_target := cl_echoed st.1 + cl_echo_failed st.1 + batch_count in
  st ← for_up (Z.to_nat batch_count) batch_start activate_one st;
  let batch_deadline := w_now st.2 + cf_timeout_seconds config * w_second in
  st ← event_loop (rounds config) (fun s => cl_echoed s + cl_echo_failed s <? batch_target) (echo_event (cf_payload_size config))
         batch_deadline (Z.min (cf_connections config) 4096) st;
  for_up (Z.to_nat batch_count) batch_start echo_sweep_one st.

(** At most one batch per connection. *)
Fixpoint echo_batches (fuel : nat) (config : Config) (batch_start : Z) (st : Client * W) : result (Client * W) :=
  if batch_start <? cf_connections config then
    match fuel with
    | O => Fault OutOfFuel
    | S fuel => st ← echo_batch config batch_start st; echo_batches fuel config (batch_start + cf_batch_size config) st
    end
  else Ok st.

(** The sockets that are left are closed. *)
Definition close_one (index : Z) (st : Client * W) : result (Client * W) :=
  let '(s, w) := st in
  c ← conn s index;
  Ok (if 0 <=? cn_fd c then (cl_close s (cn_fd c), w_close (cn_fd c) w) else (s, w)).

(** What main did: it left early, or it got to the end with a client. *)
Inductive Ending := Left (code : Z) | NotConnected (s : Client) | Ended (code : Z) (s : Client).

Definition client_main (argv : list string) (w : W) : result (Ending * W) :=
  match parse_options argv Config_new with
  | inl code => Ok (Left code, w)
  | inr config =>
      let '(r, rlim_cur) := w_getrlimit w in
      if negb (r =? 0) || (rlim_cur <? cf_connections config + 32) then Ok (Left 2, w) else
      match inet_pton (String.list_byte_of_string (cf_address config)) with
      | None => Ok (Left 2, w)
      | Some sin_addr =>
          let '(epoll_fd, w) := w_epoll_create w in
          if epoll_fd <? 0 then Ok (Left 1, w) else
          '(s, w) ← connect_phase config sin_addr w;
          if negb (cl_connected s =? cf_connections config) then Ok (NotConnected s, w_close epoll_fd w) else
          let w := w_sleep (cf_hold_seconds config) w in
          let s := cl_with_buffer s (replicate (Z.to_nat (cf_connections config * cf_payload_size config)) x00)
                     (replicate (Z.to_nat (cf_connections config)) ([], [])) in
          '(s, w) ← echo_batches (Z.to_nat (cf_connections config)) config 0 (s, w);
          '(s, w) ← for_up (Z.to_nat (cf_connections config)) 0 close_one (s, w);
          let w := w_close epoll_fd w in
          Ok (Ended (if (cl_echoed s =? cl_connected s) && (cl_echo_failed s =? 0) then 0 else 1) s, w)
      end
  end.
End program.

(** ** What the system calls promise

    [w_registered] is the data given to [epoll_ctl] so far; [w_le]: a call may
    take time, and registers nothing. *)
Class WorldLaws (W : Type) `{World W} := {
  w_registered : W → list Z;
  wl_second : 0 < w_second;
  w_le (w w' : W) : Prop := w_now w ≤ w_now w' ∧ w_registered w' ⊆ w_registered w;
  wl_create w fd w' : w_epoll_create w = (fd, w') → w_now w ≤ w_now w' ∧ w_registered w' = [];
  wl_socket w fd w' : w_socket w = (fd, w') → w_le w w';
  wl_connect fd a p w r errno w' : w_connect fd a p w = (r, errno, w') → w_le w w';
  wl_getsockopt fd w r e w' : w_getsockopt fd w = (r, e, w') → w_le w w';
  wl_close fd w : w_le w (w_close fd w);
  wl_sleep t w : w_le w (w_sleep t w);
  wl_ctl op fd ev data w r w' : w_epoll_ctl op fd ev data w = (r, w') →
    w_now w ≤ w_now w' ∧ w_registered w' ⊆ data :: w_registered w;
  wl_wait m w ready errno evs w' : w_epoll_wait m w = (ready, errno, evs, w') →
    w_now w < w_now w' ∧ w_registered w' ⊆ w_registered w ∧ (0 ≤ ready → evs ⊆ w_registered w);
  wl_send fd d w r errno w' : w_send fd d w = (r, errno, w') → w_le w w' ∧ r ≤ Z.of_nat (length d);
  wl_recv fd k w r errno d w' : w_recv fd k w = (r, errno, d, w') → 0 ≤ k →
    w_le w w' ∧ (0 ≤ r → Z.of_nat (length d) = r ∧ r ≤ k) ∧ (r < 0 → d = [])
}.

(** ** Lists of connections *)
Definition cnt (st : State) (cs : list Connection) : Z := Z.of_nat (length (filter (fun c => cn_state c = st) cs)).
Definition one (b : bool) : Z := if b then 1 else 0.
Definition own_fd (c : Connection) : list Z := if 0 <=? cn_fd c then [cn_fd c] else [].
Definition open_sockets (cs : list Connection) : list Z := cs ≫= own_fd.

Lemma insert_middle {A} (l : list A) i x y : l !! i = Some x → l = take i l ++ x :: drop (S i) l ∧ <[i := y]> l = take i l ++ y :: drop (S i) l.
Proof. intros H. split; [by rewrite take_drop_middle|]. apply insert_take_drop. by apply lookup_lt_Some in H. Qed.

Lemma cnt_app st l l' : cnt st (l ++ l') = cnt st l + cnt st l'.
Proof. unfold cnt. rewrite filter_app, length_app. lia. Qed.
Lemma cnt_cons st c l : cnt st (c :: l) = one (bool_decide (cn_state c = st)) + cnt st l.
Proof. unfold cnt. rewrite filter_cons. case_decide; [rewrite bool_decide_true by done|rewrite bool_decide_false by done]; cbn; lia. Qed.

Lemma cnt_insert st cs i c c' : cs !! i = Some c →
  cnt st (<[i := c']> cs) = cnt st cs - one (bool_decide (cn_state c = st)) + one (bool_decide (cn_state c' = st)).
Proof.
  intros Hi. destruct (insert_middle cs i c c' Hi) as [E ->]. rewrite E at 3. rewrite !cnt_app, !cnt_cons. lia.
Qed.

Lemma sockets_insert cs i c c' : cs !! i = Some c → own_fd c ++ open_sockets (<[i := c']> cs) ≡ₚ own_fd c' ++ open_sockets cs.
Proof.
  intros Hi. destruct (insert_middle cs i c c' Hi) as [E ->]. rewrite E at 3. unfold open_sockets. rewrite !bind_app, !bind_cons. solve_Permutation.
Qed.

Lemma cnt_nonneg st cs : 0 ≤ cnt st cs.
Proof. unfold cnt. lia. Qed.
Lemma cnt_two a b cs : a ≠ b → Forall (fun c => cn_state c = a ∨ cn_state c = b) cs → cnt a cs + cnt b cs = Z.of_nat (length cs).
Proof.
  intros Hab. induction 1 as [|c cs Hc _ IH]; [done|]. rewrite !cnt_cons. cbn [length].
  destruct Hc as [-> | ->]; [rewrite bool_decide_true, bool_decide_false by congruence|rewrite bool_decide_false, bool_decide_true by congruence]; cbn; lia.
Qed.
Lemma cnt_all a cs : cnt a cs = Z.of_nat (length cs) → Forall (fun c => cn_state c = a) cs.
Proof.
  induction cs as [|c cs IH]; [constructor|]. rewrite cnt_cons. cbn [length].
  pose proof (length_filter (fun c => cn_state c = a) cs). unfold cnt in *.
  case_bool_decide; cbn; intros; constructor; [done|apply IH; lia|lia|apply IH; lia].
Qed.

(** Decide equalities of states. *)
Ltac states :=
  repeat match goal with
  | |- context [bool_decide (?a = ?b)] =>
      first [rewrite (bool_decide_true (a = b)) by done | rewrite (bool_decide_false (a = b)) by done]
  end; cbn [one].

(** ** Access *)
Section steps.
Context {W : Type} `{Hlaws : WorldLaws W}.
Implicit Types (s : Client) (w : W).

Lemma w_le_refl w : w_le w w.
Proof. by split. Qed.
Lemma w_le_trans w1 w2 w3 : w_le w1 w2 → w_le w2 w3 → w_le w1 w3.
Proof. intros [? ?] [? ?]. split; [lia|]. set_solver. Qed.

(** What is registered are indices of connections. *)
Definition w_ok (n : Z) w : Prop := Forall (fun d => 0 ≤ d < n) (w_registered w).
Lemma w_ok_le n w w' : w_ok n w → w_le w w' → w_ok n w'.
Proof. intros Hw [_ Hs]. apply Forall_forall. intros d Hd. eapply Forall_forall in Hw; [done|]. by apply Hs. Qed.

Lemma conn_ok s i c : cl_connections s !! i = Some c → conn s (Z.of_nat i) = Ok c.
Proof. intros Hi. unfold conn. by apply arr_get_nat. Qed.
Lemma set_conn_ok s i c c' : cl_connections s !! i = Some c →
  set_conn s (Z.of_nat i) c' = Ok (cl_with_connections s (<[i := c']> (cl_connections s))).
Proof. intros Hi. unfold set_conn. rewrite arr_set_ok by (apply lookup_lt_Some in Hi; lia). step. by rewrite Nat2Z.id. Qed.

(** A connection that is given up. *)
Definition gone c : Connection := cn_with_state (cn_with_fd c (-1)) Failed.
Definition abandon s i c : Client :=
  let s' := cl_with_connections s (<[i := gone c]> (cl_connections s)) in
  if 0 <=? cn_fd c then cl_close s' (cn_fd c) else s'.

Lemma fail_connection_ok s i c w :
  cl_connections s !! i = Some c → ∃ w', fail_connection s (Z.of_nat i) w = Ok (abandon s i c, w') ∧ w_le w w'.
Proof.
  intros Hi. unfold fail_connection. rewrite (conn_ok _ _ _ Hi). step. unfold abandon.
  destruct (0 <=? cn_fd c).
  - rewrite (set_conn_ok _ i c) by done. step. eexists. split; [done|]. apply wl_close.
  - rewrite (set_conn_ok _ i c) by done. step. eexists. split; [done|]. apply w_le_refl.
Qed.

Lemma update_events_ok n i c ev w :
  w_ok n w → (Z.of_nat i < n) → ∃ b w', update_events (Z.of_nat i) c ev w = (b, w') ∧ w_ok n w' ∧ w_now w ≤ w_now w'.
Proof.
  intros Hw Hi. unfold update_events. destruct (w_epoll_ctl _ _ _ _ w) as [r w'] eqn:E. apply wl_ctl in E as [Ht Hs].
  eexists _, _. split; [done|]. split; [|done]. apply Forall_forall. intros d [->|Hd]%Hs%elem_of_cons; [lia|]. by eapply Forall_forall in Hw.
Qed.
End steps.

(** ** Connecting *)
Section connecting.
Context {W : Type} `{Hlaws : WorldLaws W}.
Implicit Types (s : Client) (w : W).

(** A connection before the echo. *)
Definition fresh_conn (c : Connection) : Prop :=
  cn_sent c = 0 ∧ cn_received c = 0 ∧
  match cn_state c with Idle | Connecting => 0 ≤ cn_fd c | Failed => cn_fd c = -1 | _ => False end.

(** Sockets opened are closed or belong to a connection. *)
Definition books s : Prop := cl_opened s ≡ₚ cl_closed s ++ open_sockets (cl_connections s).

(** The counters are right; [d] connections have not been tried yet. *)
#[local] Set Implicit Arguments.
Record connecting (n d : nat) s w : Prop := {
  ci_len : length (cl_connections s) = n;
  ci_ok : Forall fresh_conn (cl_connections s);
  ci_new : ∀ i, (n - d ≤ i < n)%nat → cl_connections s !! i = Some Connection_new;
  ci_connected : cl_connected s = cnt Idle (cl_connections s);
  ci_failed : cl_failed s + Z.of_nat d = cnt Failed (cl_connections s);
  ci_echoed : cl_echoed s = 0;
  ci_echo_failed : cl_echo_failed s = 0;
  ci_books : books s;
  ci_world : w_ok (Z.of_nat n) w
}.
#[local] Unset Implicit Arguments.

(** One connection changes, with the counters. *)
Lemma connecting_update n d d' s w s' w' i c c' :
  connecting n d s w → cl_connections s !! i = Some c → (d' ≤ d ≤ n)%nat → (i < n - d')%nat →
  cl_connections s' = <[i := c']> (cl_connections s) → fresh_conn c' →
  cl_connected s' = cl_connected s - one (bool_decide (cn_state c = Idle)) + one (bool_decide (cn_state c' = Idle)) →
  cl_failed s' + Z.of_nat d' =
    cl_failed s + Z.of_nat d - one (bool_decide (cn_state c = Failed)) + one (bool_decide (cn_state c' = Failed)) →
  cl_echoed s' = cl_echoed s → cl_echo_failed s' = cl_echo_failed s → books s' → w_ok (Z.of_nat n) w' → connecting n d' s' w'.
Proof.
  intros [Hl Ho Hn Hc Hf He Hef Hb Hw] Hi Hd Hin E Hc' Ec Ef E1 E2 Hb' Hw'. split; try done.
  - by rewrite E, length_insert.
  - rewrite E. by apply Forall_insert.
  - intros k Hk. rewrite E, list_lookup_insert_ne by lia. apply Hn. lia.
  - by rewrite E, (cnt_insert _ _ _ _ _ Hi), Ec, Hc.
  - rewrite E, (cnt_insert _ _ _ _ _ Hi), Ef. lia.
  - congruence.
  - congruence.
Qed.

Lemma books_abandon s i c : cl_connections s !! i = Some c → books s → books (abandon s i c).
Proof.
  unfold books, abandon. intros Hi Hb. pose proof (sockets_insert _ _ _ (gone c) Hi) as Hs.
  change (own_fd (gone c)) with (@nil Z) in Hs. cbn [Datatypes.app] in Hs.
  unfold own_fd in Hs. destruct (0 <=? cn_fd c); cbn [cl_opened cl_closed cl_connections cl_close cl_with_connections];
    rewrite Hb, <- Hs; solve_Permutation.
Qed.

Lemma abandon_conns s i c : cl_connections (abandon s i c) = <[i := gone c]> (cl_connections s).
Proof. unfold abandon. by destruct (0 <=? cn_fd c). Qed.
Lemma abandon_same s i c :
  cl_connected (abandon s i c) = cl_connected s ∧ cl_failed (abandon s i c) = cl_failed s ∧
  cl_echoed (abandon s i c) = cl_echoed s ∧ cl_echo_failed (abandon s i c) = cl_echo_failed s ∧
  cl_receive_buffer (abandon s i c) = cl_receive_buffer s ∧ cl_wire (abandon s i c) = cl_wire s.
Proof. unfold abandon. by destruct (0 <=? cn_fd c). Qed.

Lemma abandon_counts s i c a b x y : cl_with_counts (abandon (cl_with_counts s a b) i c) x y = cl_with_counts (abandon s i c) x y.
Proof. unfold abandon. by destruct (0 <=? cn_fd c). Qed.

(** Registering may fail; then the connection is given up. *)
Lemma register_ok n s i c fd w :
  cl_connections s !! i = Some c → w_ok (Z.of_nat n) w → (i < n)%nat →
  ∃ s' w', register s (Z.of_nat i) fd w = Ok (s', w') ∧ w_ok (Z.of_nat n) w' ∧ w_now w ≤ w_now w' ∧
    (s' = s ∨ s' = cl_with_counts (abandon s i c) (cl_connected s - one (bool_decide (cn_state c = Idle))) (cl_failed s + 1)).
Proof.
  intros Hi Hw Hin. unfold register. rewrite (conn_ok _ _ _ Hi). step.
  destruct (w_epoll_ctl _ _ _ _ w) as [r w1] eqn:E. apply wl_ctl in E as [Ht Hs].
  assert (w_ok (Z.of_nat n) w1) as Hw1.
  { apply Forall_forall. intros d [->|Hd]%Hs%elem_of_cons; [lia|]. by eapply Forall_forall in Hw. }
  destruct (r =? 0); [eexists _, _; split; [done|]; auto|].
  destruct (fail_connection_ok s i c w1 Hi) as (w2 & -> & Hle). step. eexists _, _. split; [done|].
  split; [by eapply w_ok_le|]. split; [destruct Hle; lia|]. right. destruct (abandon_same s i c) as (-> & -> & _).
  unfold one. case_bool_decide; f_equal; lia.
Qed.

(** A socket that was just opened, in a state. *)
Definition opened s i fd st : Client :=
  cl_with_connections (cl_open s fd) (<[i := mkConnection fd st 0 0]> (cl_connections s)).

Lemma books_opened s i fd st :
  cl_connections s !! i = Some Connection_new → 0 ≤ fd → books s → books (opened s i fd st).
Proof.
  unfold books, opened. cbn. intros Hi Hfd Hb. pose proof (sockets_insert _ _ _ (mkConnection fd st 0 0) Hi) as Hs.
  cbn [own_fd Connection_new cn_fd] in Hs. unfold own_fd in Hs. cbn in Hs. rewrite (proj2 (Z.leb_le _ _)) in Hs by done.
  cbn in Hs. rewrite Hb, Hs. solve_Permutation.
Qed.

Lemma connecting_next n d s w : connecting n (S d) s w → (S d ≤ n)%nat →
  ∃ i, (i = n - S d)%nat ∧ cl_connections s !! i = Some Connection_new.
Proof. intros Hc Hd. exists (n - S d)%nat. split; [done|]. apply (ci_new Hc). lia. Qed.

(** A new connection that is given up counts as failed. *)
Lemma connecting_given_up n d s w w' i fd st :
  connecting n (S d) s w → (S d ≤ n)%nat → (i = n - S d)%nat → cl_connections s !! i = Some Connection_new → 0 ≤ fd →
  w_ok (Z.of_nat n) w' →
  connecting n d (cl_with_counts (abandon (opened s i fd st) i (mkConnection fd st 0 0)) (cl_connected s) (cl_failed s + 1)) w'.
Proof.
  intros Hc Hd Ei Hi Hfd Hw'. set (s1 := opened s i fd st).
  destruct (abandon_same s1 i (mkConnection fd st 0 0)) as (_ & _ & E1 & E2 & _).
  assert (cl_connections s1 !! i = Some (mkConnection fd st 0 0)) as Hat by (apply list_lookup_insert_eq; by apply lookup_lt_Some in Hi).
  apply (connecting_update _ _ d _ _ _ _ i _ Connection_new Hc Hi); cbn [cl_connections cl_connected cl_failed cl_echoed cl_echo_failed cl_with_counts];
    try lia; try done.
  - rewrite abandon_conns. unfold s1, opened. cbn. by rewrite list_insert_insert_eq.
  - exact (books_abandon s1 i _ Hat (books_opened s i fd st Hi Hfd (ci_books Hc))).
Qed.

(** A new connection that is registered. *)
Lemma connecting_opened n d s w w' i fd st :
  connecting n (S d) s w → (S d ≤ n)%nat → (i = n - S d)%nat → cl_connections s !! i = Some Connection_new → 0 ≤ fd →
  w_ok (Z.of_nat n) w' → st = Idle ∨ st = Connecting →
  connecting n d (cl_with_counts (opened s i fd st) (cl_connected s + one (bool_decide (st = Idle))) (cl_failed s)) w'.
Proof.
  intros Hc Hd Ei Hi Hfd Hw' Hst.
  apply (connecting_update _ _ d _ _ _ _ i _ (mkConnection fd st 0 0) Hc Hi); cbn [cl_connections cl_connected cl_failed cl_echoed cl_echo_failed cl_with_counts cn_state Connection_new];
    try lia; try done.
  - by destruct Hst as [-> | ->].
  - rewrite (bool_decide_false (Failed = Idle)) by done. cbn. lia.
  - rewrite (bool_decide_true (Failed = Failed)), (bool_decide_false (st = Failed)) by (done || by destruct Hst as [-> | ->]). cbn. lia.
  - apply (books_opened s i fd st Hi Hfd (ci_books Hc)).
Qed.

Lemma connect_one_ok a p n d s w :
  connecting n (S d) s w → (S d ≤ n)%nat →
  ∃ s' w', connect_one a p (Z.of_nat (n - S d)) (s, w) = Ok (s', w') ∧ connecting n d s' w' ∧ w_now w ≤ w_now w'.
Proof.
  intros Hc Hd. destruct (connecting_next _ _ _ _ Hc Hd) as (i & Ei & Hi). rewrite <- Ei. unfold connect_one.
  destruct (w_socket w) as [fd w1] eqn:E1. apply wl_socket in E1.
  pose proof (w_ok_le _ _ _ (ci_world Hc) E1) as Hw1. destruct E1 as [Ht1 _].
  destruct (Z.ltb_spec fd 0) as [Hfd|Hfd].
  { eexists _, _. split; [done|]. split; [|done].
    apply (connecting_update _ _ d _ _ _ _ i _ Connection_new Hc Hi); cbn; try lia; try done; [by rewrite list_insert_id|apply Hc]. }
  rewrite (conn_ok _ _ _ Hi). step. rewrite (set_conn_ok _ i Connection_new) by done. step.
  destruct (w_connect fd a p w1) as [[r errno] w2] eqn:E2. apply wl_connect in E2.
  pose proof (w_ok_le _ _ _ Hw1 E2) as Hw2. destruct E2 as [Ht2 _]. pose proof (lookup_lt_Some _ _ _ Hi) as Hlt.
  change (cl_with_connections _ _) with (opened s i fd Failed). assert (i < n)%nat as Hin by lia.
  assert (Hat : ∀ st, cl_connections (opened s i fd st) !! i = Some (mkConnection fd st 0 0)) by (intros st; by apply list_lookup_insert_eq).
  assert (Hset : ∀ st, set_conn (opened s i fd Failed) (Z.of_nat i) (mkConnection fd st 0 0) = Ok (opened s i fd st)).
  { intros st. rewrite (set_conn_ok _ _ _ _ (Hat Failed)). unfold opened, cl_with_connections. cbn. by rewrite list_insert_insert_eq. }
  rewrite (conn_ok _ _ _ (Hat Failed)). step. unfold cn_with_state. cbn [cn_fd cn_sent cn_received]. rewrite !Hset. step.
  case_test; [|case_test].
  - set (s1 := cl_with_counts _ _ _).
    destruct (register_ok n s1 i (mkConnection fd Idle 0 0) fd w2 (Hat Idle) Hw2 Hin) as (s' & w3 & -> & Hw3 & Ht3 & Hs').
    eexists _, _. split; [done|]. split; [|lia]. destruct Hs' as [-> | ->].
    + exact (connecting_opened n d s w w3 i fd Idle Hc Hd Ei Hi Hfd Hw3 (or_introl eq_refl)).
    + pose proof (connecting_given_up n d s w w3 i fd Idle Hc Hd Ei Hi Hfd Hw3) as Hg.
      unfold s1. rewrite abandon_counts. cbn [cl_connected cl_failed cl_with_counts cn_state]. rewrite bool_decide_true by done. cbn [one].
      assert (cl_connected (opened s i fd Idle) + 1 - 1 = cl_connected s) as -> by (cbn; lia). exact Hg.
  - destruct (register_ok n (opened s i fd Connecting) i (mkConnection fd Connecting 0 0) fd w2 (Hat _) Hw2 Hin) as (s' & w3 & -> & Hw3 & Ht3 & Hs').
    eexists _, _. split; [done|]. split; [|lia]. destruct Hs' as [-> | ->].
    + pose proof (connecting_opened n d s w w3 i fd Connecting Hc Hd Ei Hi Hfd Hw3 (or_intror eq_refl)) as Ho.
      rewrite bool_decide_false in Ho by done. cbn [one] in Ho. rewrite Z.add_0_r in Ho. exact Ho.
    + cbn [cn_state]. rewrite bool_decide_false by done. cbn [one]. rewrite Z.sub_0_r. by apply (connecting_given_up n d s w w3 i fd Connecting).
  - destruct (fail_connection_ok (opened s i fd Failed) i _ w2 (Hat _)) as (w3 & -> & Hle). step.
    eexists _, _. split; [done|]. split; [|destruct Hle; lia].
    destruct (abandon_same (opened s i fd Failed) i (mkConnection fd Failed 0 0)) as (-> & -> & _).
    apply (connecting_given_up n d s w w3 i fd Failed); try done. by eapply w_ok_le.
Qed.

(** The state of a connection that was being established. *)
Lemma connecting_settle n s w i c st w' :
  connecting n 0 s w → cl_connections s !! i = Some c → cn_state c = Connecting → w_ok (Z.of_nat n) w' →
  (st = Idle → connecting n 0 (cl_with_counts (cl_with_connections s (<[i := cn_with_state c Idle]> (cl_connections s)))
     (cl_connected s + 1) (cl_failed s)) w') ∧
  connecting n 0 (cl_with_counts (abandon s i c) (cl_connected s) (cl_failed s + 1)) w'.
Proof.
  intros Hc Hi Hst Hw'. pose proof (lookup_lt_Some _ _ _ Hi) as Hlt. rewrite (ci_len Hc) in Hlt.
  pose proof (proj1 (Forall_lookup _ _) (ci_ok Hc) _ _ Hi) as (Hsent & Hrecv & Hfd). rewrite Hst in Hfd. split.
  - intros _. apply (connecting_update _ _ 0 _ _ _ _ i _ (cn_with_state c Idle) Hc Hi);
      [lia|lia|done|done|cbn; rewrite Hst; states; lia|cbn; rewrite Hst; states; lia|done|done| |done].
    pose proof (sockets_insert _ _ _ (cn_with_state c Idle) Hi) as Hs. change (own_fd (cn_with_state c Idle)) with (own_fd c) in Hs.
    apply Permutation_app_inv_l in Hs. exact (transitivity (ci_books Hc) (Permutation_app_head _ (symmetry Hs))).
  - destruct (abandon_same s i c) as (_ & _ & E1 & E2 & _).
    apply (connecting_update _ _ 0 _ _ _ _ i _ (gone c) Hc Hi);
      [lia|lia|apply abandon_conns|done|cbn; rewrite Hst; states; lia|cbn; rewrite Hst; states; lia|done|done| |done].
    exact (books_abandon s i c Hi (ci_books Hc)).
Qed.

Lemma connect_event_ok n s w e :
  connecting n 0 s w → 0 ≤ e < Z.of_nat n →
  ∃ s' w', connect_event (s, w) e = Ok (s', w') ∧ connecting n 0 s' w' ∧ w_now w ≤ w_now w'.
Proof.
  intros Hc He. destruct (lookup_lt_is_Some_2 (cl_connections s) (Z.to_nat e)) as [c Hi]; [rewrite (ci_len Hc); lia|].
  rewrite <- (Z2Nat.id e) by lia. set (i := Z.to_nat e) in *. assert (i < n)%nat as Hin by lia.
  unfold connect_event. rewrite (conn_ok _ _ _ Hi). step. case_decide as Hst; [|eexists _, _; split; [done|]; by split].
  destruct (w_getsockopt (cn_fd c) w) as [[r e'] w1] eqn:E1. apply wl_getsockopt in E1.
  pose proof (w_ok_le _ _ _ (ci_world Hc) E1) as Hw1. destruct E1 as [Ht1 _].
  assert (Hfail : ∃ s' w', ('(s, w) ← fail_connection s (Z.of_nat i) w1; Ok (cl_with_counts s (cl_connected s) (cl_failed s + 1), w)) = Ok (s', w') ∧
    connecting n 0 s' w' ∧ w_now w ≤ w_now w').
  { destruct (fail_connection_ok s i c w1 Hi) as (w2 & -> & Hle). step. eexists _, _. split; [done|]. split; [|destruct Hle; lia].
    destruct (abandon_same s i c) as (-> & -> & _).
    destruct (connecting_settle n s w i c Failed w2 Hc Hi Hst) as [_ Hg]; [by eapply w_ok_le|exact Hg]. }
  case_test; [|exact Hfail]. rewrite (set_conn_ok _ i c) by done. step. set (s1 := cl_with_counts _ _ _).
  destruct (update_events_ok (Z.of_nat n) i (cn_with_state c Idle) EPOLLIN w1 Hw1 ltac:(lia)) as (ok & w2 & -> & Hw2 & Ht2).
  destruct ok; [eexists _, _; split; [done|]; split; [|lia]; by apply (connecting_settle n s w i c Idle)|].
  assert (cl_connections s1 !! i = Some (cn_with_state c Idle)) as Hi1 by (apply list_lookup_insert_eq; by apply lookup_lt_Some in Hi).
  destruct (fail_connection_ok s1 i _ w2 Hi1) as (w3 & -> & Hle). step. eexists _, _. split; [done|]. split; [|destruct Hle; lia].
  destruct (abandon_same s1 i (cn_with_state c Idle)) as (-> & -> & _).
  destruct (connecting_settle n s w i c Failed w3 Hc Hi Hst) as [_ Hg]; [by eapply w_ok_le|].
  replace (cl_with_counts (abandon s1 i (cn_with_state c Idle)) (cl_connected s1 - 1) (cl_failed s1 + 1))
    with (cl_with_counts (abandon s i c) (cl_connected s) (cl_failed s + 1)); [done|].
  unfold s1, abandon. cbn [cn_with_state cn_fd].
  destruct (0 <=? cn_fd c); unfold cl_with_counts, cl_with_connections, cl_close; cbn; rewrite list_insert_insert_eq; f_equal; lia.
Qed.

Lemma connect_sweep_ok n s w : connecting n 0 s w →
  ∃ s' w', for_up n 0 connect_sweep_one (s, w) = Ok (s', w') ∧ connecting n 0 s' w' ∧ w_now w ≤ w_now w' ∧
    Forall (fun c => cn_state c = Idle ∨ cn_state c = Failed) (cl_connections s').
Proof.
  intros Hc.
  destruct (for_up_inv (fun k st => connecting n 0 st.1 st.2 ∧ w_now w ≤ w_now st.2 ∧
    ∀ i c, Z.of_nat i < k → cl_connections st.1 !! i = Some c → cn_state c ≠ Connecting) connect_sweep_one n 0 (s, w)) as ([s' w'] & E & Hc' & Ht & Hn).
  - split; [done|]. split; [done|]. intros; lia.
  - intros k [s1 w1] Hk (Hc1 & Ht1 & Hn1). cbn [fst snd] in *.
    destruct (lookup_lt_is_Some_2 (cl_connections s1) (Z.to_nat k)) as [c Hi]; [rewrite (ci_len Hc1); lia|].
    rewrite <- (Z2Nat.id k) by lia. set (i := Z.to_nat k) in *. unfold connect_sweep_one. rewrite (conn_ok _ _ _ Hi). step.
    case_decide as Hst.
    + destruct (fail_connection_ok s1 i c w1 Hi) as (w2 & -> & Hle). step. eexists. split; [done|]. cbn [fst snd].
      destruct (abandon_same s1 i c) as (-> & -> & _). split; [|split; [destruct Hle; lia|]].
      * destruct (connecting_settle n s1 w1 i c Failed w2 Hc1 Hi Hst) as [_ Hg]; [by eapply w_ok_le, Hle; apply Hc1|exact Hg].
      * intros m c' Hm. cbn [cl_connections cl_with_counts]. rewrite abandon_conns.
        intros [(-> & <- & _)|[? Hm']]%list_lookup_insert_Some; [done|]. apply (Hn1 m); [lia|done].
    + eexists. split; [done|]. cbn [fst snd]. split; [done|]. split; [done|]. intros m c' Hm Hm'.
      destruct (decide (m = i)) as [->|]; [congruence|]. apply (Hn1 m); [lia|done].
  - exists s', w'. cbn [fst snd] in *. split; [done|]. split; [done|]. split; [done|]. apply Forall_lookup. intros m c Hm.
    pose proof (proj1 (Forall_lookup _ _) (ci_ok Hc') _ _ Hm) as (_ & _ & Hst). pose proof (lookup_lt_Some _ _ _ Hm) as Hlt.
    rewrite (ci_len Hc') in Hlt. pose proof (Hn m c ltac:(lia) Hm). destruct (cn_state c); auto; done.
Qed.
End connecting.

(** ** Waiting for events *)
Section loop.
Context {W : Type} `{Hlaws : WorldLaws W}.
Context (n : Z) (P : Client → W → Prop) (body : Client * W → Z → result (Client * W)).
Context (HP : ∀ s w, P s w → w_ok n w).
Context (Hbody : ∀ s w e, P s w → 0 ≤ e < n → ∃ s' w', body (s, w) e = Ok (s', w') ∧ P s' w' ∧ w_now w ≤ w_now w').
Context (Hwait : ∀ s w w', P s w → w_now w ≤ w_now w' → w_registered w' ⊆ w_registered w → P s w').

Lemma for_events_ok evs : ∀ s w, P s w → Forall (fun e => 0 ≤ e < n) evs →
  ∃ s' w', for_events body evs (s, w) = Ok (s', w') ∧ P s' w' ∧ w_now w ≤ w_now w'.
Proof.
  induction evs as [|e evs IH]; intros s w Hs He; [by eexists _, _|]. apply Forall_cons in He as [He Hes]. cbn.
  destruct (Hbody s w e Hs He) as (s1 & w1 & -> & Hs1 & Ht). step. destruct (IH s1 w1 Hs1 Hes) as (s2 & w2 & -> & Hs2 & Ht2).
  eexists _, _. split; [done|]. split; [done|lia].
Qed.

(** The clock ends the loop. *)
Lemma event_loop_ok more deadline m : ∀ fuel s w, P s w → deadline - w_now w < Z.of_nat fuel → (0 < fuel)%nat →
  ∃ s' w', event_loop fuel more body deadline m (s, w) = Ok (s', w') ∧ P s' w' ∧ w_now w ≤ w_now w'.
Proof.
  induction fuel as [|fuel IH]; intros s w Hs Hf Hpos; [lia|]. cbn [event_loop].
  destruct (more s && (w_now w <? deadline)) eqn:Em; [bools|by eexists _, _].
  destruct (w_epoll_wait m w) as [[[ready errno] evs] w1] eqn:E. apply wl_wait in E as (Ht & Hr & Hev).
  pose proof (Hwait s w w1 Hs ltac:(lia) Hr) as Hs1.
  assert (Hgo : ∀ s2 w2, P s2 w2 → w_now w1 ≤ w_now w2 →
    ∃ s' w', event_loop fuel more body deadline m (s2, w2) = Ok (s', w') ∧ P s' w' ∧ w_now w ≤ w_now w').
  { intros s2 w2 Hs2 Ht2. destruct (IH s2 w2 Hs2) as (s' & w' & E' & Hs' & Ht'); [lia|lia|]. eexists _, _. split; [done|]. split; [done|lia]. }
  case_test; [case_test|].
  - by apply Hgo.
  - eexists _, _. split; [done|]. split; [done|lia].
  - destruct (for_events_ok evs s w1 Hs1) as (s2 & w2 & -> & Hs2 & Ht2).
    { apply Forall_forall. intros e He. pose proof (HP _ _ Hs) as Hok. eapply Forall_forall in Hok; [done|]. by apply Hev. }
    step. by apply Hgo.
Qed.
End loop.

(** ** The first phase *)
Section connect_phase.
Context {W : Type} `{Hlaws : WorldLaws W}.

Lemma connecting_new n (w : W) : w_registered w = [] → connecting n n (mkClient (replicate n Connection_new) 0 0 0 0 [] [] [] []) w.
Proof.
  intros Hw. split; cbn [cl_connections cl_connected cl_failed cl_echoed cl_echo_failed]; try done.
  - apply length_replicate.
  - by apply Forall_replicate.
  - intros i Hi. apply lookup_replicate_2. lia.
  - induction n as [|n IH]; [done|]. cbn [replicate]. rewrite cnt_cons. cbn [Connection_new cn_state]. states. lia.
  - induction n as [|n IH]; [done|]. cbn [replicate]. rewrite cnt_cons. cbn [Connection_new cn_state]. states. lia.
  - unfold books, open_sockets. cbn. induction n; cbn; done.
  - unfold w_ok. rewrite Hw. constructor.
Qed.

Lemma connecting_wait n d s (w w' : W) : connecting n d s w → w_now w ≤ w_now w' → w_registered w' ⊆ w_registered w → connecting n d s w'.
Proof. intros [] Ht Hr. split; try done. by eapply w_ok_le; [|split]. Qed.

Lemma connect_phase_ok config a (w : W) :
  0 ≤ cf_connections config → 0 ≤ cf_timeout_seconds config → w_registered w = [] →
  let n := Z.to_nat (cf_connections config) in
  ∃ s w', connect_phase config a w = Ok (s, w') ∧ connecting n 0 s w' ∧
    Forall (fun c => cn_state c = Idle ∨ cn_state c = Failed) (cl_connections s) ∧ cl_connected s + cl_failed s = cf_connections config.
Proof.
  intros Hn Ht Hw n. unfold connect_phase. fold n. set (s0 := mkClient _ _ _ _ _ _ _ _ _).
  destruct (for_up_inv (fun k st => ∃ d, Z.of_nat d = cf_connections config - k ∧ connecting n d st.1 st.2 ∧ w_now w ≤ w_now st.2)
    (connect_one a (cf_port config mod 2 ^ 16)) n 0 (s0, w)) as ([s1 w1] & E1 & d & Hd & Hc1 & Ht1).
  - exists n. split; [lia|]. split; [|done]. by apply connecting_new.
  - intros k [s1 w1] Hk ([|d] & Hd & Hc & Ht1); [lia|]. cbn [fst snd] in *.
    destruct (connect_one_ok a (cf_port config mod 2 ^ 16) n d s1 w1 Hc ltac:(lia)) as (s2 & w2 & E & Hc2 & Ht2).
    replace (Z.of_nat (n - S d)) with k in E by lia. eexists. split; [exact E|]. exists d. cbn [fst snd]. split; [lia|]. split; [done|lia].
  - rewrite E1. step. cbn [fst snd] in *. assert (d = 0)%nat as -> by lia. pose proof wl_second as Hsec.
    destruct (event_loop_ok (Z.of_nat n) (connecting n 0) connect_event (fun s w H => ci_world H)
      (fun s w e Hs He => connect_event_ok n s w e Hs He) (fun s w w' Hs => connecting_wait n 0 s w w' Hs)
      (fun s => cl_connected s + cl_failed s <? cf_connections config) (w_now w + cf_timeout_seconds config * w_second)
      (Z.min (cf_connections config) 4096) (rounds config) s1 w1 Hc1) as (s2 & w2 & -> & Hc2 & _); [unfold rounds; nia|unfold rounds; nia|].
    step. destruct (connect_sweep_ok n s2 w2 Hc2) as (s3 & w3 & -> & Hc3 & _ & Hf). exists s3, w3. split; [done|]. split; [done|]. split; [done|].
    rewrite (ci_connected Hc3). pose proof (ci_failed Hc3). pose proof (cnt_two Idle Failed _ ltac:(done) Hf). rewrite (ci_len Hc3) in *. lia.
Qed.
End connect_phase.

(** ** Echoing *)
Section echoing.
Context {W : Type} `{Hlaws : WorldLaws W} (P : Z) (HP : 0 < P < 2 ^ 32).
Implicit Types (s : Client) (w : W) (c : Connection) (d : list byte * list byte).

(** Connection [i] with what was sent and what arrived on it: connections below [hi] have been
    activated, those below [lo] are done. *)
Definition echo_conn (lo hi i : nat) c d : Prop :=
  (0 ≤ cn_sent c ≤ P ∧ d.1 = take (Z.to_nat (cn_sent c)) (payload (Z.of_nat i) P)) ∧
  cn_received c = Z.of_nat (length d.2) ∧ cn_received c ≤ P ∧
  match cn_state c with
  | Connecting => False
  | Idle => (hi ≤ i)%nat ∧ 0 ≤ cn_fd c ∧ cn_sent c = 0 ∧ cn_received c = 0
  | Sending => (lo ≤ i < hi)%nat ∧ 0 ≤ cn_fd c ∧ cn_sent c < P ∧ cn_received c = 0
  | Receiving => (lo ≤ i < hi)%nat ∧ 0 ≤ cn_fd c ∧ cn_sent c = P ∧ cn_received c < P
  | Complete => (i < hi)%nat ∧ 0 ≤ cn_fd c ∧ cn_sent c = P ∧ d.2 = payload (Z.of_nat i) P
  | Failed => (i < hi)%nat ∧ (cn_fd c = -1 ∧ cn_received c < P ∨ 0 ≤ cn_fd c ∧ cn_received c = P ∧ d.2 ≠ payload (Z.of_nat i) P)
  end.

#[local] Set Implicit Arguments.
Record echoing (n lo hi : nat) s w : Prop := {
  ei_len : length (cl_connections s) = n;
  ei_arrived : length (cl_wire s) = n;
  ei_conn : ∀ i c d, cl_connections s !! i = Some c → cl_wire s !! i = Some d →
    echo_conn lo hi i c d ∧ mem_read (cl_receive_buffer s) (Z.of_nat i * P) (cn_received c) = d.2;
  ei_buffer : Z.of_nat (length (cl_receive_buffer s)) = Z.of_nat n * P;
  ei_connected : cl_connected s = Z.of_nat n;
  ei_echoed : cl_echoed s = cnt Complete (cl_connections s);
  ei_echo_failed : cl_echo_failed s = cnt Failed (cl_connections s);
  ei_books : books s;
  ei_world : w_ok (Z.of_nat n) w
}.
#[local] Unset Implicit Arguments.
#[local] Arguments ei_conn {_ _ _ _ _} _ _ _ _ _ _.

Lemma echoing_at n lo hi s w i : echoing n lo hi s w → (i < n)%nat →
  ∃ c d, cl_connections s !! i = Some c ∧ cl_wire s !! i = Some d ∧ echo_conn lo hi i c d ∧
    mem_read (cl_receive_buffer s) (Z.of_nat i * P) (cn_received c) = d.2.
Proof.
  intros He Hi. destruct (lookup_lt_is_Some_2 (cl_connections s) i) as [c Hc]; [rewrite (ei_len He); lia|].
  destruct (lookup_lt_is_Some_2 (cl_wire s) i) as [d Hd]; [rewrite (ei_arrived He); lia|].
  exists c, d. split; [done|]. split; [done|]. by apply (ei_conn He).
Qed.

(** One connection changes; [hi'] is [hi], or one more when it is the next to
    be activated. *)
Lemma echoing_update n lo hi hi' s w s' w' i c d c' d' :
  echoing n lo hi s w → cl_connections s !! i = Some c → cl_wire s !! i = Some d →
  hi' = hi ∨ hi' = S hi ∧ i = hi →
  cl_connections s' = <[i := c']> (cl_connections s) → cl_wire s' = <[i := d']> (cl_wire s) →
  echo_conn lo hi' i c' d' →
  length (cl_receive_buffer s') = length (cl_receive_buffer s) →
  (∀ k m, k ≠ i → 0 ≤ m ≤ P → mem_read (cl_receive_buffer s') (Z.of_nat k * P) m = mem_read (cl_receive_buffer s) (Z.of_nat k * P) m) →
  mem_read (cl_receive_buffer s') (Z.of_nat i * P) (cn_received c') = d'.2 →
  cl_connected s' = cl_connected s →
  cl_echoed s' = cl_echoed s - one (bool_decide (cn_state c = Complete)) + one (bool_decide (cn_state c' = Complete)) →
  cl_echo_failed s' = cl_echo_failed s - one (bool_decide (cn_state c = Failed)) + one (bool_decide (cn_state c' = Failed)) →
  books s' → w_ok (Z.of_nat n) w' → echoing n lo hi' s' w'.
Proof.
  intros He Hc Hd Hhi Ec Ed Hok Hlb Hoth Hown Hcon Hech Hfail Hb Hw. split; try done.
  - rewrite Ec, length_insert. apply He.
  - rewrite Ed, length_insert. apply He.
  - intros k c1 d1. rewrite Ec, Ed. destruct (decide (k = i)) as [->|Hk].
    + rewrite !list_lookup_insert_eq by (eapply lookup_lt_Some; eassumption). intros [= <-] [= <-]. done.
    + rewrite !list_lookup_insert_ne by done. intros H1 H2. destruct (ei_conn He _ _ _ H1 H2) as [Hk1 Hk2].
      pose proof Hk1 as (_ & Hr & Hr' & _). rewrite Hoth by lia. split; [|done].
      destruct Hhi as [->|[-> ->]]; [done|]. destruct Hk1 as (H3 & H4 & H5 & H6). split; [done|]. split; [done|]. split; [done|].
      destruct (cn_state c1); intuition lia.
  - rewrite Hlb. apply He.
  - rewrite Hcon. apply He.
  - rewrite Ec, (cnt_insert _ _ _ _ _ Hc), Hech. by rewrite (ei_echoed He).
  - rewrite Ec, (cnt_insert _ _ _ _ _ Hc), Hfail. by rewrite (ei_echo_failed He).
Qed.

Lemma books_same_fd s s' i c c' :
  books s → cl_connections s !! i = Some c → cn_fd c' = cn_fd c → cl_connections s' = <[i := c']> (cl_connections s) →
  cl_opened s' = cl_opened s → cl_closed s' = cl_closed s → books s'.
Proof.
  unfold books. intros Hb Hi Hfd -> -> ->. pose proof (sockets_insert _ _ _ c' Hi) as Hs.
  assert (own_fd c' = own_fd c) as E by (unfold own_fd; by rewrite Hfd). rewrite E in Hs. apply Permutation_app_inv_l in Hs. by rewrite Hs.
Qed.

(** A connection is given up. *)
Lemma echoing_fail n lo hi hi' s w w' i c d :
  echoing n lo hi s w → cl_connections s !! i = Some c → cl_wire s !! i = Some d →
  hi' = hi ∧ (i < hi)%nat ∨ hi' = S hi ∧ i = hi → cn_state c ≠ Complete → cn_state c ≠ Failed → w_ok (Z.of_nat n) w' →
  echoing n lo hi' (cl_with_echo (abandon s i c) (cl_echoed s) (cl_echo_failed s + 1)) w'.
Proof.
  intros He Hc Hd Hhi Hnc Hnf Hw'. destruct (abandon_same s i c) as (E1 & _ & _ & _ & E2 & E3).
  destruct (ei_conn He _ _ _ Hc Hd) as [(H1 & H2 & H3 & H4) H5].
  assert (cn_received c < P) as Hlt by (destruct (cn_state c); intuition lia).
  apply (echoing_update n lo hi hi' s w _ w' i c d (gone c) d He Hc Hd); try done;
    cbn [cl_connections cl_wire cl_receive_buffer cl_connected cl_echoed cl_echo_failed cl_with_echo]; rewrite ?E2, ?E3, ?E1; try done.
  - destruct Hhi as [[-> _]|?]; auto.
  - apply abandon_conns.
  - by rewrite list_insert_id.
  - split; [done|]. split; [done|]. split; [done|]. cbn. split; [lia|left; lia].
  - change (cn_state (gone c)) with Failed. states. lia.
  - change (cn_state (gone c)) with Failed. states. lia.
  - exact (books_abandon s i c Hc (ei_books He)).
Qed.

Lemma echo_fail_ok n lo hi s w w1 i c d :
  echoing n lo hi s w → cl_connections s !! i = Some c → cl_wire s !! i = Some d → (i < hi)%nat →
  cn_state c ≠ Complete → cn_state c ≠ Failed → w_ok (Z.of_nat n) w1 →
  ∃ s' w', echo_fail s (Z.of_nat i) w1 = Ok (s', w') ∧ echoing n lo hi s' w' ∧ w_now w1 ≤ w_now w' ∧
    cl_connections s' = <[i := gone c]> (cl_connections s).
Proof.
  intros He Hc Hd Hi Hnc Hnf Hw1. unfold echo_fail. destruct (fail_connection_ok s i c w1 Hc) as (w2 & -> & Hle). step.
  destruct (abandon_same s i c) as (_ & _ & -> & -> & _). eexists _, _. split; [done|].
  split; [|split; [destruct Hle; lia|apply abandon_conns]]. eapply echoing_fail; try done; [auto|]. by eapply w_ok_le.
Qed.

(** Only the connection changes, with the same descriptor. *)
Lemma echoing_set n lo hi hi' s w w' i c d c' d' :
  d'.2 = d.2 → echoing n lo hi s w → cl_connections s !! i = Some c → cl_wire s !! i = Some d →
  hi' = hi ∨ hi' = S hi ∧ i = hi → echo_conn lo hi' i c' d' → cn_fd c' = cn_fd c → cn_received c' = cn_received c →
  cn_state c ≠ Complete → cn_state c ≠ Failed → cn_state c' ≠ Complete → cn_state c' ≠ Failed → w_ok (Z.of_nat n) w' →
  echoing n lo hi' (cl_with_connections (cl_with_buffer s (cl_receive_buffer s) (<[i := d']> (cl_wire s))) (<[i := c']> (cl_connections s))) w'.
Proof.
  intros E2 He Hc Hd Hhi Hok Hfd Hr H1 H2 H3 H4 Hw'. destruct (ei_conn He _ _ _ Hc Hd) as [_ Hm].
  apply (echoing_update n lo hi hi' s w _ w' i c d c' d' He Hc Hd); cbn [cl_connections cl_wire cl_receive_buffer cl_connected cl_echoed cl_echo_failed cl_with_connections cl_with_buffer]; try done.
  - by rewrite Hr, E2.
  - states. lia.
  - states. lia.
  - by eapply (books_same_fd s); [apply He|..].
Qed.

Lemma same_wire s i d : cl_wire s !! i = Some d → cl_with_buffer s (cl_receive_buffer s) (<[i := d]> (cl_wire s)) = s.
Proof. intros Hd. rewrite list_insert_id by done. by destruct s. Qed.

Lemma activate_one_ok n lo hi s w :
  echoing n lo hi s w → (lo ≤ hi < n)%nat →
  ∃ s' w', activate_one (Z.of_nat hi) (s, w) = Ok (s', w') ∧ echoing n lo (S hi) s' w' ∧ w_now w ≤ w_now w'.
Proof.
  intros He Hlt. destruct (echoing_at n lo hi s w hi He ltac:(lia)) as (c & d & Hc & Hd & Hok & Hm).
  assert (cn_state c = Idle ∧ 0 ≤ cn_fd c ∧ cn_sent c = 0 ∧ cn_received c = 0) as (Hst & Hfd & Hs0 & Hr0).
  { destruct Hok as (_ & _ & _ & Hst). destruct (cn_state c); intuition lia. }
  unfold activate_one. rewrite (conn_ok _ _ _ Hc). step. rewrite (set_conn_ok _ hi c) by done. step.
  destruct (update_events_ok (Z.of_nat n) hi (cn_with_state c Sending) EPOLLOUT w (ei_world He) ltac:(lia)) as (ok & w1 & -> & Hw1 & Ht1).
  set (s1 := cl_with_connections _ _). assert (echoing n lo (S hi) s1 w1) as He1.
  { unfold s1. rewrite <- (same_wire s hi d Hd) at 1.
    apply (echoing_set n lo hi (S hi) s w w1 hi c d (cn_with_state c Sending) d eq_refl He Hc Hd); try done; rewrite ?Hst; try done; auto.
    destruct Hok as (H1 & H2 & H3 & _). split; [done|]. split; [done|]. split; [done|]. cbn. lia. }
  destruct ok; [by eexists _, _|].
  assert (cl_connections s1 !! hi = Some (cn_with_state c Sending)) as Hc1 by (apply list_lookup_insert_eq; by apply lookup_lt_Some in Hc).
  destruct (echo_fail_ok n lo (S hi) s1 w1 w1 hi _ d He1 Hc1 Hd ltac:(lia) ltac:(done) ltac:(done) Hw1) as (s2 & w2 & E & He2 & Ht2 & _).
  unfold echo_fail in E. rewrite E. eexists _, _. split; [done|]. split; [done|lia].
Qed.

Lemma send_event_ok n lo hi s w i c d :
  echoing n lo hi s w → cl_connections s !! i = Some c → cl_wire s !! i = Some d → cn_state c = Sending →
  ∃ s' w', send_event P s (Z.of_nat i) c w = Ok (s', w') ∧ echoing n lo hi s' w' ∧ w_now w ≤ w_now w'.
Proof.
  intros He Hc Hd Hst. destruct (ei_conn He _ _ _ Hc Hd) as [Hok Hm]. pose proof Hok as ((H1 & Hpre) & H2 & H3 & H4). rewrite Hst in H4.
  destruct H4 as (Hi & Hfd & Hs & Hr). pose proof (lookup_lt_Some _ _ _ Hc) as Hlt. rewrite (ei_len He) in Hlt. unfold send_event.
  assert (Hlp : Z.of_nat (length (payload (Z.of_nat i) P)) = P) by (unfold payload; rewrite length_fmap, length_seqZ; lia).
  destruct (w_send _ _ w) as [[r errno] w1] eqn:E. apply wl_send in E as [Hle Hrl]. rewrite length_drop in Hrl.
  pose proof (w_ok_le _ _ _ (ei_world He) Hle) as Hw1. destruct Hle as [Ht _].
  destruct (Z.ltb_spec 0 r) as [Hpos|Hneg].
  - rewrite (u32_small r), (u32_small (cn_sent c + r)) by lia. cbn [cn_with_sent cn_sent]. rewrite Hlp.
    rewrite Nat2Z.id, (list_alter_lookup _ _ _ _ Hd). set (d' := (_, _)).
    assert (Hd1 : d'.1 = take (Z.to_nat (cn_sent c + r)) (payload (Z.of_nat i) P)).
    { unfold d'. cbn [fst]. rewrite Hpre, take_take_drop. f_equal. lia. }
    case_test.
    + rewrite (set_conn_ok _ i c) by done. step. set (c' := cn_with_state _ _).
      destruct (update_events_ok (Z.of_nat n) i c' EPOLLIN w1 Hw1 ltac:(lia)) as (ok & w2 & -> & Hw2 & Ht2).
      eexists _, _. split; [done|]. split; [|lia].
      apply (echoing_set n lo hi hi s w w2 i c d c' d' eq_refl He Hc Hd); try done; rewrite ?Hst; try done; auto.
      split; [split; [cbn; lia|done]|]. split; [done|]. split; [done|]. cbn. lia.
    + rewrite (set_conn_ok _ i c) by done. step. eexists _, _. split; [done|]. split; [|lia].
      apply (echoing_set n lo hi hi s w w1 i c d _ d' eq_refl He Hc Hd); cbn [cn_with_sent cn_fd cn_received cn_state]; try done; rewrite ?Hst; try done; auto.
      split; [split; [cbn; lia|done]|]. split; [done|]. split; [done|]. cbn. rewrite Hst. lia.
  - case_test.
    + destruct (echo_fail_ok n lo hi s w w1 i c d He Hc Hd) as (s2 & w2 & E2 & He2 & Ht2 & _); [lia|by rewrite Hst|by rewrite Hst|done|].
      eexists _, _. split; [done|]. split; [done|lia].
    + eexists _, _. split; [done|]. split; [|lia]. destruct He. by split.
Qed.

(** A read delivers into the room of the connection, behind what is there. *)
Lemma recv_write n lo hi s w i c d x :
  echoing n lo hi s w → (i < n)%nat → cl_connections s !! i = Some c → cl_wire s !! i = Some d →
  Z.of_nat (length x) ≤ P - cn_received c →
  ∃ b, mem_write (cl_receive_buffer s) (Z.of_nat i * P + cn_received c) x = Ok b ∧ length b = length (cl_receive_buffer s) ∧
    (∀ k m, k ≠ i → 0 ≤ m ≤ P → mem_read b (Z.of_nat k * P) m = mem_read (cl_receive_buffer s) (Z.of_nat k * P) m) ∧
    mem_read b (Z.of_nat i * P) (cn_received c + Z.of_nat (length x)) = d.2 ++ x.
Proof.
  intros He Hi Hc Hd Hx. destruct (ei_conn He _ _ _ Hc Hd) as [(_ & Hr & Hrp & _) Hm]. pose proof (ei_buffer He) as Hb.
  destruct (mem_write_spec (cl_receive_buffer s) (Z.of_nat i * P + cn_received c) x) as (b & E & Hl & Hown & Hoth); [nia|nia|].
  exists b. split; [done|]. split; [done|]. split.
  - intros k m Hk Hm'. apply Hoth; [nia|lia|]. destruct (decide (k < i)%nat); [left|right]; nia.
  - rewrite Hown by nia. by rewrite Hm.
Qed.

(** The client after a read, with the connection in a state. *)
Definition received s i c (x : list byte) b st e f : Client :=
  cl_with_echo (cl_with_connections (cl_with_buffer s b (alter (fun l => (l.1, l.2 ++ x)) i (cl_wire s)))
    (<[i := mkConnection (cn_fd c) st (cn_sent c) (cn_received c + Z.of_nat (length x))]> (cl_connections s))) e f.

Lemma echoing_received n lo hi s w w1 i c d x b st e f :
  echoing n lo hi s w → cl_connections s !! i = Some c → cl_wire s !! i = Some d → cn_state c = Receiving → w_ok (Z.of_nat n) w1 →
  length b = length (cl_receive_buffer s) →
  (∀ k m, k ≠ i → 0 ≤ m ≤ P → mem_read b (Z.of_nat k * P) m = mem_read (cl_receive_buffer s) (Z.of_nat k * P) m) →
  mem_read b (Z.of_nat i * P) (cn_received c + Z.of_nat (length x)) = d.2 ++ x →
  echo_conn lo hi i (mkConnection (cn_fd c) st (cn_sent c) (cn_received c + Z.of_nat (length x))) (d.1, d.2 ++ x) →
  e = cl_echoed s + one (bool_decide (st = Complete)) → f = cl_echo_failed s + one (bool_decide (st = Failed)) →
  echoing n lo hi (received s i c x b st e f) w1.
Proof.
  intros He Hc Hd Hst Hw1 Hlb Hoth Hown Hok -> ->. unfold received. rewrite (list_alter_lookup _ _ _ _ Hd). set (c1 := mkConnection _ _ _ _) in *.
  set (s1 := cl_with_connections _ _).
  assert (Hbk : books s1) by (apply (books_same_fd s _ i c c1); try done; apply He).
  apply (echoing_update n lo hi hi s w _ w1 i c d c1 (d.1, d.2 ++ x) He Hc Hd); try done; auto;
    cbn [cl_echoed cl_echo_failed cl_with_echo]; rewrite Hst; states; change (cn_state c1) with st; lia.
Qed.

(** A read that delivers nothing. *)
Lemma echoing_nothing n lo hi s w w1 i c d b :
  echoing n lo hi s w → cl_connections s !! i = Some c → cl_wire s !! i = Some d → w_ok (Z.of_nat n) w1 →
  length b = length (cl_receive_buffer s) →
  (∀ k m, k ≠ i → 0 ≤ m ≤ P → mem_read b (Z.of_nat k * P) m = mem_read (cl_receive_buffer s) (Z.of_nat k * P) m) →
  mem_read b (Z.of_nat i * P) (cn_received c) = d.2 → echoing n lo hi (cl_with_buffer s b (cl_wire s)) w1.
Proof.
  intros He Hc Hd Hw1 Hlb Hoth Hown. split; try done; try apply He; [|cbn; rewrite Hlb; apply He].
  intros k c1 d1 Hk Hdk. destruct (ei_conn He _ _ _ Hk Hdk) as [Hk1 Hk2]. split; [done|]. destruct Hk1 as (_ & ? & ? & _). cbn in *.
  destruct (decide (k = i)) as [->|Hne]; [|by rewrite Hoth by lia]. assert (c1 = c) as -> by congruence. congruence.
Qed.

Lemma recv_event_ok n lo hi s w i c d :
  echoing n lo hi s w → cl_connections s !! i = Some c → cl_wire s !! i = Some d → cn_state c = Receiving →
  ∃ s' w', recv_event P s (Z.of_nat i) c w = Ok (s', w') ∧ echoing n lo hi s' w' ∧ w_now w ≤ w_now w'.
Proof.
  intros He Hc Hd Hst. destruct (ei_conn He _ _ _ Hc Hd) as [Hok Hm]. pose proof Hok as ((H1 & Hpre) & H2 & H3 & H4). rewrite Hst in H4.
  destruct H4 as (Hi & Hfd & Hs & Hr). pose proof (lookup_lt_Some _ _ _ Hc) as Hlt. rewrite (ei_len He) in Hlt. unfold recv_event.
  rewrite (u32_small (P - cn_received c)) by lia.
  destruct (w_recv _ _ w) as [[[r errno] x] w1] eqn:E. apply wl_recv in E as (Hle & Hx & Hx0); [|lia].
  pose proof (w_ok_le _ _ _ (ei_world He) Hle) as Hw1. destruct Hle as [Ht _].
  destruct (recv_write n lo hi s w i c d x He Hlt Hc Hd) as (b & -> & Hlb & Hoth & Hown).
  { destruct (Z.ltb_spec r 0); [rewrite Hx0 by done; cbn; lia|destruct Hx; lia]. }
  step. rewrite Nat2Z.id. destruct (Z.ltb_spec 0 r) as [Hpos|Hneg].
  - destruct Hx as [Hx Hxk]; [lia|]. rewrite (u32_small r), (u32_small (cn_received c + r)), (u32_small P) by lia.
    cbn [cn_with_received cn_received].
    pose proof (fun st e f => echoing_received n lo hi s w w1 i c d x b st e f He Hc Hd Hst Hw1 Hlb Hoth Hown) as Hgo.
    assert (Hlen : Z.of_nat (length (d.2 ++ x)) = cn_received c + r) by (rewrite length_app; lia).
    unfold received in Hgo. rewrite Hx in Hgo, Hown.
    destruct (Z.eqb_spec (cn_received c + r) P) as [Hp|Hp]; rewrite (set_conn_ok _ i c) by done; step.
    + rewrite Hp in Hown. rewrite Hown. eexists _, _. split; [done|]. split; [|lia].
      case_bool_decide as Hv; apply Hgo; try (states; cbn; lia); repeat split; cbn; try done; try lia; auto.
    + eexists _, _. split; [done|]. split; [|lia]. unfold cn_with_received. rewrite Hst.
      apply (Hgo Receiving (cl_echoed s) (cl_echo_failed s)); [|states; lia|states; lia].
      repeat split; cbn; try done; lia.
  - assert (x = []) as -> by (apply nil_length_inv; destruct (Z.ltb_spec r 0); [by rewrite Hx0|destruct Hx; lia]).
    rewrite app_nil_r in Hown. cbn [length] in Hown. rewrite Z.add_0_r in Hown. rewrite (list_alter_lookup _ _ _ _ Hd), app_nil_r.
    rewrite <- surjective_pairing, (list_insert_id _ _ _ Hd). pose proof (echoing_nothing n lo hi s w w1 i c d b He Hc Hd Hw1 Hlb Hoth Hown) as He1.
    case_test; [|eexists _, _; split; [done|]; split; [done|lia]].
    destruct (echo_fail_ok n lo hi _ w1 w1 i c d He1 Hc Hd) as (s2 & w2 & -> & He2 & Ht2 & _); [lia|by rewrite Hst|by rewrite Hst|done|].
    eexists _, _. split; [done|]. split; [done|lia].
Qed.

Lemma echo_event_ok n lo hi s w e :
  echoing n lo hi s w → 0 ≤ e < Z.of_nat n →
  ∃ s' w', echo_event P (s, w) e = Ok (s', w') ∧ echoing n lo hi s' w' ∧ w_now w ≤ w_now w'.
Proof.
  intros He Hr. destruct (echoing_at n lo hi s w (Z.to_nat e) He ltac:(lia)) as (c & d & Hc & Hd & _).
  rewrite <- (Z2Nat.id e) by lia. unfold echo_event. rewrite (conn_ok _ _ _ Hc). step.
  destruct (cn_state c) eqn:Hst; try (by eexists _, _); [by eapply send_event_ok|by eapply recv_event_ok].
Qed.

Lemma echoing_wait n lo hi s w w' : echoing n lo hi s w → w_now w ≤ w_now w' → w_registered w' ⊆ w_registered w → echoing n lo hi s w'.
Proof. intros [] Ht Hr. split; try done. by eapply w_ok_le; [|split]. Qed.

Definition settled c : Prop := cn_state c ≠ Sending ∧ cn_state c ≠ Receiving.

Lemma echo_sweep_ok n lo hi s w :
  echoing n lo hi s w → (lo ≤ hi ≤ n)%nat →
  ∃ s' w', for_up (hi - lo) (Z.of_nat lo) echo_sweep_one (s, w) = Ok (s', w') ∧ echoing n hi hi s' w' ∧ w_now w ≤ w_now w'.
Proof.
  intros He Hlo.
  destruct (for_up_inv (fun k st => echoing n lo hi st.1 st.2 ∧ w_now w ≤ w_now st.2 ∧
    ∀ i c, Z.of_nat i < k → cl_connections st.1 !! i = Some c → settled c) echo_sweep_one (hi - lo) (Z.of_nat lo) (s, w))
    as ([s' w'] & E & He' & Ht & Hn).
  - split; [done|]. split; [done|]. cbn. intros i c Hi Hc.
    destruct (echoing_at n lo hi s w i He ltac:(lia)) as (c0 & d & Hc0 & Hd & (_ & _ & _ & Hst) & _). assert (c0 = c) as -> by congruence.
    split; intros Es; rewrite Es in Hst; lia.
  - intros k [s1 w1] Hk (He1 & Ht1 & Hn1). cbn [fst snd] in *.
    destruct (echoing_at n lo hi s1 w1 (Z.to_nat k) He1 ltac:(lia)) as (c & d & Hc & Hd & _).
    rewrite <- (Z2Nat.id k) by lia. set (i := Z.to_nat k) in *. unfold echo_sweep_one. rewrite (conn_ok _ _ _ Hc). step.
    assert (Hkeep : settled c → ∃ s' : Client * W, Ok (s1, w1) = Ok s' ∧ echoing n lo hi s'.1 s'.2 ∧ w_now w ≤ w_now s'.2 ∧
      ∀ m c', Z.of_nat m < Z.of_nat i + 1 → cl_connections s'.1 !! m = Some c' → settled c').
    { intros Hs. eexists. split; [done|]. split; [done|]. split; [done|]. intros m c' Hm Hc'.
      destruct (decide (m = i)) as [->|]; [cbn in Hc'; congruence|]. apply (Hn1 m); [lia|done]. }
    assert (Hdrop : cn_state c ≠ Complete → cn_state c ≠ Failed → ∃ s' : Client * W, echo_fail s1 (Z.of_nat i) w1 = Ok s' ∧ echoing n lo hi s'.1 s'.2 ∧
      w_now w ≤ w_now s'.2 ∧ ∀ m c', Z.of_nat m < Z.of_nat i + 1 → cl_connections s'.1 !! m = Some c' → settled c').
    { intros H1 H2. destruct (echo_fail_ok n lo hi s1 w1 w1 i c d He1 Hc Hd ltac:(lia) H1 H2 (ei_world He1)) as (s2 & w2 & -> & He2 & Ht2 & Ec).
      eexists. split; [done|]. cbn [fst snd]. split; [done|]. split; [lia|]. intros m c' Hm. rewrite Ec.
      intros [(-> & <- & _)|[? Hm']]%list_lookup_insert_Some; [by split|]. apply (Hn1 m); [lia|done]. }
    destruct (cn_state c) eqn:Hst; try (apply Hkeep; split; congruence); by apply Hdrop.
  - exists s', w'. cbn [fst snd] in *. split; [done|]. split; [|done]. destruct He'. split; try done.
    intros i c d Hc Hd. destruct (ei_conn0 i c d Hc Hd) as [(H1 & H2 & H3 & H4) H5]. split; [|done]. split; [done|]. split; [done|]. split; [done|].
    destruct (cn_state c) eqn:Hst; try done; destruct H4 as [Hi _]; destruct (Hn i c ltac:(lia) Hc); congruence.
Qed.
End echoing.

(** ** The second phase *)
Definition config_ok (c : Config) : Prop :=
  1 ≤ cf_port c ≤ 1000000 ∧ 1 ≤ cf_connections c ≤ 1000000 ∧ 1 ≤ cf_hold_seconds c ≤ 1000000 ∧
  1 ≤ cf_payload_size c ≤ 1000000 ∧ 1 ≤ cf_batch_size c ≤ 1000000 ∧ 1 ≤ cf_timeout_seconds c ≤ 1000000.

Section echo_phase.
Context {W : Type} `{Hlaws : WorldLaws W} (config : Config) (Hcfg : config_ok config).
Implicit Types (s : Client) (w : W).
Local Abbreviation P := (cf_payload_size config).
Local Abbreviation n := (Z.to_nat (cf_connections config)).

Lemma payload_fits : 0 < P < 2 ^ 32.
Proof. destruct Hcfg. lia. Qed.
#[local] Hint Resolve payload_fits : core.

Lemma activate_ok lo m : ∀ hi s w, echoing P n lo hi s w → (lo ≤ hi)%nat → (hi + m ≤ n)%nat →
  ∃ s' w', for_up m (Z.of_nat hi) activate_one (s, w) = Ok (s', w') ∧ echoing P n lo (hi + m) s' w'.
Proof.
  induction m as [|m IH]; intros hi s w He Hlo Hm; [rewrite Nat.add_0_r; by eexists _, _|]. cbn [for_up].
  destruct (activate_one_ok P payload_fits n lo hi s w He ltac:(lia)) as (s1 & w1 & -> & He1 & _). step.
  replace (Z.of_nat hi + 1) with (Z.of_nat (S hi)) by lia. replace (hi + S m)%nat with (S hi + m)%nat by lia. apply IH; [done|lia|lia].
Qed.

Lemma echo_batch_ok lo s w : echoing P n lo lo s w → (lo < n)%nat →
  ∃ s' w' hi, echo_batch config (Z.of_nat lo) (s, w) = Ok (s', w') ∧ echoing P n hi hi s' w' ∧
    Z.of_nat hi = Z.min (Z.of_nat lo + cf_batch_size config) (cf_connections config).
Proof.
  intros He Hlo. destruct Hcfg as (_ & Hn & _ & _ & Hb & Ht). unfold echo_batch. cbn [fst snd].
  set (e := Z.min _ (cf_connections config)). set (m := Z.to_nat (e - Z.of_nat lo)). set (hi := (lo + m)%nat).
  destruct (activate_ok lo m lo s w He ltac:(lia) ltac:(lia)) as (s1 & w1 & -> & He1). step. fold hi in He1. pose proof wl_second as Hsec.
  destruct (event_loop_ok (Z.of_nat n) (echoing P n lo hi) (echo_event P) (fun s w H => ei_world H)
    (fun s w e Hs He => echo_event_ok P payload_fits n lo hi s w e Hs He) (fun s w w' Hs => echoing_wait P n lo hi s w w' Hs)
    (fun s' => cl_echoed s' + cl_echo_failed s' <? cl_echoed s + cl_echo_failed s + (e - Z.of_nat lo))
    (w_now w1 + cf_timeout_seconds config * w_second)
    (Z.min (cf_connections config) 4096) (rounds config) s1 w1 He1) as (s2 & w2 & -> & He2 & _); [unfold rounds; nia|unfold rounds; nia|].
  step. destruct (echo_sweep_ok P payload_fits n lo hi s2 w2 He2 ltac:(lia)) as (s3 & w3 & E3 & He3 & _).
  replace (hi - lo)%nat with m in E3 by lia. rewrite E3. exists s3, w3, hi. split; [done|]. split; [done|lia].
Qed.

Lemma echo_batches_ok fuel : ∀ lo s w, echoing P n lo lo s w → (lo ≤ n)%nat → (n - lo ≤ fuel)%nat →
  ∃ s' w', echo_batches fuel config (Z.of_nat lo) (s, w) = Ok (s', w') ∧ echoing P n n n s' w'.
Proof.
  pose proof Hcfg as (_ & Hn & _ & _ & Hb & _).
  induction fuel as [|fuel IH]; intros lo s w He Hlo Hf; cbn [echo_batches]; destruct (Z.ltb_spec (Z.of_nat lo) (cf_connections config)) as [Hlt|Hge];
    [lia| | |]; try (assert (lo = n) as -> by lia; by eexists _, _).
  destruct (echo_batch_ok lo s w He ltac:(lia)) as (s1 & w1 & hi & -> & He1 & Hhi). step.
  destruct (Z.min_spec (Z.of_nat lo + cf_batch_size config) (cf_connections config)) as [[? Em]|[? Em]]; rewrite Em in Hhi.
  - rewrite <- Hhi. apply IH; [done|lia|lia].
  - assert (hi = n) as -> by lia. exists s1, w1. split; [|done]. destruct fuel; cbn [echo_batches]; by rewrite (proj2 (Z.ltb_ge _ _)) by lia.
Qed.

(** All connections are established, nothing has been sent. *)
Lemma echoing_start s w w' :
  connecting n 0 s w → cl_connected s = cf_connections config → w_le w w' →
  echoing P n 0 0 (cl_with_buffer s (replicate (Z.to_nat (cf_connections config * P)) x00) (replicate n ([], []))) w'.
Proof.
  intros Hc Hn Hw. pose proof Hcfg as (_ & ? & _ & ? & _).
  assert (Forall (fun c => cn_state c = Idle) (cl_connections s)) as Hidle.
  { apply cnt_all. rewrite <- (ci_connected Hc), (ci_len Hc). lia. }
  assert (cnt Failed (cl_connections s) = 0 ∧ cnt Complete (cl_connections s) = 0) as [Hf Hcm].
  { clear -Hidle. induction Hidle as [|c cs Hc _ [IH1 IH2]]; [done|]. rewrite !cnt_cons, Hc. states. lia. }
  split; cbn [cl_connections cl_wire cl_receive_buffer cl_connected cl_echoed cl_echo_failed cl_with_buffer].
  - apply Hc.
  - apply length_replicate.
  - intros i c d Hi [-> Hd]%lookup_replicate. rewrite Forall_lookup in Hidle. pose proof (Hidle _ _ Hi) as Hst.
    pose proof (proj1 (Forall_lookup _ _) (ci_ok Hc) _ _ Hi) as (Hs & Hr & Hf3). unfold echo_conn. rewrite Hst in Hf3 |- *. rewrite Hs, Hr.
    cbn. repeat split; try done; lia.
  - rewrite length_replicate. nia.
  - lia.
  - rewrite (ci_echoed Hc). lia.
  - rewrite (ci_echo_failed Hc). lia.
  - exact (ci_books Hc).
  - eapply w_ok_le; [apply Hc|done].
Qed.

(** The last loop closes what is open. *)
Lemma close_one_ok s w k c : cl_connections s !! k = Some c →
  close_one (Z.of_nat k) (s, w) = Ok (if 0 <=? cn_fd c then (cl_close s (cn_fd c), w_close (cn_fd c) w) else (s, w)).
Proof. intros Hc. unfold close_one. by rewrite (conn_ok _ _ _ Hc). Qed.

Lemma close_ok s w m : ∀ k, (k + m = length (cl_connections s))%nat →
  ∃ w', for_up m (Z.of_nat k) close_one (s, w) =
    Ok (mkClient (cl_connections s) (cl_connected s) (cl_failed s) (cl_echoed s) (cl_echo_failed s) (cl_receive_buffer s) (cl_wire s)
          (cl_opened s) (cl_closed s ++ open_sockets (drop k (cl_connections s))), w').
Proof.
  revert s w. induction m as [|m IH]; intros s w k Hk.
  - rewrite drop_ge by lia. cbn. rewrite app_nil_r. destruct s. by eexists.
  - destruct (lookup_lt_is_Some_2 (cl_connections s) k ltac:(lia)) as [c Hc]. cbn [for_up].
    rewrite (close_one_ok s w k c Hc). step.
    rewrite (drop_S _ _ _ Hc). unfold open_sockets. rewrite bind_cons. fold (open_sockets (drop (S k) (cl_connections s))).
    replace (Z.of_nat k + 1) with (Z.of_nat (S k)) by lia. unfold own_fd. destruct (0 <=? cn_fd c).
    + destruct (IH (cl_close s (cn_fd c)) (w_close (cn_fd c) w) (S k)) as [w' ->]; [cbn; lia|]. eexists. cbn. by rewrite <- app_assoc.
    + destruct (IH s w (S k)) as [w' ->]; [lia|]. by eexists.
Qed.
End echo_phase.

(** ** The options *)
Lemma parse_positive_range s v : parse_positive s = Some v → 1 ≤ v ≤ 1000000.
Proof. unfold parse_positive. destruct (strtol s) as [p rest]. case_test; [done|]. intros [= <-]. bools. lia. Qed.

Lemma parse_number_ok opt v c c' : config_ok c → parse_number opt v c = Some c' → config_ok c'.
Proof.
  destruct c as [a p n h s b t]. unfold config_ok, parse_number. cbn. intros Hc.
  repeat case_bool_decide; try done; intros (x & Hx%parse_positive_range & ->)%fmap_Some; cbn; lia.
Qed.

Lemma parse_options_ok : ∀ m argv c c', (length argv ≤ m)%nat → config_ok c → parse_options argv c = inr c' → config_ok c'.
Proof.
  induction m as [|m IH]; intros [|opt [|v rest]] c c' Hl Hc; cbn in *; try lia; try (intros [= <-]; exact Hc); try done.
  case_bool_decide; [intros E1; refine (IH _ _ _ _ _ E1); [lia|exact Hc]|].
  destruct (parse_number opt v c) as [c1|] eqn:E; [|done]. intros E1. eapply IH; [|by eapply parse_number_ok|exact E1]. lia.
Qed.

Lemma parse_options_code : ∀ m argv c code, (length argv ≤ m)%nat → parse_options argv c = inl code → code = 0 ∨ code = 2.
Proof.
  induction m as [|m IH]; intros [|opt [|v rest]] c code Hl; cbn in *; try lia; try done.
  - intros [= <-]. case_match; auto.
  - case_bool_decide; [apply IH; lia|]. destruct (parse_number opt v c); [apply IH; lia|]. intros [= <-]. case_match; auto.
Qed.

(** ** The whole run *)

(** On every connection the payload went out and came back. *)
Definition all_echoed (size : Z) (s : Client) : Prop :=
  ∀ i d, cl_wire s !! i = Some d → d = (payload (Z.of_nat i) size, payload (Z.of_nat i) size).

Section run.
Context {W : Type} `{Hlaws : WorldLaws W}.
Implicit Types (s : Client) (w : W).

Lemma complete_iff P n s w i c d : 0 < P < 2 ^ 32 → echoing P n n n s w → cl_connections s !! i = Some c → cl_wire s !! i = Some d →
  cn_state c = Complete ∨ cn_state c = Failed ∧ d ≠ (payload (Z.of_nat i) P, payload (Z.of_nat i) P).
Proof.
  intros HP He Hc Hd. destruct (ei_conn He _ Hc Hd) as [(_ & Hr & _ & H4) _]. pose proof (lookup_lt_Some _ _ _ Hc) as Hlt.
  rewrite (ei_len He) in Hlt.
  destruct (cn_state c); try lia; auto. right. split; [done|]. intros ->. cbn in *.
  assert (Z.of_nat (length (payload (Z.of_nat i) P)) = P) by (unfold payload; rewrite length_fmap, length_seqZ; lia). intuition lia.
Qed.

(** The counters tell what the connections did. *)
Lemma echoing_verdict P n s w : 0 < P < 2 ^ 32 → echoing P n n n s w →
  cl_echoed s + cl_echo_failed s = Z.of_nat n ∧ (cl_echoed s = Z.of_nat n ↔ all_echoed P s).
Proof.
  intros HP He.
  assert (Forall (fun c => cn_state c = Complete ∨ cn_state c = Failed) (cl_connections s)) as Hall.
  { apply Forall_lookup. intros i c Hc. destruct (echoing_at P n n n s w i He) as (c' & d & Hc' & Hd & _).
    { apply lookup_lt_Some in Hc. by rewrite (ei_len He) in Hc. }
    destruct (complete_iff P n s w i c d HP He Hc Hd) as [?|[? _]]; auto. }
  pose proof (cnt_two Complete Failed _ ltac:(done) Hall) as Hsum. rewrite (ei_len He) in Hsum.
  rewrite (ei_echoed He), (ei_echo_failed He). split; [done|]. split.
  - intros Hc i d Hd. destruct (echoing_at P n n n s w i He) as (c & d' & Hc' & Hd' & Hok & _).
    { apply lookup_lt_Some in Hd. by rewrite (ei_arrived He) in Hd. }
    assert (d' = d) as -> by congruence. rewrite <- (ei_len He) in Hc. pose proof (cnt_all _ _ Hc) as Hcs. rewrite Forall_lookup in Hcs.
    destruct Hok as ((_ & H1) & _ & _ & H4). rewrite (Hcs _ _ Hc') in H4. destruct H4 as (_ & _ & Hs & H2). destruct d as [d1 d2]. cbn in *.
    rewrite H1, H2, Hs, take_ge; [done|]. unfold payload. rewrite length_fmap, length_seqZ. lia.
  - intros Hd. enough (cnt Failed (cl_connections s) = 0) by lia. unfold cnt. enough (filter (fun c => cn_state c = Failed) (cl_connections s) = []) as -> by done.
    apply elem_of_nil_inv. intros c [Hst [i Hc]%list_elem_of_lookup_1]%list_elem_of_filter.
    destruct (echoing_at P n n n s w i He) as (c' & d & Hc' & Hd' & _).
    { apply lookup_lt_Some in Hc. by rewrite (ei_len He) in Hc. }
    destruct (complete_iff P n s w i c d HP He Hc Hd') as [?|[_ Hne]]; [congruence|]. by apply Hne, Hd.
Qed.

Lemma idle_sockets cs : Forall fresh_conn cs → Forall (fun c => cn_state c = Idle ∨ cn_state c = Failed) cs →
  Z.of_nat (length (open_sockets cs)) = cnt Idle cs.
Proof.
  induction 1 as [|c cs (_ & _ & Hfd) _ IH]; [done|]. intros [Hst Hsts]%Forall_cons. unfold open_sockets in *.
  rewrite bind_cons, length_app, cnt_cons, Nat2Z.inj_add, IH by done. unfold own_fd.
  destruct Hst as [Hst | Hst]; rewrite Hst in Hfd |- *; states; [by rewrite (proj2 (Z.leb_le _ _) Hfd)|by rewrite Hfd].
Qed.

(** What the program leaves behind when it ends. *)
Definition run_outcome (config : Config) (e : Ending) : Prop :=
  match e with
  | Left code => code = 1 ∨ code = 2
  | NotConnected s =>
      cl_connected s < cf_connections config ∧ cl_connected s + cl_failed s = cf_connections config ∧
      ∃ left, cl_opened s ≡ₚ cl_closed s ++ left ∧ Z.of_nat (length left) = cl_connected s
  | Ended code s =>
      cl_connected s = cf_connections config ∧ cl_echoed s + cl_echo_failed s = cf_connections config ∧
      cl_opened s ≡ₚ cl_closed s ∧ (code = 0 ∨ code = 1) ∧ (code = 0 ↔ all_echoed (cf_payload_size config) s)
  end.

(** The second half of main, from the connections on. *)
Lemma echo_phase_ok config s w w' : config_ok config → connecting (Z.to_nat (cf_connections config)) 0 s w →
  cl_connected s = cf_connections config → w_le w w' →
  ∃ s1 w1 s2 w2,
    echo_batches (Z.to_nat (cf_connections config)) config 0 (cl_with_buffer s (replicate (Z.to_nat (cf_connections config * cf_payload_size config)) x00)
      (replicate (Z.to_nat (cf_connections config)) ([], [])), w') = Ok (s1, w1) ∧
    for_up (Z.to_nat (cf_connections config)) 0 close_one (s1, w1) = Ok (s2, w2) ∧
    run_outcome config (Ended (if (cl_echoed s2 =? cl_connected s2) && (cl_echo_failed s2 =? 0) then 0 else 1) s2).
Proof.
  intros Hcfg Hc Hn Hw. pose proof (echoing_start config Hcfg s w w' Hc Hn Hw) as He. pose proof Hcfg as (_ & Hn1 & _ & Hp & _).
  destruct (echo_batches_ok config Hcfg (Z.to_nat (cf_connections config)) 0 _ _ He ltac:(lia) ltac:(lia)) as (s1 & w1 & E1 & He1).
  exists s1, w1. destruct (close_ok s1 w1 (Z.to_nat (cf_connections config)) 0) as [w2 E2]; [rewrite (ei_len He1); lia|].
  eexists _, w2. split; [exact E1|]. split; [exact E2|]. cbn.
  destruct (echoing_verdict _ _ s1 w1 (payload_fits config Hcfg) He1) as [Hsum Hall]. pose proof (ei_connected He1) as Hcon.
  rewrite Z2Nat.id in * by lia. split; [done|]. split; [done|]. split; [apply He1|]. split; [case_match; auto|].
  change (all_echoed _ _) with (all_echoed (cf_payload_size config) s1). rewrite <- Hall.
  destruct (Z.eqb_spec (cl_echoed s1) (cl_connected s1)), (Z.eqb_spec (cl_echo_failed s1) 0); cbn; lia.
Qed.

(** C13. The connection benchmark always ends, for every command line and
    whatever the kernel and the network do within what [epoll] and the sockets
    promise: no access is out of range and no loop outlives its deadline.  The
    options it accepts are in range.  If it gets to the end, every connection is
    counted once as echoed or failed, every socket it opened has been closed
    exactly once, and its exit code is 0 exactly when on every connection the
    whole payload of the connection was sent and the same bytes came back.  If it
    gives up after connecting, the sockets of the established connections are
    left open. *)
Theorem connection_scale_verdict argv w :
  ∃ e w', client_main argv w = Ok (e, w') ∧
    match parse_options argv Config_new with
    | inl code => e = Left code ∧ (code = 0 ∨ code = 2)
    | inr config => config_ok config ∧ run_outcome config e
    end.
Proof.
  unfold client_main. destruct (parse_options argv Config_new) as [code|config] eqn:Ep.
  { eexists _, _. split; [done|]. split; [done|]. by eapply parse_options_code. }
  apply parse_options_ok with (m := length argv) in Ep as Hcfg; [|done|by repeat split].
  assert (Hleft : ∀ code w', code = 1 ∨ code = 2 → ∃ e w'', Ok (Left code, w') = Ok (e, w'') ∧ config_ok config ∧ run_outcome config e).
  { intros. by eexists _, _. }
  destruct (w_getrlimit w) as [r rlim]. case_test; [by apply Hleft; right|].
  destruct (inet_pton _) as [a|]; [|by apply Hleft; right].
  destruct (w_epoll_create w) as [epoll_fd w1] eqn:Ec. apply wl_create in Ec as [_ Hreg]. case_test; [by apply Hleft; left|].
  pose proof Hcfg as (_ & Hn & _ & _ & _ & Ht).
  destruct (connect_phase_ok config a w1 ltac:(lia) ltac:(lia) Hreg) as (s & w2 & -> & Hc & Hst & Hsum). step. case_test.
  - eexists _, _. split; [done|]. split; [done|]. pose proof (idle_sockets _ (ci_ok Hc) Hst) as Hi. rewrite <- (ci_connected Hc) in Hi.
    pose proof (ci_failed Hc) as Hf. pose proof (cnt_nonneg Failed (cl_connections s)).
    split; [lia|]. split; [done|]. eexists. split; [apply Hc|done].
  - destruct (echo_phase_ok config s w2 (w_sleep (cf_hold_seconds config) w2) Hcfg Hc ltac:(done) ltac:(apply wl_sleep)) as (s1 & w3 & s2 & w4 & -> & E & Ho).
    step. rewrite E. step. by eexists _, _.
Qed.
End run.

(** ** An echo server as the world

    A clock of 100 ticks a second, sockets that take at most three bytes and
    deliver at most two, and a port that refuses one of the connections if told
    to. *)
Record EchoWorld := mkEchoWorld {
  ew_now : Z;
  ew_next : Z;
  ew_refuse : Z;
  ew_registered : list Z;
  ew_bytes : list (list byte)   (* by descriptor *)
}.
Definition ew_new (refuse : Z) : EchoWorld := mkEchoWorld 0 4 refuse [] (replicate 16 []).
Definition ew_tick (w : EchoWorld) : EchoWorld :=
  mkEchoWorld (ew_now w + 1) (ew_next w) (ew_refuse w) (ew_registered w) (ew_bytes w).
Definition ew_with_bytes (w : EchoWorld) b : EchoWorld :=
  mkEchoWorld (ew_now w) (ew_next w) (ew_refuse w) (ew_registered w) b.

#[export] Instance EchoWorld_World : World EchoWorld := {
  w_getrlimit w := (0, 1024);
  w_epoll_create w := (3, mkEchoWorld (ew_now w) (ew_next w) (ew_refuse w) [] (ew_bytes w));
  w_socket w := (ew_next w, mkEchoWorld (ew_now w) (ew_next w + 1) (ew_refuse w) (ew_registered w) (ew_bytes w));
  w_connect fd a p w := (-1, if fd =? ew_refuse w then 111 else EINPROGRESS, w);
  w_epoll_ctl op fd ev data w :=
    (0, mkEchoWorld (ew_now w) (ew_next w) (ew_refuse w) (if decide (op = EPOLL_CTL_ADD) then ew_registered w ++ [data] else ew_registered w) (ew_bytes w));
  w_epoll_wait m w := (Z.of_nat (length (ew_registered w)), 0, ew_registered w, ew_tick w);
  w_getsockopt fd w := (0, 0, w);
  w_send fd d w := (Z.of_nat (length (take 3 d)), 0, ew_with_bytes w (alter (fun l => l ++ take 3 d) (Z.to_nat fd) (ew_bytes w)));
  w_recv fd k w :=
    let d := take (Z.to_nat (Z.min 2 k)) (default [] (ew_bytes w !! Z.to_nat fd)) in
    (if decide (d = []) then -1 else Z.of_nat (length d), EWOULDBLOCK, d, ew_with_bytes w (alter (drop (length d)) (Z.to_nat fd) (ew_bytes w)));
  w_close fd w := w;
  w_sleep t w := w;
  w_now := ew_now;
  w_second := 100
}.

#[export] Instance EchoWorld_Laws : WorldLaws EchoWorld.
Proof.
  refine {| w_registered := ew_registered |}; cbn; try done.
  - by intros w fd w' [= <- <-].
  - by intros w fd w' [= <- <-].
  - by intros fd a p w r e w' [= <- <- <-].
  - by intros fd w r e w' [= <- <- <-].
  - intros op fd ev data w r w' [= <- <-]. cbn. split; [done|].
    intros x. case_decide; [rewrite elem_of_app, list_elem_of_singleton|]; rewrite elem_of_cons; tauto.
  - intros m w ready errno evs w' [= <- <- <- <-]. cbn. split; [lia|]. done.
  - intros fd d w r errno w' [= <- <- <-]. cbn. split; [done|]. rewrite length_firstn. lia.
  - intros fd k w r errno d w' [= <- <- <- <-] Hk. cbn. split; [done|].
    set (l := default [] _). pose proof (length_take (A:=byte) l (Z.to_nat (Z.min 2 k))).
    case_decide as Hd; [rewrite Hd; by split; [lia|]|]. split; [|lia]. intros _. split; [done|lia].
Defined.

(** How a run ended, with its exit code or its connections. *)
Definition ended_with {W} (r : result (Ending * W)) : option (Z + Z) :=
  match r with Ok (Ended code _, _) => Some (inl code) | Ok (NotConnected s, _) => Some (inr (cl_connected s)) | _ => None end.

Lemma connection_scale_verdict_witness :
  let argv := ["--connections"; "3"; "--payload-size"; "5"; "--batch-size"; "2"]%string in
  (∃ s w, client_main argv (ew_new (-1)) = Ok (Ended 0 s, w) ∧ all_echoed 5 s ∧ cl_opened s ≡ₚ cl_closed s) ∧
  (∃ s w left, client_main argv (ew_new 5) = Ok (NotConnected s, w) ∧ cl_opened s ≡ₚ cl_closed s ++ left ∧ length left = 2%nat).
Proof.
  intros argv.
  assert (parse_options argv Config_new = inr (mkConfig "127.0.0.1" 8080 3 2 5 2 30)) as Hp by (vm_compute; reflexivity).
  assert (ended_with (client_main argv (ew_new (-1))) = Some (inl 0)) as E1 by (vm_compute; reflexivity).
  assert (ended_with (client_main argv (ew_new 5)) = Some (inr 2)) as E2 by (vm_compute; reflexivity).
  clearbody argv. split.
  - destruct (connection_scale_verdict argv (ew_new (-1))) as (e & w & E & He). rewrite E in E1. rewrite Hp in He. destruct He as [_ He].
    destruct e as [|s|code s]; [discriminate E1|discriminate E1|]. injection E1 as ->. destruct He as (_ & _ & Hcl & _ & Hall).
    exists s, w. split; [exact E|]. split; [by apply Hall|exact Hcl].
  - destruct (connection_scale_verdict argv (ew_new 5)) as (e & w & E & He). rewrite E in E2. rewrite Hp in He. destruct He as [_ He].
    destruct e as [|s|code s]; [discriminate E2| |discriminate E2]. injection E2 as E2. destruct He as (_ & _ & left & Hl & Hn).
    exists s, w, left. split; [exact E|]. split; [exact Hl|]. lia.
Defined.
