(* ===== verification/Bench.v ===== *)
(** * Bench: the load generator

    Models benchmarks/bench.cpp: the blocking transfers and the ping-pong worker
    of the TCP benchmark with the totals of its workers, the UDP benchmark with
    its sequence numbers, time stamps and loss accounting, the UDP worker of the
    scaling benchmark, and the options.

    The sockets and the clock are a world again (class [Net]); every worker has
    its own socket and its own view of it.  The stream sockets block: a [send] or
    [recv] on one may never return ([Blocked]); the datagram sockets do not.
    Reading the clock takes no time: the time passes in the other calls, so that
    readings between two of them agree.  The flag [stop], which the main
    thread sets, is the number of times a worker finds it unset; the wait for
    [go] before is left out.  The datagrams sent and received are recorded with
    the time; the program does not read the records.  Rates and percentages are
    floating-point numbers and left out; the positions of the percentiles are
    arguments. *)
From Stdlib Require Import Ascii.
From stdpp Require Import sorting strings.
From S2P Require Import Prelude Ring BufPool Logger IpAddress Server.

(** ** The world *)
Class Net (W : Type) := {
  n_socket : W → Z * W;
  n_connect : Z → list Z → Z → W → Z * W;     (* fd, octets, port *)
  n_send : Z → list byte → W → Z * W;
  n_recv : Z → Z → W → Z * list byte * W;
  n_send_returns : Z → list byte → W → bool;  (* on a blocking socket *)
  n_recv_returns : Z → Z → W → bool;
  n_close : Z → W → W;
  n_now : W → Z;                              (* nanoseconds of the steady clock *)
  n_backlog : W → nat                         (* datagrams until a socket is found empty *)
}.

(** [long long] arithmetic: overflow is undefined behaviour. *)
Definition long_of (x : Z) : result Z := if (- 2 ^ 63 <=? x) && (x <? 2 ^ 63) then Ok x else Fault SignedOverflow.

(** A loop with a bound in binary: a state goes on, a result ends it. *)
Fixpoint iterate {S R} (p : positive) (f : S → result (S + R)) (s : S) : result (S + R) :=
  let again p x := match x with inl s => iterate p f s | inr r => Ok (inr r) end in
  match p with
  | xH => f s
  | xO p => x ← iterate p f s; again p x
  | xI p => x ← f s; x ← again p x; again p x
  end.
Definition run_loop {S R} (p : positive) (f : S → result (S + R)) (s : S) : result R :=
  x ← iterate p f s; match x with inl _ => Fault OutOfFuel | inr r => Ok r end.

(** ** The options *)
Record BenchOptions := mkBenchOptions {
  bo_addr : string;
  bo_tcp_port : Z;
  bo_udp_port : Z;
  bo_conns : Z;
  bo_tcp_size : Z;
  bo_udp_size : Z;
  bo_duration : Z;
  bo_udp_rate : Z;
  bo_udp_senders : Z;
  bo_do_tcp : bool;
  bo_do_udp : bool;
  bo_do_sweep : bool;
  bo_do_udp_rate : bool;
  bo_do_udp_sweep : bool
}.
Definition bench_defaults : BenchOptions :=
  mkBenchOptions "127.0.0.1" 8080 8081 100 64 64 5 200000 0 true true true true true.

(** An option with a value. *)
Definition bench_value (opt v : string) (o : BenchOptions) : option (result BenchOptions) :=
  let '(mkBenchOptions a tp up c ts us d r s t u sw ur usw) := o in
  let eq x := bool_decide (opt = x) in
  let set f := Some (x ← atoi v; Ok (f x)) in
  if eq "--addr"%string then Some (Ok (mkBenchOptions v tp up c ts us d r s t u sw ur usw))
  else if eq "--tcp-port"%string then set (fun x => mkBenchOptions a x up c ts us d r s t u sw ur usw)
  else if eq "--udp-port"%string then set (fun x => mkBenchOptions a tp x c ts us d r s t u sw ur usw)
  else if eq "--conns"%string then set (fun x => mkBenchOptions a tp up x ts us d r s t u sw ur usw)
  else if eq "--size"%string then set (fun x => mkBenchOptions a tp up c x x d r s t u sw ur usw)
  else if eq "--tcp-size"%string then set (fun x => mkBenchOptions a tp up c x us d r s t u sw ur usw)
  else if eq "--udp-size"%string then set (fun x => mkBenchOptions a tp up c ts x d r s t u sw ur usw)
  else if eq "--duration"%string then set (fun x => mkBenchOptions a tp up c ts us x r s t u sw ur usw)
  else if eq "--udp-rate"%string then set (fun x => mkBenchOptions a tp up c ts us d x s t u sw ur usw)
  else if eq "--udp-senders"%string then set (fun x => mkBenchOptions a tp up c ts us d r x t u sw ur usw)
  else None.

(** A flag, the help ([None]), or something that is skipped. *)
Definition bench_flag (opt : string) (o : BenchOptions) : option BenchOptions :=
  let '(mkBenchOptions a tp up c ts us d r s t u sw ur usw) := o in
  let eq x := bool_decide (opt = x) in
  if eq "--no-tcp"%string then Some (mkBenchOptions a tp up c ts us d r s false u sw ur usw)
  else if eq "--no-udp"%string then Some (mkBenchOptions a tp up c ts us d r s t false sw false false)
  else if eq "--no-sweep"%string then Some (mkBenchOptions a tp up c ts us d r s t u false ur usw)
  else if eq "--no-udp-rate"%string then Some (mkBenchOptions a tp up c ts us d r s t u sw false usw)
  else if eq "--no-udp-sweep"%string then Some (mkBenchOptions a tp up c ts us d r s t u sw ur false)
  else if eq "-h"%string || eq "--help"%string then None
  else Some o.

(** [None]: the help was printed. *)
Fixpoint parse_bench (argv : list string) (o : BenchOptions) : result (option BenchOptions) :=
  match argv with
  | [] => Ok (Some o)
  | opt :: rest =>
      let flag := match bench_flag opt o with Some o => parse_bench rest o | None => Ok None end in
      match rest with
      | v :: rest' =>
          match bench_value opt v o with
          | Some r => o ← r; parse_bench rest' o
          | None => flag
          end
      | [] => flag
      end
  end.

(** ** Figures of a report *)

(** [percentile] sorts the vector; [idx] is the position it computes. *)
Definition percentile (idx : Z) (v : list Z) : option Z * list Z :=
  match v with
  | [] => (None, v)
  | _ =>
      let v := merge_sort Z.le v in
      let idx := if Z.of_nat (length v) <=? idx then Z.of_nat (length v) - 1 else idx in
      (v !! Z.to_nat idx, v)
  end.

(** ** TCP *)
Record TcpWorkerResult := mkTcpWorkerResult { tr_ops : Z; tr_bytes : Z; tr_latency_ns : list Z }.

(** The totals of a run. *)
Definition tcp_total (t r : TcpWorkerResult) : TcpWorkerResult :=
  mkTcpWorkerResult (tr_ops t + tr_ops r) (tr_bytes t + tr_bytes r) (tr_latency_ns t ++ tr_latency_ns r).
Definition tcp_totals (rs : list TcpWorkerResult) : TcpWorkerResult := foldl tcp_total (mkTcpWorkerResult 0 0 []) rs.

(** ** UDP *)
Definition UDP_HDR : Z := 16.

(** The variables of [run_udp_bench], and those of [udp_worker_fn] with its
    [UdpWorkerResult], which has no loss accounting. *)
Record UdpBench := mkUdpBench {
  ub_sbuf : list byte;
  ub_send_times : list Z;
  ub_seq_send : Z;
  ub_seq_expected : Z;
  ub_sent_pkts : Z;
  ub_recv_pkts : Z;
  ub_lost_pkts : Z;
  ub_latency_ns : list Z;
  ub_sent : list (list byte * Z);       (* what [send] took, with the time *)
  ub_received : list (list byte * Z)    (* what was counted, with the time *)
}.

Section program.
Context {W : Type} `{Net W}.

(** The result of [inet_pton] is not looked at. *)
Definition address (addr : string) : list Z := default [0; 0; 0; 0] (inet_pton (String.list_byte_of_string addr)).

(** The options of the socket change nothing here. *)
Definition make_tcp_socket (addr : string) (port : Z) (w : W) : Z * W :=
  let '(fd, w) := n_socket w in
  if fd <? 0 then (-1, w) else
  let '(r, w) := n_connect fd (address addr) (port mod 2 ^ 16) w in
  if r <? 0 then (-1, n_close fd w) else (fd, w).

(** A transfer moves at least one byte, or ends the loop. *)
Fixpoint send_all (fuel : nat) (fd : Z) (buf : list byte) (len sent : Z) (w : W) : result (bool * W) :=
  if sent <? len then
    match fuel with
    | O => Fault OutOfFuel
    | S fuel =>
        if negb (n_send_returns fd (mem_read buf sent (len - sent)) w) then Fault Blocked else
        let '(r, w) := n_send fd (mem_read buf sent (len - sent)) w in
        if i32 r <=? 0 then Ok (false, w) else
        sent ← int_of (sent + i32 r);
        send_all fuel fd buf len sent w
    end
  else Ok (true, w).
Fixpoint recv_all (fuel : nat) (fd : Z) (buf : list byte) (len got : Z) (w : W) : result (bool * list byte * W) :=
  if got <? len then
    match fuel with
    | O => Fault OutOfFuel
    | S fuel =>
        if negb (n_recv_returns fd (len - got) w) then Fault Blocked else
        let '(r, d, w) := n_recv fd (len - got) w in
        buf ← mem_write buf got d;
        if i32 r <=? 0 then Ok (false, buf, w) else
        got ← int_of (got + i32 r);
        recv_all fuel fd buf len got w
    end
  else Ok (true, buf, w).

(** One message there and back; false ends the loop of the worker. *)
Definition tcp_round (fd msg_size : Z) (sendbuf : list byte) (st : TcpWorkerResult * list byte * W)
    : result (bool * (TcpWorkerResult * list byte * W)) :=
  let '(out, recvbuf, w) := st in
  let t0 := n_now w in
  '(ok, w) ← send_all (Z.to_nat msg_size) fd sendbuf msg_size 0 w;
  if negb ok then Ok (false, (out, recvbuf, w)) else
  '(ok, recvbuf, w) ← recv_all (Z.to_nat msg_size) fd recvbuf msg_size 0 w;
  if negb ok then Ok (false, (out, recvbuf, w)) else
  let t1 := n_now w in
  both ← int_of (msg_size * 2);
  Ok (true, (mkTcpWorkerResult (tr_ops out + 1) (tr_bytes out + both) (tr_latency_ns out ++ [t1 - t0]), recvbuf, w)).

Fixpoint tcp_rounds (n : nat) (fd msg_size : Z) (sendbuf : list byte) (st : TcpWorkerResult * list byte * W)
    : result (TcpWorkerResult * list byte * W) :=
  match n with
  | O => Ok st
  | S n => '(go, st) ← tcp_round fd msg_size sendbuf st; if go : bool then tcp_rounds n fd msg_size sendbuf st else Ok st
  end.

(** [n] is how often the worker finds [stop] unset. *)
Definition tcp_worker (addr : string) (port msg_size : Z) (n : nat) (w : W) : result (TcpWorkerResult * W) :=
  let out := mkTcpWorkerResult 0 0 [] in
  let '(fd, w) := make_tcp_socket addr port w in
  if fd <? 0 then Ok (out, w) else
  if msg_size <? 0 then Fault Exception else
  let sendbuf := replicate (Z.to_nat msg_size) x54 in
  let recvbuf := replicate (Z.to_nat msg_size) x00 in
  '(out, _, w) ← tcp_rounds n fd msg_size sendbuf (out, recvbuf, w);
  Ok (out, n_close fd w).

(** The workers of [run_tcp_bench], each with its socket and its rounds, and
    the totals. *)
Fixpoint tcp_workers (addr : string) (port msg_size : Z) (ws : list (nat * W)) : result (list (TcpWorkerResult * W)) :=
  match ws with
  | [] => Ok []
  | (n, w) :: ws =>
      r ← tcp_worker addr port msg_size n w;
      rs ← tcp_workers addr port msg_size ws;
      Ok (r :: rs)
  end.
Definition run_tcp_bench (o : BenchOptions) (ws : list (nat * W)) : result (TcpWorkerResult * list (TcpWorkerResult * W)) :=
  rs ← tcp_workers (bo_addr o) (bo_tcp_port o) (bo_tcp_size o) ws;
  Ok (tcp_totals rs.*1, rs).

(** Sending a datagram; [win] is the size of the window of send times. *)
Definition udp_send (fd win : Z) (u : UdpBench) (w : W) : result (UdpBench * W) :=
  let seq := ub_seq_send u in
  seq_send ← long_of (seq + 1);
  let now_ns := n_now w in
  b ← mem_write (ub_sbuf u) 0 (le_bytes 8 seq);
  b ← mem_write b 8 (le_bytes 8 now_ns);
  let '(r, w) := n_send fd b w in
  if 0 <? r then
    times ← arr_set (ub_send_times u) (Z.land seq (win - 1)) now_ns;
    Ok (mkUdpBench b times seq_send (ub_seq_expected u) (ub_sent_pkts u + 1) (ub_recv_pkts u) (ub_lost_pkts u) (ub_latency_ns u)
          (ub_sent u ++ [(b, now_ns)]) (ub_received u), w)
  else
    Ok (mkUdpBench b (ub_send_times u) seq_send (ub_seq_expected u) (ub_sent_pkts u) (ub_recv_pkts u) (ub_lost_pkts u) (ub_latency_ns u)
          (ub_sent u) (ub_received u), w).

(** The header of a datagram. *)
Definition dgram_seq (d : list byte) : Z := i64 (le_value (mem_read d 0 8)).
Definition dgram_time (d : list byte) : Z := i64 (le_value (mem_read d 8 8)).

(** A datagram is counted. *)
Definition udp_record (d : list byte) (recv_ns : Z) (u : UdpBench) : result UdpBench :=
  let rsend_ns := dgram_time d in
  lat ← (if negb (rsend_ns =? 0) then l ← long_of (recv_ns - rsend_ns); Ok (ub_latency_ns u ++ [l]) else Ok (ub_latency_ns u));
  Ok (mkUdpBench (ub_sbuf u) (ub_send_times u) (ub_seq_send u) (ub_seq_expected u) (ub_sent_pkts u) (ub_recv_pkts u + 1) (ub_lost_pkts u) lat
        (ub_sent u) (ub_received u ++ [(d, recv_ns)])).

(** The loss accounting of [run_udp_bench]. *)
Definition udp_account (d : list byte) (u : UdpBench) : result UdpBench :=
  let rseq := dgram_seq d in
  let set expected lost :=
    mkUdpBench (ub_sbuf u) (ub_send_times u) (ub_seq_send u) expected (ub_sent_pkts u) (ub_recv_pkts u) lost (ub_latency_ns u)
      (ub_sent u) (ub_received u) in
  if ub_seq_expected u <? rseq then
    gap ← long_of (rseq - ub_seq_expected u);
    lost ← long_of (ub_lost_pkts u + gap);
    expected ← long_of (rseq + 1);
    Ok (set expected lost)
  else if rseq =? ub_seq_expected u then expected ← long_of (ub_seq_expected u + 1); Ok (set expected (ub_lost_pkts u))
  else Ok u.

(** Receiving until the socket is empty, or a datagram is too short. *)
Fixpoint udp_drain (fuel : nat) (account : bool) (fd : Z) (u : UdpBench) (w : W) : result (UdpBench * W) :=
  match fuel with
  | O => Fault OutOfFuel
  | S fuel =>
      let '(r, d, w) := n_recv fd 65536 w in
      if i32 r <? UDP_HDR then Ok (u, w) else
      u ← udp_record d (n_now w) u;
      u ← (if account then udp_account d u else Ok u);
      udp_drain fuel account fd u w
  end.

Definition udp_new (msg_size win : Z) : UdpBench :=
  mkUdpBench (replicate (Z.to_nat msg_size) x55) (replicate (Z.to_nat win) 0) 0 0 0 0 0 [] [] [].

(** One round of the loop of [run_udp_bench]: the time of the next datagram,
    the end of the drain phase (none is [time_point::max()]). *)
Definition udp_bench_round (fd interval_ns deadline : Z) (st : Z * option Z * UdpBench * W)
    : result (Z * option Z * UdpBench * W + UdpBench * W) :=
  let '(next_send, drain_deadline, u, w) := st in
  let draining := match drain_deadline with Some d => n_now w <? d | None => true end in
  if (n_now w <? deadline) || ((ub_recv_pkts u <? ub_sent_pkts u) && draining) then
    '(next_send, u, w) ←
      (if (n_now w <? deadline) && (next_send <=? n_now w) then
         '(u, w) ← udp_send fd 8192 u w;
         Ok (if 0 <? interval_ns then next_send + interval_ns else n_now w, u, w)
       else Ok (next_send, u, w));
    let drain_deadline :=
      match drain_deadline with
      | None => if deadline <=? n_now w then Some (n_now w + 500000000) else None
      | d => d
      end in
    '(u, w) ← udp_drain (S (n_backlog w)) true fd u w;
    Ok (inl (next_send, drain_deadline, u, w))
  else Ok (inr (u, w)).

(** The rounds until the drain phase is over, at most one per nanosecond. *)
Definition udp_bench_bound (duration_s : Z) : positive := Z.to_pos (Z.max 0 (duration_s * 1000000000) + 500000003).

(** None: there is no socket. *)
Definition run_udp_bench (addr : string) (udp_port msg_size duration_s rate_pps : Z) (w : W) : result (option UdpBench * W) :=
  let msg_size := if msg_size <? UDP_HDR then UDP_HDR else msg_size in
  let '(fd, w) := n_socket w in
  if fd <? 0 then Ok (None, w) else
  let '(_, w) := n_connect fd (address addr) (udp_port mod 2 ^ 16) w in
  let interval_ns := if 0 <? rate_pps then 1000000000 `quot` rate_pps else 0 in
  let deadline := n_now w + duration_s * 1000000000 in
  '(u, w) ← run_loop (udp_bench_bound duration_s) (udp_bench_round fd interval_ns deadline) (n_now w, None, udp_new msg_size 8192, w);
  Ok (Some u, n_close fd w).

(** One round of [udp_worker_fn]; [k] is how often it still finds [stop]
    unset. *)
Definition udp_worker_round (fd : Z) (st : nat * option Z * UdpBench * W) : result (nat * option Z * UdpBench * W + UdpBench * W) :=
  let '(k, drain_deadline, u, w) := st in
  '(k, drain_deadline, u, w) ←
    match k with
    | S k => '(u, w) ← udp_send fd 4096 u w; Ok (k, drain_deadline, u, w)
    | O => Ok (O, match drain_deadline with None => Some (n_now w + 500000000) | d => d end, u, w)
    end;
  '(u, w) ← udp_drain (S (n_backlog w)) false fd u w;
  if match drain_deadline with Some d => d <=? n_now w | None => false end then Ok (inr (u, w))
  else Ok (inl (k, drain_deadline, u, w)).

Definition udp_worker_fn (addr : string) (port msg_size : Z) (k : nat) (w : W) : result (option UdpBench * W) :=
  let msg_size := if msg_size <? UDP_HDR then UDP_HDR else msg_size in
  let '(fd, w) := n_socket w in
  if fd <? 0 then Ok (None, w) else
  let '(r, w) := n_connect fd (address addr) (port mod 2 ^ 16) w in
  if r <? 0 then Ok (None, n_close fd w) else
  '(u, w) ← run_loop (Z.to_pos (Z.of_nat k + 500000003)) (udp_worker_round fd) (k, None, udp_new msg_size 4096, w);
  Ok (Some u, n_close fd w).

(** The senders of [run_udp_scaling], and the totals. *)
Fixpoint udp_workers (addr : string) (port msg_size : Z) (ws : list (nat * W)) : result (list UdpBench) :=
  match ws with
  | [] => Ok []
  | (k, w) :: ws =>
      '(r, _) ← udp_worker_fn addr port msg_size k w;
      rs ← udp_workers addr port msg_size ws;
      Ok (match r with Some u => u :: rs | None => rs end)
  end.
Definition udp_totals (us : list UdpBench) : Z * Z * list Z :=
  foldl (fun '(s, r, l) u => (s + ub_sent_pkts u, r + ub_recv_pkts u, l ++ ub_latency_ns u)) (0, 0, []) us.
Definition run_udp_scaling (o : BenchOptions) (ws : list (nat * W)) : result (Z * Z * list Z) :=
  us ← udp_workers (bo_addr o) (bo_udp_port o) (if bo_udp_size o <? UDP_HDR then UDP_HDR else bo_udp_size o) ws;
  Ok (udp_totals us).
End program.

(** ** What the sockets and the clock promise

    [n_wire] is what a stream socket has taken and delivered, [n_sent] the
    datagrams a datagram socket has taken. *)
Class NetLaws (W : Type) `{Net W} := {
  n_wire : W → list byte * list byte;
  n_sent : W → list (list byte);
  nl_now w : 0 < n_now w;
  nl_socket w fd w' : n_socket w = (fd, w') → n_now w ≤ n_now w' ∧ (0 ≤ fd → n_wire w' = ([], []) ∧ n_sent w' = []);
  nl_connect fd a p w r w' : n_connect fd a p w = (r, w') → n_now w ≤ n_now w' ∧ n_wire w' = n_wire w ∧ n_sent w' = n_sent w;
  nl_send fd d w r w' : n_send fd d w = (r, w') →
    n_now w ≤ n_now w' ∧ -1 ≤ r ≤ Z.of_nat (length d) ∧ n_wire w' = ((n_wire w).1 ++ take (Z.to_nat r) d, (n_wire w).2) ∧
    n_sent w' ⊆ (if 0 <? r then d :: n_sent w else n_sent w);
  nl_recv fd k w r d w' : n_recv fd k w = (r, d, w') → 0 ≤ k →
    n_now w < n_now w' ∧ -1 ≤ r ≤ k ∧ length d = Z.to_nat r ∧ n_wire w' = ((n_wire w).1, (n_wire w).2 ++ d) ∧ n_sent w' = n_sent w;
  nl_close fd w : n_now w ≤ n_now (n_close fd w) ∧ n_wire (n_close fd w) = n_wire w ∧ n_sent (n_close fd w) = n_sent w
}.

(** The peer of a datagram socket is an echo server; a call on such a socket
    takes at most [n_slow], and at most [n_room] datagrams come in a row. *)
Class EchoLaws (W : Type) `{NetLaws W} := {
  n_slow : Z;
  n_room : nat;
  el_room w : (n_backlog w ≤ n_room)%nat;
  el_socket w fd w' : n_socket w = (fd, w') → n_now w' ≤ n_now w + n_slow;
  el_connect fd a p w r w' : n_connect fd a p w = (r, w') → n_now w' ≤ n_now w + n_slow;
  el_send fd d w r w' : n_send fd d w = (r, w') → n_now w' ≤ n_now w + n_slow;
  el_recv fd k w r d w' : n_recv fd k w = (r, d, w') →
    n_now w' ≤ n_now w + n_slow ∧ (0 ≤ r → d ∈ n_sent w ∧ (n_backlog w' < n_backlog w)%nat)
}.

Lemma i32_int x : - 2 ^ 31 ≤ x < 2 ^ 31 → i32 x = x.
Proof.
  intros Hx. unfold i32. destruct (Z.leb_spec 0 x).
  - rewrite Z.mod_small by lia. by rewrite (proj2 (Z.ltb_lt _ _)) by lia.
  - replace (x mod 2 ^ 32) with (x + 2 ^ 32) by (apply Z.mod_unique with (-1); lia). rewrite (proj2 (Z.ltb_ge _ _)) by lia. lia.
Qed.
Lemma i64_small x : 0 ≤ x < 2 ^ 63 → i64 x = x.
Proof. intros Hx. unfold i64. rewrite Z.mod_small by lia. by rewrite (proj2 (Z.ltb_lt _ _)) by lia. Qed.
Lemma long_of_ok x : - 2 ^ 63 ≤ x < 2 ^ 63 → long_of x = Ok x.
Proof. intros Hx. unfold long_of. rewrite (proj2 (Z.leb_le _ _)), (proj2 (Z.ltb_lt _ _)) by lia. done. Qed.

(** ** Loops *)
Section loops.
Context {S R : Type} (f : S → result (S + R)) (I : S → Prop) (Q : R → Prop) (m : S → Z).
Context (Hf : ∀ s, I s → ∃ x, f s = Ok x ∧ match x with inl s' => I s' ∧ 0 ≤ m s' < m s | inr r => Q r end).

Lemma iterate_ok p : ∀ s, I s →
  ∃ x, iterate p f s = Ok x ∧ match x with inl s' => I s' ∧ 0 ≤ m s' ∧ m s' + Z.pos p ≤ m s | inr r => Q r end.
Proof.
  assert (Hagain : ∀ p, (∀ s, I s → ∃ x, iterate p f s = Ok x ∧
      match x with inl s' => I s' ∧ 0 ≤ m s' ∧ m s' + Z.pos p ≤ m s | inr r => Q r end) → ∀ s (x : S + R) (n : Z),
      match x with inl s' => I s' ∧ 0 ≤ m s' ∧ m s' + n ≤ m s | inr r => Q r end →
      ∃ y, (match x with inl s => iterate p f s | inr r => Ok (inr r) end) = Ok y ∧
        match y with inl s' => I s' ∧ 0 ≤ m s' ∧ m s' + (n + Z.pos p) ≤ m s | inr r => Q r end).
  { intros q IH s [s1|r] n Hx; [|by eexists]. destruct Hx as (Hs1 & H0 & Hn). destruct (IH s1 Hs1) as (y & E & Hy).
    exists y. split; [done|]. destruct y; [|done]. destruct Hy as (? & ? & ?). split; [done|]. lia. }
  induction p as [p IH|p IH|]; intros s Hs; cbn [iterate].
  - destruct (Hf s Hs) as (x & -> & Hx). step. destruct (Hagain p IH s x 1) as (y & -> & Hy).
    { destruct x; [|done]. destruct Hx as [? ?]. split; [done|]. lia. }
    step. destruct (Hagain p IH s y _ Hy) as (z & -> & Hz). exists z. split; [done|]. destruct z; [|done].
    destruct Hz as (? & ? & ?). split; [done|]. lia.
  - destruct (IH s Hs) as (x & -> & Hx). step. destruct (Hagain p IH s x _ Hx) as (y & -> & Hy). exists y. split; [done|].
    destruct y; [|done]. destruct Hy as (? & ? & ?). split; [done|]. lia.
  - destruct (Hf s Hs) as (x & -> & Hx). exists x. split; [done|]. destruct x; [|done]. destruct Hx as [? ?]. split; [done|]. lia.
Qed.

Lemma run_loop_ok p s : I s → m s < Z.pos p → ∃ r, run_loop p f s = Ok r ∧ Q r.
Proof.
  intros Hs Hm. unfold run_loop. destruct (iterate_ok p s Hs) as ([s'|r] & -> & Hx); step; [|by eexists]. lia.
Qed.
End loops.

(** ** Options *)
Definition is_int (x : Z) : Prop := - 2 ^ 31 ≤ x < 2 ^ 31.
Definition bench_ints (o : BenchOptions) : Prop :=
  is_int (bo_tcp_port o) ∧ is_int (bo_udp_port o) ∧ is_int (bo_conns o) ∧ is_int (bo_tcp_size o) ∧ is_int (bo_udp_size o) ∧
  is_int (bo_duration o) ∧ is_int (bo_udp_rate o) ∧ is_int (bo_udp_senders o).

Lemma atoi_is_int v x : atoi v = Ok x → is_int x.
Proof. unfold atoi, int_of, is_int. case_test; [|done]. intros [= <-]. lia. Qed.

Lemma bench_value_ok opt v o r o' : bench_ints o → bench_value opt v o = Some r → r = Ok o' → bench_ints o'.
Proof.
  destruct o. unfold bench_ints, bench_value. cbn. intros Ho.
  repeat case_bool_decide; try done; intros [= <-]; try (intros [= <-]; cbn; tauto);
    intros (x & Hx%atoi_is_int & [= <-])%bind_inv; cbn; tauto.
Qed.

Lemma bench_flag_ok opt o o' : bench_ints o → bench_flag opt o = Some o' → bench_ints o'.
Proof.
  destruct o. unfold bench_ints, bench_flag. cbn. intros Ho. repeat case_bool_decide; cbn; try done; intros [= <-]; cbn; tauto.
Qed.

Lemma parse_bench_ok : ∀ k argv o o', (length argv ≤ k)%nat → bench_ints o → parse_bench argv o = Ok (Some o') → bench_ints o'.
Proof.
  induction k as [|k IH]; intros [|opt rest] o o' Hk Ho; cbn in *; try lia; try (by intros [= <-]).
  assert (Hflag : match bench_flag opt o with Some o => parse_bench rest o | None => Ok None end = Ok (Some o') → bench_ints o').
  { destruct (bench_flag opt o) as [o1|] eqn:Ef; [|done]. apply IH; [lia|by eapply bench_flag_ok]. }
  destruct rest as [|v rest]; [done|]. destruct (bench_value opt v o) as [r|] eqn:Ev; [|done].
  intros (o1 & E1 & E2)%bind_inv. refine (IH _ _ _ _ _ E2); [cbn in *; lia|]. by eapply bench_value_ok.
Qed.

(** ** Percentiles *)
Lemma sorted_le (l : list Z) i j x y : Sorted Z.le l → l !! i = Some x → l !! j = Some y → (i ≤ j)%nat → x ≤ y.
Proof.
  intros Hs%Sorted_StronglySorted; [|intros ???; lia]. revert i j. induction Hs as [|a l Hs IH Ha]; intros i j Hi Hj Hij; [done|].
  destruct i as [|i], j as [|j]; cbn in *; [simplify_eq; lia| |lia|].
  - simplify_eq. rewrite Forall_lookup in Ha. by eapply Ha.
  - apply (IH i j); [done..|lia].
Qed.

(** A percentile is one of the values, the vector is a sorted copy
    afterwards, percentiles grow with their position and the last element is
    the maximum. *)
Lemma percentile_sound v idx : v ≠ [] → 0 ≤ idx →
  ∃ x, percentile idx v = (Some x, merge_sort Z.le v) ∧ x ∈ v.
Proof.
  intros Hv Hi. unfold percentile. destruct v as [|a v]; [done|]. set (l := merge_sort Z.le (a :: v)).
  assert (l ≡ₚ a :: v) as Hp by apply merge_sort_Permutation. pose proof (Permutation_length Hp) as Hl. cbn [length] in Hl.
  destruct (lookup_lt_is_Some_2 l (Z.to_nat (if Z.of_nat (length l) <=? idx then Z.of_nat (length l) - 1 else idx))) as [x Hx].
  { destruct (Z.leb_spec (Z.of_nat (length l)) idx); lia. }
  exists x. rewrite Hx. split; [done|]. rewrite <- Hp. by eapply list_elem_of_lookup_2.
Qed.

Lemma percentile_mono v i j x y : 0 ≤ i ≤ j → (percentile i v).1 = Some x → (percentile j v).1 = Some y →
  x ≤ y ∧ ∃ m, last (percentile j v).2 = Some m ∧ y ≤ m ∧ Forall (fun z => z ≤ m) v.
Proof.
  unfold percentile. destruct v as [|a v]; [done|]. set (l := merge_sort Z.le (a :: v)). cbn [fst snd]. intros Hij Hx Hy.
  assert (l ≡ₚ a :: v) as Hp by apply merge_sort_Permutation. pose proof (Permutation_length Hp) as Hlen. cbn [length] in Hlen.
  assert (Hs : Sorted Z.le l) by (apply Sorted_merge_sort; intros ??; lia).
  split.
  - eapply sorted_le; [exact Hs|exact Hx|exact Hy|]. destruct (Z.leb_spec (Z.of_nat (length l)) i), (Z.leb_spec (Z.of_nat (length l)) j); lia.
  - rewrite last_lookup. destruct (lookup_lt_is_Some_2 l (pred (length l)) ltac:(lia)) as [m Hm]. exists m. split; [done|].
    assert (Hmax : ∀ k z, l !! k = Some z → z ≤ m).
    { intros k z Hz. eapply sorted_le; [exact Hs|exact Hz|exact Hm|]. apply lookup_lt_Some in Hz. lia. }
    split; [by eapply Hmax|]. rewrite <- Hp. apply Forall_lookup. exact Hmax.
Qed.

(** ** TCP *)
Section tcp.
Context {W : Type} `{Hlaws : NetLaws W}.
Implicit Types (w : W) (buf : list byte).

(** No call on a blocking socket lasts forever. *)
Definition calls_return : Prop := ∀ fd d k w, n_send_returns fd d w = true ∧ n_recv_returns fd k w = true.
(** The computation returns a result with the given property, or a call never
    returns. *)
Definition returns_or_blocks {A} (m : result A) (Q : A → Prop) : Prop := (m = Fault Blocked ∧ ¬ calls_return) ∨ ∃ a, m = Ok a ∧ Q a.

Lemma returns_bind {A B} (m : result A) (k : A → result B) P Q :
  returns_or_blocks m P → (∀ a, P a → returns_or_blocks (k a) Q) → returns_or_blocks (m ≫= k) Q.
Proof. intros [[-> Hb]|(a & -> & Ha)] Hk; [by left|exact (Hk a Ha)]. Qed.
Lemma returns_ok {A} (a : A) (Q : A → Prop) : Q a → returns_or_blocks (Ok a) Q.
Proof. right. by exists a. Qed.
Lemma returns_weaken {A} (m : result A) (P Q : A → Prop) : returns_or_blocks m P → (∀ a, P a → Q a) → returns_or_blocks m Q.
Proof. intros [?|(a & -> & Ha)] HQ; [by left|right; eauto]. Qed.

(** A message is sent whole, or a prefix of it is and the result is false. *)
Lemma send_all_ok fd buf len : Z.of_nat (length buf) = len → len < 2 ^ 31 → ∀ fuel sent w, 0 ≤ sent ≤ len → len - sent ≤ Z.of_nat fuel →
  returns_or_blocks (send_all fuel fd buf len sent w) (fun '(ok, w') => n_now w ≤ n_now w' ∧
    ∃ k, n_wire w' = ((n_wire w).1 ++ mem_read buf sent k, (n_wire w).2) ∧ 0 ≤ k ≤ len - sent ∧ (ok = true → k = len - sent)).
Proof.
  intros Hlen Hmax. induction fuel as [|fuel IH]; intros sent w Hs Hf; cbn [send_all]; destruct (Z.ltb_spec sent len) as [Hlt|Hge]; try lia;
    try (apply returns_ok; split; [done|]; exists 0; rewrite mem_read_0, app_nil_r, <- surjective_pairing; split; [done|lia]).
  destruct (n_send_returns _ _ w) eqn:Eb; cbn [negb]; [|left; split; [done|intros Hb; by rewrite (proj1 (Hb _ _ 0 w)) in Eb]].
  destruct (n_send _ _ w) as [r w1] eqn:E. apply nl_send in E as (Ht & Hr & Hw & _).
  assert (Hrl : Z.of_nat (length (mem_read buf sent (len - sent))) = len - sent) by (apply mem_read_length; lia). rewrite Hrl in Hr.
  rewrite i32_int by lia. case_test.
  - apply returns_ok. split; [done|]. exists 0. rewrite Hw. replace (Z.to_nat r) with 0%nat by lia. split; [done|lia].
  - rewrite int_of_ok by lia. step. eapply returns_weaken; [apply (IH (sent + r) w1); lia|].
    intros [ok w2] (Ht2 & k & Hw2 & Hk & Hok). split; [lia|]. exists (r + k).
    split; [|split; [lia|intros E; specialize (Hok E); lia]]. rewrite Hw2, Hw. cbn. rewrite <- app_assoc. do 2 f_equal.
    unfold mem_read. rewrite take_take, Nat.min_l by lia. replace (Z.to_nat (sent + r)) with (Z.to_nat sent + Z.to_nat r)%nat by lia.
    replace (Z.to_nat (r + k)) with (Z.to_nat r + Z.to_nat k)%nat by lia. by rewrite <- drop_drop, take_take_drop.
Qed.

(** A message is received whole, or the result is false. *)
Lemma recv_all_ok fd len : len < 2 ^ 31 → ∀ fuel got buf w, Z.of_nat (length buf) = len → 0 ≤ got ≤ len → len - got ≤ Z.of_nat fuel →
  returns_or_blocks (recv_all fuel fd buf len got w) (fun '(ok, buf', w') => n_now w ≤ n_now w' ∧ length buf' = length buf ∧
    ∃ x, n_wire w' = ((n_wire w).1, (n_wire w).2 ++ x) ∧ Z.of_nat (length x) ≤ len - got ∧ (ok = true → Z.of_nat (length x) = len - got)).
Proof.
  intros Hmax. induction fuel as [|fuel IH]; intros got buf w Hlen Hg Hf; cbn [recv_all]; destruct (Z.ltb_spec got len) as [Hlt|Hge]; try lia;
    try (apply returns_ok; split; [done|]; split; [done|]; exists []; rewrite app_nil_r, <- surjective_pairing; split; [done|cbn; lia]).
  destruct (n_recv_returns _ _ w) eqn:Eb; cbn [negb]; [|left; split; [done|intros Hb; by rewrite (proj2 (Hb _ [] _ w)) in Eb]].
  destruct (n_recv _ _ w) as [[r d] w1] eqn:E. apply nl_recv in E as (Ht & Hr & Hd & Hw & _); [|lia].
  destruct (mem_write_spec buf got d) as (b & -> & Hl & _); [lia|lia|]. step. rewrite i32_int by lia. case_test.
  - apply returns_ok. split; [lia|]. split; [done|]. exists d. split; [done|lia].
  - rewrite int_of_ok by lia. step. eapply returns_weaken; [apply (IH (got + r) b w1); lia|].
    intros [[ok b'] w2] (Ht2 & Hl2 & x & Hw2 & Hx & Hok). split; [lia|]. split; [lia|]. exists (d ++ x). rewrite length_app.
    split; [rewrite Hw2, Hw; cbn; by rewrite <- app_assoc|]. split; [lia|]. intros E. specialize (Hok E). lia.
Qed.

(** A worker: what it counted is what went over its connection, except for a
    last message that did not get through. *)
Definition tcp_counted (size : Z) (out : TcpWorkerResult) : Prop :=
  0 ≤ tr_ops out ∧ tr_bytes out = 2 * size * tr_ops out ∧ Z.of_nat (length (tr_latency_ns out)) = tr_ops out ∧ Forall (fun l => 0 ≤ l) (tr_latency_ns out).
Definition tcp_carried (size extra : Z) (out : TcpWorkerResult) w : Prop :=
  ∃ k, (n_wire w).1 = replicate (Z.to_nat k) x54 ∧ size * tr_ops out ≤ k ≤ size * tr_ops out + extra ∧
    size * tr_ops out ≤ Z.of_nat (length (n_wire w).2) ≤ size * tr_ops out + extra.

Lemma tcp_round_ok fd size out buf w : 0 ≤ size < 2 ^ 30 → Z.of_nat (length buf) = size → tcp_counted size out → tcp_carried size 0 out w →
  returns_or_blocks (tcp_round fd size (replicate (Z.to_nat size) x54) (out, buf, w)) (fun '(go, (out', buf', w')) =>
    Z.of_nat (length buf') = size ∧ tcp_counted size out' ∧ tcp_carried size (if go : bool then 0 else size) out' w').
Proof.
  intros Hsz Hb (H0 & Hby & Hl & Hf) (k & Hk1 & Hk2 & Hk3). unfold tcp_round. set (sb := replicate _ _).
  assert (Hsb : Z.of_nat (length sb) = size) by (unfold sb; rewrite length_replicate; lia).
  eapply returns_bind; [apply (send_all_ok fd sb size Hsb); lia|]. intros [ok w1] (Ht1 & j & Hw1 & Hj & Hok).
  assert (Hs1 : (n_wire w1).1 = replicate (Z.to_nat (k + j)) x54).
  { rewrite Hw1. cbn. rewrite Hk1. unfold mem_read, sb. rewrite drop_0, take_replicate, <- replicate_add. f_equal. lia. }
  assert (Hg1 : (n_wire w1).2 = (n_wire w).2) by by rewrite Hw1.
  destruct ok; cbn [negb]; [specialize (Hok eq_refl)|].
  2: { apply returns_ok. split; [done|]. split; [by repeat split|]. exists (k + j). rewrite Hg1. split; [done|lia]. }
  eapply returns_bind; [apply (recv_all_ok fd size); lia|]. intros [[ok b] w2] (Ht2 & Hlb & x & Hw2 & Hx & Hok2).
  assert (Hs2 : (n_wire w2).1 = replicate (Z.to_nat (k + j)) x54) by by rewrite Hw2.
  assert (Hg2 : Z.of_nat (length (n_wire w2).2) = Z.of_nat (length (n_wire w).2) + Z.of_nat (length x)) by (rewrite Hw2; cbn; rewrite length_app, Hg1; lia).
  destruct ok; cbn [negb]; [specialize (Hok2 eq_refl)|].
  2: { apply returns_ok. split; [lia|]. split; [by repeat split|]. exists (k + j). split; [done|lia]. }
  rewrite int_of_ok by lia. step. apply returns_ok. split; [lia|]. split.
  - split; [cbn; lia|]. split; [cbn; lia|]. cbn. rewrite length_app, Forall_app, Forall_singleton. split; [cbn; lia|]. split; [done|lia].
  - exists (k + j). cbn. split; [done|lia].
Qed.

Lemma tcp_rounds_ok fd size n : 0 ≤ size < 2 ^ 30 → ∀ out buf w, Z.of_nat (length buf) = size → tcp_counted size out → tcp_carried size 0 out w →
  returns_or_blocks (tcp_rounds n fd size (replicate (Z.to_nat size) x54) (out, buf, w)) (fun '(out', _, w') =>
    tcp_counted size out' ∧ tcp_carried size size out' w').
Proof.
  intros Hsz. assert (Hmore : ∀ out w, tcp_carried size 0 out w → tcp_carried size size out w).
  { intros out w (k & ? & ? & ?). exists k. split; [done|lia]. }
  induction n as [|n IH]; intros out buf w Hb Hc Hw; cbn [tcp_rounds]; [apply returns_ok; auto|].
  eapply returns_bind; [by apply tcp_round_ok|]. intros [[|] [[out' buf'] w']] (Hb' & Hc' & Hw'); [by apply IH|by apply returns_ok].
Qed.

(** A worker without a connection counts nothing. *)
Lemma tcp_worker_ok addr port size n w : 0 ≤ size < 2 ^ 30 →
  returns_or_blocks (tcp_worker addr port size n w) (fun '(out, w') => tcp_counted size out ∧ (tr_ops out = 0 ∨ tcp_carried size size out w')).
Proof.
  intros Hsz. unfold tcp_worker, make_tcp_socket. destruct (n_socket w) as [fd w1] eqn:E1. apply nl_socket in E1 as [_ Hw1].
  assert (H0 : tcp_counted size (mkTcpWorkerResult 0 0 [])) by (split; [done|]; split; [cbn; lia|]; by split).
  destruct (Z.ltb_spec fd 0) as [Hfd|Hfd]; [apply returns_ok; auto|]. destruct (Hw1 Hfd) as [Hw1' _].
  destruct (n_connect _ _ _ w1) as [r w2] eqn:E2. apply nl_connect in E2 as (_ & Hw2 & _). case_test; [apply returns_ok; auto|].
  rewrite (proj2 (Z.ltb_ge fd 0)), (proj2 (Z.ltb_ge size 0)) by lia. cbn [negb].
  eapply returns_bind; [apply (tcp_rounds_ok fd size n Hsz); [rewrite length_replicate; lia|done|]|].
  { exists 0. rewrite Hw2, Hw1'. cbn. split; [done|lia]. }
  intros [[out b] w3] (Hc & k & Hk). apply returns_ok. split; [done|]. right. exists k. destruct (nl_close fd w3) as (_ & -> & _). exact Hk.
Qed.

Lemma tcp_workers_ok addr port size ws : 0 ≤ size < 2 ^ 30 →
  returns_or_blocks (tcp_workers addr port size ws) (fun rs => length rs = length ws ∧ Forall (tcp_counted size) rs.*1 ∧
    Forall (fun '(r, w) => tr_ops r = 0 ∨ tcp_carried size size r w) rs).
Proof.
  intros Hsz. induction ws as [|[n w] ws IH]; cbn [tcp_workers]; [by apply returns_ok|].
  eapply returns_bind; [by apply tcp_worker_ok|]. intros [out w'] [Hc Hk].
  eapply returns_bind; [exact IH|]. intros rs (Hlen & Hcs & Hks). apply returns_ok.
  split; [cbn; lia|]. split; by constructor.
Qed.

Lemma tcp_totals_ok size rs : ∀ t, tcp_counted size t → Forall (tcp_counted size) rs → tcp_counted size (foldl tcp_total t rs).
Proof.
  induction rs as [|r rs IH]; intros t Ht Hrs; [done|]. apply Forall_cons in Hrs as [Hr Hrs]. cbn. apply IH; [|done].
  destruct Ht as (? & ? & ? & ?), Hr as (? & ? & ? & ?). split; [cbn; lia|]. split; [cbn; lia|]. cbn. rewrite length_app, Forall_app. split; [lia|done].
Qed.

(** C24. The TCP benchmark, for every number of connections and rounds and a
    message of less than 2^30 bytes.  Its sockets block, so that a server that
    stops reading or answering keeps a worker in [send] or [recv], and the main
    thread in [join], for ever; if every such call returns, with whatever
    result, the benchmark ends.  When it ends it reports what happened: the
    bytes it counts are twice the size of a message for every message, there is
    one latency per message, none negative, and over each connection the counted
    messages went out and as many bytes came back, with at most one more message
    in part.  The percentiles it prints are values measured, they grow, and the
    last element after sorting, printed as the maximum, is the largest. *)
Theorem bench_tcp_counts o ws :
  0 ≤ bo_tcp_size o < 2 ^ 30 →
  (run_tcp_bench o ws = Fault Blocked ∧ ¬ calls_return) ∨
  ∃ t rs, run_tcp_bench o ws = Ok (t, rs) ∧ length rs = length ws ∧
    tr_bytes t = 2 * bo_tcp_size o * tr_ops t ∧ Z.of_nat (length (tr_latency_ns t)) = tr_ops t ∧ Forall (fun l => 0 ≤ l) (tr_latency_ns t) ∧
    Forall (fun '(r, w) => tr_ops r = 0 ∨ tcp_carried (bo_tcp_size o) (bo_tcp_size o) r w) rs ∧
    ∀ i j x y, 0 ≤ i ≤ j → (percentile i (tr_latency_ns t)).1 = Some x → (percentile j (tr_latency_ns t)).1 = Some y →
      x ∈ tr_latency_ns t ∧ x ≤ y ∧ ∃ m, last (percentile j (tr_latency_ns t)).2 = Some m ∧ y ≤ m ∧ Forall (fun z => z ≤ m) (tr_latency_ns t).
Proof.
  intros Hsz. unfold run_tcp_bench.
  destruct (tcp_workers_ok (bo_addr o) (bo_tcp_port o) (bo_tcp_size o) ws Hsz) as [[-> Hb]|(rs & -> & Hlen & Hc & Hk)]; [by left|right].
  step. eexists _, _. split; [done|]. split; [done|].
  destruct (tcp_totals_ok (bo_tcp_size o) rs.*1 (mkTcpWorkerResult 0 0 [])) as (_ & Hb & Hl & Hf); [split; [done|]; split; [cbn; lia|]; by split|done|].
  split; [done|]. split; [done|]. split; [done|]. split; [done|]. intros i j x y Hij Hx Hy. split; [|by eapply percentile_mono].
  destruct (percentile_sound (tr_latency_ns (tcp_totals rs.*1)) i) as (x' & E & Hx'); [by intros E; rewrite E in Hx|lia|].
  rewrite E in Hx. by injection Hx as ->.
Qed.
End tcp.

(** ** UDP *)

(** A datagram of the benchmark. *)
Definition dgram (size seq t : Z) : list byte := le_bytes 8 seq ++ le_bytes 8 t ++ replicate (Z.to_nat (size - 16)) x55.

Lemma dgram_seq_time size seq t : 0 ≤ seq < 2 ^ 63 → 0 ≤ t < 2 ^ 63 → dgram_seq (dgram size seq t) = seq ∧ dgram_time (dgram size seq t) = t.
Proof.
  intros Hs Ht. unfold dgram_seq, dgram_time, mem_read, dgram. change (Z.to_nat 0) with 0%nat. change (Z.to_nat 8) with 8%nat.
  rewrite drop_0, drop_app_length', !take_app_length' by (by rewrite length_le_bytes).
  rewrite !le_value_bytes by (cbn; lia). by rewrite !i64_small by lia.
Qed.

(** How many of the numbers are not below all before. *)
Fixpoint records (expected : Z) (seqs : list Z) : Z :=
  match seqs with
  | [] => 0
  | q :: seqs => if expected <=? q then 1 + records (q + 1) seqs else records expected seqs
  end.
Definition next_expected (expected : Z) (seqs : list Z) : Z := foldl (fun e q => Z.max e (q + 1)) expected seqs.

Lemma records_snoc seqs q : ∀ e, records e (seqs ++ [q]) = records e seqs + (if next_expected e seqs <=? q then 1 else 0).
Proof.
  induction seqs as [|a seqs IH]; intros e; cbn; [destruct (e <=? q); lia|].
  destruct (Z.leb_spec e a).
  - rewrite IH. rewrite Z.max_r by lia. unfold next_expected. lia.
  - rewrite IH. rewrite Z.max_l by lia. unfold next_expected. lia.
Qed.
Lemma records_nonneg seqs : ∀ e, 0 ≤ records e seqs.
Proof. induction seqs as [|a seqs IH]; intros e; cbn; [done|]. case_match; [specialize (IH (a + 1)); lia|apply IH]. Qed.
Lemma records_sorted seqs : ∀ e, Sorted Z.lt (e - 1 :: seqs) → records e seqs = Z.of_nat (length seqs).
Proof.
  induction seqs as [|a seqs IH]; intros e Hs; cbn; [done|]. apply Sorted_inv in Hs as [Hs Hr]. apply HdRel_inv in Hr.
  rewrite (proj2 (Z.leb_le _ _)) by lia. rewrite IH; [lia|]. by replace (a + 1 - 1) with a by lia.
Qed.

Section udp.
Context {W : Type} `{Hecho : EchoLaws W} (size win B : Z) (Hsize : UDP_HDR ≤ size) (Hwin : win = 4096 ∨ win = 8192) (HB : 0 ≤ B < 2 ^ 63).
Implicit Types (u : UdpBench) (w : W).

#[local] Set Implicit Arguments.
Record udp_ok (account : bool) u w : Prop := {
  uo_clock : n_now w < 2 ^ 63;
  uo_sbuf : Z.of_nat (length (ub_sbuf u)) = size;
  uo_pad : drop 16 (ub_sbuf u) = replicate (Z.to_nat (size - 16)) x55;
  uo_times : Z.of_nat (length (ub_send_times u)) = win;
  uo_seq : 0 ≤ ub_seq_send u ≤ B;
  uo_sent_pkts : ub_sent_pkts u = Z.of_nat (length (ub_sent u));
  uo_recv_pkts : ub_recv_pkts u = Z.of_nat (length (ub_received u));
  uo_sent : ∀ d t, (d, t) ∈ ub_sent u → ∃ seq, d = dgram size seq t ∧ 0 ≤ seq < ub_seq_send u ∧ 0 < t ≤ n_now w;
  uo_distinct : NoDup (ub_sent u).*1;
  uo_world : n_sent w ⊆ (ub_sent u).*1;
  uo_received : ∀ d t, (d, t) ∈ ub_received u → d ∈ (ub_sent u).*1 ∧ t ≤ n_now w ∧ dgram_time d ≤ t;
  uo_latency : ub_latency_ns u = (fun '(d, t) => t - dgram_time d) <$> ub_received u;
  uo_expected : account = true → ub_seq_expected u = next_expected 0 (dgram_seq <$> (ub_received u).*1) ∧ 0 ≤ ub_seq_expected u ≤ ub_seq_send u;
  uo_lost : account = true → ub_lost_pkts u + records 0 (dgram_seq <$> (ub_received u).*1) = ub_seq_expected u ∧ 0 ≤ ub_lost_pkts u
}.
#[local] Unset Implicit Arguments.
#[local] Arguments uo_sent {_ _ _} _ _ _ _.
#[local] Arguments uo_received {_ _ _} _ _ _ _.

Lemma sent_dgram a u w d : udp_ok a u w → d ∈ (ub_sent u).*1 →
  ∃ seq t, (d, t) ∈ ub_sent u ∧ d = dgram size seq t ∧ 0 ≤ seq < ub_seq_send u ∧ 0 < t ≤ n_now w ∧ dgram_seq d = seq ∧ dgram_time d = t.
Proof.
  intros Hu ([d' t] & -> & Hd)%list_elem_of_fmap_1. cbn. destruct (uo_sent Hu d' t Hd) as (seq & -> & Hs & Ht).
  pose proof (uo_seq Hu). pose proof (uo_clock Hu). exists seq, t. destruct (dgram_seq_time size seq t) as [E1 E2]; [lia|lia|]. auto 8.
Qed.

(** Time passes, and the socket forgets. *)
Lemma udp_ok_later a u w w' : udp_ok a u w → n_now w ≤ n_now w' < 2 ^ 63 → n_sent w' ⊆ n_sent w → udp_ok a u w'.
Proof.
  intros [] Ht Hs. split; try done.
  - lia.
  - intros d t Hd. destruct (uo_sent0 d t Hd) as (seq & ? & ? & ?). exists seq. split; [done|]. split; [done|lia].
  - by trans (n_sent w).
  - intros d t Hd. destruct (uo_received0 d t Hd) as (? & ? & ?). split; [done|]. lia.
Qed.

Lemma sbuf_header b seq t : Z.of_nat (length b) = size → drop 16 b = replicate (Z.to_nat (size - 16)) x55 →
  ∃ b1 b2, mem_write b 0 (le_bytes 8 seq) = Ok b1 ∧ mem_write b1 8 (le_bytes 8 t) = Ok b2 ∧ b2 = dgram size seq t.
Proof.
  intros Hl Hp. unfold UDP_HDR in Hsize. unfold mem_write at 1. rewrite length_le_bytes.
  rewrite !(proj2 (Z.leb_le _ _)) by lia. cbn [andb]. eexists _, _. split; [done|].
  unfold mem_write. cbn [Z.to_nat]. rewrite take_0. cbn [Datatypes.app Nat.add].
  rewrite !length_app, !length_le_bytes, length_drop. rewrite !(proj2 (Z.leb_le _ _)) by lia. cbn [andb]. split; [done|].
  unfold dgram. change (Z.to_nat 8) with 8%nat. change (Pos.to_nat 8) with 8%nat. rewrite take_app_length' by (by rewrite length_le_bytes).
  do 2 f_equal. rewrite drop_app_ge by (rewrite length_le_bytes; lia). rewrite length_le_bytes, drop_drop. exact Hp.
Qed.

Lemma udp_send_ok a fd u w : udp_ok a u w → ub_seq_send u < B → n_now w + n_slow < 2 ^ 63 →
  ∃ u' w', udp_send fd win u w = Ok (u', w') ∧ udp_ok a u' w' ∧ n_now w ≤ n_now w' ≤ n_now w + n_slow ∧ ub_seq_send u' = ub_seq_send u + 1.
Proof.
  intros Hu Hlt Hmax. unfold udp_send. pose proof (uo_seq Hu) as Hseq. rewrite long_of_ok by lia. step.
  destruct (sbuf_header (ub_sbuf u) (ub_seq_send u) (n_now w) (uo_sbuf Hu) (uo_pad Hu)) as (b1 & b & -> & E & Hb). step. rewrite E. step. clear E b1.
  assert (Hlb : Z.of_nat (length b) = size).
  { rewrite Hb. unfold dgram. rewrite !length_app, !length_le_bytes, length_replicate. unfold UDP_HDR in Hsize. lia. }
  assert (Hpb : drop 16 b = replicate (Z.to_nat (size - 16)) x55).
  { rewrite Hb. unfold dgram. rewrite app_assoc. apply drop_app_length'. by rewrite length_app, !length_le_bytes. }
  destruct (n_send fd b w) as [r w1] eqn:E. pose proof (el_send _ _ _ _ _ E) as Hslow. apply nl_send in E as (Ht & _ & _ & Hs).
  pose proof (nl_now w) as Hnow. pose proof (uo_clock Hu) as Hck.
  assert (Hnew : b ∉ (ub_sent u).*1).
  { intros (seq & t & _ & E & Hq & Ht2 & _)%(sent_dgram a u w b Hu). destruct (dgram_seq_time size seq t) as [E1 _]; [lia|lia|].
    destruct (dgram_seq_time size (ub_seq_send u) (n_now w)) as [E2 _]; [lia|lia|]. rewrite <- E, Hb, E2 in E1. lia. }
  assert (Hold : ∀ d t, (d, t) ∈ ub_sent u → ∃ seq, d = dgram size seq t ∧ 0 ≤ seq < ub_seq_send u + 1 ∧ 0 < t ≤ n_now w1).
  { intros d t Hd. destruct (uo_sent Hu d t Hd) as (q & ? & ? & ?). exists q. split; [done|]. lia. }
  destruct (0 <? r).
  - rewrite arr_set_ok.
    2: { rewrite (uo_times Hu). destruct Hwin as [-> | ->]; [change (4096 - 1) with (2 ^ 12 - 1)|change (8192 - 1) with (2 ^ 13 - 1)]; rewrite land_mask by lia; apply Z.mod_pos_bound; lia. }
    step. eexists _, _. split; [done|]. split; [|done]. destruct Hu. split; cbn [ub_sbuf ub_send_times ub_seq_send ub_seq_expected ub_sent_pkts ub_recv_pkts ub_lost_pkts ub_latency_ns ub_sent ub_received]; try done.
    + lia.
    + by rewrite length_insert.
    + lia.
    + rewrite length_app. cbn. lia.
    + intros d t [Hd|[= -> ->]%list_elem_of_singleton]%elem_of_app; [by apply Hold|]. exists (ub_seq_send u). split; [done|]. lia.
    + rewrite fmap_app. apply NoDup_app. split; [done|]. split; [|apply NoDup_singleton]. by intros x Hx ->%list_elem_of_singleton.
    + intros x Hx%Hs. rewrite fmap_app, elem_of_app. apply elem_of_cons in Hx as [->|Hx]; [right; by apply list_elem_of_singleton|left; by apply uo_world0].
    + intros d t Hd. destruct (uo_received0 d t Hd) as (? & ? & ?). split; [rewrite fmap_app; apply elem_of_app; by left|lia].
    + intros Ha. destruct (uo_expected0 Ha). split; [done|lia].
  - eexists _, _. split; [done|]. split; [|done]. destruct Hu. split; cbn [ub_sbuf ub_send_times ub_seq_send ub_seq_expected ub_sent_pkts ub_recv_pkts ub_lost_pkts ub_latency_ns ub_sent ub_received]; try done.
    + lia.
    + lia.
    + by trans (n_sent w).
    + intros d t Hd. destruct (uo_received0 d t Hd) as (? & ? & ?). split; [done|lia].
    + intros Ha. destruct (uo_expected0 Ha). split; [done|lia].
Qed.

(** The fields a datagram that comes back changes. *)
Definition udp_count d t expected lost u : UdpBench :=
  mkUdpBench (ub_sbuf u) (ub_send_times u) (ub_seq_send u) expected (ub_sent_pkts u) (ub_recv_pkts u + 1) lost (ub_latency_ns u ++ [t - dgram_time d])
    (ub_sent u) (ub_received u ++ [(d, t)]).

Lemma next_expected_snoc e l q : next_expected e (l ++ [q]) = Z.max (next_expected e l) (q + 1).
Proof. unfold next_expected. by rewrite foldl_app. Qed.

Lemma seqs_snoc (l : list (list byte * Z)) d t : dgram_seq <$> (l ++ [(d, t)]).*1 = (dgram_seq <$> l.*1) ++ [dgram_seq d].
Proof. by rewrite !fmap_app. Qed.

(** A datagram of this socket comes back. *)
Lemma udp_packet_ok (a : bool) u w w' d : udp_ok a u w → d ∈ n_sent w → n_now w ≤ n_now w' < 2 ^ 63 → n_sent w' ⊆ n_sent w →
  ∃ u', (u1 ← udp_record d (n_now w') u; if a then udp_account d u1 else Ok u1) = Ok u' ∧ udp_ok a u' w' ∧ ub_seq_send u' = ub_seq_send u.
Proof.
  intros Hu Hd Ht Hs. apply (uo_world Hu) in Hd. destruct (sent_dgram a u w d Hu Hd) as (seq & t & _ & _ & Hq & Hts & Eq & Et).
  pose proof (nl_now w') as Hnow. pose proof (uo_seq Hu) as HqB. pose proof (udp_ok_later a u w w' Hu Ht Hs) as Hu'.
  assert (Hgo : ∀ expected lost,
    (a = true → expected = Z.max (ub_seq_expected u) (seq + 1) ∧ lost = ub_lost_pkts u + Z.max 0 (seq - ub_seq_expected u)) →
    udp_ok a (udp_count d (n_now w') expected lost u) w').
  { intros expected lost Hel. destruct Hu'. split; cbn [udp_count ub_sbuf ub_send_times ub_seq_send ub_seq_expected ub_sent_pkts ub_recv_pkts ub_lost_pkts ub_latency_ns ub_sent ub_received]; try done.
    - rewrite length_app. cbn. lia.
    - intros d' t' [Hd'|[= -> ->]%list_elem_of_singleton]%elem_of_app; [by apply uo_received0|]. split; [done|lia].
    - by rewrite fmap_app, uo_latency0.
    - intros Ha. destruct (Hel Ha) as [-> _], (uo_expected0 Ha) as [E ?]. rewrite seqs_snoc, next_expected_snoc, Eq, <- E. split; [done|lia].
    - intros Ha. destruct (Hel Ha) as [-> ->], (uo_lost0 Ha), (uo_expected0 Ha) as [E ?]. rewrite seqs_snoc, records_snoc, Eq, <- E. destruct (Z.leb_spec (ub_seq_expected u) seq); lia. }
  unfold udp_record. rewrite Et. rewrite (proj2 (Z.eqb_neq _ _)) by lia. cbn [negb]. rewrite long_of_ok by lia. step.
  destruct a; [|eexists; split; [done|]; rewrite <- Et; split; [by apply Hgo|done]].
  destruct (uo_expected Hu eq_refl) as [_ He], (uo_lost Hu eq_refl) as [Hl Hl0].
  pose proof (records_nonneg (dgram_seq <$> (ub_received u).*1) 0) as Hrec.
  unfold udp_account. cbn [ub_seq_expected ub_lost_pkts]. rewrite Eq.
  destruct (Z.ltb_spec (ub_seq_expected u) seq) as [Hlt|Hge]; [|destruct (Z.eqb_spec seq (ub_seq_expected u)) as [->|Hne]].
  - rewrite (long_of_ok (seq - _)) by lia. step. rewrite long_of_ok by lia. step. rewrite long_of_ok by lia. step.
    eexists. split; [done|]. rewrite <- Et. split; [apply Hgo; intros _; lia|done].
  - rewrite long_of_ok by lia. step. eexists. split; [done|]. rewrite <- Et. split; [apply Hgo; intros _; lia|done].
  - eexists. split; [done|]. rewrite <- Et. split; [apply (Hgo (ub_seq_expected u) (ub_lost_pkts u)); intros _; lia|done].
Qed.

Lemma udp_drain_ok a fd fuel : ∀ u w, udp_ok a u w → (n_backlog w < fuel)%nat → n_now w + Z.of_nat fuel * n_slow < 2 ^ 63 →
  ∃ u' w', udp_drain fuel a fd u w = Ok (u', w') ∧ udp_ok a u' w' ∧ n_now w < n_now w' ≤ n_now w + Z.of_nat fuel * n_slow ∧
    ub_seq_send u' = ub_seq_send u.
Proof.
  induction fuel as [|fuel IH]; intros u w Hu Hf Hmax; [lia|]. cbn [udp_drain].
  destruct (n_recv fd 65536 w) as [[r d] w1] eqn:E. pose proof E as (Ht & Hr & Hd & _ & Hs)%nl_recv; [|lia].
  apply el_recv in E as [Hslow Hecho1]. assert (n_now w1 < 2 ^ 63) by nia. rewrite i32_int by lia.
  destruct (Z.ltb_spec r UDP_HDR) as [Hlt|Hge].
  { eexists _, _. split; [done|]. split; [|split; [nia|done]]. apply (udp_ok_later a u w); [done|lia|by rewrite Hs]. }
  unfold UDP_HDR in Hge. destruct Hecho1 as [Hd' Hb]; [lia|].
  destruct (udp_packet_ok a u w w1 d Hu Hd' ltac:(lia) ltac:(by rewrite Hs)) as (u1 & E & Hu1 & Hq).
  destruct (udp_record d (n_now w1) u) as [u0|]; [|done]. cbn [mbind result_bind] in *. rewrite E. step.
  destruct (IH u1 w1 Hu1 ltac:(lia) ltac:(lia)) as (u2 & w2 & -> & Hu2 & Ht2 & Hq2). eexists _, _. split; [done|]. split; [done|]. split; [lia|congruence].
Qed.
End udp.

(** What the figures of a UDP benchmark mean: the datagrams counted as sent are
    distinct and carry their number and the time they were sent, every datagram
    counted as received is one of them, and the latency recorded for it is the
    time from its sending to its receipt. *)
Definition udp_figures (size : Z) (u : UdpBench) : Prop :=
  ub_sent_pkts u = Z.of_nat (length (ub_sent u)) ∧ ub_recv_pkts u = Z.of_nat (length (ub_received u)) ∧
  NoDup (ub_sent u).*1 ∧ (∀ d t, (d, t) ∈ ub_sent u → ∃ seq, d = dgram size seq t) ∧
  Forall2 (fun '(d, t) l => ∃ t0, (d, t0) ∈ ub_sent u ∧ l = t - t0 ∧ 0 ≤ l) (ub_received u) (ub_latency_ns u) ∧
  (NoDup (ub_received u).*1 → ub_recv_pkts u ≤ ub_sent_pkts u).

(** The loss accounting: the numbers that are missing below the next one
    expected, if the answers come in order. *)
Definition udp_losses (u : UdpBench) : Prop :=
  let seqs := dgram_seq <$> (ub_received u).*1 in
  ub_seq_expected u = next_expected 0 seqs ∧ ub_lost_pkts u = ub_seq_expected u - records 0 seqs ∧
  (Sorted Z.lt seqs → ub_lost_pkts u = ub_seq_expected u - ub_recv_pkts u).

Section udp_loops.
Context {W : Type} `{Hecho : EchoLaws W}.
Implicit Types (u : UdpBench) (w : W).

(** The longest a round takes: a send, and receiving. *)
Definition round_time : Z := Z.of_nat (n_room + 2) * n_slow.

Lemma slow_nonneg w : 0 ≤ n_slow.
Proof. destruct (n_socket w) as [fd w'] eqn:E. pose proof (el_socket _ _ _ E). apply nl_socket in E. lia. Qed.

(** The receive loop of a round, after at most one other call. *)
Lemma round_drain_ok size win B a fd u w t : 0 ≤ B < 2 ^ 63 → udp_ok size win B a u w → n_now w ≤ t + n_slow → t + round_time < 2 ^ 63 →
  ∃ u' w', udp_drain (S (n_backlog w)) a fd u w = Ok (u', w') ∧ udp_ok size win B a u' w' ∧ n_now w < n_now w' ≤ t + round_time ∧
    ub_seq_send u' = ub_seq_send u.
Proof.
  intros HB Hu Ht Hmax. pose proof (el_room w) as Hroom. pose proof (slow_nonneg w) as Hslow. unfold round_time in *.
  assert (Z.of_nat (S (n_backlog w)) * n_slow ≤ Z.of_nat (n_room + 1) * n_slow) by (apply Z.mul_le_mono_nonneg_r; lia).
  destruct (udp_drain_ok size win B HB a fd (S (n_backlog w)) u w Hu ltac:(lia) ltac:(nia)) as (u' & w' & E & Hu' & Ht' & Hq).
  exists u', w'. split; [done|]. split; [done|]. split; [nia|done].
Qed.

Lemma udp_ok_new size win B a w : UDP_HDR ≤ size → 0 ≤ win → 0 ≤ B → n_sent w = [] → n_now w < 2 ^ 63 → udp_ok size win B a (udp_new size win) w.
Proof.
  unfold UDP_HDR. intros Hs Hwin HB Hw Hnow. split; cbn; try done; try lia.
  - rewrite length_replicate. lia.
  - rewrite drop_replicate. f_equal. lia.
  - rewrite length_replicate. lia.
  - by intros d t ?%not_elem_of_nil.
  - constructor.
  - by rewrite Hw.
  - by intros d t ?%not_elem_of_nil.
Qed.

Lemma udp_ok_figures size win B a u w : 0 ≤ B < 2 ^ 63 → udp_ok size win B a u w → udp_figures size u ∧ (a = true → udp_losses u).
Proof.
  intros HB Hu. split.
  - pose proof (fun d Hd => sent_dgram size win B HB a u w d Hu Hd) as Hsent. destruct Hu. split; [done|]. split; [done|]. split; [done|]. split.
    { intros d t Hd. destruct (uo_sent0 d t Hd) as (seq & -> & _). by exists seq. }
    split.
    + rewrite uo_latency0. apply Forall2_fmap_r, Forall_Forall2_diag. apply Forall_forall. intros [d t] Hd.
      destruct (uo_received0 d t Hd) as (Hin & _ & Hle). destruct (Hsent d Hin) as (seq & t0 & Hd0 & _ & _ & _ & _ & E). exists t0. rewrite E in *. split; [done|]. split; [done|lia].
    + intros Hnd. rewrite uo_recv_pkts0, uo_sent_pkts0. apply inj_le. rewrite <- (length_fmap fst (ub_received u)), <- (length_fmap fst (ub_sent u)).
      apply submseteq_length, NoDup_submseteq; [done|]. intros d ([d' t] & -> & Hd)%list_elem_of_fmap_1. by apply (uo_received0 d' t).
  - intros Ha. pose proof (uo_expected Hu Ha) as [He _]. pose proof (uo_lost Hu Ha) as [Hl _]. split; [done|]. split; [lia|].
    intros Hs. rewrite (uo_recv_pkts Hu). rewrite records_sorted in Hl; [rewrite !length_fmap in Hl; lia|]. constructor; [done|].
    destruct (ub_received u) as [|[d t] l] eqn:E; cbn; [constructor|]. constructor.
    assert (d ∈ (ub_sent u).*1) as Hin by (apply (uo_received Hu (d := d) (t := t)); rewrite E; by left).
    destruct (sent_dgram size win B HB a u w d Hu Hin) as (seq & t0 & _ & _ & Hq & _ & -> & _). lia.
Qed.

Section bench.
Context (size fd interval t0 deadline : Z) (Hsize : UDP_HDR ≤ size).
Let B : Z := Z.max 0 (deadline - t0) + 1.
Let over : Z := Z.max deadline t0 + round_time.
Context (HB : B < 2 ^ 63) (Hmax : over + 500000000 + round_time < 2 ^ 63).

Definition bench_inv (st : Z * option Z * UdpBench * W) : Prop :=
  let '(_, drain, u, w) := st in
  udp_ok size 8192 B true u w ∧ t0 ≤ n_now w ∧ ub_seq_send u ≤ n_now w - t0 ∧
  match drain with Some d => deadline ≤ n_now w ∧ d ≤ over + 500000000 | None => n_now w ≤ over end.
Definition bench_left (st : Z * option Z * UdpBench * W) : Z :=
  let '(_, drain, _, w) := st in
  Z.max 0 (deadline - n_now w) + match drain with None => 500000002 | Some d => Z.max 0 (d - n_now w) end.

(** Sending, when it is time. *)
Lemma bench_send_ok next u w : udp_ok size 8192 B true u w → t0 ≤ n_now w → ub_seq_send u ≤ n_now w - t0 → n_now w + n_slow < 2 ^ 63 →
  ∃ next' u' w', (if (n_now w <? deadline) && (next <=? n_now w) then
      '(u, w) ← udp_send fd 8192 u w; Ok (if 0 <? interval then next + interval else n_now w, u, w) else Ok (next, u, w)) = Ok (next', u', w') ∧
    udp_ok size 8192 B true u' w' ∧ n_now w ≤ n_now w' ≤ n_now w + n_slow ∧ ub_seq_send u' ≤ n_now w - t0 + 1 ∧
    (deadline ≤ n_now w → n_now w' = n_now w).
Proof.
  intros Hu Ht Hq Hck. pose proof (slow_nonneg w). case_test; [|eexists _, _, _; split; [done|]; split; [done|]; lia].
  destruct (udp_send_ok size 8192 B Hsize ltac:(auto) ltac:(lia) true fd u w Hu ltac:(lia) Hck) as (u1 & w1 & -> & Hu1 & Ht1 & Hq1).
  step. eexists _, _, _. split; [done|]. split; [done|]. lia.
Qed.

Lemma udp_bench_round_ok st : bench_inv st →
  ∃ x, udp_bench_round fd interval deadline st = Ok x ∧
    match x with inl st' => bench_inv st' ∧ 0 ≤ bench_left st' < bench_left st | inr (u, w) => udp_ok size 8192 B true u w end.
Proof.
  destruct st as [[[next drain] u] w]. intros (Hu & Ht0 & Hq & Hdr). unfold udp_bench_round.
  destruct ((n_now w <? deadline) || _) eqn:Eon; [|by eexists].
  assert (Hon : n_now w ≤ over + 500000000).
  { destruct drain as [d|]; [|lia]. destruct Hdr as [Hd1 Hd2]. rewrite (proj2 (Z.ltb_ge _ _)) in Eon by lia. cbn [orb] in Eon. bools. lia. }
  assert (0 ≤ B < 2 ^ 63) as HB0 by (unfold B in *; lia).
  pose proof (slow_nonneg w) as Hslow. assert (n_slow ≤ round_time) by (unfold round_time; nia).
  destruct (bench_send_ok next u w Hu Ht0 Hq ltac:(lia)) as (next' & u1 & w1 & -> & Hu1 & Ht1 & Hq1 & Hsame). step.
  assert (n_now w + round_time < 2 ^ 63) as Hck by lia.
  destruct (round_drain_ok size 8192 B true fd u1 w1 (n_now w) HB0 Hu1 (proj2 Ht1) Hck) as (u2 & w2 & -> & Hu2 & Ht2 & Hq2).
  step. eexists. split; [done|]. destruct drain as [d|]; cbn [bench_inv bench_left].
  - destruct Hdr as [Hd1 Hd2]. rewrite (proj2 (Z.ltb_ge _ _)) in Eon by lia. cbn [orb] in Eon. bools. split; [|lia].
    split; [done|]. lia.
  - destruct (Z.leb_spec deadline (n_now w1)).
    + split; [|lia]. split; [done|]. split; [lia|]. split; [lia|]. split; [lia|].
      destruct (Z.leb_spec deadline (n_now w)); [rewrite Hsame by done|]; unfold over in *; lia.
    + split; [|lia]. split; [done|]. unfold over in *. lia.
Qed.
End bench.

Lemma run_udp_bench_ok addr port size duration rate w : is_int duration →
  n_now w + 2 * n_slow + 2 ^ 31 * 1000000000 + 500000000 + 2 * round_time < 2 ^ 63 →
  ∃ r w', run_udp_bench addr port size duration rate w = Ok (r, w') ∧ ∀ u, r = Some u → udp_figures (Z.max UDP_HDR size) u ∧ udp_losses u.
Proof.
  intros Hd Hmax. unfold is_int in Hd. unfold run_udp_bench. destruct (n_socket w) as [fd w1] eqn:E.
  pose proof (el_socket _ _ _ E) as Ht1. apply nl_socket in E as [_ Hw1].
  destruct (Z.ltb_spec fd 0) as [|Hfd]; [by eexists _, _|]. destruct (Hw1 Hfd) as [_ Hs1].
  destruct (n_connect _ _ _ w1) as [r w2] eqn:E. pose proof (el_connect _ _ _ _ _ _ E) as Ht2. apply nl_connect in E as (_ & _ & Hs2). rewrite Hs1 in Hs2.
  replace (if size <? UDP_HDR then UDP_HDR else size) with (Z.max UDP_HDR size) by (destruct (Z.ltb_spec size UDP_HDR); lia).
  set (sz := Z.max UDP_HDR size). set (interval := if 0 <? rate then _ else 0). set (deadline := n_now w2 + _).
  pose proof (slow_nonneg w) as Hslow. assert (0 ≤ round_time) as Hrt by (unfold round_time; nia).
  assert (UDP_HDR ≤ sz) as Hsz by (unfold sz; lia).
  assert (0 ≤ Z.max 0 (deadline - n_now w2) + 1 < 2 ^ 63) as HB by (unfold deadline; lia).
  assert (Z.max deadline (n_now w2) + round_time + 500000000 + round_time < 2 ^ 63) as Hend by (unfold deadline; lia).
  destruct (run_loop_ok (udp_bench_round fd interval deadline) (bench_inv sz (n_now w2) deadline)
    (fun '(u, w) => udp_ok sz 8192 (Z.max 0 (deadline - n_now w2) + 1) true u w) (bench_left deadline)
    (fun st => udp_bench_round_ok sz fd interval (n_now w2) deadline Hsz (proj2 HB) Hend st)
    (udp_bench_bound duration) (n_now w2, None, udp_new sz 8192, w2)) as ([u w3] & -> & Hu).
  - split; [apply udp_ok_new; [lia|lia|lia|done|lia]|]. split; [done|]. cbn [udp_new ub_seq_send]. lia.
  - cbn [bench_left]. unfold udp_bench_bound, deadline. rewrite Z2Pos.id by lia. lia.
  - step. eexists _, _. split; [done|]. intros ? [= <-].
    destruct (udp_ok_figures sz 8192 _ true u w3 HB Hu) as [Hf Hl]. by split; [|apply Hl].
Qed.

Section worker.
Context (size fd t0 : Z) (n : nat) (Hsize : UDP_HDR ≤ size) (Hn : Z.of_nat n < 2 ^ 63).
Context (Hmax : t0 + Z.of_nat n * round_time + 500000000 + round_time < 2 ^ 63).

(** [k] datagrams are still to be sent. *)
Definition worker_inv (st : nat * option Z * UdpBench * W) : Prop :=
  let '(k, drain, u, w) := st in
  udp_ok size 4096 (Z.of_nat n) false u w ∧ ub_seq_send u = Z.of_nat n - Z.of_nat k ∧ (k ≤ n)%nat ∧
  match drain with
  | Some d => k = 0%nat ∧ n_now w < d ≤ t0 + Z.of_nat n * round_time + 500000000
  | None => n_now w ≤ t0 + (Z.of_nat n - Z.of_nat k) * round_time
  end.
Definition worker_left (st : nat * option Z * UdpBench * W) : Z :=
  let '(k, drain, _, w) := st in Z.of_nat k + match drain with None => 500000002 | Some d => Z.max 0 (d - n_now w) end.

(** Receiving, and the end of a round. *)
Lemma worker_drain_ok (drain : option Z) k u w t :
  udp_ok size 4096 (Z.of_nat n) false u w → n_now w ≤ t + n_slow → t + round_time < 2 ^ 63 →
  ∃ u' w', udp_ok size 4096 (Z.of_nat n) false u' w' ∧ n_now w < n_now w' ≤ t + round_time ∧ ub_seq_send u' = ub_seq_send u ∧
    ('(u, w) ← udp_drain (S (n_backlog w)) false fd u w;
     if match drain with Some d => d <=? n_now w | None => false end then Ok (inr (u, w)) else Ok (inl (k, drain, u, w))) =
    Ok (if match drain with Some d => d <=? n_now w' | None => false end then inr (u', w') else inl (k : nat, drain, u', w')).
Proof.
  intros Hu Ht Hck. destruct (round_drain_ok size 4096 (Z.of_nat n) false fd u w t ltac:(lia) Hu Ht Hck) as (u' & w' & -> & Hu' & Ht' & Hq).
  exists u', w'. split; [done|]. split; [done|]. split; [done|]. step. by destruct (match drain with Some d => d <=? n_now w' | None => false end).
Qed.

Lemma udp_worker_round_ok st : worker_inv st →
  ∃ x, udp_worker_round fd st = Ok x ∧
    match x with inl st' => worker_inv st' ∧ 0 ≤ worker_left st' < worker_left st | inr (u, w) => udp_ok size 4096 (Z.of_nat n) false u w end.
Proof.
  destruct st as [[[k drain] u] w]. intros (Hu & Hq & Hk & Hdr). unfold udp_worker_round.
  pose proof (slow_nonneg w) as Hslow. assert (n_slow ≤ round_time) as Hrt by (unfold round_time; nia). destruct k as [|k]; step.
  - set (d := match drain with None => n_now w + 500000000 | Some d => d end).
    assert (match drain with None => Some (n_now w + 500000000) | d => d end = Some d) as -> by by destruct drain.
    assert (n_now w < d ≤ t0 + Z.of_nat n * round_time + 500000000) as Hd by (destruct drain; unfold d; lia).
    assert (d - n_now w < worker_left (0%nat, drain, u, w) + 1) as Hleft by (destruct drain; unfold d; cbn; lia).
    assert (n_now w ≤ n_now w + n_slow) as H1 by lia. assert (n_now w + round_time < 2 ^ 63) as H2 by lia.
    destruct (worker_drain_ok (Some d) 0 u w (n_now w) Hu H1 H2) as (u1 & w1 & Hu1 & Ht1 & Hq1 & ->). eexists. split; [done|].
    destruct (Z.leb_spec d (n_now w1)); [done|]. split; [split; [done|]; split; [lia|]; split; [lia|]; split; [done|lia]|]. cbn [worker_left] in *. lia.
  - destruct drain as [d|]; [lia|].
    assert (n_now w + round_time < 2 ^ 63) as H1 by nia. assert (n_now w + n_slow < 2 ^ 63) as H2 by lia.
    destruct (udp_send_ok size 4096 (Z.of_nat n) Hsize ltac:(auto) ltac:(lia) false fd u w Hu ltac:(lia) H2) as (u1 & w1 & -> & Hu1 & Ht1 & Hq1). step.
    destruct (worker_drain_ok None k u1 w1 (n_now w) Hu1 (proj2 Ht1) H1) as (u2 & w2 & Hu2 & Ht2 & Hq2 & ->). eexists. split; [done|].
    split; [split; [done|]; split; [lia|]; split; [lia|nia]|]. cbn [worker_left]. lia.
Qed.
End worker.

Lemma udp_worker_fn_ok addr port size k w : Z.of_nat k < 2 ^ 63 →
  n_now w + 2 * n_slow + Z.of_nat k * round_time + 500000000 + round_time < 2 ^ 63 →
  ∃ r w', udp_worker_fn addr port size k w = Ok (r, w') ∧ ∀ u, r = Some u → udp_figures (Z.max UDP_HDR size) u.
Proof.
  intros Hk Hmax. unfold udp_worker_fn. destruct (n_socket w) as [fd w1] eqn:E. pose proof (el_socket _ _ _ E) as Ht1. apply nl_socket in E as [_ Hw1].
  destruct (Z.ltb_spec fd 0) as [|Hfd]; [by eexists _, _|]. destruct (Hw1 Hfd) as [_ Hs1].
  destruct (n_connect _ _ _ w1) as [r w2] eqn:E. pose proof (el_connect _ _ _ _ _ _ E) as Ht2. apply nl_connect in E as (_ & _ & Hs2). rewrite Hs1 in Hs2.
  case_test; [by eexists _, _|].
  replace (if size <? UDP_HDR then UDP_HDR else size) with (Z.max UDP_HDR size) by (destruct (Z.ltb_spec size UDP_HDR); lia).
  set (sz := Z.max UDP_HDR size). assert (UDP_HDR ≤ sz) as Hsz by (unfold sz; lia). assert (0 ≤ Z.of_nat k < 2 ^ 63) as HB by lia.
  pose proof (slow_nonneg w) as Hslow. assert (0 ≤ Z.of_nat k * round_time ∧ 0 ≤ round_time) as Hrt by (unfold round_time; nia).
  assert (n_now w2 + Z.of_nat k * round_time + 500000000 + round_time < 2 ^ 63) as Hend by lia.
  destruct (run_loop_ok (udp_worker_round fd) (worker_inv sz (n_now w2) k) (fun '(u, w) => udp_ok sz 4096 (Z.of_nat k) false u w) worker_left
    (fun st => udp_worker_round_ok sz fd (n_now w2) k Hsz Hk Hend st) (Z.to_pos (Z.of_nat k + 500000003)) (k, None, udp_new sz 4096, w2)) as ([u w3] & -> & Hu).
  - split; [apply udp_ok_new; [lia|lia|lia|done|lia]|]. split; [cbn [udp_new ub_seq_send]; lia|]. split; [done|lia].
  - cbn [worker_left]. rewrite Z2Pos.id by lia. lia.
  - step. eexists _, _. split; [done|]. intros ? [= <-]. by destruct (udp_ok_figures sz 4096 _ false u w3 HB Hu).
Qed.

(** The totals of the workers. *)
Lemma udp_totals_app us : ∀ s r l, foldl (fun '(s, r, l) u => (s + ub_sent_pkts u, r + ub_recv_pkts u, l ++ ub_latency_ns u)) (s, r, l) us =
  let '(s', r', l') := udp_totals us in (s + s', r + r', l ++ l').
Proof.
  unfold udp_totals. induction us as [|u us IH]; intros s r l; cbn [foldl]; [by rewrite !Z.add_0_r, app_nil_r|].
  rewrite IH, (IH (0 + _)). destruct (foldl _ (0, 0, []) us) as [[s' r'] l']. cbn [Datatypes.app]. rewrite <- app_assoc. by rewrite !Z.add_0_l, !Z.add_assoc.
Qed.

Lemma udp_figures_latency size u : udp_figures size u → Z.of_nat (length (ub_latency_ns u)) = ub_recv_pkts u ∧ Forall (fun l => 0 ≤ l) (ub_latency_ns u).
Proof.
  intros (_ & Hr & _ & _ & Hl & _). split; [rewrite Hr; apply Forall2_length in Hl; lia|].
  eapply Forall2_Forall_r; [exact Hl|]. apply Forall_true. intros [d t] y (t0 & _ & _ & ?). done.
Qed.

Lemma run_udp_scaling_ok o (ws : list (nat * W)) :
  Forall (fun '(k, w) => Z.of_nat k < 2 ^ 63 ∧ n_now w + 2 * n_slow + Z.of_nat k * round_time + 500000000 + round_time < 2 ^ 63) ws →
  ∃ sent recv lat, run_udp_scaling o ws = Ok (sent, recv, lat) ∧ Z.of_nat (length lat) = recv ∧ Forall (fun l => 0 ≤ l) lat.
Proof.
  intros Hws. unfold run_udp_scaling. set (size := if bo_udp_size o <? UDP_HDR then UDP_HDR else bo_udp_size o).
  assert (∃ us, udp_workers (bo_addr o) (bo_udp_port o) size ws = Ok us ∧ Forall (udp_figures (Z.max UDP_HDR size)) us) as (us & -> & Hus).
  { induction Hws as [|[k w] ws [Hk Hend] _ IH]; cbn [udp_workers]; [by exists []|].
    destruct (udp_worker_fn_ok (bo_addr o) (bo_udp_port o) size k w Hk Hend) as (r & w' & -> & Hr). step. destruct IH as (us & -> & Hus). step.
    destruct r as [u|]; eexists; (split; [done|]); [|done]. constructor; [by apply Hr|done]. }
  step. induction Hus as [|u us Hu Hus (s & r & l & [= E] & Hl & Hf)]; [by exists 0, 0, []|].
  unfold udp_totals. cbn [foldl]. rewrite udp_totals_app, E. eexists _, _, _. split; [done|].
  destruct (udp_figures_latency _ u Hu). rewrite length_app, Forall_app. split; [cbn [Datatypes.app length]; lia|]. by split.
Qed.

(** C23. The UDP benchmark ends for every command line it accepts, whatever the
    sockets do, if the other side is an echo server and the clock (of 292 years)
    does not run out: no number
    overflows, the window of send times is not left, and the drain phase stops it
    half a second after the duration.  Its figures are true: the datagrams it
    counts as sent are distinct and carry their number and the time they were
    sent, every datagram it counts as received is one of them, and the latency
    it records is the time from its sending to its receipt.  Without duplicates it
    does not count more datagrams received than sent, and if the answers come in
    order the loss it counts is the number of missing sequence numbers. *)
Theorem bench_udp_true_rtt argv o w :
  parse_bench argv bench_defaults = Ok (Some o) →
  n_now w + 2 * n_slow + 2 ^ 31 * 1000000000 + 500000000 + 2 * round_time < 2 ^ 63 →
  ∃ r w', run_udp_bench (bo_addr o) (bo_udp_port o) (bo_udp_size o) (bo_duration o) (bo_udp_rate o) w = Ok (r, w') ∧
    ∀ u, r = Some u → udp_figures (Z.max UDP_HDR (bo_udp_size o)) u ∧ udp_losses u.
Proof.
  intros Ho Hend. apply run_udp_bench_ok; [|done]. eapply parse_bench_ok in Ho as (_ & _ & _ & _ & _ & Hd & _); [exact Hd|done|by repeat split].
Qed.
End udp_loops.


(** ** An echo server as the world

    Receiving takes ten milliseconds; what was sent comes back, except for the
    third message. *)
Record LoopNet := mkLoopNet { ln_now : Z; ln_wire : list byte * list byte; ln_queue : list (list byte); ln_past : list (list byte) }.
Definition ln_clock (w : LoopNet) : Z := Z.max 1 (ln_now w).

#[export] Instance LoopNet_Net : Net LoopNet := {
  n_socket w := (3, mkLoopNet (ln_clock w) ([], []) [] []);
  n_connect fd a p w := (0, w);
  n_send fd d w :=
    (Z.of_nat (length d), mkLoopNet (ln_clock w) ((ln_wire w).1 ++ d, (ln_wire w).2)
      (if decide (length (ln_past w) = 2%nat) then ln_queue w else ln_queue w ++ [d]) (if decide (d = []) then ln_past w else d :: ln_past w));
  n_recv fd k w :=
    match ln_queue w with
    | d :: q =>
        if decide (d ∈ ln_past w ∧ Z.of_nat (length d) ≤ k ∧ (length q < 8)%nat) then
          (Z.of_nat (length d), d, mkLoopNet (ln_clock w + 10000000) ((ln_wire w).1, (ln_wire w).2 ++ d) q (ln_past w))
        else (-1, [], mkLoopNet (ln_clock w + 10000000) (ln_wire w) (ln_queue w) (ln_past w))
    | [] => (-1, [], mkLoopNet (ln_clock w + 10000000) (ln_wire w) (ln_queue w) (ln_past w))
    end;
  n_send_returns fd d w := true;
  n_recv_returns fd k w := true;
  n_close fd w := w;
  n_now := ln_clock;
  n_backlog w := Nat.min 8 (length (ln_queue w))
}.

#[export] Instance LoopNet_Laws : NetLaws LoopNet.
Proof.
  refine {| n_wire := ln_wire; n_sent := ln_past |}; cbn; unfold ln_clock; cbn.
  - intros w. lia.
  - intros w fd w' [= <- <-]. cbn. by split; [lia|].
  - by intros fd a p w r w' [= <- <-].
  - intros fd d w r w' [= <- <-]. cbn. split; [lia|]. split; [lia|]. rewrite Nat2Z.id, firstn_all. split; [done|].
    case_decide as Hd; [by rewrite Hd|]. destruct d; [done|]. by rewrite (proj2 (Z.ltb_lt _ _)) by (cbn; lia).
  - intros fd k w r d w' E Hk. assert (0 < 10000000) by lia. destruct (ln_queue w) as [|x q]; [|case_decide as Hx]; injection E as <- <- <-; cbn.
    + rewrite app_nil_r. split; [lia|]. split; [lia|]. split; [done|]. by destruct (ln_wire w).
    + split; [lia|]. split; [lia|]. split; [lia|]. done.
    + rewrite app_nil_r. split; [lia|]. split; [lia|]. split; [done|]. by destruct (ln_wire w).
  - done.
Defined.

#[export] Instance LoopNet_Echo : EchoLaws LoopNet.
Proof.
  refine {| n_slow := 10000000; n_room := 8%nat |}; cbn -[Nat.min]; unfold ln_clock; cbn -[Nat.min].
  - intros w. lia.
  - intros w fd w' [= <- <-]. cbn. lia.
  - intros fd a p w r w' [= <- <-]. lia.
  - intros fd d w r w' [= <- <-]. cbn. lia.
  - intros fd k w r d w' E. destruct (ln_queue w) as [|x q] eqn:Eq; [|case_decide as Hx]; injection E as <- <- <-; cbn [ln_now]; (split; [lia|]); try lia.
    intros _. cbn [ln_queue length]. split; [tauto|]. lia.
Defined.

Lemma bench_tcp_counts_witness :
  let o := mkBenchOptions "127.0.0.1" 8080 8081 2 16 64 5 200000 0 true true true true true in
  let w := mkLoopNet 1 ([], []) [] [] in
  ∃ t rs, run_tcp_bench o [(2%nat, w); (4%nat, w)] = Ok (t, rs) ∧ tr_ops t = 4 ∧ tr_bytes t = 128 ∧ length (tr_latency_ns t) = 4%nat.
Proof.
  intros o w. assert (match run_tcp_bench o [(2%nat, w); (4%nat, w)] with Ok (t, _) => tr_ops t | _ => 0 end = 4) as E4 by (vm_compute; reflexivity).
  destruct (bench_tcp_counts o [(2%nat, w); (4%nat, w)]) as [[E _]|(t & rs & E & _ & Hb & Hl & _)]; [cbn; lia|by rewrite E in E4|]. rewrite E in E4.
  exists t, rs. split; [exact E|]. split; [exact E4|]. rewrite E4 in Hb, Hl. split; [exact Hb|]. lia.
Defined.

Lemma bench_udp_true_rtt_witness :
  let argv := ["--udp-size"; "32"; "--duration"; "1"; "--udp-rate"; "20"]%string in
  let w := mkLoopNet 1 ([], []) [] [] in
  ∃ o u w', parse_bench argv bench_defaults = Ok (Some o) ∧
    run_udp_bench (bo_addr o) (bo_udp_port o) (bo_udp_size o) (bo_duration o) (bo_udp_rate o) w = Ok (Some u, w') ∧
    ub_sent_pkts u = 20 ∧ ub_recv_pkts u = 19 ∧ ub_lost_pkts u = 1 ∧ udp_figures 32 u ∧ udp_losses u.
Proof.
  intros argv w. set (o := mkBenchOptions "127.0.0.1" 8080 8081 100 64 32 1 20 0 true true true true true).
  assert (parse_bench argv bench_defaults = Ok (Some o)) as Hp by (vm_compute; reflexivity).
  assert (match run_udp_bench (bo_addr o) (bo_udp_port o) (bo_udp_size o) (bo_duration o) (bo_udp_rate o) w with
          | Ok (Some u, _) => Some (ub_sent_pkts u, ub_recv_pkts u, ub_lost_pkts u) | _ => None end = Some (20, 19, 1)) as Hc by (vm_compute; reflexivity).
  assert (n_now w + 2 * n_slow + 2 ^ 31 * 1000000000 + 500000000 + 2 * round_time < 2 ^ 63) as Hend by (vm_compute; reflexivity).
  destruct (bench_udp_true_rtt argv o w Hp Hend) as (r & w' & E & Hr). rewrite E in Hc. destruct r as [u|]; [|discriminate Hc].
  destruct (Hr u eq_refl) as [Hf Hl]. injection Hc as H1 H2 H3. exists o, u, w'. auto 8.
Defined.
